(** * Constraint pool and cycle check of the branch-and-cut core

    A shallow embedding of [constrnt.c] and [cycle_check.c].

    Conventions of the embedding.

    - A C [int] is a [Z]; where the C code can leave the 32-bit range
      (negation, the hash register) the wrap-around is written out with
      [wrap32].
    - A C [double] is an IEEE 754 binary64 number, Rocq's primitive
      [float]: every sum, difference and product is rounded to the nearest
      double (ties to even), as the code is when each operation is done in
      double precision and no multiplication is fused with an addition; the
      comparisons are those of IEEE 754, false on a NaN.
    - A C array is a list, read and written by index; an access outside the
      array has no defined result ([Undef]).
    - [FATAL_ERROR] and [FATAL_ERROR_IF] end the run ([Fatal]).
    - A row header ([struct rcon]) carries its coefficient row by value; the
      coefficient arena ([struct rblk]) only decides where those bytes live
      and is not part of the embedding. *)

From Stdlib Require Import ZArith QArith Qabs Lia Lqa Bool Floats.
From stdpp Require Import base tactics option list numbers.

#[local] Open Scope Z_scope.

(** ** Outcomes of a run *)

Inductive outcome (A : Type) : Type :=
| Ok (a : A)
| Fatal
| Undef.
Arguments Ok {A} a.
Arguments Fatal {A}.
Arguments Undef {A}.

Definition bind {A B : Type} (m : outcome A) (f : A -> outcome B) : outcome B :=
  match m with Ok a => f a | Fatal => Fatal | Undef => Undef end.

Notation "'let!' x ':=' m 'in' k" := (bind m (fun x => k))
  (at level 10, x pattern, m at level 100, k at level 200).

(** [FATAL_ERROR_IF (c)] *)
Definition fatal_if (c : bool) : outcome unit := if c then Fatal else Ok tt.

(** Array read [a[i]] and write [a[i] = v] with a C [int] index. *)
Definition aget {A} (a : list A) (i : Z) : outcome A :=
  if i <? 0 then Undef
  else match a !! Z.to_nat i with Some v => Ok v | None => Undef end.

Definition aset {A} (a : list A) (i : Z) (v : A) : outcome (list A) :=
  if (0 <=? i) && (i <? Z.of_nat (length a)) then Ok (<[Z.to_nat i := v]> a)
  else Undef.

(** ** Machine integers *)

Definition INT_MAX : Z := 2147483647.
Definition INT_MIN : Z := -2147483648.

Definition wrap32 (z : Z) : Z := (z + 2147483648) mod 4294967296 - 2147483648.

Definition int_range (z : Z) : Prop := INT_MIN <= z <= INT_MAX.

(** ** Rows

    Modelled from the spec: the header [constrnt.h] is not part of the
    sources at hand.  A row is an array of [struct rcoef] pairs; an entry
    whose [var] is below [RC_VAR_BASE] ends the row and carries the operator
    (one of [RC_OP_LE], [RC_OP_EQ], [RC_OP_GE]) in [var] and the right-hand
    side in [val]. *)

Record rcoef : Type := mk_rcoef { var : Z; val : Z }.

Definition RC_OP_LE : Z := 0.
Definition RC_OP_EQ : Z := 1.
Definition RC_OP_GE : Z := 2.
Definition RC_VAR_BASE : Z := 3.

(** Modelled from the spec: the tolerance [FUZZ] is a constant of an absent
    header; it is the fixed numerical tolerance of every comparison, the
    double nearest to 0.000001. *)
Definition FUZZ : float := 0x1.0c6f7a0b5ed8dp-20.

(** Modelled from the spec: the "always discard" flag bit of a row header,
    a constant of the absent header [constrnt.h]. *)
Definition RCON_FLAG_DISCARD : Z := 1.

(** Modelled from the spec: the number of buckets of the pool's hash index,
    a constant of the absent header [constrnt.h]. *)
Definition CPOOL_HASH_SIZE : Z := 1009.

#[global] Instance rcoef_eq_dec : EqDecision rcoef.
Proof. solve_decision. Defined.

(** ** [reduce_constraint] *)

(** [if (k <= 0) { FATAL_ERROR_IF (k EQ 0); k = -k; }] *)
Definition positive_part (k : Z) : outcome Z :=
  if k <=? 0 then
    (if k =? 0 then Fatal else Ok (wrap32 (- k)))
  else Ok k.

(** [j = com_factor; while (j > 0) { rem = k % j; k = j; j = rem; }]
    The loop is run on a counter that bounds its length. *)
Fixpoint euclid (fuel : nat) (k j : Z) : outcome Z :=
  if 0 <? j then
    match fuel with
    | O => Undef
    | S fuel' => euclid fuel' j (Z.rem k j)
    end
  else Ok k.

(** The first loop of [reduce_constraint], from [p = rp + 1] on.  [None] is
    the early [return] taken when the common factor has fallen to one. *)
Fixpoint common_factor (com_factor : Z) (ps : list rcoef) : outcome (option Z) :=
  match ps with
  | [] => Undef
  | p :: ps' =>
      let! k := positive_part (val p) in
      let! g := euclid (S (Z.to_nat com_factor)) k com_factor in
      if g =? 1 then Ok None
      else if var p <? RC_VAR_BASE then Ok (Some g)
      else common_factor g ps'
  end.

(** The second loop: divide every entry up to and including the one that
    ends the row. *)
Fixpoint divide_row (com_factor : Z) (ps : list rcoef) : outcome (list rcoef) :=
  match ps with
  | [] => Undef
  | p :: ps' =>
      let! _ := fatal_if (negb (Z.rem (val p) com_factor =? 0)) in
      let p' := mk_rcoef (var p) (Z.quot (val p) com_factor) in
      if var p <? RC_VAR_BASE then Ok (p' :: ps')
      else (let! r := divide_row com_factor ps' in Ok (p' :: r))
  end.

Definition reduce_constraint (rp : list rcoef) : outcome (list rcoef) :=
  match rp with
  | [] => Undef
  | p0 :: ps =>
      let! com_factor := positive_part (val p0) in
      if com_factor =? 1 then Ok rp
      else
        let! g := common_factor com_factor ps in
        match g with
        | None => Ok rp
        | Some com_factor' => divide_row com_factor' rp
        end
  end.

(** ** Doubles *)

(** The conversion of a C [int] to a [double] where the code mixes the two
    ([cp -> val * x [...]], [cp -> val + FUZZ]); it is exact, a 32-bit
    integer being a double. *)
Definition of_int (z : Z) : float :=
  match z with
  | Z0 => 0
  | Zpos _ => of_uint63 (Uint63.of_Z z)
  | Zneg p => - of_uint63 (Uint63.of_Z (Zpos p))
  end.

(** ** [_gst_is_violation] and [compute_slack_value] *)

(** The common first loop of both routines, [sum += (cp -> val * x [var -
    RC_VAR_BASE])]: the sum of the products, each product and each partial
    sum rounded, and the entry that ends the row. *)
Fixpoint row_sum (cp : list rcoef) (x : list float) (sum : float)
  : outcome (float * rcoef) :=
  match cp with
  | [] => Undef
  | c :: cp' =>
      if var c <? RC_VAR_BASE then Ok (sum, c)
      else
        let! xv := aget x (var c - RC_VAR_BASE) in
        row_sum cp' x (sum + of_int (val c) * xv)%float
  end.

Definition _gst_is_violation (cp : list rcoef) (x : list float) : outcome bool :=
  let! (sum, e) := row_sum cp x 0%float in
  if var e =? RC_OP_LE then Ok (PrimFloat.ltb (of_int (val e) + FUZZ) sum)
  else if var e =? RC_OP_EQ then
    let sum' := (sum - of_int (val e))%float in
    Ok (PrimFloat.ltb sum' (- FUZZ) || PrimFloat.ltb FUZZ sum')
  else if var e =? RC_OP_GE then Ok (PrimFloat.ltb (sum + FUZZ) (of_int (val e)))
  else Fatal.

Definition compute_slack_value (cp : list rcoef) (x : list float) : outcome float :=
  let! (sum, e) := row_sum cp x 0%float in
  if var e =? RC_OP_LE then Ok (of_int (val e) - sum)%float
  else if var e =? RC_OP_EQ then
    let sum' := (sum - of_int (val e))%float in
    Ok (if PrimFloat.ltb 0 sum' then (- sum')%float else sum')
  else if var e =? RC_OP_GE then Ok (sum - of_int (val e))%float
  else Fatal.

(** ** The constraint pool *)

(** [struct rcon]: a row header.  [lprow] is the row's LP status: [-1] not
    in the LP, [-2] pending, [k >= 0] loaded as LP row [k]. *)
Record rcon : Type := mk_rcon {
  len : Z;
  coefs : list rcoef;
  next : Z;
  lprow : Z;
  biter : Z;
  hval : Z;
  flags : Z;
  uid : Z;
  refc : Z
}.

Definition set_lprow (k : Z) (r : rcon) : rcon :=
  mk_rcon (len r) (coefs r) (next r) k (biter r) (hval r) (flags r) (uid r) (refc r).
Definition set_biter (k : Z) (r : rcon) : rcon :=
  mk_rcon (len r) (coefs r) (next r) (lprow r) k (hval r) (flags r) (uid r) (refc r).
Definition set_refc (k : Z) (r : rcon) : rcon :=
  mk_rcon (len r) (coefs r) (next r) (lprow r) (biter r) (hval r) (flags r) (uid r) k.
Definition set_next (k : Z) (r : rcon) : rcon :=
  mk_rcon (len r) (coefs r) k (lprow r) (biter r) (hval r) (flags r) (uid r) (refc r).

(** [struct cpool].  [rows] holds the [nrows] headers in use; [lprows] is
    the whole array of [maxrows] entries, of which the first [nlprows] are
    the loaded rows and the next [npend] the pending ones. *)
Record cpool : Type := mk_cpool {
  pool_uid : Z;
  rows : list rcon;
  maxrows : Z;
  num_nz : Z;
  lprows : list Z;
  nlprows : Z;
  npend : Z;
  iter : Z;
  initrows : Z;
  hash : list Z;
  hwmrow : Z;
  hwmnz : Z
}.

Definition nrows (pool : cpool) : Z := Z.of_nat (length (rows pool)).

Definition set_rows (v : list rcon) (p : cpool) : cpool :=
  mk_cpool (pool_uid p) v (maxrows p) (num_nz p) (lprows p) (nlprows p) (npend p)
           (iter p) (initrows p) (hash p) (hwmrow p) (hwmnz p).
Definition set_lprows (v : list Z) (p : cpool) : cpool :=
  mk_cpool (pool_uid p) (rows p) (maxrows p) (num_nz p) v (nlprows p) (npend p)
           (iter p) (initrows p) (hash p) (hwmrow p) (hwmnz p).
Definition set_nlprows (v : Z) (p : cpool) : cpool :=
  mk_cpool (pool_uid p) (rows p) (maxrows p) (num_nz p) (lprows p) v (npend p)
           (iter p) (initrows p) (hash p) (hwmrow p) (hwmnz p).
Definition set_npend (v : Z) (p : cpool) : cpool :=
  mk_cpool (pool_uid p) (rows p) (maxrows p) (num_nz p) (lprows p) (nlprows p) v
           (iter p) (initrows p) (hash p) (hwmrow p) (hwmnz p).
Definition set_iter (v : Z) (p : cpool) : cpool :=
  mk_cpool (pool_uid p) (rows p) (maxrows p) (num_nz p) (lprows p) (nlprows p) (npend p)
           v (initrows p) (hash p) (hwmrow p) (hwmnz p).
Definition set_hwm (r nz : Z) (p : cpool) : cpool :=
  mk_cpool (pool_uid p) (rows p) (maxrows p) (num_nz p) (lprows p) (nlprows p) (npend p)
           (iter p) (initrows p) (hash p) r nz.

(** The pool as [_gst_initialize_constraint_pool] leaves it before the first
    row is added: no rows, every bucket empty. *)
Definition empty_pool (rowsize : Z) : cpool :=
  mk_cpool 0 [] rowsize 0 (replicate (Z.to_nat rowsize) 0) 0 0 0 0
           (replicate (Z.to_nat CPOOL_HASH_SIZE) (-1)) 0 0.

(** *** [_gst_mark_row_pending_to_LP] *)

Definition _gst_mark_row_pending_to_LP (pool : cpool) (row : Z) : outcome cpool :=
  let! _ := fatal_if ((row <? 0) || (row >=? nrows pool)) in
  let! rcp := aget (rows pool) row in
  if (lprow rcp >=? 0) || (lprow rcp =? -2) then Ok pool
  else
    let! _ := fatal_if (negb (lprow rcp =? -1)) in
    let! rows' := aset (rows pool) row (set_lprow (-2) rcp) in
    let i := nlprows pool + npend pool in
    let! lprows' := aset (lprows pool) i row in
    Ok (set_npend (npend pool + 1) (set_lprows lprows' (set_rows rows' pool))).

(** *** [_gst_add_constraint_to_pool] *)

(** The macro [_HASH (reg, value)] on a 32-bit register. *)
Definition _HASH (reg value : Z) : Z :=
  let reg := Z.lxor reg value in
  if reg <? 0 then wrap32 (Z.shiftl reg 1 + 1) else wrap32 (Z.shiftl reg 1).

(** "Compute hash value and length of LHS". *)
Fixpoint hash_row (ps : list rcoef) (hv ln : Z) : outcome (Z * Z) :=
  match ps with
  | [] => Undef
  | p :: ps' =>
      if var p <? RC_VAR_BASE then Ok (hv, ln)
      else hash_row ps' (_HASH (_HASH hv (var p)) (val p)) (ln + 1)
  end.

(** [memcmp (rcp -> coefs, rp, nbytes) EQ 0] over [len + 1] entries. *)
Definition same_coefs (ln : Z) (a b : list rcoef) : bool :=
  bool_decide (take (Z.to_nat (ln + 1)) a = take (Z.to_nat (ln + 1)) b).

(** The scan of one bucket chain, [for (row = *hookp; row >= 0;) ...].  The
    counter bounds the length of the chain that is followed. *)
Fixpoint scan_bucket (fuel : nat) (rs : list rcon) (row ln : Z) (rp : list rcoef)
  : outcome bool :=
  if row <? 0 then Ok false
  else
    match fuel with
    | O => Undef
    | S fuel' =>
        let! rcp := aget rs row in
        if (len rcp =? ln) && same_coefs ln (coefs rcp) rp then Ok true
        else scan_bucket fuel' rs (next rcp) ln rp
    end.

Definition bucket_of (hv : Z) : Z :=
  let h := Z.rem hv CPOOL_HASH_SIZE in
  if h <? 0 then h + CPOOL_HASH_SIZE else h.

(** The result is the pool, the caller's buffer [rp] (reduced in place) and
    the returned flag: [true] when the row was added. *)
Definition _gst_add_constraint_to_pool (pool : cpool) (rp : list rcoef) (add_to_lp : bool)
  : outcome (cpool * list rcoef * bool) :=
  let! rp := reduce_constraint rp in
  let! (hv, ln) := hash_row rp 0 0 in
  let hv := bucket_of hv in
  let! _ := fatal_if ((hv <? 0) || (hv >=? CPOOL_HASH_SIZE)) in
  let! head := aget (hash pool) hv in
  let! dup := scan_bucket (S (length (rows pool))) (rows pool) head ln rp in
  if dup then Ok (pool, rp, false)
  else
    let row := nrows pool in
    let grow := row >=? maxrows pool in
    let maxrows' := if grow then 2 * maxrows pool else maxrows pool in
    let lprows' :=
      if grow then take (Z.to_nat row) (lprows pool)
                   ++ replicate (Z.to_nat (maxrows' - row)) 0
      else lprows pool in
    if maxrows' <=? row then Undef
    else
      let rcp := mk_rcon ln (take (Z.to_nat (ln + 1)) rp) head (-1) (iter pool)
                         hv 0 (pool_uid pool) 0 in
      let! hash' := aset (hash pool) hv row in
      let pool' := mk_cpool (pool_uid pool + 1) (rows pool ++ [rcp]) maxrows'
                            (num_nz pool + ln) lprows' (nlprows pool) (npend pool)
                            (iter pool) (initrows pool) hash'
                            (hwmrow pool) (hwmnz pool) in
      let! pool'' := (if add_to_lp then _gst_mark_row_pending_to_LP pool' row else Ok pool') in
      Ok (pool'', rp, true).

(** ** Loops *)

(** [for (i = i0; ...; i++)] run [n] times. *)
Fixpoint for_loop {S : Type} (n : nat) (i : Z) (body : Z -> S -> outcome S) (s : S)
  : outcome S :=
  match n with
  | O => Ok s
  | S n' => let! s' := body i s in for_loop n' (i + 1) body s'
  end.

(** [for (i = a; i < b; i++)] *)
Definition for_range {S : Type} (a b : Z) (body : Z -> S -> outcome S) (s : S)
  : outcome S :=
  for_loop (Z.to_nat (b - a)) a body s.

(** ** The LP engine

    Modelled from the spec: the LP engine (lp_solve) is an external
    collaborator.  Its state, as far as the pool can observe it, is the list
    of constraint rows it holds (the objective row, row 0 of lp_solve, is
    kept apart and never listed), the count of non-zeros and the flag
    [basis_valid].  The basis itself is an opaque value. *)

Inductive rel : Type := REL_LE | REL_EQ | REL_GE.

Record lp_row : Type := mk_lp_row {
  lr_rhs : Z;
  lr_ctype : rel;
  lr_mat : list (Z * Z)
}.

Record LP_t : Type := mk_LP {
  lp_rowset : list lp_row;
  non_zeros : Z;
  basis_valid : bool;
  lp_basis : list Z * list Z
}.

(** [lp -> rows], also [GET_LP_NUM_ROWS (lp)]. *)
Definition lp_num_rows (lp : LP_t) : Z := Z.of_nat (length (lp_rowset lp)).

(** Modelled from the spec: [add_rows] appends a batch of rows. *)
Definition add_rows (lp : LP_t) (new : list lp_row) (ncoeff : Z) : LP_t :=
  mk_LP (lp_rowset lp ++ new) (non_zeros lp + ncoeff) (basis_valid lp) (lp_basis lp).

(** Keep the rows whose flag is zero; [flag i] is the flag of LP row [i]. *)
Fixpoint keep_unflagged (flag : nat -> Z) (i : nat) (rs : list lp_row) : list lp_row :=
  match rs with
  | [] => []
  | r :: rs' =>
      if flag i =? 0 then r :: keep_unflagged flag (S i) rs'
      else keep_unflagged flag (S i) rs'
  end.

(** Modelled from the spec: [delete_row_set (lp, rowflags)] removes in one
    batch the rows whose flag is set.  As both callers show, entry 0 of
    [rowflags] belongs to the objective row and entry [i + 1] to LP row [i],
    so the engine reads the entries [0 .. lp -> rows].  [rowflags] is the
    memory the engine reads: the caller's array and, where that array is
    shorter than [lp -> rows + 1], the words that follow it.  Deleting rows
    invalidates the basis. *)
Definition delete_row_set (lp : LP_t) (rowflags : list Z) : LP_t :=
  let flag i := nth (S i) rowflags 0 in
  let kept := keep_unflagged flag 0%nat (lp_rowset lp) in
  mk_LP kept
        (Z.of_nat (length (concat (map lr_mat kept))))
        false (lp_basis lp).

(** Modelled from the spec: reading and installing the basis
    ([get_current_basis], [set_current_basis] work on arrays that belong to
    the engine). *)
Definition get_current_basis (lp : LP_t) : list Z * list Z := lp_basis lp.
Definition set_current_basis (lp : LP_t) (b : list Z * list Z) : LP_t :=
  mk_LP (lp_rowset lp) (non_zeros lp) true b.

(** ** Branch-and-bound state *)

(** [struct bbnode], the fields the pool routines use. *)
Record bbnode : Type := mk_bbnode {
  nd_z : float;
  delrow_z : float;
  cpiter : Z;
  nd_x : list float;
  n_uids : Z;
  bc_uids : option (list Z);
  bc_row : option (list Z);
  nd_basis : option (list Z * list Z)
}.

(** [struct bbinfo], the fields the pool routines use.  [bb_slack] is the
    whole array [bbip -> slack], of [slack_size] entries. *)
Record bbinfo : Type := mk_bbinfo {
  bb_lp : LP_t;
  bb_cpool : cpool;
  bb_node : bbnode;
  bb_slack : list float
}.

Definition set_bb_lp (v : LP_t) (b : bbinfo) : bbinfo :=
  mk_bbinfo v (bb_cpool b) (bb_node b) (bb_slack b).
Definition set_bb_cpool (v : cpool) (b : bbinfo) : bbinfo :=
  mk_bbinfo (bb_lp b) v (bb_node b) (bb_slack b).
Definition set_bb_node (v : bbnode) (b : bbinfo) : bbinfo :=
  mk_bbinfo (bb_lp b) (bb_cpool b) v (bb_slack b).
Definition set_bb_slack (v : list float) (b : bbinfo) : bbinfo :=
  mk_bbinfo (bb_lp b) (bb_cpool b) (bb_node b) v.

Definition set_delrow_z (v : float) (n : bbnode) : bbnode :=
  mk_bbnode (nd_z n) v (cpiter n) (nd_x n) (n_uids n) (bc_uids n) (bc_row n) (nd_basis n).
Definition set_cpiter (v : Z) (n : bbnode) : bbnode :=
  mk_bbnode (nd_z n) (delrow_z n) v (nd_x n) (n_uids n) (bc_uids n) (bc_row n) (nd_basis n).
Definition set_nd_z (v : float) (n : bbnode) : bbnode :=
  mk_bbnode v (delrow_z n) (cpiter n) (nd_x n) (n_uids n) (bc_uids n) (bc_row n) (nd_basis n).
Definition set_nd_x (v : list float) (n : bbnode) : bbnode :=
  mk_bbnode (nd_z n) (delrow_z n) (cpiter n) v (n_uids n) (bc_uids n) (bc_row n) (nd_basis n).

(** ** [_gst_add_pending_rows_to_LP] (lp_solve version) *)

(** First loop: check that each row is pending, record its LP position and
    count the coefficients. *)
Definition pending_pass1 (lprows_ : list Z) (i : Z) (s : list rcon * Z)
  : outcome (list rcon * Z) :=
  let '(rs, ncoeff) := s in
  let! row := aget lprows_ i in
  let! rcp := aget rs row in
  let! _ := fatal_if (negb (lprow rcp =? -2)) in
  let! rs' := aset rs row (set_lprow i rcp) in
  Ok (rs', ncoeff + len rcp).

(** The inner loop of the second pass: the coefficients of one row, up to
    the entry that ends it. *)
Fixpoint row_to_lp (cp : list rcoef) (acc : list (Z * Z)) : outcome (list (Z * Z) * rcoef) :=
  match cp with
  | [] => Undef
  | c :: cp' =>
      if var c <? RC_VAR_BASE then Ok (acc, c)
      else row_to_lp cp' (acc ++ [(var c - RC_VAR_BASE, val c)])
  end.

Definition pending_pass2 (pool : cpool) (i : Z) (s : list lp_row * Z)
  : outcome (list lp_row * Z) :=
  let '(new, nzi) := s in
  let! row := aget (lprows pool) i in
  let! rcp := aget (rows pool) row in
  let! (mat, e) := row_to_lp (coefs rcp) [] in
  let! ctype :=
    (if var e =? RC_OP_LE then Ok REL_LE
     else if var e =? RC_OP_EQ then Ok REL_EQ
     else if var e =? RC_OP_GE then Ok REL_GE
     else Fatal) in
  Ok (new ++ [mk_lp_row (val e) ctype mat], nzi + Z.of_nat (length mat)).

Definition _gst_add_pending_rows_to_LP (bbip : bbinfo) : outcome bbinfo :=
  let lp := bb_lp bbip in
  let pool := bb_cpool bbip in
  let! _ := fatal_if (negb (lp_num_rows lp =? nlprows pool)) in
  let newrows := npend pool in
  let! _ := fatal_if (newrows <? 0) in
  if newrows =? 0 then Ok bbip
  else
    let i1 := nlprows pool in
    let i2 := i1 + newrows in
    let! (rs, ncoeff) := for_range i1 i2 (pending_pass1 (lprows pool)) (rows pool, 0) in
    let pool := set_rows rs pool in
    let pool := set_hwm (if hwmrow pool <? i2 then i2 else hwmrow pool)
                        (if hwmnz pool <? non_zeros lp + ncoeff
                         then non_zeros lp + ncoeff else hwmnz pool) pool in
    let! (new, nzi) := for_range i1 i2 (pending_pass2 pool) ([], 0) in
    let! _ := fatal_if (negb (nzi =? ncoeff)) in
    let lp := add_rows lp new ncoeff in
    let pool := set_npend 0 (set_nlprows i2 pool) in
    Ok (set_bb_cpool pool (set_bb_lp lp bbip)).

(** ** [_gst_delete_slack_rows_from_LP] (lp_solve version) *)

Definition has_discard_flag (r : rcon) : bool :=
  negb (Z.land (flags r) RCON_FLAG_DISCARD =? 0).

(** The state of the main loop: the row headers, the array [lprows], the
    write position [j] and the delete list [dlist] (of which [k] is the
    length). *)
Definition slack_pass (slack : list float) (i : Z) (s : list rcon * list Z * Z * list Z)
  : outcome (list rcon * list Z * Z * list Z) :=
  let '(rs, lpr, j, dlist) := s in
  let! row := aget lpr i in
  let! rcp := aget rs row in
  let! _ := fatal_if (negb (lprow rcp =? i)) in
  let! sl := aget slack i in
  if PrimFloat.ltb FUZZ sl then
    let! rs' := aset rs row (set_lprow (-1) rcp) in
    Ok (rs', lpr, j, dlist ++ [i])
  else if has_discard_flag rcp then
    let! rs' := aset rs row (set_lprow (-1) rcp) in
    Ok (rs', lpr, j, dlist ++ [i])
  else
    let! rs' := aset rs row (set_lprow j rcp) in
    let! lpr' := aset lpr j row in
    Ok (rs', lpr', j + 1, dlist).

(** "Copy any pending constraints". *)
Definition copy_pending (n : Z) (i : Z) (s : list Z * Z) : outcome (list Z * Z) :=
  let '(lpr, j) := s in
  let! v := aget lpr (n + i) in
  let! lpr' := aset lpr j v in
  Ok (lpr', j + 1).

(** [rowflags [1 + dlist [i]] = 1] over an array of [n + 1] zeros. *)
Definition slack_rowflags (n : Z) (dlist : list Z) : outcome (list Z) :=
  let zeros := replicate (Z.to_nat (n + 1)) 0 in
  let! (fl, _) :=
    for_range 0 (Z.of_nat (length dlist))
      (fun i (s : list Z * unit) =>
         let! d := aget dlist i in
         let! fl' := aset (fst s) (1 + d) 1 in
         Ok (fl', tt))
      (zeros, tt) in
  Ok fl.

Definition _gst_delete_slack_rows_from_LP (bbip : bbinfo) : outcome bbinfo :=
  let lp := bb_lp bbip in
  let pool := bb_cpool bbip in
  let nodep := bb_node bbip in
  if PrimFloat.leb (nd_z nodep) (delrow_z nodep) then Ok bbip
  else
    let nrows_ := lp_num_rows lp in
    let! _ := fatal_if (negb (nrows_ =? nlprows pool)) in
    let n := nlprows pool in
    let! (rs, lpr, j, dlist) :=
      for_range 0 n (slack_pass (bb_slack bbip)) (rows pool, lprows pool, 0, []) in
    let! (lpr, _) := for_range 0 (npend pool) (copy_pending n) (lpr, j) in
    let pool := set_nlprows j (set_lprows lpr (set_rows rs pool)) in
    let bbip := set_bb_cpool pool bbip in
    if 0 <? Z.of_nat (length dlist) then
      let! rowflags := slack_rowflags n dlist in
      let lp := delete_row_set lp rowflags in
      Ok (set_bb_node (set_delrow_z (nd_z nodep) nodep) (set_bb_lp lp bbip))
    else Ok bbip.

(** ** Saving and restoring a node's basis *)

Definition set_saved (n : Z) (u r : option (list Z)) (b : option (list Z * list Z))
    (nd : bbnode) : bbnode :=
  mk_bbnode (nd_z nd) (delrow_z nd) (cpiter nd) (nd_x nd) n u r b.

(** "Now record the rows and bump the reference counts". *)
Definition save_pass (i : Z) (s : list rcon * list Z * list Z * Z)
  : outcome (list rcon * list Z * list Z * Z) :=
  let '(rs, uids, brow, j) := s in
  let! rcp := aget rs i in
  let k := lprow rcp in
  if k <? 0 then Ok s
  else
    let! rs' := aset rs i (set_refc (refc rcp + 1) rcp) in
    let! uids' := aset uids j (uid rcp) in
    let! brow' := aset brow j k in
    Ok (rs', uids', brow', j + 1).

(** [_gst_save_node_basis]: the node and the branch-and-bound state after
    the call. *)
Definition _gst_save_node_basis (nodep : bbnode) (bbip : bbinfo)
  : outcome (bbnode * bbinfo) :=
  let lp := bb_lp bbip in
  let pool := bb_cpool bbip in
  let n := nlprows pool in
  let! _ := fatal_if (negb (n =? lp_num_rows lp)) in
  let fresh := replicate (Z.to_nat n) 0 in
  let basis := get_current_basis lp in
  let! (rs, uids, brow, j) :=
    for_range 0 (nrows pool) save_pass (rows pool, fresh, fresh, 0) in
  let! _ := fatal_if (negb (j =? n)) in
  Ok (set_saved n (Some uids) (Some brow) (Some basis) nodep,
      set_bb_cpool (set_rows rs pool) bbip).

(** "Transition all rows back to the not-in-LP-tableaux state". *)
Definition unload_pass (pool : cpool) (i : Z) (rs : list rcon) : outcome (list rcon) :=
  let! row := aget (lprows pool) i in
  if row <? 0 then Ok rs
  else
    let! _ := fatal_if (row >=? nrows pool) in
    let! rcp := aget rs row in
    aset rs row (set_lprow (-1) rcp).

(** The search [for (;;) { if (rcp >= rcp_endp) FATAL_ERROR; if (rcp -> uid
    EQ uid) break; ++rcp; }] over the headers from position [r] on. *)
Fixpoint seek_uid (rest : list rcon) (r : Z) (u : Z) : outcome Z :=
  match rest with
  | [] => Fatal
  | rc :: rest' => if uid rc =? u then Ok r else seek_uid rest' (r + 1) u
  end.

(** One turn of the replay loop; [r] is the position of the pointer [rcp]. *)
Definition replay_pass (uids brow : list Z) (nu : Z) (i : Z) (s : list rcon * list Z * Z)
  : outcome (list rcon * list Z * Z) :=
  let '(rs, lpr, r) := s in
  let! u := aget uids i in
  let! j := aget brow i in
  let! r := seek_uid (drop (Z.to_nat r) rs) r u in
  let! rcp := aget rs r in
  let rcp := set_refc (refc rcp - 1) rcp in
  let! bad :=
    (if negb (lprow rcp =? -1) then Ok true
     else if j <? 0 then Ok true
     else if j >=? nu then Ok true
     else let! v := aget lpr j in Ok (negb (v =? -1))) in
  let! _ := fatal_if bad in
  let! rs' := aset rs r (set_lprow (-2) rcp) in
  let! lpr' := aset lpr j r in
  Ok (rs', lpr', r).

(** [_gst_restore_node_basis] (lp_solve version).  The array [rowflags] is
    allocated with [n] entries, [n] the number of LP rows; the engine reads
    the flag of the last LP row at index [n], one word past that array.
    [past_end] is the content of that word when [rowflags] is allocated. *)
Definition _gst_restore_node_basis (past_end : Z) (nodep : bbnode) (bbip : bbinfo)
  : outcome (bbnode * bbinfo) :=
  let lp := bb_lp bbip in
  let pool := bb_cpool bbip in
  match bc_uids nodep with
  | None => Fatal
  | Some uids =>
      let n := lp_num_rows lp in
      let pool := if negb (n =? nlprows pool) then set_nlprows n pool else pool in
      let! _ := fatal_if (negb (npend pool =? 0)) in
      let! rs := for_range 0 (nlprows pool) (unload_pass pool) (rows pool) in
      let pool := set_nlprows 0 (set_rows rs pool) in
      (* rowflags [i] = 1 for i < n, then rowflags [0] = 0 *)
      let rowflags := <[0%nat := 0]> (replicate (Z.to_nat n) 1 ++ [past_end]) in
      let lp := delete_row_set lp rowflags in
      let nu := n_uids nodep in
      let! _ := fatal_if (maxrows pool <? nu) in
      let! lpr :=
        for_range 0 nu (fun i lpr => aset lpr i (-1)) (lprows pool) in
      let! brow := (match bc_row nodep with Some b => Ok b | None => Undef end) in
      let! (rs, lpr, _) :=
        for_range 0 nu (replay_pass uids brow nu) (rows pool, lpr, 0) in
      let pool := set_npend nu (set_lprows lpr (set_rows rs pool)) in
      let! bbip := _gst_add_pending_rows_to_LP (set_bb_cpool pool (set_bb_lp lp bbip)) in
      let bbip :=
        match nd_basis nodep with
        | Some b => set_bb_lp (set_current_basis (bb_lp bbip) b) bbip
        | None => bbip
        end in
      Ok (set_saved 0 None None None nodep, bbip)
  end.

(** [_gst_destroy_node_basis] *)
Definition destroy_pass (uids : list Z) (i : Z) (s : list rcon * Z)
  : outcome (list rcon * Z) :=
  let '(rs, r) := s in
  let! u := aget uids i in
  let! r := seek_uid (drop (Z.to_nat r) rs) r u in
  let! rcp := aget rs r in
  let! rs' := aset rs r (set_refc (refc rcp - 1) rcp) in
  Ok (rs', r).

Definition _gst_destroy_node_basis (nodep : bbnode) (bbip : bbinfo)
  : outcome (bbnode * bbinfo) :=
  if n_uids nodep <=? 0 then Ok (nodep, bbip)
  else
    let pool := bb_cpool bbip in
    match bc_uids nodep, nd_basis nodep with
    | Some uids, Some _ =>
        let! (rs, _) := for_range 0 (n_uids nodep) (destroy_pass uids) (rows pool, 0) in
        Ok (set_saved 0 None None None nodep, set_bb_cpool (set_rows rs pool) bbip)
    | _, _ => Fatal
    end.

(** ** [garbage_collect_pool] *)

Definition GRACE_TIME : Z := 10.

Definition wrapu32 (z : Z) : Z := z mod 4294967296.

(** "Count non-zeros in all constraints that are binding for ANY node". *)
Definition useful_nz (rs : list rcon) : Z :=
  fold_left (fun nz rcp =>
               if negb (lprow rcp =? -1) || (0 <? refc rcp) then nz + (len rcp + 1)
               else nz) rs 0.

(** The loop that collects the candidates, as parallel entries
    [(cnum [c], cost [c])]. *)
Definition candidate_pass (pool : cpool) (i : Z) (cands : list (Z * Z))
  : outcome (list (Z * Z)) :=
  let! rcp := aget (rows pool) i in
  if negb (lprow rcp =? -1) then Ok cands
  else if 0 <? refc rcp then Ok cands
  else if has_discard_flag rcp then Ok (cands ++ [(i, INT_MAX)])
  else
    let time := wrap32 (iter pool - biter rcp) in
    if time <? GRACE_TIME then Ok cands
    else Ok (cands ++ [(i, wrapu32 ((len rcp + 1) * time))]).

(** *** [sort_gc_candidates] *)

(** [for (h = 1; h <= n; h = 3*h+1) { }] *)
Fixpoint first_gap (fuel : nat) (h n : Z) : outcome Z :=
  if h <=? n then
    match fuel with
    | O => Undef
    | S fuel' => first_gap fuel' (3 * h + 1) n
    end
  else Ok h.

(** [for (j = i; j >= h; j -= h) { if (cost [j - h] <= tmp_cost) break; ... }] *)
Fixpoint sift (fuel : nat) (h tmp_cost : Z) (a : list (Z * Z)) (j : Z)
  : outcome (list (Z * Z) * Z) :=
  if j >=? h then
    match fuel with
    | O => Undef
    | S fuel' =>
        let! e := aget a (j - h) in
        if snd e <=? tmp_cost then Ok (a, j)
        else
          let! a' := aset a j e in
          sift fuel' h tmp_cost a' (j - h)
    end
  else Ok (a, j).

Definition gap_insert (h : Z) (i : Z) (a : list (Z * Z)) : outcome (list (Z * Z)) :=
  let! tmp := aget a i in
  let! (a', j) := sift (S (Z.to_nat i)) h (snd tmp) a i in
  aset a' j tmp.

(** [do { h = h / 3; for (i = h; i < n; i++) ...; } while (h > 1);] *)
Fixpoint gap_passes (fuel : nat) (h n : Z) (a : list (Z * Z)) : outcome (list (Z * Z)) :=
  let h := Z.quot h 3 in
  let! a' := for_range h n (gap_insert h) a in
  if 1 <? h then
    match fuel with
    | O => Undef
    | S fuel' => gap_passes fuel' h n a'
    end
  else Ok a'.

Definition sort_gc_candidates (a : list (Z * Z)) (n : Z) : outcome (list (Z * Z)) :=
  let! h := first_gap (S (Z.to_nat n)) 1 n in
  gap_passes (S (Z.to_nat h)) h n a.

(** "Find most-costly rows to delete that will achieve the target pool
    size": the result is the final [i], [nz] and [minrow]. *)
Fixpoint pick_victims (fuel : nat) (rs : list rcon) (cands : list (Z * Z))
    (min_recover i nz minrow : Z) : outcome (Z * Z * Z) :=
  let! c := aget cands i in
  let k := fst c in
  let! rk := aget rs k in
  let nz := nz + len rk in
  let minrow := if k <? minrow then k else minrow in
  if nz >=? min_recover then Ok (i, nz, minrow)
  else if i =? 0 then Ok (i, nz, minrow)
  else
    match fuel with
    | O => Undef
    | S fuel' => pick_victims fuel' rs cands min_recover (i - 1) nz minrow
    end.

(** [for (; i < count; i++) delflags [cnum [i]] = TRUE;] *)
Definition flag_pass (cands : list (Z * Z)) (i : Z) (delflags : list bool)
  : outcome (list bool) :=
  let! c := aget cands i in
  aset delflags (fst c) true.

(** "Compute a map for renumbering the constraints that remain". *)
Definition renum_pass (delflags : list bool) (i : Z) (s : list Z * Z)
  : outcome (list Z * Z) :=
  let '(renum, j) := s in
  let! d := aget delflags i in
  if d then (let! renum' := aset renum i (-1) in Ok (renum', j))
  else (let! renum' := aset renum i j in Ok (renum', j + 1)).

(** "Renumber the constraint numbers of the LP tableaux". *)
Definition lprows_pass (renum : list Z) (i : Z) (lpr : list Z) : outcome (list Z) :=
  let! r := aget lpr i in
  let! j := aget renum r in
  let! _ := fatal_if (j <? 0) in
  aset lpr i j.

(** The pointer [ihookp] points at a bucket head or at the [next] field of a
    row header. *)
Inductive hook : Type :=
| HookHash (i : Z)
| HookRow (j : Z).

Definition hook_read (hs : list Z) (rs : list rcon) (hk : hook) : outcome Z :=
  match hk with
  | HookHash i => aget hs i
  | HookRow j => let! rcp := aget rs j in Ok (next rcp)
  end.

Definition hook_write (hs : list Z) (rs : list rcon) (hk : hook) (v : Z)
  : outcome (list Z * list rcon) :=
  match hk with
  | HookHash i => let! hs' := aset hs i v in Ok (hs', rs)
  | HookRow j =>
      let! rcp := aget rs j in
      let! rs' := aset rs j (set_next v rcp) in
      Ok (hs, rs')
  end.

(** [while ((j = *ihookp) >= 0) { ... }] for one bucket; the counter bounds
    the length of the chain. *)
Fixpoint rethread (fuel : nat) (renum : list Z) (hs : list Z) (rs : list rcon) (hk : hook)
  : outcome (list Z * list rcon) :=
  let! j := hook_read hs rs hk in
  if j >=? 0 then
    match fuel with
    | O => Undef
    | S fuel' =>
        let! rcp := aget rs j in
        let! k := aget renum j in
        if k <? 0 then
          let! (hs', rs') := hook_write hs rs hk (next rcp) in
          rethread fuel' renum hs' rs' hk
        else
          let! (hs', rs') := hook_write hs rs hk k in
          rethread fuel' renum hs' rs' (HookRow j)
    end
  else Ok (hs, rs).

Definition rethread_pass (renum : list Z) (i : Z) (s : list Z * list rcon)
  : outcome (list Z * list rcon) :=
  rethread (S (length (snd s))) renum (fst s) (snd s) (HookHash i).

(** "Delete proper row headers". *)
Definition compact_pass (delflags : list bool) (i : Z) (s : list rcon * Z)
  : outcome (list rcon * Z) :=
  let '(rs, j) := s in
  let! d := aget delflags i in
  if d then Ok s
  else
    let! rcp := aget rs i in
    let! rs' := aset rs j rcp in
    Ok (rs', j + 1).

(** [garbage_collect_pool (pool, ncoeff, nrows, params)]; of [params] only
    [target_pool_non_zeros] is read.  The argument [nrows] of the C routine
    is not used by it.  The compaction of the coefficient arena, which moves
    the coefficient bytes and leaves every row's content as it is, has no
    counterpart here. *)
Definition garbage_collect_pool (pool : cpool) (ncoeff : Z) (target_pool_non_zeros : Z)
  : outcome cpool :=
  let! _ := fatal_if (0 <? npend pool) in
  let nz := useful_nz (rows pool) in
  let! cands := for_range (initrows pool) (nrows pool) (candidate_pass pool) [] in
  let count := Z.of_nat (length cands) in
  if count <=? 0 then Ok pool
  else
    let target := 16 * nz in
    let target := if 0 <? target_pool_non_zeros then target_pool_non_zeros else target in
    let impending_size := num_nz pool + ncoeff in
    if impending_size <=? target then Ok pool
    else
      let min_recover := Z.quot (3 * ncoeff) 2 in
      let min_recover :=
        if (target <? impending_size) && (min_recover <? impending_size - target)
        then impending_size - target else min_recover in
      let! cands := sort_gc_candidates cands count in
      let! (i, nz, minrow) :=
        pick_victims (Z.to_nat count) (rows pool) cands min_recover (count - 1) 0
                     (nrows pool) in
      let num_nz' := num_nz pool - nz in
      let! delflags :=
        for_range i count (flag_pass cands) (replicate (length (rows pool)) false) in
      let! (renum, _) :=
        for_range 0 (nrows pool) (renum_pass delflags)
                  (replicate (length (rows pool)) 0, 0) in
      let! lpr := for_range 0 (nlprows pool) (lprows_pass renum) (lprows pool) in
      let! (hs, rs) :=
        for_range 0 CPOOL_HASH_SIZE (rethread_pass renum) (hash pool, rows pool) in
      let! (rs, j) := for_range minrow (nrows pool) (compact_pass delflags) (rs, minrow) in
      Ok (mk_cpool (pool_uid pool) (take (Z.to_nat j) rs) (maxrows pool) num_nz' lpr
                   (nlprows pool) (npend pool) (iter pool) (initrows pool) hs
                   (hwmrow pool) (hwmnz pool)).

(** ** Cycle check ([cycle_check.c]) *)

(** Modelled from the spec: vertex bitmaps.  The macros [BMAP_ELTS],
    [SETBIT] and [BITON] belong to an absent header; a bitmap is an array of
    32-bit words and vertex [j] is bit [j mod 32] of word [j / 32]. *)
Definition BMAP_ELTS (n : Z) : Z := (n + 31) / 32.

Definition SETBIT (bm : list Z) (j : Z) : outcome (list Z) :=
  let! w := aget bm (Z.shiftr j 5) in
  aset bm (Z.shiftr j 5) (Z.lor w (Z.shiftl 1 (Z.land j 31))).

Definition BITON (bm : list Z) (j : Z) : outcome bool :=
  let! w := aget bm (Z.shiftr j 5) in
  Ok (negb (Z.land w (Z.shiftl 1 (Z.land j 31)) =? 0)).

(** [union_find_t] *)
Record union_find_t : Type := mk_uf {
  parent : list Z;
  rank : list Z;
  size : Z
}.

Definition create_union_find (n : Z) : union_find_t :=
  mk_uf (map Z.of_nat (seq 0 (Z.to_nat n))) (replicate (Z.to_nat n) 0) n.

(** [uf_find], with path compression; the counter bounds the depth of the
    recursion. *)
Fixpoint uf_find (fuel : nat) (uf : union_find_t) (x : Z) : outcome (union_find_t * Z) :=
  let! px := aget (parent uf) x in
  if negb (px =? x) then
    match fuel with
    | O => Undef
    | S fuel' =>
        let! (uf', r) := uf_find fuel' uf px in
        let! par' := aset (parent uf') x r in
        Ok (mk_uf par' (rank uf') (size uf'), r)
    end
  else Ok (uf, px).

(** [uf_union]: the flag is [false] when [x] and [y] are already in the
    same set. *)
Definition uf_union (fuel : nat) (uf : union_find_t) (x y : Z)
  : outcome (union_find_t * bool) :=
  let! (uf, root_x) := uf_find fuel uf x in
  let! (uf, root_y) := uf_find fuel uf y in
  if root_x =? root_y then Ok (uf, false)
  else
    let! rx := aget (rank uf) root_x in
    let! ry := aget (rank uf) root_y in
    if rx <? ry then
      let! par' := aset (parent uf) root_x root_y in
      Ok (mk_uf par' (rank uf) (size uf), true)
    else if ry <? rx then
      let! par' := aset (parent uf) root_y root_x in
      Ok (mk_uf par' (rank uf) (size uf), true)
    else
      let! par' := aset (parent uf) root_y root_x in
      let! rank' := aset (rank uf) root_x (rx + 1) in
      Ok (mk_uf par' rank' (size uf), true).

(** Modelled from the spec: of the hypergraph ([struct gst_hypergraph], an
    absent header) the check reads the vertex count, the edge count and,
    for every hyperedge, the list of its vertices
    ([cip -> edge [i] .. cip -> edge [i + 1]]). *)
Record gst_hypergraph : Type := mk_hg {
  num_verts : Z;
  num_edges : Z;
  edge : list (list Z)
}.

(** [struct constraint], as the check fills it in: a subtour elimination
    constraint over the vertex mask. *)
Inductive constraint_type : Type := CT_SUBTOUR.

Record constraint : Type := mk_constraint {
  c_iteration : Z;
  c_type : constraint_type;
  c_mask : list Z
}.

(** "Mark all vertices in this FST". *)
Fixpoint mark_vertices (bm : list Z) (vs : list Z) : outcome (list Z) :=
  match vs with
  | [] => Ok bm
  | j :: vs' => let! bm' := SETBIT bm j in mark_vertices bm' vs'
  end.

(** "Find all vertices in the cycle component". *)
Definition sec_pass (fuel : nat) (cycle_verts : list Z) (cycle_root : Z) (k : Z)
    (s : union_find_t * list Z) : outcome (union_find_t * list Z) :=
  let '(uf, sec_mask) := s in
  let! b := BITON cycle_verts k in
  if b then
    let! (uf', r) := uf_find fuel uf k in
    if r =? cycle_root then
      let! sec_mask' := SETBIT sec_mask k in Ok (uf', sec_mask')
    else Ok (uf', sec_mask)
  else Ok s.

Definition build_sec (fuel : nat) (nverts kmasks : Z) (uf : union_find_t)
    (cycle_verts : list Z) (root : Z) : outcome constraint :=
  let sec_mask := replicate (Z.to_nat kmasks) 0 in
  let! (uf, cycle_root) := uf_find fuel uf root in
  let! (_, sec_mask) :=
    for_range 0 nverts (sec_pass fuel cycle_verts cycle_root) (uf, sec_mask) in
  Ok (mk_constraint (-1) CT_SUBTOUR sec_mask).

(** The star of one hyperedge: union [root] with each further vertex; stop
    with the constraint at the first union that fails. *)
Fixpoint star_unions (fuel : nat) (nverts kmasks : Z) (cycle_verts : list Z)
    (root : Z) (vs : list Z) (uf : union_find_t)
  : outcome (union_find_t + constraint) :=
  match vs with
  | [] => Ok (inl uf)
  | j :: vs' =>
      let! (uf', ok) := uf_union fuel uf root j in
      if ok then star_unions fuel nverts kmasks cycle_verts root vs' uf'
      else
        let! cp := build_sec fuel nverts kmasks uf' cycle_verts root in
        Ok (inr cp)
  end.

(** The loop over the hyperedges, from edge [i] on, [n] edges to go. *)
Fixpoint scan_edges (fuel : nat) (cip : gst_hypergraph) (x : list float) (kmasks : Z)
    (n : nat) (i : Z) (uf : union_find_t) (cycle_verts : list Z)
  : outcome (option constraint) :=
  match n with
  | O => Ok None
  | S n' =>
      let! xi := aget x i in
      if PrimFloat.ltb xi 0.5 then
        scan_edges fuel cip x kmasks n' (i + 1) uf cycle_verts
      else
        let! vs := aget (edge cip) i in
        let! cycle_verts := mark_vertices cycle_verts vs in
        if 2 <=? Z.of_nat (length vs) then
          match vs with
          | [] => Undef
          | root :: rest =>
              let! r := star_unions fuel (num_verts cip) kmasks cycle_verts root rest uf in
              match r with
              | inl uf' => scan_edges fuel cip x kmasks n' (i + 1) uf' cycle_verts
              | inr cp => Ok (Some cp)
              end
          end
        else scan_edges fuel cip x kmasks n' (i + 1) uf cycle_verts
  end.

(** [_gst_check_integer_solution_for_cycles (x, bbip)], of [bbip] only the
    hypergraph [bbip -> cip] is read. *)
Definition _gst_check_integer_solution_for_cycles (x : list float) (cip : gst_hypergraph)
  : outcome (option constraint) :=
  let nedges := num_edges cip in
  let nverts := num_verts cip in
  let kmasks := BMAP_ELTS nverts in
  let fuel := S (length (concat (edge cip))) in
  let uf := create_union_find nverts in
  let cycle_verts := replicate (Z.to_nat kmasks) 0 in
  scan_edges fuel cip x kmasks (Z.to_nat nedges) 0 uf cycle_verts.

(** ** [prune_pending_rows] *)

Definition THRESHOLD : Z := 2 * 1000 * 1000.

(** [for (i = 0; i < n; i++) { total += ...; if (total > THRESHOLD) break; }]
    over the pending entries, which start at [base] in [lprows]; the result
    is the final [i] and [total]. *)
Fixpoint pending_total (n : nat) (rs : list rcon) (lpr : list Z) (base i total : Z)
  : outcome (Z * Z) :=
  match n with
  | O => Ok (i, total)
  | S n' =>
      let! tmp := aget lpr (base + i) in
      let! rcp := aget rs tmp in
      let total := total + len rcp in
      if THRESHOLD <? total then Ok (i, total)
      else pending_total n' rs lpr base (i + 1) total
  end.

(** The innermost loop of the sort; [p2] and [p4] are offsets from
    [parray]. *)
Fixpoint prune_sift (fuel : nat) (rs : list rcon) (base h key p4 : Z)
    (lpr : list Z) (p2 : Z) : outcome (list Z * Z) :=
  match fuel with
  | O => Undef
  | S fuel' =>
      let p3 := p2 - h in
      let! v3 := aget lpr (base + p3) in
      let! r3 := aget rs v3 in
      if len r3 <=? key then Ok (lpr, p2)
      else
        let! lpr' := aset lpr (base + p2) v3 in
        if p3 <? p4 then Ok (lpr', p3)
        else prune_sift fuel' rs base h key p4 lpr' p3
  end.

Definition prune_insert (rs : list rcon) (base h : Z) (p1 : Z) (lpr : list Z)
  : outcome (list Z) :=
  let! tmp := aget lpr (base + p1) in
  let! rt := aget rs tmp in
  let! (lpr', p2) := prune_sift (S (Z.to_nat p1)) rs base h (len rt) h lpr p1 in
  aset lpr' (base + p2) tmp.

Fixpoint prune_passes (fuel : nat) (rs : list rcon) (base h n : Z) (lpr : list Z)
  : outcome (list Z) :=
  let h := Z.quot h 3 in
  let! lpr' := for_range h n (prune_insert rs base h) lpr in
  if 1 <? h then
    match fuel with
    | O => Undef
    | S fuel' => prune_passes fuel' rs base h n lpr'
    end
  else Ok lpr'.

(** "Make pending rows i through n-1 not be pending any more". *)
Definition unpend_pass (lpr : list Z) (base : Z) (k : Z) (rs : list rcon)
  : outcome (list rcon) :=
  let! tmp := aget lpr (base + k) in
  let! rcp := aget rs tmp in
  let! _ := fatal_if (negb (lprow rcp =? -2)) in
  aset rs tmp (set_lprow (-1) rcp).

Definition prune_pending_rows (bbip : bbinfo) (can_del_slack : bool) : outcome bbinfo :=
  let pool := bb_cpool bbip in
  let n := npend pool in
  let! (_, total) :=
    pending_total (Z.to_nat n) (rows pool) (lprows pool) (nlprows pool) 0 0 in
  if total <=? THRESHOLD then Ok bbip
  else
    let! bbip := (if can_del_slack then _gst_delete_slack_rows_from_LP bbip else Ok bbip) in
    let pool := bb_cpool bbip in
    let base := nlprows pool in
    let! h := first_gap (S (Z.to_nat n)) 1 n in
    let! lpr := prune_passes (S (Z.to_nat h)) (rows pool) base h n (lprows pool) in
    let! (i, _) := pending_total (Z.to_nat n) (rows pool) lpr base 0 0 in
    let! rs := for_range i n (unpend_pass lpr base) (rows pool) in
    Ok (set_bb_cpool (set_npend i (set_lprows lpr (set_rows rs pool))) bbip).

(** ** [_gst_solve_LP_over_constraint_pool] (lp_solve version) *)

(** Modelled from the spec: the statuses the engine reports, and what one
    call of its [solve] hands back: the status, the objective value, the
    values of the variables and the row slacks. *)
Inductive lp_status : Type :=
| OPTIMAL | MILP_FAIL | INFEASIBLE | UNBOUNDED | OTHER_STATUS.

Inductive bblp_status : Type :=
| BBLP_OPTIMAL | BBLP_CUTOFF | BBLP_INFEASIBLE.

Record lp_solution : Type := mk_sol {
  sol_status : lp_status;
  sol_z : float;
  sol_x : list float;
  sol_slack : list float
}.

Definition set_basis_valid (v : bool) (lp : LP_t) : LP_t :=
  mk_LP (lp_rowset lp) (non_zeros lp) v (lp_basis lp).

(** "Scan entire pool for violations": one row. *)
Definition violation_pass (x : list float) (i : Z) (s : cpool * bool)
  : outcome (cpool * bool) :=
  let '(pool, any_violations) := s in
  let! rcp := aget (rows pool) i in
  let! slack := compute_slack_value (coefs rcp) x in
  if PrimFloat.ltb FUZZ slack then Ok s
  else
    let! rs' := aset (rows pool) i (set_biter (iter pool) rcp) in
    let pool := set_rows rs' pool in
    if lprow rcp >=? 0 then Ok (pool, any_violations)
    else if PrimFloat.ltb slack (- FUZZ) then
      let! pool := _gst_mark_row_pending_to_LP pool i in
      Ok (pool, true)
    else Ok (pool, any_violations).

(** "Reallocate slack variables vector, if necessary". *)
Definition realloc_slack (bbip : bbinfo) : bbinfo :=
  if Z.of_nat (length (bb_slack bbip)) <? nlprows (bb_cpool bbip)
  then set_bb_slack (replicate (Z.to_nat (nlprows (bb_cpool bbip))) 0%float) bbip
  else bbip.

(** [do { ++(pool -> iter); } while (pool -> iter EQ -1);] *)
Definition next_iter (i : Z) : Z :=
  let i := wrap32 (i + 1) in
  if i =? -1 then wrap32 (i + 1) else i.

Section SolveOverPool.

(** The engine's [solve], a black box. *)
Variable solve : LP_t -> lp_solution.

(** [solve_single_LP] (lp_solve version): the state, the status and the
    solution vector [x].  The reduced costs feed the branching statistics
    only and are left out. *)
Definition solve_single_LP (bbip : bbinfo)
  : outcome (bbinfo * bblp_status * list float) :=
  let lp := bb_lp bbip in
  let sol := solve lp in
  let bbip := set_bb_node (set_nd_z (sol_z sol) (bb_node bbip)) bbip in
  let! status :=
    (match sol_status sol with
     | OPTIMAL => Ok BBLP_OPTIMAL
     | MILP_FAIL => Ok BBLP_CUTOFF
     | INFEASIBLE => Ok BBLP_INFEASIBLE
     | UNBOUNDED => Ok BBLP_INFEASIBLE
     | OTHER_STATUS => Fatal
     end) in
  let n := length (lp_rowset lp) in
  if (n <=? length (bb_slack bbip))%nat && (n <=? length (sol_slack sol))%nat then
    let slack := take n (sol_slack sol) ++ drop n (bb_slack bbip) in
    Ok (set_bb_slack slack (set_bb_lp (set_basis_valid true lp) bbip), status, sol_x sol)
  else Undef.

(** [update_lp_solution_history]: the solution is copied into the node;
    the branching statistics ([bheur], [zlb]) are left out. *)
Definition update_lp_solution_history (x : list float) (bbip : bbinfo) : bbinfo :=
  set_bb_node (set_nd_x x (bb_node bbip)) bbip.

(** The body of [for (;;)]; the counter bounds the number of LPs solved. *)
Fixpoint solve_loop (fuel : nat) (bbip : bbinfo) : outcome (bbinfo * bblp_status) :=
  match fuel with
  | O => Undef
  | S fuel' =>
      let prev_z := nd_z (bb_node bbip) in
      let bbip := realloc_slack bbip in
      let! (bbip, status, x) := solve_single_LP bbip in
      let bbip := set_bb_cpool (set_iter (next_iter (iter (bb_cpool bbip)))
                                         (bb_cpool bbip)) bbip in
      match status with
      | BBLP_OPTIMAL =>
          let bbip := update_lp_solution_history x bbip in
          let! bbip := _gst_delete_slack_rows_from_LP bbip in
          let pool := bb_cpool bbip in
          let! (pool, any_violations) :=
            for_range 0 (nrows pool) (violation_pass x) (pool, false) in
          let bbip := set_bb_cpool pool bbip in
          if negb any_violations then
            if negb (basis_valid (bb_lp bbip)) then solve_loop fuel' bbip
            else Ok (bbip, status)
          else
            let z := nd_z (bb_node bbip) in
            (* [0x1.a36e2eb1c432dp-14] is the double [0.0001] *)
            let can_delete_slack :=
              PrimFloat.leb (prev_z + 0x1.a36e2eb1c432dp-14 * abs prev_z) z in
            let! bbip := prune_pending_rows bbip can_delete_slack in
            let! bbip := _gst_add_pending_rows_to_LP bbip in
            solve_loop fuel' bbip
      | _ => Ok (bbip, status)
      end
  end.

Definition _gst_solve_LP_over_constraint_pool (fuel : nat) (bbip : bbinfo)
  : outcome (bbinfo * bblp_status) :=
  let nodep := bb_node bbip in
  let pool := bb_cpool bbip in
  let nrows_ := lp_num_rows (bb_lp bbip) in
  if cpiter nodep =? pool_uid pool then
    let bbip := realloc_slack bbip in
    let! slack :=
      for_range 0 nrows_ (fun i sl => aset sl i 0%float) (bb_slack bbip) in
    Ok (set_bb_slack slack bbip, BBLP_OPTIMAL)
  else
    let! (bbip, status) := solve_loop fuel bbip in
    let cp :=
      match status with
      | BBLP_OPTIMAL => pool_uid (bb_cpool bbip)
      | _ => -1
      end in
    Ok (set_bb_node (set_cpiter cp (bb_node bbip)) bbip, status).

End SolveOverPool.

(** * Properties *)

(** ** The outcome monad *)

Lemma bind_Ok_inv {A B : Type} (m : outcome A) (f : A -> outcome B) (b : B) :
  bind m f = Ok b -> exists a, m = Ok a /\ f a = Ok b.
Proof. destruct m; simpl; intros H; try discriminate. eauto. Qed.

Lemma bind_Ok {A B : Type} (m : outcome A) (f : A -> outcome B) (a : A) :
  m = Ok a -> bind m f = f a.
Proof. intros ->. reflexivity. Qed.

Lemma fatal_if_Ok_inv (c : bool) (u : unit) : fatal_if c = Ok u -> c = false.
Proof. destruct c; simpl; congruence. Qed.

(** Take an equation [bind m f = Ok b] apart. *)
Ltac inv_bind H :=
  let a := fresh "a" in
  let Ha := fresh "Hm" in
  apply bind_Ok_inv in H; destruct H as (a & Ha & H).

Ltac inv_fatal H :=
  let u := fresh "u" in
  let Hu := fresh "Hc" in
  apply bind_Ok_inv in H; destruct H as (u & Hu & H);
  apply fatal_if_Ok_inv in Hu.

Lemma aget_Ok_inv {A : Type} (a : list A) (i : Z) (v : A) :
  aget a i = Ok v -> 0 <= i /\ a !! Z.to_nat i = Some v.
Proof.
  unfold aget. destruct (Z.ltb_spec i 0); [discriminate|].
  destruct (a !! Z.to_nat i) eqn:E; [|discriminate].
  intros [= ->]. auto.
Qed.

Lemma aget_Ok {A : Type} (a : list A) (i : Z) (v : A) :
  0 <= i -> a !! Z.to_nat i = Some v -> aget a i = Ok v.
Proof.
  intros Hi Hl. unfold aget. destruct (Z.ltb_spec i 0); [lia|]. now rewrite Hl.
Qed.

Lemma aget_not_Fatal {A : Type} (a : list A) (i : Z) : aget a i <> Fatal.
Proof.
  unfold aget. destruct (i <? 0); [discriminate|].
  destruct (a !! Z.to_nat i); discriminate.
Qed.

Lemma aset_Ok_inv {A : Type} (a : list A) (i : Z) (v : A) (a' : list A) :
  aset a i v = Ok a' ->
  0 <= i < Z.of_nat (length a) /\ a' = <[Z.to_nat i := v]> a.
Proof.
  unfold aset.
  destruct (Z.leb_spec 0 i), (Z.ltb_spec i (Z.of_nat (length a)));
    simpl; try discriminate.
  intros [= <-]. auto.
Qed.

Lemma aset_Ok {A : Type} (a : list A) (i : Z) (v : A) :
  0 <= i < Z.of_nat (length a) -> aset a i v = Ok (<[Z.to_nat i := v]> a).
Proof.
  intros [H1 H2]. unfold aset.
  destruct (Z.leb_spec 0 i), (Z.ltb_spec i (Z.of_nat (length a))); simpl; auto; lia.
Qed.

(** ** Comparisons of doubles *)

(** A double above [FUZZ] is not below [- FUZZ]. *)
Lemma above_fuzz_not_below (s : float) :
  PrimFloat.ltb FUZZ s = true -> PrimFloat.ltb s (- FUZZ) = false.
Proof.
  rewrite !ltb_spec, opp_spec.
  replace (Prim2SF FUZZ) with (S754_finite false 4722366482869645 (-72))
    by (vm_compute; reflexivity).
  unfold SFltb, SFopp.
  destruct (Prim2SF s) as [sg|sg| |sg m e]; try destruct sg;
    cbn [SFcompare negb]; try discriminate; try reflexivity.
Qed.

(** A double that is a number is not above itself. *)
Lemma leb_refl_number (z : float) :
  PrimFloat.is_nan z = false -> PrimFloat.leb z z = true.
Proof.
  unfold is_nan. rewrite leb_spec, FloatAxioms.eqb_spec.
  unfold SFleb, SFeqb. intros H. apply negb_false_iff in H.
  destruct (SFcompare (Prim2SF z) (Prim2SF z)) as [[]|]; try discriminate; reflexivity.
Qed.

(** The rational that a finite double is. *)
Definition exact (f : float) : Q :=
  match Prim2SF f with
  | S754_finite s m e => (if s then -1 else 1) * inject_Z (Zpos m) * 2 ^ e
  | _ => 0
  end%Q.

(** ** Rows: what the loops over a row compute *)

(** The coefficients of a row, up to the entry that ends it. *)
Fixpoint row_lhs (cp : list rcoef) : list rcoef :=
  match cp with
  | [] => []
  | c :: cp' => if var c <? RC_VAR_BASE then [] else c :: row_lhs cp'
  end.

(** The entry that ends the row. *)
Fixpoint row_end (cp : list rcoef) : option rcoef :=
  match cp with
  | [] => None
  | c :: cp' => if var c <? RC_VAR_BASE then Some c else row_end cp'
  end.

(** The sum of the products of a list of coefficients with [x] as the loop
    accumulates it in double precision: from [acc] on, left to right, each
    product rounded and each partial sum rounded. *)
Definition rounded_sum (cs : list rcoef) (x : list float) (acc : float) : float :=
  fold_left
    (fun s c => (s + of_int (val c) * nth (Z.to_nat (var c - RC_VAR_BASE)) x 0)%float)
    cs acc.

(** The dot product of a list of coefficients with a rational vector. *)
Fixpoint dot (cs : list rcoef) (x : list Q) : Q :=
  match cs with
  | [] => 0
  | c :: cs' =>
      inject_Z (val c) * nth (Z.to_nat (var c - RC_VAR_BASE)) x 0 + dot cs' x
  end%Q.

Lemma row_sum_spec (cp : list rcoef) (x : list float) (acc sum : float) (e : rcoef) :
  row_sum cp x acc = Ok (sum, e) ->
  sum = rounded_sum (row_lhs cp) x acc /\ row_end cp = Some e.
Proof.
  revert acc. induction cp as [|c cp IH]; intros acc H; simpl in *; [discriminate|].
  destruct (var c <? RC_VAR_BASE) eqn:E.
  - injection H as <- <-. split; reflexivity.
  - inv_bind H. apply aget_Ok_inv in Hm as [Hi Hl].
    apply IH in H as [Hs He]. split; [|exact He].
    unfold rounded_sum. cbn [fold_left].
    rewrite (nth_lookup_Some _ _ 0%float _ Hl). exact Hs.
Qed.

(** The row is complete and every variable it names has a value in [x]. *)
Fixpoint row_fits (cp : list rcoef) (x : list float) : Prop :=
  match cp with
  | [] => False
  | c :: cp' =>
      if var c <? RC_VAR_BASE then True
      else (Z.to_nat (var c - RC_VAR_BASE) < length x)%nat /\ row_fits cp' x
  end.

Lemma row_sum_total (cp : list rcoef) (x : list float) (acc : float) :
  row_fits cp x -> exists sum e, row_sum cp x acc = Ok (sum, e).
Proof.
  revert acc. induction cp as [|c cp IH]; intros acc H; simpl in *; [contradiction|].
  destruct (Z.ltb_spec (var c) RC_VAR_BASE) as [Hlt|Hge]; [eauto|].
  destruct H as [Hx Hf].
  destruct (lookup_lt_is_Some_2 x _ Hx) as [v Hv].
  rewrite (aget_Ok x _ v) by (auto; lia). simpl. apply IH, Hf.
Qed.

(** ** Evaluating a row against a solution *)

(** The row [x1 + x2 <= 1] of the specification's example. *)
Definition row_x1_x2_le_1 : list rcoef :=
  [mk_rcoef (RC_VAR_BASE + 0) 1; mk_rcoef (RC_VAR_BASE + 1) 1; mk_rcoef RC_OP_LE 1].

(** C7, as the code has it.  For every complete row and every solution
    vector, both evaluation routines work on the sum of the products of the
    row's coefficients with the solution as it is accumulated in double
    precision, left to right from zero, and compare in double precision.  A
    [<=] row is reported violated exactly when that sum is above the rounded
    sum of the right-hand side and [FUZZ], and its slack is the rounded
    difference of the right-hand side and the sum; a [>=] row is the mirror
    image; an [=] row is violated exactly when the rounded difference of the
    sum and the right-hand side is below [- FUZZ] or above [FUZZ], its slack
    being that difference taken negative.  An entry that ends the row with
    another operator is fatal.  For [x1 + x2 <= 1], the solution (0.6, 0.6),
    its entries the doubles nearest to 0.6, is violated with slack
    -0.19999999999999996, which is -0.2 to within 1e-16, and the solution
    (0.4, 0.5) is not violated and has slack 0.099999999999999978, which is
    0.1 to within 1e-16. *)
Theorem evaluate_classifies_row :
  (forall (cp : list rcoef) (x : list float),
      row_fits cp x ->
      exists (e : rcoef) (b : bool) (s : float),
        row_end cp = Some e /\
        _gst_is_violation cp x = (if decide (var e = RC_OP_LE \/ var e = RC_OP_EQ \/
                                             var e = RC_OP_GE) then Ok b else Fatal) /\
        compute_slack_value cp x = (if decide (var e = RC_OP_LE \/ var e = RC_OP_EQ \/
                                               var e = RC_OP_GE) then Ok s else Fatal) /\
        let d := rounded_sum (row_lhs cp) x 0 in
        let rhs := of_int (val e) in
        (var e = RC_OP_LE ->
           b = PrimFloat.ltb (rhs + FUZZ) d /\ s = (rhs - d)%float) /\
        (var e = RC_OP_EQ ->
           b = (PrimFloat.ltb (d - rhs) (- FUZZ) || PrimFloat.ltb FUZZ (d - rhs)) /\
           s = (if PrimFloat.ltb 0 (d - rhs) then - (d - rhs) else d - rhs)%float) /\
        (var e = RC_OP_GE ->
           b = PrimFloat.ltb (d + FUZZ) rhs /\ s = (d - rhs)%float)) /\
  (let x := [0x1.3333333333333p-1; 0x1.3333333333333p-1]%float in
   _gst_is_violation row_x1_x2_le_1 x = Ok true /\
   compute_slack_value row_x1_x2_le_1 x = Ok (-0x1.9999999999998p-3)%float /\
   (Qabs (exact (-0x1.9999999999998p-3) - - (2 # 10)) <= 1 # 10000000000000000)%Q) /\
  (let x := [0x1.999999999999ap-2; 0x1p-1]%float in
   _gst_is_violation row_x1_x2_le_1 x = Ok false /\
   compute_slack_value row_x1_x2_le_1 x = Ok 0x1.9999999999998p-4%float /\
   (Qabs (exact 0x1.9999999999998p-4 - (1 # 10)) <= 1 # 10000000000000000)%Q).
Proof.
  split; [|split].
  - intros cp x Hfit.
    destruct (row_sum_total cp x 0%float Hfit) as (sum & e & Hrs).
    destruct (row_sum_spec _ _ _ _ _ Hrs) as [Hsum Hend].
    unfold _gst_is_violation, compute_slack_value.
    rewrite Hrs. cbn [bind]. rewrite <- Hsum.
    unfold RC_OP_LE, RC_OP_EQ, RC_OP_GE.
    destruct (Z.eqb_spec (var e) 0) as [E0|E0];
      [|destruct (Z.eqb_spec (var e) 1) as [E1|E1];
        [|destruct (Z.eqb_spec (var e) 2) as [E2|E2]]].
    + eexists e, _, _. split; [exact Hend|].
      rewrite !decide_True by auto. split; [reflexivity|]. split; [reflexivity|].
      cbv zeta. split; [|split]; intros Hop; try lia. split; reflexivity.
    + eexists e, _, _. split; [exact Hend|].
      rewrite !decide_True by auto. split; [reflexivity|]. split; [reflexivity|].
      cbv zeta. split; [|split]; intros Hop; try lia. split; reflexivity.
    + eexists e, _, _. split; [exact Hend|].
      rewrite !decide_True by auto. split; [reflexivity|]. split; [reflexivity|].
      cbv zeta. split; [|split]; intros Hop; try lia. split; reflexivity.
    + exists e, false, 0%float. split; [exact Hend|].
      rewrite !decide_False by lia. split; [reflexivity|]. split; [reflexivity|].
      cbv zeta. split; [|split]; intros Hop; lia.
  - cbv zeta. split; [vm_compute; reflexivity|]. split; [vm_compute; reflexivity|].
    vm_compute. discriminate.
  - cbv zeta. split; [vm_compute; reflexivity|]. split; [vm_compute; reflexivity|].
    vm_compute. discriminate.
Qed.

(** The general part of [evaluate_classifies_row] at a row and a solution
    of its own: [2 x1 - 3 x2 >= 1] at (1, 1/2). *)
Lemma evaluate_classifies_row_witness :
  let cp := [mk_rcoef 3 2; mk_rcoef 4 (-3); mk_rcoef RC_OP_GE 1] in
  let x := [1; 0.5]%float in
  row_fits cp x /\
  (exists (e : rcoef) (b : bool) (s : float),
    row_end cp = Some e /\
    _gst_is_violation cp x = (if decide (var e = RC_OP_LE \/ var e = RC_OP_EQ \/
                                         var e = RC_OP_GE) then Ok b else Fatal) /\
    compute_slack_value cp x = (if decide (var e = RC_OP_LE \/ var e = RC_OP_EQ \/
                                           var e = RC_OP_GE) then Ok s else Fatal) /\
    let d := rounded_sum (row_lhs cp) x 0 in
    let rhs := of_int (val e) in
    (var e = RC_OP_LE ->
       b = PrimFloat.ltb (rhs + FUZZ) d /\ s = (rhs - d)%float) /\
    (var e = RC_OP_EQ ->
       b = (PrimFloat.ltb (d - rhs) (- FUZZ) || PrimFloat.ltb FUZZ (d - rhs)) /\
       s = (if PrimFloat.ltb 0 (d - rhs) then - (d - rhs) else d - rhs)%float) /\
    (var e = RC_OP_GE ->
       b = PrimFloat.ltb (d + FUZZ) rhs /\ s = (d - rhs)%float)) /\
  _gst_is_violation cp x = Ok true /\
  compute_slack_value cp x = Ok (-0.5)%float.
Proof.
  intros cp x.
  assert (Hfit : row_fits cp x) by (vm_compute; repeat split; lia).
  split; [exact Hfit|].
  split; [exact (proj1 evaluate_classifies_row cp x Hfit)|].
  split; vm_compute; reflexivity.
Defined.

(** C7, as the claim words it, fails: the routines classify the rounded
    sum, not the dot product.  At x1 = 1, x2 = 0x1.0c6f7a0b5ed8ep-20 (the
    double next above [FUZZ]) the dot product of [x1 + x2 <= 1] with the
    solution exceeds the right-hand side by more than [FUZZ], and by more
    than 0.000001, yet the row is not reported violated: the sum and
    [1 + FUZZ] round to the same double.  And at (0.6, 0.6) the slack that
    is computed is not the double -0.2. *)
Lemma evaluate_rounds_the_sum :
  let x := [1; 0x1.0c6f7a0b5ed8ep-20]%float in
  row_fits row_x1_x2_le_1 x /\
  _gst_is_violation row_x1_x2_le_1 x = Ok false /\
  (1 + exact FUZZ < dot (row_lhs row_x1_x2_le_1) (exact <$> x))%Q /\
  (1 + (1 # 1000000) < dot (row_lhs row_x1_x2_le_1) (exact <$> x))%Q /\
  (rounded_sum (row_lhs row_x1_x2_le_1) x 0 = of_int 1 + FUZZ)%float /\
  exists s,
    compute_slack_value row_x1_x2_le_1 [0x1.3333333333333p-1; 0x1.3333333333333p-1]%float
      = Ok s /\
    PrimFloat.eqb s (-0x1.999999999999ap-3) = false.
Proof.
  cbv zeta. split; [vm_compute; repeat split; lia|].
  split; [vm_compute; reflexivity|]. split; [vm_compute; reflexivity|].
  split; [vm_compute; reflexivity|]. split; [vm_compute; reflexivity|].
  eexists. split; vm_compute; reflexivity.
Qed.

(** ** Reduction of a row to lowest terms *)

(** The entries of a row up to and including the one that ends it. *)
Fixpoint row_full (cp : list rcoef) : list rcoef :=
  match cp with
  | [] => []
  | c :: cp' => if var c <? RC_VAR_BASE then [c] else c :: row_full cp'
  end.

(** The greatest common divisor of the coefficients and the right-hand side
    of a row. *)
Definition list_gcd (l : list rcoef) : Z := foldr (fun c g => Z.gcd (val c) g) 0 l.
Definition row_gcd (cp : list rcoef) : Z := list_gcd (row_full cp).

(** The row with every coefficient and the right-hand side divided by [g];
    what follows the row in the buffer stays as it is. *)
Fixpoint scale_down (g : Z) (cp : list rcoef) : list rcoef :=
  match cp with
  | [] => []
  | c :: cp' =>
      mk_rcoef (var c) (val c / g)
      :: (if var c <? RC_VAR_BASE then cp' else scale_down g cp')
  end.

(** Every value of the row can be negated in a C [int]. *)
Definition row_in_range (cp : list rcoef) : Prop :=
  Forall (fun c => INT_MIN < val c <= INT_MAX) (row_full cp).

(** The row has at least one coefficient. *)
Definition row_nonempty (cp : list rcoef) : Prop :=
  match cp with
  | [] => False
  | c :: _ => RC_VAR_BASE <= var c
  end.

Lemma wrap32_id (z : Z) : INT_MIN <= z <= INT_MAX -> wrap32 z = z.
Proof.
  unfold wrap32, INT_MIN, INT_MAX. intros H.
  rewrite Z.mod_small by lia. lia.
Qed.

Lemma positive_part_Ok (v k : Z) :
  INT_MIN < v <= INT_MAX -> positive_part v = Ok k -> k = Z.abs v /\ 0 < k.
Proof.
  unfold positive_part, INT_MIN, INT_MAX. intros Hr.
  destruct (Z.leb_spec v 0).
  - destruct (Z.eqb_spec v 0); [discriminate|].
    rewrite wrap32_id by (unfold INT_MIN, INT_MAX; lia). intros [= <-]. lia.
  - intros [= <-]. lia.
Qed.

Lemma positive_part_nonzero (v : Z) :
  INT_MIN < v <= INT_MAX -> v <> 0 -> positive_part v = Ok (Z.abs v).
Proof.
  unfold positive_part, INT_MIN, INT_MAX. intros Hr Hnz.
  destruct (Z.leb_spec v 0).
  - destruct (Z.eqb_spec v 0); [contradiction|].
    rewrite wrap32_id by (unfold INT_MIN, INT_MAX; lia). f_equal. lia.
  - f_equal. lia.
Qed.

Lemma euclid_gcd (fuel : nat) (k j : Z) :
  0 < k -> 0 <= j -> (Z.to_nat j < fuel)%nat -> euclid fuel k j = Ok (Z.gcd k j).
Proof.
  revert k j. induction fuel as [|fuel IH]; intros k j Hk Hj Hf; [lia|].
  cbn [euclid]. destruct (Z.ltb_spec 0 j) as [Hpos|Hz].
  - assert (Hrem : Z.rem k j = k mod j) by (apply Z.rem_mod_nonneg; lia).
    pose proof (Z.mod_pos_bound k j Hpos) as Hb.
    rewrite IH by (rewrite ?Hrem; lia).
    f_equal. rewrite Hrem. rewrite (Z.gcd_comm j). rewrite Z.gcd_mod by lia.
    apply Z.gcd_comm.
  - assert (j = 0) as -> by lia. rewrite Z.gcd_0_r. f_equal. lia.
Qed.

#[local] Arguments euclid : simpl never.

Lemma list_gcd_nonneg (l : list rcoef) : 0 <= list_gcd l.
Proof. destruct l; simpl; [lia|apply Z.gcd_nonneg]. Qed.

Lemma list_gcd_divides (l : list rcoef) (c : rcoef) :
  In c l -> (list_gcd l | val c).
Proof.
  induction l as [|a l IH]; simpl; [contradiction|].
  intros [->|Hin].
  - apply Z.gcd_divide_l.
  - etransitivity; [apply Z.gcd_divide_r|apply IH, Hin].
Qed.

(** What the first loop returns, in terms of the greatest common divisor. *)
Lemma common_factor_spec (ps : list rcoef) (g0 : Z) (r : option Z) :
  0 < g0 ->
  Forall (fun c => INT_MIN < val c <= INT_MAX) (row_full ps) ->
  common_factor g0 ps = Ok r ->
  match r with
  | None => Z.gcd g0 (list_gcd (row_full ps)) = 1
  | Some g => g = Z.gcd g0 (list_gcd (row_full ps)) /\ g <> 1
  end.
Proof.
  revert g0. induction ps as [|p ps IH]; intros g0 Hg0 Hr H; simpl in *; [discriminate|].
  inv_bind H. inv_bind H.
  assert (Hp : INT_MIN < val p <= INT_MAX).
  { destruct (var p <? RC_VAR_BASE); inversion Hr; auto. }
  destruct (positive_part_Ok _ _ Hp Hm) as [-> Hk].
  rewrite euclid_gcd in Hm0 by lia. injection Hm0 as <-.
  assert (Hgcd : forall t, Z.gcd g0 (Z.gcd (val p) t) = Z.gcd (Z.gcd (Z.abs (val p)) g0) t).
  { intros t. rewrite Z.gcd_abs_l. rewrite (Z.gcd_comm (val p) g0).
    apply Z.gcd_assoc. }
  destruct (Z.eqb_spec (Z.gcd (Z.abs (val p)) g0) 1) as [E1|E1].
  - injection H as <-.
    destruct (var p <? RC_VAR_BASE); simpl; rewrite Hgcd, E1; apply Z.gcd_1_l.
  - destruct (var p <? RC_VAR_BASE) eqn:Ev.
    + injection H as <-. simpl. rewrite Hgcd, Z.gcd_0_r.
      split; [|exact E1]. symmetry. apply Z.abs_eq, Z.gcd_nonneg.
    + inversion Hr; subst.
      assert (Hpos : 0 < Z.gcd (Z.abs (val p)) g0).
      { pose proof (Z.gcd_nonneg (Z.abs (val p)) g0).
        assert (Z.gcd (Z.abs (val p)) g0 <> 0); [|lia].
        intros E0. apply Z.gcd_eq_0_r in E0. lia. }
      specialize (IH _ Hpos H3 H).
      simpl. destruct r as [g|]; rewrite Hgcd; exact IH.
Qed.

Lemma common_factor_total (ps : list rcoef) (g0 : Z) :
  0 < g0 ->
  Forall (fun c => INT_MIN < val c <= INT_MAX /\ val c <> 0) (row_full ps) ->
  row_end ps <> None ->
  exists r, common_factor g0 ps = Ok r.
Proof.
  revert g0. induction ps as [|p ps IH]; intros g0 Hg0 Hr Hend; simpl in *;
    [contradiction|].
  assert (Hp : INT_MIN < val p <= INT_MAX /\ val p <> 0).
  { destruct (var p <? RC_VAR_BASE); inversion Hr; auto. }
  destruct Hp as [Hp Hnz].
  rewrite positive_part_nonzero by auto. simpl.
  rewrite euclid_gcd by lia. simpl.
  destruct (Z.eqb_spec (Z.gcd (Z.abs (val p)) g0) 1); [eauto|].
  destruct (var p <? RC_VAR_BASE) eqn:Ev; [eauto|].
  inversion Hr; subst. apply IH; auto.
  pose proof (Z.gcd_nonneg (Z.abs (val p)) g0).
  assert (Z.gcd (Z.abs (val p)) g0 <> 0); [|lia].
  intros E0. apply Z.gcd_eq_0_r in E0. lia.
Qed.

Lemma divide_row_spec (g : Z) (ps : list rcoef) :
  0 < g ->
  Forall (fun c => (g | val c)) (row_full ps) ->
  row_end ps <> None ->
  divide_row g ps = Ok (scale_down g ps).
Proof.
  intros Hg. induction ps as [|p ps IH]; intros Hd Hend; simpl in *; [contradiction|].
  assert (Hp : (g | val p)).
  { destruct (var p <? RC_VAR_BASE); inversion Hd; auto. }
  destruct Hp as [q Hq].
  assert (Hrem : Z.rem (val p) g = 0) by (rewrite Hq; apply Z.rem_mul; lia).
  assert (Hquot : Z.quot (val p) g = val p / g).
  { rewrite Hq. rewrite Z.quot_mul by lia. rewrite Z.div_mul by lia. reflexivity. }
  rewrite Hrem. simpl. rewrite Hquot.
  destruct (var p <? RC_VAR_BASE) eqn:Ev; [reflexivity|].
  inversion Hd; subst. rewrite IH by auto. reflexivity.
Qed.

Lemma scale_down_1 (cp : list rcoef) : scale_down 1 cp = cp.
Proof.
  induction cp as [|c cp IH]; simpl; [reflexivity|].
  rewrite Z.div_1_r. destruct c as [v a]. simpl.
  destruct (v <? RC_VAR_BASE); [reflexivity|]. now rewrite IH.
Qed.

Lemma row_end_full (cp : list rcoef) (e : rcoef) :
  row_end cp = Some e -> In e (row_full cp).
Proof.
  induction cp as [|c cp IH]; simpl; [discriminate|].
  destruct (var c <? RC_VAR_BASE).
  - intros [= ->]. now left.
  - intros H. right. auto.
Qed.

Lemma gcd_pos_l (a b : Z) : a <> 0 -> 0 < Z.gcd a b.
Proof.
  intros Ha. pose proof (Z.gcd_nonneg a b).
  assert (Z.gcd a b <> 0); [|lia].
  intros E0. apply Z.gcd_eq_0_l in E0. lia.
Qed.

Lemma row_gcd_divides_all (p0 : rcoef) (ps : list rcoef) :
  Forall (fun c => (Z.gcd (val p0) (list_gcd (row_full ps)) | val c))
         (p0 :: row_full ps).
Proof.
  constructor; [apply Z.gcd_divide_l|].
  apply List.Forall_forall. intros c Hc.
  etransitivity; [apply Z.gcd_divide_r|].
  apply list_gcd_divides, Hc.
Qed.

(** [reduce_constraint], when it returns, has divided the row by the
    greatest common divisor of its coefficients and right-hand side. *)
Lemma reduce_constraint_spec (rp rp' : list rcoef) :
  row_nonempty rp -> row_in_range rp -> row_end rp <> None ->
  reduce_constraint rp = Ok rp' ->
  0 < row_gcd rp /\ rp' = scale_down (row_gcd rp) rp.
Proof.
  unfold row_gcd, row_in_range. destruct rp as [|p0 ps]; [contradiction|].
  intros Hne Hr Hend H. unfold row_nonempty in Hne.
  assert (Hv : (var p0 <? RC_VAR_BASE) = false) by (apply Z.ltb_ge; lia).
  assert (Hfull : row_full (p0 :: ps) = p0 :: row_full ps)
    by (cbn [row_full]; rewrite Hv; reflexivity).
  assert (Hend' : row_end ps <> None)
    by (cbn [row_end] in Hend; rewrite Hv in Hend; exact Hend).
  rewrite Hfull in *.
  change (list_gcd (p0 :: row_full ps)) with (Z.gcd (val p0) (list_gcd (row_full ps))).
  inversion Hr as [|? ? Hp0 Hps]; subst.
  unfold reduce_constraint in H.
  inv_bind H. destruct (positive_part_Ok _ _ Hp0 Hm) as [-> Hk].
  assert (Hpos : 0 < Z.gcd (val p0) (list_gcd (row_full ps))) by (apply gcd_pos_l; lia).
  split; [exact Hpos|].
  destruct (Z.eqb_spec (Z.abs (val p0)) 1) as [E1|E1].
  - injection H as <-.
    assert (Z.gcd (val p0) (list_gcd (row_full ps)) = 1) as ->.
    { rewrite <- Z.gcd_abs_l, E1. apply Z.gcd_1_l. }
    now rewrite scale_down_1.
  - inv_bind H.
    pose proof (common_factor_spec _ _ _ Hk Hps Hm0) as Hcf.
    rewrite Z.gcd_abs_l in Hcf.
    destruct a as [g|].
    + destruct Hcf as [-> _].
      rewrite divide_row_spec in H.
      * now injection H as <-.
      * exact Hpos.
      * rewrite Hfull. apply row_gcd_divides_all.
      * exact Hend.
    + injection H as <-. rewrite Hcf. now rewrite scale_down_1.
Qed.

(** A complete row in range none of whose values is zero is reduced. *)
Lemma reduce_constraint_total (rp : list rcoef) :
  row_nonempty rp -> row_end rp <> None ->
  Forall (fun c => INT_MIN < val c <= INT_MAX /\ val c <> 0) (row_full rp) ->
  exists rp', reduce_constraint rp = Ok rp'.
Proof.
  destruct rp as [|p0 ps]; [contradiction|].
  intros Hne Hend Hr. unfold row_nonempty in Hne.
  assert (Hv : (var p0 <? RC_VAR_BASE) = false) by (apply Z.ltb_ge; lia).
  assert (Hfull : row_full (p0 :: ps) = p0 :: row_full ps)
    by (cbn [row_full]; rewrite Hv; reflexivity).
  assert (Hend' : row_end ps <> None)
    by (cbn [row_end] in Hend; rewrite Hv in Hend; exact Hend).
  rewrite Hfull in Hr.
  inversion Hr as [|? ? [Hp0 Hnz] Hps]; subst.
  unfold reduce_constraint.
  rewrite positive_part_nonzero by auto. cbn [bind].
  destruct (Z.eqb_spec (Z.abs (val p0)) 1); [eauto|].
  destruct (common_factor_total ps (Z.abs (val p0))) as [r Hcf]; auto; [lia|].
  rewrite Hcf. cbn [bind]. destruct r as [g|]; [|eauto].
  assert (Hps' : Forall (fun c => INT_MIN < val c <= INT_MAX) (row_full ps)).
  { eapply List.Forall_impl; [|exact Hps]. intros c [H _]. exact H. }
  assert (Hk : 0 < Z.abs (val p0)) by lia.
  destruct (common_factor_spec _ _ _ Hk Hps' Hcf) as [-> _].
  rewrite Z.gcd_abs_l.
  eexists. apply divide_row_spec.
  - apply gcd_pos_l; lia.
  - rewrite Hfull. apply row_gcd_divides_all.
  - exact Hend.
Qed.

#[local] Arguments divide_row : simpl never.
#[local] Arguments common_factor : simpl never.

(** In exact arithmetic the left-hand side of a row is that of the row
    divided by [g], times [g]; and so is the right-hand side. *)
Lemma dot_scale_down (g : Z) (cp : list rcoef) (x : list Q) :
  0 < g ->
  Forall (fun c => (g | val c)) (row_full cp) ->
  (dot (row_lhs cp) x == inject_Z g * dot (row_lhs (scale_down g cp)) x)%Q.
Proof.
  intros Hg. induction cp as [|c cp IH]; intros Hd; simpl; [ring|].
  destruct (var c <? RC_VAR_BASE) eqn:Ev; simpl; [ring|].
  simpl in Hd. rewrite Ev in Hd. inversion Hd as [|? ? Hc Hcs]; subst.
  rewrite (IH Hcs). destruct Hc as [q Hq]. rewrite Hq, Z.div_mul by lia.
  rewrite inject_Z_mult. ring.
Qed.

Lemma row_end_scaled (g : Z) (cp : list rcoef) (e : rcoef) :
  row_end cp = Some e ->
  row_end (scale_down g cp) = Some (mk_rcoef (var e) (val e / g)).
Proof.
  induction cp as [|c cp IH]; [discriminate|].
  cbn [scale_down row_end var].
  destruct (var c <? RC_VAR_BASE) eqn:Ev.
  - now intros [= ->].
  - exact IH.
Qed.

(** The rows of the specification's example. *)
Definition row_6_9_15_le_30 : list rcoef :=
  [mk_rcoef (RC_VAR_BASE + 0) 6; mk_rcoef (RC_VAR_BASE + 1) 9;
   mk_rcoef (RC_VAR_BASE + 2) 15; mk_rcoef RC_OP_LE 30].
Definition row_2_3_5_le_10 : list rcoef :=
  [mk_rcoef (RC_VAR_BASE + 0) 2; mk_rcoef (RC_VAR_BASE + 1) 3;
   mk_rcoef (RC_VAR_BASE + 2) 5; mk_rcoef RC_OP_LE 10].

(** C3, as the code has it.  [reduce_constraint] divides every coefficient
    and the right-hand side of a row by their greatest common divisor [g],
    so the row [6, 9, 15] with right-hand side 30 becomes [2, 3, 5] with
    right-hand side 10.  The reduced row has the operator of the row as
    given and, in exact arithmetic, is the same constraint: at every
    rational vector the left-hand side minus the right-hand side of the row
    as given is [g] times that of the reduced row, so the one is at most
    zero, or at least zero, exactly when the other is.  Nothing is said of
    what [_gst_is_violation] reports for the two rows, whose sums are
    rounded and compared against the one tolerance [FUZZ]. *)
Theorem reduce_constraint_lowest_terms :
  (forall rp rp' : list rcoef,
      row_nonempty rp -> row_in_range rp -> row_end rp <> None ->
      reduce_constraint rp = Ok rp' ->
      let g := row_gcd rp in
      0 < g /\
      Forall (fun c => (g | val c)) (row_full rp) /\
      rp' = scale_down g rp /\
      exists e e' : rcoef,
        row_end rp = Some e /\ row_end rp' = Some e' /\
        var e' = var e /\ val e = g * val e' /\
        forall x : list Q,
          let excess := (dot (row_lhs rp) x - inject_Z (val e))%Q in
          let excess' := (dot (row_lhs rp') x - inject_Z (val e'))%Q in
          (excess == inject_Z g * excess')%Q /\
          ((excess <= 0)%Q <-> (excess' <= 0)%Q) /\
          ((0 <= excess)%Q <-> (0 <= excess')%Q)) /\
  reduce_constraint row_6_9_15_le_30 = Ok row_2_3_5_le_10.
Proof.
  split; [|reflexivity].
  intros rp rp' Hne Hr Hend H g.
  destruct (reduce_constraint_spec _ _ Hne Hr Hend H) as [Hg ->]. fold g in Hg |- *.
  assert (Hd : Forall (fun c => (g | val c)) (row_full rp)).
  { apply List.Forall_forall. intros c Hc. apply list_gcd_divides, Hc. }
  split; [exact Hg|]. split; [exact Hd|]. split; [reflexivity|].
  destruct (row_end rp) as [e|] eqn:He; [|contradiction].
  exists e, (mk_rcoef (var e) (val e / g)).
  split; [reflexivity|]. split; [now apply row_end_scaled|]. split; [reflexivity|].
  assert (Hq : val e = g * (val e / g)).
  { apply row_end_full in He. rewrite List.Forall_forall in Hd.
    destruct (Hd _ He) as [q Hq]. rewrite Hq, Z.div_mul by lia. lia. }
  split; [exact Hq|].
  intros x. cbv zeta. cbn [val].
  assert (HG : (0 < inject_Z g)%Q)
    by (change 0%Q with (inject_Z 0); now rewrite <- Zlt_Qlt).
  assert (E : (dot (row_lhs rp) x - inject_Z (val e)
               == inject_Z g * (dot (row_lhs (scale_down g rp)) x - inject_Z (val e / g)))%Q).
  { rewrite (dot_scale_down g rp x Hg Hd). rewrite Hq at 1. rewrite inject_Z_mult. ring. }
  split; [exact E|]. rewrite E.
  set (d := (dot (row_lhs (scale_down g rp)) x - inject_Z (val e / g))%Q).
  set (G := inject_Z g) in *.
  split; split; intros Hle; nra.
Qed.

(** [reduce_constraint_lowest_terms] at the row [4 x1 - 6 x2 >= 8]. *)
Lemma reduce_constraint_lowest_terms_witness :
  let rp := [mk_rcoef 3 4; mk_rcoef 4 (-6); mk_rcoef RC_OP_GE 8] in
  let rp' := [mk_rcoef 3 2; mk_rcoef 4 (-3); mk_rcoef RC_OP_GE 4] in
  (row_nonempty rp /\ row_in_range rp /\ row_end rp <> None /\
   reduce_constraint rp = Ok rp') /\
  (0 < row_gcd rp /\
   Forall (fun c => (row_gcd rp | val c)) (row_full rp) /\
   rp' = scale_down (row_gcd rp) rp /\
   exists e e' : rcoef,
     row_end rp = Some e /\ row_end rp' = Some e' /\
     var e' = var e /\ val e = row_gcd rp * val e' /\
     forall x : list Q,
       let excess := (dot (row_lhs rp) x - inject_Z (val e))%Q in
       let excess' := (dot (row_lhs rp') x - inject_Z (val e'))%Q in
       (excess == inject_Z (row_gcd rp) * excess')%Q /\
       ((excess <= 0)%Q <-> (excess' <= 0)%Q) /\
       ((0 <= excess)%Q <-> (0 <= excess')%Q)).
Proof.
  intros rp rp'.
  assert (H1 : row_nonempty rp) by (vm_compute; discriminate).
  assert (H2 : row_in_range rp)
    by (repeat constructor; vm_compute; try reflexivity; discriminate).
  assert (H3 : row_end rp <> None) by discriminate.
  assert (H4 : reduce_constraint rp = Ok rp') by reflexivity.
  split; [auto|].
  exact (proj1 reduce_constraint_lowest_terms rp rp' H1 H2 H3 H4).
Defined.

(** C3, as the claim words it, fails in both directions.  The tolerance is
    not scaled with the row: at x1 = 5.00000025, x2 = x3 = 0 the row
    [6, 9, 15 <= 30] is reported violated (it is exceeded by 1.5e-6) and its
    reduced form [2, 3, 5 <= 10] is not (it is exceeded by 0.5e-6).  And the
    sums of the two rows are rounded differently: at the second vector the
    row [3, 3, -3 <= 3] is not reported violated, its sum being the double
    3, while its reduced form [1, 1, -1 <= 1] is, with the sum
    1.0000152587890625. *)
Lemma reduced_row_classification_differs :
  (let x := [0x1.4000010c6f7a1p+2; 0; 0]%float in
   reduce_constraint row_6_9_15_le_30 = Ok row_2_3_5_le_10 /\
   _gst_is_violation row_6_9_15_le_30 x = Ok true /\
   _gst_is_violation row_2_3_5_le_10 x = Ok false) /\
  (let rp := [mk_rcoef 3 3; mk_rcoef 4 3; mk_rcoef 5 (-3); mk_rcoef RC_OP_LE 3] in
   let rp' := [mk_rcoef 3 1; mk_rcoef 4 1; mk_rcoef 5 (-1); mk_rcoef RC_OP_LE 1] in
   let x := [0x1.5893de3ca5966p+36; 0x1.32cf43b5b01d9p+0; 0x1.5893de3ca8c34p+36]%float in
   reduce_constraint rp = Ok rp' /\
   _gst_is_violation rp x = Ok false /\
   _gst_is_violation rp' x = Ok true /\
   rounded_sum (row_lhs rp) x 0 = 3%float /\
   rounded_sum (row_lhs rp') x 0 = 0x1.00010p+0%float).
Proof. cbv zeta. repeat split; vm_compute; reflexivity. Qed.

(** ** Adding a row to the pool *)

Lemma row_full_idem (ps : list rcoef) : row_full (row_full ps) = row_full ps.
Proof.
  induction ps as [|p ps IH]; simpl; [reflexivity|].
  destruct (var p <? RC_VAR_BASE) eqn:E; simpl; rewrite E; [reflexivity|].
  now rewrite IH.
Qed.

Lemma hash_row_full (ps : list rcoef) (hv ln : Z) :
  hash_row ps hv ln = hash_row (row_full ps) hv ln.
Proof.
  revert hv ln. induction ps as [|p ps IH]; intros hv ln; simpl; [reflexivity|].
  destruct (var p <? RC_VAR_BASE) eqn:E; simpl; rewrite E; [reflexivity|]. apply IH.
Qed.

Lemma hash_row_len (ps : list rcoef) (hv ln h l : Z) :
  hash_row ps hv ln = Ok (h, l) ->
  l = ln + Z.of_nat (length (row_lhs ps)) /\ row_end ps <> None.
Proof.
  revert hv ln. induction ps as [|p ps IH]; intros hv ln; simpl; [discriminate|].
  destruct (var p <? RC_VAR_BASE).
  - intros [= <- <-]. simpl. split; [lia|discriminate].
  - intros H. apply IH in H as [-> He]. split; [|exact He].
    simpl length. lia.
Qed.

Lemma take_row_full (ps : list rcoef) :
  row_end ps <> None -> take (S (length (row_lhs ps))) ps = row_full ps.
Proof.
  induction ps as [|p ps IH]; simpl; [contradiction|].
  destruct (var p <? RC_VAR_BASE); intros H.
  - now rewrite take_0.
  - simpl. now rewrite IH.
Qed.

Lemma scan_bucket_ext (fuel : nat) (rs : list rcon) (row ln : Z) (rp rp' : list rcoef) :
  take (Z.to_nat (ln + 1)) rp = take (Z.to_nat (ln + 1)) rp' ->
  scan_bucket fuel rs row ln rp = scan_bucket fuel rs row ln rp'.
Proof.
  intros Ht. revert row. induction fuel as [|fuel IH]; intros row; simpl; [reflexivity|].
  destruct (row <? 0); [reflexivity|].
  destruct (aget rs row) as [rcp| |]; simpl; try reflexivity.
  unfold same_coefs. rewrite Ht. destruct (_ && _); [reflexivity|apply IH].
Qed.

(** What a call of [_gst_add_constraint_to_pool] that returns has done. *)
Lemma add_constraint_inv (pool pool1 : cpool) (rp rp' : list rcoef) (b res : bool) :
  _gst_add_constraint_to_pool pool rp b = Ok (pool1, rp', res) ->
  exists hv0 ln head,
    reduce_constraint rp = Ok rp' /\
    hash_row rp' 0 0 = Ok (hv0, ln) /\
    0 <= bucket_of hv0 < CPOOL_HASH_SIZE /\
    aget (hash pool) (bucket_of hv0) = Ok head /\
    scan_bucket (S (length (rows pool))) (rows pool) head ln rp' = Ok (negb res) /\
    (res = false -> pool1 = pool) /\
    (res = true ->
     exists rcp,
       rows pool1 = rows pool ++ [rcp] /\
       len rcp = ln /\ coefs rcp = take (Z.to_nat (ln + 1)) rp' /\
       next rcp = head /\ hval rcp = bucket_of hv0 /\ uid rcp = pool_uid pool /\
       refc rcp = 0 /\ flags rcp = 0 /\ biter rcp = iter pool /\
       lprow rcp = (if b then -2 else -1) /\
       hash pool1 = <[Z.to_nat (bucket_of hv0) := nrows pool]> (hash pool) /\
       (Z.to_nat (bucket_of hv0) < length (hash pool))%nat /\
       pool_uid pool1 = pool_uid pool + 1 /\
       num_nz pool1 = num_nz pool + ln /\
       initrows pool1 = initrows pool /\ iter pool1 = iter pool /\
       nlprows pool1 = nlprows pool /\
       npend pool1 = (if b then npend pool + 1 else npend pool)).
Proof.
  unfold _gst_add_constraint_to_pool. intros H.
  inv_bind H. rename a into rq. inv_bind H. destruct a as [hv0 ln].
  inv_fatal H. inv_bind H. rename a into head. inv_bind H. rename a into dup.
  apply orb_false_iff in Hc as [Hc1 Hc2].
  apply Z.ltb_ge in Hc1. rewrite Z.geb_leb in Hc2. apply Z.leb_gt in Hc2.
  exists hv0, ln, head.
  destruct dup.
  - injection H as <- <- <-.
    repeat split; auto; try lia; try discriminate.
  - destruct (_ <=? nrows pool) eqn:Ecap; [discriminate|].
    inv_bind H. rename a into hash'. inv_bind H. rename a into pool''.
    injection H as <- <- <-.
    apply aset_Ok_inv in Hm3 as [Hrange ->].
    repeat split; auto; try lia; try discriminate.
    intros _.
    destruct b.
    + unfold _gst_mark_row_pending_to_LP in Hm4. cbn [rows nrows] in Hm4.
      inv_fatal Hm4. inv_bind Hm4.
      apply aget_Ok_inv in Hm3 as [_ Hl].
      unfold nrows in Hl. rewrite Nat2Z.id in Hl.
      rewrite lookup_app_r in Hl by lia. rewrite Nat.sub_diag in Hl.
      injection Hl as <-. cbn [lprow] in Hm4. cbn [orb Z.geb Z.eqb Z.compare] in Hm4.
      inv_fatal Hm4. inv_bind Hm4. inv_bind Hm4. injection Hm4 as <-.
      apply aset_Ok_inv in Hm3 as [_ ->].
      eexists. cbn. split.
      { unfold nrows. rewrite Nat2Z.id.
        rewrite insert_app_r_alt by lia. rewrite Nat.sub_diag. reflexivity. }
      cbn. repeat split; auto; lia.
    + injection Hm4 as <-. eexists. cbn. repeat split; auto; lia.
Qed.

(** *** Bucket chains *)

(** [chain rs j l]: following the [next] links from row [j] visits the rows
    [l], in this order, and then meets a negative link. *)
Inductive chain (rs : list rcon) : Z -> list Z -> Prop :=
| chain_end (j : Z) : j < 0 -> chain rs j []
| chain_link (j : Z) (rc : rcon) (l : list Z) :
    0 <= j -> rs !! Z.to_nat j = Some rc -> chain rs (next rc) l -> chain rs j (j :: l).

Lemma chain_det (rs : list rcon) (j : Z) (l1 l2 : list Z) :
  chain rs j l1 -> chain rs j l2 -> l1 = l2.
Proof.
  intros H1. revert l2. induction H1 as [j Hj|j rc l Hj Hl _ IH]; intros l2 H2.
  - inversion H2; subst; [reflexivity|lia].
  - inversion H2 as [|? rc' l' ? Hl' Hc']; subst; [lia|].
    rewrite Hl in Hl'. injection Hl' as <-. f_equal. apply IH, Hc'.
Qed.

Lemma chain_in_range (rs : list rcon) (j : Z) (l : list Z) (k : Z) :
  chain rs j l -> k ∈ l -> 0 <= k < Z.of_nat (length rs).
Proof.
  induction 1 as [|j rc l Hj Hl _ IH]; intros Hk.
  - inversion Hk.
  - apply elem_of_cons in Hk as [->|Hk]; [|auto].
    apply lookup_lt_Some in Hl. lia.
Qed.

Lemma chain_app (rs extra : list rcon) (j : Z) (l : list Z) :
  chain rs j l -> chain (rs ++ extra) j l.
Proof.
  induction 1 as [j Hj|j rc l Hj Hl _ IH]; [now constructor|].
  econstructor; eauto. apply lookup_app_l_Some, Hl.
Qed.

(** Distinct valid row numbers are no more than there are rows. *)
Lemma NoDup_range_length (n : nat) (l : list Z) :
  NoDup l -> (forall k, k ∈ l -> 0 <= k < Z.of_nat n) -> (length l <= n)%nat.
Proof.
  intros Hnd Hr.
  assert (Hnd' : NoDup (Z.to_nat <$> l)).
  { apply NoDup_fmap_2_strong; [|exact Hnd].
    intros a b Ha Hb E. apply Hr in Ha, Hb. lia. }
  assert (Hsub : Z.to_nat <$> l ⊆+ seq 0 n).
  { apply NoDup_submseteq; [exact Hnd'|].
    intros k Hk. apply list_elem_of_fmap in Hk as (z & -> & Hz).
    apply Hr in Hz. apply elem_of_seq. lia. }
  apply submseteq_length in Hsub. rewrite length_fmap, length_seq in Hsub. exact Hsub.
Qed.

(** The row header [rcp] holds the row [rp], of [ln] coefficients. *)
Definition row_matches (ln : Z) (rp : list rcoef) (rcp : rcon) : bool :=
  (len rcp =? ln) && same_coefs ln (coefs rcp) rp.

Definition chain_has (rs : list rcon) (ln : Z) (rp : list rcoef) (l : list Z) : bool :=
  existsb (fun j => match rs !! Z.to_nat j with
                    | Some rcp => row_matches ln rp rcp
                    | None => false
                    end) l.

Lemma scan_bucket_chain (fuel : nat) (rs : list rcon) (row ln : Z) (rp : list rcoef)
    (l : list Z) :
  chain rs row l -> (length l < fuel)%nat ->
  scan_bucket fuel rs row ln rp = Ok (chain_has rs ln rp l).
Proof.
  intros Hc. revert fuel. induction Hc as [j Hj|j rc l Hj Hl _ IH]; intros fuel Hf.
  - destruct fuel; simpl; destruct (Z.ltb_spec j 0); try lia; reflexivity.
  - destruct fuel as [|fuel]; simpl in Hf; [lia|].
    simpl. destruct (Z.ltb_spec j 0); [lia|].
    rewrite (aget_Ok _ _ _ Hj Hl). simpl. rewrite Hl.
    unfold row_matches. destruct (_ && _); [reflexivity|].
    apply IH. lia.
Qed.

(** *** The invariant of the hash index *)

(** A stored row header: the coefficients are the row itself, the length
    and the bucket are those of the row. *)
Definition stored_ok (rcp : rcon) : Prop :=
  coefs rcp = row_full (coefs rcp) /\
  row_end (coefs rcp) <> None /\
  len rcp = Z.of_nat (length (row_lhs (coefs rcp))) /\
  exists hv0, hash_row (coefs rcp) 0 0 = Ok (hv0, len rcp) /\ hval rcp = bucket_of hv0.

(** The chain of bucket [h] visits the rows [l]. *)
Definition bucket_chain (p : cpool) (h : Z) (l : list Z) : Prop :=
  exists head, hash p !! Z.to_nat h = Some head /\ chain (rows p) head l.

(** Every bucket chain is a duplicate-free list of rows of that bucket, and
    every row is on the chain of its bucket. *)
Definition pool_hash_ok (p : cpool) : Prop :=
  length (hash p) = Z.to_nat CPOOL_HASH_SIZE /\
  (forall h, 0 <= h < CPOOL_HASH_SIZE ->
     exists l, bucket_chain p h l /\ NoDup l /\
               forall j, j ∈ l ->
                 exists rcp, rows p !! Z.to_nat j = Some rcp /\ hval rcp = h) /\
  (forall j rcp, rows p !! j = Some rcp ->
     stored_ok rcp /\ exists l, bucket_chain p (hval rcp) l /\ Z.of_nat j ∈ l).

(** No two rows of the pool have the same coefficients, operator and
    right-hand side. *)
Definition pool_rows_distinct (p : cpool) : Prop :=
  forall i j ri rj,
    rows p !! i = Some ri -> rows p !! j = Some rj -> coefs ri = coefs rj -> i = j.

(** The arrays are large enough for the rows registered in them. *)
Definition pool_capacity_ok (p : cpool) : Prop :=
  length (lprows p) = Z.to_nat (maxrows p) /\
  0 < maxrows p /\ nrows p <= maxrows p /\
  0 <= nlprows p /\ 0 <= npend p /\ nlprows p + npend p <= nrows p.

(** The pool holds the row [rp]. *)
Definition pool_holds (p : cpool) (rp : list rcoef) : Prop :=
  exists rcp, rcp ∈ rows p /\ coefs rcp = row_full rp.

Lemma bucket_of_range (hv : Z) : 0 <= bucket_of hv < CPOOL_HASH_SIZE.
Proof.
  unfold bucket_of, CPOOL_HASH_SIZE.
  pose proof (Z.rem_bound_abs hv 1009 ltac:(lia)).
  destruct (Z.ltb_spec (Z.rem hv 1009) 0); lia.
Qed.

Lemma row_lhs_full (ps : list rcoef) : row_lhs (row_full ps) = row_lhs ps.
Proof.
  induction ps as [|p ps IH]; simpl; [reflexivity|].
  destruct (var p <? RC_VAR_BASE) eqn:E; simpl; rewrite E; [reflexivity|].
  now rewrite IH.
Qed.

Lemma row_end_full_eq (ps : list rcoef) : row_end (row_full ps) = row_end ps.
Proof.
  induction ps as [|p ps IH]; simpl; [reflexivity|].
  destruct (var p <? RC_VAR_BASE) eqn:E; simpl; rewrite E; [reflexivity|]. exact IH.
Qed.

Lemma hash_row_total (ps : list rcoef) (hv ln : Z) :
  row_end ps <> None -> exists h, hash_row ps hv ln = Ok (h, ln + Z.of_nat (length (row_lhs ps))).
Proof.
  revert hv ln. induction ps as [|p ps IH]; intros hv ln H; simpl in *; [contradiction|].
  destruct (var p <? RC_VAR_BASE).
  - exists hv. simpl. f_equal. f_equal. lia.
  - destruct (IH (_HASH (_HASH hv (var p)) (val p)) (ln + 1) H) as [h Hh].
    exists h. rewrite Hh. f_equal. f_equal. simpl length. lia.
Qed.

(** A header matches a row exactly when it stores that row. *)
Lemma row_matches_stored (rcp : rcon) (rp : list rcoef) :
  stored_ok rcp -> row_end rp <> None ->
  row_matches (Z.of_nat (length (row_lhs rp))) rp rcp = true <->
  coefs rcp = row_full rp.
Proof.
  intros (Hfull & Hend & Hlen & _) Hrp.
  unfold row_matches, same_coefs.
  replace (Z.to_nat (Z.of_nat (length (row_lhs rp)) + 1)) with (S (length (row_lhs rp)))
    by lia.
  rewrite (take_row_full rp Hrp).
  split.
  - intros H. apply andb_true_iff in H as [H1 H2].
    apply Z.eqb_eq in H1. apply bool_decide_eq_true in H2.
    rewrite <- H2. rewrite Hfull at 1. rewrite <- (take_row_full _ Hend).
    f_equal. lia.
  - intros H. apply andb_true_iff. split.
    + apply Z.eqb_eq. rewrite Hlen, H, row_lhs_full. reflexivity.
    + apply bool_decide_eq_true. rewrite H.
      transitivity (row_full (row_full rp)); [|apply row_full_idem].
      rewrite <- (row_lhs_full rp).
      apply take_row_full. rewrite row_end_full_eq. exact Hrp.
Qed.

(** *** A second call with the same normalized row *)

Lemma hash_row_same_full (rp rp' : list rcoef) (hv ln : Z) :
  row_full rp = row_full rp' -> hash_row rp hv ln = hash_row rp' hv ln.
Proof. intros H. rewrite (hash_row_full rp), (hash_row_full rp'), H. reflexivity. Qed.

Lemma hash_row_take (rp : list rcoef) (hv0 ln : Z) :
  hash_row rp 0 0 = Ok (hv0, ln) -> take (Z.to_nat (ln + 1)) rp = row_full rp.
Proof.
  intros H. apply hash_row_len in H as [-> He].
  replace (Z.to_nat (0 + Z.of_nat (length (row_lhs rp)) + 1))
    with (S (length (row_lhs rp))) by lia.
  apply take_row_full, He.
Qed.

Lemma add_second_duplicate (pool pool1 : cpool) (rp1 rp1' rp2 rp2' : list rcoef)
    (b1 b2 res1 : bool) :
  _gst_add_constraint_to_pool pool rp1 b1 = Ok (pool1, rp1', res1) ->
  reduce_constraint rp2 = Ok rp2' ->
  row_full rp2' = row_full rp1' ->
  _gst_add_constraint_to_pool pool1 rp2 b2 = Ok (pool1, rp2', false).
Proof.
  intros H1 Hred Hsame.
  apply add_constraint_inv in H1
    as (hv0 & ln & head & _ & Hhash & Hrange & Hhead & Hscan & Hdup & Hins).
  assert (Hhash2 : hash_row rp2' 0 0 = Ok (hv0, ln))
    by (rewrite (hash_row_same_full _ _ _ _ Hsame); exact Hhash).
  assert (Htake : take (Z.to_nat (ln + 1)) rp1' = take (Z.to_nat (ln + 1)) rp2').
  { rewrite (hash_row_take _ _ _ Hhash), (hash_row_take _ _ _ Hhash2). now symmetry. }
  unfold _gst_add_constraint_to_pool.
  rewrite Hred. cbn [bind]. rewrite Hhash2. cbn [bind].
  assert (Hf : fatal_if ((bucket_of hv0 <? 0) || (bucket_of hv0 >=? CPOOL_HASH_SIZE))
               = Ok tt).
  { destruct (Z.ltb_spec (bucket_of hv0) 0); [lia|].
    rewrite Z.geb_leb. destruct (Z.leb_spec CPOOL_HASH_SIZE (bucket_of hv0)); [lia|].
    reflexivity. }
  rewrite Hf. cbn [bind].
  destruct res1.
  - destruct (Hins eq_refl) as (rcp & Hrows & Hlen & Hcoefs & _ & _ & _ & _ & _ & _ & _
                                & Hh & Hlt & _).
    rewrite Hh.
    rewrite (aget_Ok _ _ (nrows pool)) by
      (first [lia | now apply list_lookup_insert_eq]).
    cbn [bind]. cbn [scan_bucket].
    destruct (Z.ltb_spec (nrows pool) 0); [unfold nrows in *; lia|].
    rewrite (aget_Ok _ _ rcp).
    + cbn [bind]. unfold same_coefs. rewrite Hlen, Z.eqb_refl, Hcoefs.
      rewrite take_take, Nat.min_id, Htake.
      rewrite bool_decide_eq_true_2 by reflexivity. reflexivity.
    + unfold nrows. lia.
    + rewrite Hrows. unfold nrows. rewrite Nat2Z.id.
      rewrite lookup_app_r by lia. now rewrite Nat.sub_diag.
  - rewrite (Hdup eq_refl). rewrite Hhead. cbn [bind].
    rewrite <- (scan_bucket_ext _ _ _ _ _ _ Htake), Hscan. reflexivity.
Qed.

(** *** The scan of the bucket finds the row exactly when the pool holds it *)

Lemma scan_bucket_pool (p : cpool) (rp : list rcoef) (hv0 ln : Z) :
  pool_hash_ok p -> hash_row rp 0 0 = Ok (hv0, ln) ->
  exists head r,
    aget (hash p) (bucket_of hv0) = Ok head /\
    scan_bucket (S (length (rows p))) (rows p) head ln rp = Ok r /\
    (r = true <-> pool_holds p rp).
Proof.
  intros (Hlen & Hchains & Hrows) Hhash.
  pose proof (bucket_of_range hv0) as Hr.
  destruct (Hchains _ Hr) as (l & (head & Hhead & Hchain) & Hnd & Hmem).
  destruct (hash_row_len _ _ _ _ _ Hhash) as [Hln Hend]. simpl in Hln.
  exists head, (chain_has (rows p) ln rp l).
  split; [apply aget_Ok; [lia|exact Hhead]|].
  split.
  { apply scan_bucket_chain; [exact Hchain|].
    pose proof (NoDup_range_length (length (rows p)) l Hnd
                  (fun k Hk => chain_in_range _ _ _ _ Hchain Hk)). lia. }
  unfold chain_has. rewrite existsb_exists. split.
  - intros (j & Hj & Hm).
    destruct (rows p !! Z.to_nat j) as [rcp|] eqn:E; [|discriminate].
    exists rcp. split; [eapply list_elem_of_lookup_2, E|].
    destruct (Hrows _ _ E) as [Hst _]. subst ln.
    now apply (row_matches_stored rcp rp Hst Hend).
  - intros (rcp & Hin & Hco).
    apply list_elem_of_lookup_1 in Hin as [j Hj].
    destruct (Hrows _ _ Hj) as [Hst (l' & (head' & Hhead' & Hchain') & Hjl)].
    destruct Hst as (Hfull & Hend' & Hlen' & hv0' & Hh' & Hv').
    assert (hv0' = hv0).
    { rewrite Hco, <- hash_row_full, Hhash in Hh'. congruence. }
    subst hv0'. rewrite Hv' in Hhead'. rewrite Hhead in Hhead'. injection Hhead' as <-.
    rewrite (chain_det _ _ _ _ Hchain' Hchain) in Hjl.
    exists (Z.of_nat j). split; [apply list_elem_of_In, Hjl|].
    rewrite Nat2Z.id, Hj. subst ln.
    apply (row_matches_stored rcp rp); [|exact Hend|exact Hco].
    repeat split; eauto.
Qed.

(** *** The invariants are kept *)

Lemma stored_ok_new (rp : list rcoef) (hv0 ln : Z) (rcp : rcon) :
  hash_row rp 0 0 = Ok (hv0, ln) ->
  len rcp = ln -> coefs rcp = take (Z.to_nat (ln + 1)) rp -> hval rcp = bucket_of hv0 ->
  stored_ok rcp /\ coefs rcp = row_full rp.
Proof.
  intros Hhash Hlen Hco Hv.
  rewrite (hash_row_take _ _ _ Hhash) in Hco.
  destruct (hash_row_len _ _ _ _ _ Hhash) as [Hln Hend]. simpl in Hln.
  split; [|exact Hco].
  unfold stored_ok. rewrite Hco, row_full_idem, row_end_full_eq, row_lhs_full.
  repeat split; auto; [lia|].
  exists hv0. rewrite <- hash_row_full, Hlen. auto.
Qed.

Lemma add_constraint_keeps_invariants (pool pool1 : cpool) (rp rp' : list rcoef)
    (b res : bool) :
  pool_hash_ok pool -> pool_rows_distinct pool ->
  _gst_add_constraint_to_pool pool rp b = Ok (pool1, rp', res) ->
  pool_hash_ok pool1 /\ pool_rows_distinct pool1.
Proof.
  intros Hok Hdist H.
  apply add_constraint_inv in H
    as (hv0 & ln & head & _ & Hhash & Hrange & Hhead & Hscan & Hdup & Hins).
  destruct res; [|rewrite (Hdup eq_refl); auto].
  destruct (Hins eq_refl) as (rcp & Hrows & Hlen & Hcoefs & Hnext & Hhv & _ & _ & _ & _ & _
                              & Hh & Hlt & _).
  clear Hdup Hins.
  destruct (stored_ok_new _ _ _ _ Hhash Hlen Hcoefs Hhv) as [Hst Hco].
  destruct (scan_bucket_pool _ _ _ _ Hok Hhash) as (head' & r & Hhead' & Hscan' & Hiff).
  rewrite Hhead in Hhead'. injection Hhead' as <-.
  rewrite Hscan in Hscan'. injection Hscan' as <-. simpl in Hiff.
  assert (Hnot : ~ pool_holds pool rp') by (intros Hh'; apply Hiff in Hh'; discriminate).
  destruct Hok as (Hlenh & Hchains & Hrowsok).
  apply aget_Ok_inv in Hhead as [_ Hhead].
  assert (Hnew : rows pool1 !! length (rows pool) = Some rcp).
  { rewrite Hrows, lookup_app_r by lia. now rewrite Nat.sub_diag. }
  (* the chain of every bucket after the insertion *)
  assert (Hch : forall h, 0 <= h < CPOOL_HASH_SIZE ->
            exists l, bucket_chain pool1 h l /\ NoDup l /\
              (forall j, j ∈ l -> exists rc, rows pool1 !! Z.to_nat j = Some rc /\ hval rc = h) /\
              (forall l0, bucket_chain pool h l0 -> forall j, j ∈ l0 -> j ∈ l) /\
              (h = bucket_of hv0 -> nrows pool ∈ l)).
  { intros h Hhr. destruct (Hchains h Hhr) as (l & (hd & Hhd & Hc) & Hnd & Hmem).
    destruct (Z.eq_dec h (bucket_of hv0)) as [->|Hne].
    - rewrite Hhead in Hhd. injection Hhd as <-.
      exists (nrows pool :: l). split; [|split; [|split; [|split]]].
      + exists (nrows pool). split; [rewrite Hh; now apply list_lookup_insert_eq|].
        econstructor; [unfold nrows; lia| |].
        * unfold nrows. rewrite Nat2Z.id. exact Hnew.
        * rewrite Hnext, Hrows. apply chain_app, Hc.
      + constructor; [|exact Hnd]. intros Hin.
        apply (chain_in_range _ _ _ _ Hc) in Hin. unfold nrows in Hin. lia.
      + intros j Hj. apply elem_of_cons in Hj as [->|Hj].
        * exists rcp. unfold nrows. rewrite Nat2Z.id. auto.
        * destruct (Hmem j Hj) as (rc & Hrc & Hv). exists rc. split; [|exact Hv].
          rewrite Hrows. apply lookup_app_l_Some, Hrc.
      + intros l0 (hd0 & Hhd0 & Hc0) j Hj. rewrite Hhead in Hhd0. injection Hhd0 as <-.
        rewrite (chain_det _ _ _ _ Hc0 Hc) in Hj. now right.
      + intros _. now left.
    - exists l. split; [|split; [|split; [|split]]].
      + exists hd. split; [rewrite Hh, list_lookup_insert_ne by lia; exact Hhd|].
        rewrite Hrows. apply chain_app, Hc.
      + exact Hnd.
      + intros j Hj. destruct (Hmem j Hj) as (rc & Hrc & Hv). exists rc. split; [|exact Hv].
        rewrite Hrows. apply lookup_app_l_Some, Hrc.
      + intros l0 (hd0 & Hhd0 & Hc0) j Hj. rewrite Hhd in Hhd0. injection Hhd0 as <-.
        now rewrite (chain_det _ _ _ _ Hc0 Hc) in Hj.
      + intros E. contradiction. }
  split.
  - split; [rewrite Hh, length_insert; exact Hlenh|]. split.
    + intros h Hhr. destruct (Hch h Hhr) as (l & H1 & H2 & H3 & _). eauto.
    + intros j rc Hj. rewrite Hrows in Hj.
      apply lookup_app_Some in Hj as [Hj|[Hge Hj]].
      * destruct (Hrowsok _ _ Hj) as [Hs (l0 & Hbc & Hjl)]. split; [exact Hs|].
        assert (Hvr : 0 <= hval rc < CPOOL_HASH_SIZE).
        { destruct Hs as (_ & _ & _ & hv' & _ & ->). apply bucket_of_range. }
        destruct (Hch _ Hvr) as (l & Hbc' & _ & _ & Hold & _).
        exists l. split; [exact Hbc'|]. eapply Hold; eauto.
      * destruct (length (rows pool)) eqn:E0 in Hj; destruct (j - _)%nat eqn:E1 in Hj;
          try (simpl in Hj; discriminate);
          try (destruct n; simpl in Hj; discriminate).
        all: simpl in Hj; injection Hj as <-.
        all: split; [exact Hst|].
        all: destruct (Hch _ Hrange) as (l & Hbc' & _ & _ & _ & Hn).
        all: rewrite Hhv; exists l; split; [exact Hbc'|].
        all: replace (Z.of_nat j) with (nrows pool) by (unfold nrows; lia); auto.
  - intros i j ri rj Hi Hj Heq. rewrite Hrows in Hi, Hj.
    apply lookup_app_Some in Hi as [Hi|[Hgi Hi]], Hj as [Hj|[Hgj Hj]].
    + eapply Hdist; eauto.
    + exfalso. apply Hnot. exists ri. split; [eapply list_elem_of_lookup_2, Hi|].
      apply list_lookup_singleton_Some in Hj as [_ <-]. congruence.
    + exfalso. apply Hnot. exists rj. split; [eapply list_elem_of_lookup_2, Hj|].
      apply list_lookup_singleton_Some in Hi as [_ <-]. congruence.
    + apply list_lookup_singleton_Some in Hi as [Hi _], Hj as [Hj _]. lia.
Qed.

(** *** A row the pool does not hold is inserted *)

Lemma mark_row_pending_total (pool : cpool) (row : Z) (rcp : rcon) :
  0 <= row -> rows pool !! Z.to_nat row = Some rcp -> lprow rcp = -1 ->
  0 <= nlprows pool + npend pool < Z.of_nat (length (lprows pool)) ->
  exists pool', _gst_mark_row_pending_to_LP pool row = Ok pool'.
Proof.
  intros Hrow Hl Hlp Hcap. unfold _gst_mark_row_pending_to_LP.
  pose proof (lookup_lt_Some _ _ _ Hl) as Hlt.
  assert (Hf : fatal_if ((row <? 0) || (row >=? nrows pool)) = Ok tt).
  { unfold nrows. destruct (Z.ltb_spec row 0); [lia|]. rewrite Z.geb_leb.
    destruct (Z.leb_spec (Z.of_nat (length (rows pool))) row); [lia|reflexivity]. }
  rewrite Hf. cbn [bind]. rewrite (aget_Ok _ _ _ Hrow Hl). cbn [bind].
  rewrite Hlp. cbn.
  rewrite aset_Ok by lia. cbn [bind].
  rewrite aset_Ok by lia. cbn [bind]. eauto.
Qed.

Lemma add_new_row_inserted (p : cpool) (rp rp' : list rcoef) (b : bool) :
  pool_hash_ok p -> pool_capacity_ok p ->
  reduce_constraint rp = Ok rp' -> row_end rp' <> None ->
  ~ pool_holds p rp' ->
  exists p1, _gst_add_constraint_to_pool p rp b = Ok (p1, rp', true).
Proof.
  intros Hok (Hcap & Hmax & Hnr & Hnl & Hnp & Hsum) Hred Hend Hnot.
  destruct (hash_row_total rp' 0 0 Hend) as [hv0 Hhash].
  destruct (scan_bucket_pool _ _ _ _ Hok Hhash) as (head & r & Hhead & Hscan & Hiff).
  assert (r = false) as -> by (destruct r; [exfalso; apply Hnot, Hiff; reflexivity|reflexivity]).
  pose proof (bucket_of_range hv0) as Hr.
  unfold _gst_add_constraint_to_pool.
  rewrite Hred. cbn [bind]. rewrite Hhash. cbn [bind].
  assert (Hf : fatal_if ((bucket_of hv0 <? 0) || (bucket_of hv0 >=? CPOOL_HASH_SIZE))
               = Ok tt).
  { destruct (Z.ltb_spec (bucket_of hv0) 0); [lia|].
    rewrite Z.geb_leb. destruct (Z.leb_spec CPOOL_HASH_SIZE (bucket_of hv0)); [lia|].
    reflexivity. }
  rewrite Hf. cbn [bind]. rewrite Hhead. cbn [bind]. rewrite Hscan. cbn [bind].
  set (ln := 0 + Z.of_nat (length (row_lhs rp'))).
  set (maxrows' := if nrows p >=? maxrows p then 2 * maxrows p else maxrows p).
  assert (Hm' : nrows p < maxrows').
  { unfold maxrows'. rewrite Z.geb_leb.
    destruct (Z.leb_spec (maxrows p) (nrows p)); lia. }
  destruct (Z.leb_spec maxrows' (nrows p)); [lia|].
  destruct Hok as (Hlenh & _).
  rewrite aset_Ok by lia. cbn [bind].
  destruct b; [|eauto].
  match goal with
  | |- context [_gst_mark_row_pending_to_LP ?q ?r] =>
      destruct (mark_row_pending_total q r
                  (mk_rcon ln (take (Z.to_nat (ln + 1)) rp') head (-1) (iter p)
                           (bucket_of hv0) 0 (pool_uid p) 0)) as [p1 Hp1]
  end.
  - unfold nrows. lia.
  - cbn [rows]. unfold nrows. rewrite Nat2Z.id, lookup_app_r by lia.
    now rewrite Nat.sub_diag.
  - reflexivity.
  - cbn [nlprows npend lprows]. split; [lia|].
    unfold maxrows' in *. rewrite Z.geb_leb in *.
    destruct (Z.leb_spec (maxrows p) (nrows p)).
    + rewrite length_app, length_take, length_replicate. unfold nrows in *. lia.
    + lia.
  - rewrite Hp1. cbn [bind]. eauto.
Qed.

(** The empty pool satisfies the invariants. *)
Lemma empty_pool_ok (rowsize : Z) :
  0 < rowsize ->
  pool_hash_ok (empty_pool rowsize) /\ pool_rows_distinct (empty_pool rowsize) /\
  pool_capacity_ok (empty_pool rowsize).
Proof.
  intros Hpos. split; [|split].
  - split; [apply length_replicate|]. split.
    + intros h Hh. exists []. split; [|split; [constructor|]].
      * exists (-1). split; [|constructor; lia].
        cbn [hash empty_pool]. apply lookup_replicate. split; [reflexivity|lia].
      * intros j Hj. inversion Hj.
    + intros j rcp Hj. cbn in Hj. discriminate.
  - intros i j ri rj Hi. cbn in Hi. discriminate.
  - unfold pool_capacity_ok, nrows. cbn. rewrite length_replicate. lia.
Qed.

(** A scaled variant of the example row. *)
Definition row_12_18_30_le_60 : list rcoef :=
  [mk_rcoef (RC_VAR_BASE + 0) 12; mk_rcoef (RC_VAR_BASE + 1) 18;
   mk_rcoef (RC_VAR_BASE + 2) 30; mk_rcoef RC_OP_LE 60].

(** C2, as the code has it.  Whatever the pool, once a row has been handed
    to [_gst_add_constraint_to_pool], a second call with a row of the same
    normalized form (a scaled variant, for one) returns "duplicate" and
    leaves the pool, hence the number of stored rows, as it is.  The first
    call stores one row and returns "inserted" exactly when the pool does
    not hold the normalized row yet, and returns "duplicate" and changes
    nothing when it does; a row the pool does not hold is always inserted.
    The pool never comes to hold two rows of the same normalized form.  From
    the empty pool, [6, 9, 15 <= 30] is inserted as [2, 3, 5 <= 10] and its
    scaled variant [12, 18, 30 <= 60] is then a duplicate: one row is
    stored. *)
Theorem add_row_stores_one_copy :
  (forall (pool pool1 : cpool) (rp1 rp1' rp2 rp2' : list rcoef) (b1 b2 res1 : bool),
      _gst_add_constraint_to_pool pool rp1 b1 = Ok (pool1, rp1', res1) ->
      reduce_constraint rp2 = Ok rp2' ->
      row_full rp2' = row_full rp1' ->
      _gst_add_constraint_to_pool pool1 rp2 b2 = Ok (pool1, rp2', false) /\
      (res1 = true -> nrows pool1 = nrows pool + 1) /\
      (res1 = false -> pool1 = pool) /\
      (pool_hash_ok pool ->
       (res1 = true <-> ~ pool_holds pool rp1') /\ pool_holds pool1 rp1') /\
      (pool_hash_ok pool -> pool_rows_distinct pool ->
       pool_hash_ok pool1 /\ pool_rows_distinct pool1)) /\
  (forall (pool : cpool) (rp rp' : list rcoef) (b : bool),
      pool_hash_ok pool -> pool_capacity_ok pool ->
      reduce_constraint rp = Ok rp' -> row_end rp' <> None ->
      ~ pool_holds pool rp' ->
      exists pool1, _gst_add_constraint_to_pool pool rp b = Ok (pool1, rp', true)) /\
  (exists pool1,
      _gst_add_constraint_to_pool (empty_pool 4) row_6_9_15_le_30 true
      = Ok (pool1, row_2_3_5_le_10, true) /\
      _gst_add_constraint_to_pool pool1 row_12_18_30_le_60 true
      = Ok (pool1, row_2_3_5_le_10, false) /\
      nrows pool1 = 1).
Proof.
  split; [|split].
  - intros pool pool1 rp1 rp1' rp2 rp2' b1 b2 res1 H1 Hred Hsame.
    split; [eapply add_second_duplicate; eauto|].
    pose proof H1 as Hinv.
    apply add_constraint_inv in Hinv
      as (hv0 & ln & head & _ & Hhash & Hrange & Hhead & Hscan & Hdup & Hins).
    split; [|split; [exact Hdup|split]].
    + intros E. destruct (Hins E) as (rcp & Hrows & _).
      unfold nrows. rewrite Hrows, length_app. simpl. lia.
    + intros Hok.
      destruct (scan_bucket_pool _ _ _ _ Hok Hhash) as (head' & r & Hhead' & Hscan' & Hiff).
      rewrite Hhead in Hhead'. injection Hhead' as <-.
      rewrite Hscan in Hscan'. injection Hscan' as <-.
      split.
      * destruct res1; simpl in Hiff; split; try discriminate; auto.
        -- intros _ Hh. apply Hiff in Hh. discriminate.
        -- intros Hn. exfalso. apply Hn, Hiff. reflexivity.
      * destruct res1.
        -- destruct (Hins eq_refl) as (rcp & Hrows & Hlen & Hcoefs & _).
           exists rcp. split; [rewrite Hrows; apply elem_of_app; right; now left|].
           rewrite Hcoefs. eapply hash_row_take, Hhash.
        -- rewrite (Hdup eq_refl). apply Hiff. reflexivity.
    + intros Hok Hdist. eapply add_constraint_keeps_invariants; eauto.
  - intros pool rp rp' b. apply add_new_row_inserted.
  - eexists. split; [vm_compute; reflexivity|]. split; vm_compute; reflexivity.
Qed.

(** [add_row_stores_one_copy] on the empty pool: [4 x1 + 6 x2 >= 2] and
    then [2 x1 + 3 x2 >= 1]. *)
Lemma add_row_stores_one_copy_witness :
  let rp1 := [mk_rcoef 3 4; mk_rcoef 4 6; mk_rcoef RC_OP_GE 2] in
  let rp2 := [mk_rcoef 3 2; mk_rcoef 4 3; mk_rcoef RC_OP_GE 1] in
  exists pool1,
    (_gst_add_constraint_to_pool (empty_pool 4) rp1 false = Ok (pool1, rp2, true) /\
     reduce_constraint rp2 = Ok rp2 /\ row_full rp2 = row_full rp2) /\
    (_gst_add_constraint_to_pool pool1 rp2 true = Ok (pool1, rp2, false) /\
     (true = true -> nrows pool1 = nrows (empty_pool 4) + 1) /\
     (true = false -> pool1 = empty_pool 4) /\
     (pool_hash_ok (empty_pool 4) ->
      (true = true <-> ~ pool_holds (empty_pool 4) rp2) /\ pool_holds pool1 rp2) /\
     (pool_hash_ok (empty_pool 4) -> pool_rows_distinct (empty_pool 4) ->
      pool_hash_ok pool1 /\ pool_rows_distinct pool1)).
Proof.
  intros rp1 rp2.
  destruct (_gst_add_constraint_to_pool (empty_pool 4) rp1 false)
    as [[[pool1 r] res]| |] eqn:E; try (vm_compute in E; discriminate).
  assert (Hr : r = rp2) by (vm_compute in E; injection E as _ <- _; reflexivity).
  assert (Hres : res = true) by (vm_compute in E; injection E as _ _ <-; reflexivity).
  subst r res. exists pool1.
  assert (H2 : reduce_constraint rp2 = Ok rp2) by reflexivity.
  split; [auto|].
  exact (proj1 add_row_stores_one_copy (empty_pool 4) pool1 rp1 rp2 rp2 rp2
               false true true E H2 eq_refl).
Defined.

(** C2, as the claim words it, fails in a pool that holds the row already:
    there the first call of the pair returns "duplicate" too. *)
Lemma add_row_first_call_duplicate :
  exists pool,
    _gst_add_constraint_to_pool (empty_pool 4) row_2_3_5_le_10 true
    = Ok (pool, row_2_3_5_le_10, true) /\
    _gst_add_constraint_to_pool pool row_6_9_15_le_30 true
    = Ok (pool, row_2_3_5_le_10, false) /\
    _gst_add_constraint_to_pool pool row_12_18_30_le_60 true
    = Ok (pool, row_2_3_5_le_10, false).
Proof.
  eexists. split; [vm_compute; reflexivity|]. split; vm_compute; reflexivity.
Qed.

(** ** The row count of the LP against the pool's count *)

(** A state in which the LP holds no row while the pool counts one loaded
    row, and a node that saved an empty LP. *)
Definition stale_pool : cpool :=
  mk_cpool 1
    [mk_rcon 2 [mk_rcoef 3 1; mk_rcoef 4 1; mk_rcoef RC_OP_LE 1] (-1) 0 0 0 0 0 0]
    4 2 [0; 0; 0; 0] 1 0 0 1 (replicate (Z.to_nat CPOOL_HASH_SIZE) (-1)) 1 2.
Definition empty_lp : LP_t := mk_LP [] 0 true ([], []).
Definition idle_node : bbnode :=
  mk_bbnode 0 0 (-1) [] 0 (Some []) (Some []) (Some ([], [])).
Definition stale_state : bbinfo := mk_bbinfo empty_lp stale_pool idle_node [].

(** C9, as the code has it.  When the LP engine's row count differs from
    the pool's count of loaded rows, [_gst_add_pending_rows_to_LP] and
    [_gst_save_node_basis] end the run on entry, and so does
    [_gst_delete_slack_rows_from_LP] once the node's objective has improved
    (before that it returns without looking).  [_gst_restore_node_basis] does
    not: it overwrites the pool's count with the engine's and goes on, so it
    behaves as on the pool with the count so overwritten. *)
Theorem row_count_mismatch :
  forall bbip : bbinfo,
    lp_num_rows (bb_lp bbip) <> nlprows (bb_cpool bbip) ->
    _gst_add_pending_rows_to_LP bbip = Fatal /\
    (forall nodep, _gst_save_node_basis nodep bbip = Fatal) /\
    (_gst_delete_slack_rows_from_LP bbip =
     if PrimFloat.leb (nd_z (bb_node bbip)) (delrow_z (bb_node bbip))
     then Ok bbip else Fatal) /\
    (forall past_end nodep,
        _gst_restore_node_basis past_end nodep bbip =
        _gst_restore_node_basis past_end nodep
          (set_bb_cpool (set_nlprows (lp_num_rows (bb_lp bbip)) (bb_cpool bbip)) bbip)).
Proof.
  intros bbip Hne.
  assert (E1 : (lp_num_rows (bb_lp bbip) =? nlprows (bb_cpool bbip)) = false)
    by (apply Z.eqb_neq; exact Hne).
  assert (E2 : (nlprows (bb_cpool bbip) =? lp_num_rows (bb_lp bbip)) = false)
    by (apply Z.eqb_neq; congruence).
  split; [|split; [|split]].
  - unfold _gst_add_pending_rows_to_LP. rewrite E1. reflexivity.
  - intros nodep. unfold _gst_save_node_basis. rewrite E2. reflexivity.
  - unfold _gst_delete_slack_rows_from_LP. rewrite E1.
    destruct (PrimFloat.leb _ _); reflexivity.
  - intros past_end nodep. unfold _gst_restore_node_basis.
    destruct (bc_uids nodep) as [uids|]; [|reflexivity].
    cbn [bb_lp bb_cpool set_bb_cpool set_nlprows nlprows].
    rewrite E1, Z.eqb_refl. cbn [negb].
    destruct bbip as [lp pool nodeq sl]. reflexivity.
Qed.

(** [row_count_mismatch] in the state where the LP holds no row and the
    pool counts one. *)
Lemma row_count_mismatch_witness :
  lp_num_rows (bb_lp stale_state) <> nlprows (bb_cpool stale_state) /\
  (_gst_add_pending_rows_to_LP stale_state = Fatal /\
   (forall nodep, _gst_save_node_basis nodep stale_state = Fatal) /\
   (_gst_delete_slack_rows_from_LP stale_state =
    if PrimFloat.leb (nd_z (bb_node stale_state)) (delrow_z (bb_node stale_state))
    then Ok stale_state else Fatal) /\
   (forall past_end nodep,
       _gst_restore_node_basis past_end nodep stale_state =
       _gst_restore_node_basis past_end nodep
         (set_bb_cpool (set_nlprows (lp_num_rows (bb_lp stale_state))
                                    (bb_cpool stale_state)) stale_state))).
Proof.
  assert (H : lp_num_rows (bb_lp stale_state) <> nlprows (bb_cpool stale_state))
    by (vm_compute; discriminate).
  split; [exact H|]. exact (row_count_mismatch stale_state H).
Defined.

(** C9, as the claim words it, fails on entry to the basis restore: with no
    row in the LP and one loaded row counted by the pool, the restore runs to
    its end, whatever lies past the end of its flag array; it returns a pool
    that counts no loaded row while the row's header still says it is LP
    row 0. *)
Lemma restore_continues_on_mismatch :
  lp_num_rows (bb_lp stale_state) = 0 /\ nlprows (bb_cpool stale_state) = 1 /\
  exists bbip',
    _gst_restore_node_basis 0 idle_node stale_state
    = Ok (mk_bbnode 0 0 (-1) [] 0 None None None, bbip') /\
    _gst_restore_node_basis 1 idle_node stale_state
    = Ok (mk_bbnode 0 0 (-1) [] 0 None None None, bbip') /\
    nlprows (bb_cpool bbip') = 0 /\
    lprow <$> rows (bb_cpool bbip') = [0].
Proof.
  split; [reflexivity|]. split; [reflexivity|].
  eexists. split; [vm_compute; reflexivity|].
  split; [vm_compute; reflexivity|]. split; reflexivity.
Qed.

(** ** Loop invariants *)

Lemma for_loop_inv {St : Type} (P : Z -> St -> Prop) (n : nat) (i : Z)
    (body : Z -> St -> outcome St) (s s' : St) :
  for_loop n i body s = Ok s' ->
  P i s ->
  (forall k t t', i <= k < i + Z.of_nat n -> P k t -> body k t = Ok t' -> P (k + 1) t') ->
  P (i + Z.of_nat n) s'.
Proof.
  revert i s. induction n as [|n IH]; intros i s H HP Hstep; simpl in H.
  - injection H as <-. now rewrite Z.add_0_r.
  - inv_bind H.
    replace (i + Z.of_nat (S n)) with ((i + 1) + Z.of_nat n) by lia.
    apply (IH _ _ H).
    + apply (Hstep i s a); [lia|exact HP|exact Hm].
    + intros k t t' Hk. apply Hstep. lia.
Qed.

Lemma for_range_inv {St : Type} (P : Z -> St -> Prop) (a b : Z)
    (body : Z -> St -> outcome St) (s s' : St) :
  a <= b ->
  for_range a b body s = Ok s' ->
  P a s ->
  (forall k t t', a <= k < b -> P k t -> body k t = Ok t' -> P (k + 1) t') ->
  P b s'.
Proof.
  intros Hab H HP Hstep. unfold for_range in H.
  replace b with (a + Z.of_nat (Z.to_nat (b - a))) by lia.
  apply (for_loop_inv P _ _ _ _ _ H HP).
  intros k t t' Hk. apply Hstep. lia.
Qed.

(** A loop whose every turn succeeds succeeds. *)
Lemma for_loop_total {St : Type} (P : Z -> St -> Prop) (n : nat) (i : Z)
    (body : Z -> St -> outcome St) (s : St) :
  P i s ->
  (forall k t, i <= k < i + Z.of_nat n -> P k t -> exists t', body k t = Ok t' /\ P (k + 1) t') ->
  exists s', for_loop n i body s = Ok s' /\ P (i + Z.of_nat n) s'.
Proof.
  revert i s. induction n as [|n IH]; intros i s HP Hstep; simpl.
  - exists s. rewrite Z.add_0_r. auto.
  - destruct (Hstep i s ltac:(lia) HP) as (t' & -> & HP'). cbn [bind].
    replace (i + Z.of_nat (S n)) with ((i + 1) + Z.of_nat n) by lia.
    apply IH; [exact HP'|]. intros k t Hk. apply Hstep. lia.
Qed.

Lemma for_range_total {St : Type} (P : Z -> St -> Prop) (a b : Z)
    (body : Z -> St -> outcome St) (s : St) :
  a <= b ->
  P a s ->
  (forall k t, a <= k < b -> P k t -> exists t', body k t = Ok t' /\ P (k + 1) t') ->
  exists s', for_range a b body s = Ok s' /\ P b s'.
Proof.
  intros Hab HP Hstep. unfold for_range.
  destruct (for_loop_total P (Z.to_nat (b - a)) a body s HP) as (s' & Hs & HP').
  - intros k t Hk. apply Hstep. lia.
  - exists s'. split; [exact Hs|].
    replace b with (a + Z.of_nat (Z.to_nat (b - a))) by lia. exact HP'.
Qed.

Lemma for_range_empty {St : Type} (a b : Z) (body : Z -> St -> outcome St) (s : St) :
  b <= a -> for_range a b body s = Ok s.
Proof.
  intros H. unfold for_range. replace (Z.to_nat (b - a)) with 0%nat by lia. reflexivity.
Qed.

(** ** Deleting slack rows *)

Lemma take_S_insert {A : Type} (l : list A) (m : nat) (x : A) :
  (m < length l)%nat -> take (S m) (<[m := x]> l) = take m l ++ [x].
Proof.
  revert m. induction l as [|a l IH]; intros m Hm; simpl in Hm; [lia|].
  destruct m as [|m]; simpl; [now rewrite take_0|].
  f_equal. apply IH. lia.
Qed.

Lemma drop_S_eq {A : Type} (l l' : list A) (i : nat) :
  drop i l = drop i l' -> drop (S i) l = drop (S i) l'.
Proof.
  intros H. replace (S i) with (i + 1)%nat by lia.
  rewrite <- (drop_drop l 1 i), <- (drop_drop l' 1 i).
  now rewrite H.
Qed.

Lemma drop_eq_lookup {A : Type} (l l' : list A) (i k : nat) :
  drop i l = drop i l' -> (i <= k)%nat -> l !! k = l' !! k.
Proof.
  intros H Hk. replace k with (i + (k - i))%nat by lia.
  rewrite <- !lookup_drop. now rewrite H.
Qed.

Section DeleteSlack.

(** The row headers, the array [lprows] and the slack vector on entry. *)
Variable rows0 : list rcon.
Variable lpr0 : list Z.
Variable slack : list float.

(** LP row [k] is to be deleted: it is slack beyond the tolerance, or the
    pool row it holds carries the discard flag. *)
Definition doomed_at (k : nat) : bool :=
  match lpr0 !! k, slack !! k with
  | Some row, Some sl =>
      PrimFloat.ltb FUZZ sl
      || match rows0 !! Z.to_nat row with
         | Some rc => has_discard_flag rc
         | None => false
         end
  | _, _ => false
  end.

(** The LP rows below [i] that stay, and those that go. *)
Definition kept_upto (i : nat) : list nat :=
  filter (fun k => doomed_at k = false) (seq 0 i).
Definition doomed_upto (i : nat) : list nat :=
  filter (fun k => doomed_at k = true) (seq 0 i).

(** The LP status of the pool row of LP row [k] after the deletion. *)
Definition new_status (k : nat) : Z :=
  if doomed_at k then -1 else Z.of_nat (length (kept_upto k)).

Lemma kept_upto_S (i : nat) :
  kept_upto (S i) = kept_upto i ++ (if doomed_at i then [] else [i]).
Proof.
  unfold kept_upto. rewrite seq_S, list.filter_app. simpl. f_equal.
  rewrite filter_cons, filter_nil. destruct (doomed_at i); reflexivity.
Qed.

Lemma doomed_upto_S (i : nat) :
  doomed_upto (S i) = doomed_upto i ++ (if doomed_at i then [i] else []).
Proof.
  unfold doomed_upto. rewrite seq_S, list.filter_app. simpl. f_equal.
  rewrite filter_cons, filter_nil. destruct (doomed_at i); reflexivity.
Qed.

Lemma kept_upto_length (i : nat) : (length (kept_upto i) <= i)%nat.
Proof.
  unfold kept_upto. etransitivity; [apply length_filter|]. now rewrite length_seq.
Qed.

Lemma new_status_bound (k : nat) : new_status k <= Z.of_nat k.
Proof.
  unfold new_status. pose proof (kept_upto_length k). destruct (doomed_at k); lia.
Qed.

(** The invariant of the main loop at LP row [i]. *)
Definition slack_inv (i : Z) (s : list rcon * list Z * Z * list Z) : Prop :=
  let '(rs, lpr, j, dlist) := s in
  0 <= i /\ length rs = length rows0 /\ length lpr = length lpr0 /\
  j = Z.of_nat (length (kept_upto (Z.to_nat i))) /\
  dlist = Z.of_nat <$> doomed_upto (Z.to_nat i) /\
  Forall2 (fun k row => lpr0 !! k = Some row) (kept_upto (Z.to_nat i))
          (take (length (kept_upto (Z.to_nat i))) lpr) /\
  drop (Z.to_nat i) lpr = drop (Z.to_nat i) lpr0 /\
  (forall k, (k < Z.to_nat i)%nat ->
     exists row rc, lpr0 !! k = Some row /\ 0 <= row /\
                    rows0 !! Z.to_nat row = Some rc /\ lprow rc = Z.of_nat k /\
                    rs !! Z.to_nat row = Some (set_lprow (new_status k) rc)) /\
  (forall row rc, rows0 !! row = Some rc ->
     (forall k, (k < Z.to_nat i)%nat -> lpr0 !! k <> Some (Z.of_nat row)) ->
     rs !! row = Some rc).

Lemma slack_inv_init : slack_inv 0 (rows0, lpr0, 0, []).
Proof.
  unfold slack_inv. simpl. repeat split; auto; try lia.
Qed.

Lemma slack_pass_step (k : Z) (t t' : list rcon * list Z * Z * list Z) :
  slack_inv k t -> slack_pass slack k t = Ok t' -> slack_inv (k + 1) t'.
Proof.
  destruct t as [[[rs lpr] j] dlist].
  intros (Hk & Hlrs & Hllpr & Hj & Hdl & Hkept & Hdrop & Hdone & Hrest) H.
  unfold slack_pass in H.
  inv_bind H. rename a into row. apply aget_Ok_inv in Hm as [_ Hrow].
  inv_bind H. rename a into rcp. apply aget_Ok_inv in Hm as [Hrow0 Hrcp].
  inv_fatal H. apply negb_false_iff, Z.eqb_eq in Hc.
  inv_bind H. rename a into sl. apply aget_Ok_inv in Hm as [_ Hsl].
  set (k' := Z.to_nat k) in *.
  assert (Hk1 : Z.to_nat (k + 1) = S k') by lia.
  assert (Hrow' : lpr0 !! k' = Some row).
  { rewrite <- Hrow. symmetry. eapply drop_eq_lookup; [exact Hdrop|lia]. }
  assert (Hfresh : forall k2, (k2 < k')%nat -> lpr0 !! k2 <> Some row).
  { intros k2 Hk2 E. destruct (Hdone k2 Hk2) as (row2 & rc2 & E2 & _ & _ & _ & Hrs2).
    rewrite E in E2. injection E2 as <-. rewrite Hrcp in Hrs2. injection Hrs2 as ->.
    cbn [lprow set_lprow] in Hc. pose proof (new_status_bound k2). lia. }
  assert (Hrc0 : rows0 !! Z.to_nat row = Some rcp).
  { destruct (lookup_lt_is_Some_2 rows0 (Z.to_nat row)) as [rc0 Hrc0].
    { rewrite <- Hlrs. eapply lookup_lt_Some, Hrcp. }
    rewrite (Hrest _ _ Hrc0) in Hrcp.
    - congruence.
    - intros k2 Hk2. rewrite Z2Nat.id by lia. now apply Hfresh. }
  assert (Hdoom : doomed_at k' = PrimFloat.ltb FUZZ sl || has_discard_flag rcp).
  { unfold doomed_at. now rewrite Hrow', Hsl, Hrc0. }
  assert (Hother : forall row2, 0 <= row2 -> row2 <> row -> Z.to_nat row2 <> Z.to_nat row)
    by (intros; lia).
  assert (Hmlt : (length (kept_upto k') < length lpr)%nat).
  { pose proof (kept_upto_length k'). apply lookup_lt_Some in Hrow. lia. }
  (* the two outcomes of the turn *)
  assert (Hcases :
    (doomed_at k' = true /\
     exists rs', aset rs row (set_lprow (-1) rcp) = Ok rs' /\
                 t' = (rs', lpr, j, dlist ++ [k])) \/
    (doomed_at k' = false /\
     exists rs' lpr', aset rs row (set_lprow j rcp) = Ok rs' /\
                      aset lpr j row = Ok lpr' /\ t' = (rs', lpr', j + 1, dlist))).
  { rewrite Hdoom. destruct (PrimFloat.ltb FUZZ sl); simpl.
    - left. split; [reflexivity|]. inv_bind H. injection H as <-. eauto.
    - destruct (has_discard_flag rcp).
      + left. split; [reflexivity|]. inv_bind H. injection H as <-. eauto.
      + right. split; [reflexivity|]. inv_bind H. inv_bind H. injection H as <-. eauto. }
  clear H.
  destruct Hcases as [[Hd (rs' & Hrs' & ->)]|[Hd (rs' & lpr' & Hrs' & Hlpr' & ->)]];
    apply aset_Ok_inv in Hrs' as [_ ->].
  - unfold slack_inv. rewrite Hk1, kept_upto_S, doomed_upto_S, Hd, app_nil_r.
    split; [lia|]. split; [now rewrite length_insert|]. split; [exact Hllpr|].
    split; [exact Hj|].
    split; [rewrite fmap_app, Hdl; simpl; f_equal; f_equal; f_equal; lia|].
    split; [exact Hkept|]. split; [apply drop_S_eq, Hdrop|]. split.
    + intros k2 Hk2. destruct (decide (k2 = k')) as [->|Hne].
      * exists row, rcp. repeat split; auto; [lia|].
        unfold new_status. rewrite Hd. apply list_lookup_insert_eq.
        eapply lookup_lt_Some, Hrcp.
      * destruct (Hdone k2 ltac:(lia)) as (row2 & rc2 & E2 & Hr2 & Hrc2 & Hl2 & Hrs2).
        exists row2, rc2. repeat split; auto.
        rewrite list_lookup_insert_ne; [exact Hrs2|].
        apply not_eq_sym, Hother; [exact Hr2|]. intros ->. eapply Hfresh; eauto. lia.
    + intros row2 rc2 Hrc2 Hnot.
      rewrite list_lookup_insert_ne.
      * apply Hrest; [exact Hrc2|]. intros k2 Hk2. apply Hnot. lia.
      * intros E. apply (Hnot k' ltac:(lia)). rewrite Hrow'. f_equal. lia.
  - apply aset_Ok_inv in Hlpr' as [_ ->].
    unfold slack_inv. rewrite Hk1, kept_upto_S, doomed_upto_S, Hd, app_nil_r.
    rewrite length_app. simpl length.
    subst j. rewrite Nat2Z.id.
    split; [lia|]. split; [now rewrite length_insert|].
    split; [now rewrite length_insert|].
    split; [lia|]. split; [exact Hdl|].
    split.
    { rewrite Nat.add_1_r, take_S_insert by exact Hmlt.
      apply Forall2_app; [exact Hkept|]. constructor; [exact Hrow'|constructor]. }
    split.
    { rewrite drop_insert_lt by (pose proof (kept_upto_length k'); lia).
      apply drop_S_eq, Hdrop. }
    split.
    + intros k2 Hk2. destruct (decide (k2 = k')) as [->|Hne].
      * exists row, rcp. repeat split; auto; [lia|].
        unfold new_status. rewrite Hd. apply list_lookup_insert_eq.
        eapply lookup_lt_Some, Hrcp.
      * destruct (Hdone k2 ltac:(lia)) as (row2 & rc2 & E2 & Hr2 & Hrc2 & Hl2 & Hrs2).
        exists row2, rc2. repeat split; auto.
        rewrite list_lookup_insert_ne; [exact Hrs2|].
        apply not_eq_sym, Hother; [exact Hr2|]. intros ->. eapply Hfresh; eauto. lia.
    + intros row2 rc2 Hrc2 Hnot.
      rewrite list_lookup_insert_ne.
      * apply Hrest; [exact Hrc2|]. intros k2 Hk2. apply Hnot. lia.
      * intros E. apply (Hnot k' ltac:(lia)). rewrite Hrow'. f_equal. lia.
Qed.

End DeleteSlack.

Lemma kept_upto_lookup (rows0 : list rcon) (lpr0 : list Z) (slack : list float) (n k : nat) :
  (k < n)%nat -> doomed_at rows0 lpr0 slack k = false ->
  kept_upto rows0 lpr0 slack n !! length (kept_upto rows0 lpr0 slack k) = Some k.
Proof.
  intros Hk Hd. unfold kept_upto.
  replace n with (k + S (n - S k))%nat by lia.
  rewrite seq_app, list.filter_app. simpl.
  rewrite filter_cons, decide_True by exact Hd.
  rewrite lookup_app_r by lia. now rewrite Nat.sub_diag.
Qed.

(** "Copy any pending constraints": the invariant at pending entry [i]; the
    main loop left the array [lprA] and wrote [j] entries, [j <= n]. *)
Definition copy_inv (lprA : list Z) (n j : Z) (i : Z) (s : list Z * Z) : Prop :=
  let '(lpr, j') := s in
  0 <= i /\ j' = j + i /\ length lpr = length lprA /\
  take (Z.to_nat j) lpr = take (Z.to_nat j) lprA /\
  (forall i2, 0 <= i2 < i -> lpr !! Z.to_nat (j + i2) = lprA !! Z.to_nat (n + i2)) /\
  (forall t, (Z.to_nat (n + i) <= t)%nat -> lpr !! t = lprA !! t).

Lemma copy_pending_step (lprA : list Z) (n j : Z) (i : Z) (t t' : list Z * Z) :
  0 <= j <= n ->
  copy_inv lprA n j i t -> copy_pending n i t = Ok t' -> copy_inv lprA n j (i + 1) t'.
Proof.
  destruct t as [lpr j'].
  intros Hjn (Hi & -> & Hlen & Htake & Hdone & Hrest) H.
  unfold copy_pending in H.
  inv_bind H. rename a into v. apply aget_Ok_inv in Hm as [_ Hv].
  inv_bind H. apply aset_Ok_inv in Hm as [Hr ->]. injection H as <-.
  unfold copy_inv.
  split; [lia|]. split; [lia|]. split; [now rewrite length_insert|].
  split; [rewrite take_insert_ge by lia; exact Htake|]. split.
  - intros i2 Hi2. destruct (Z.eq_dec i2 i) as [->|Hne].
    + rewrite list_lookup_insert_eq by lia.
      rewrite <- Hv. apply Hrest. lia.
    + rewrite list_lookup_insert_ne by lia. apply Hdone. lia.
  - intros t Ht. rewrite list_lookup_insert_ne by lia. apply Hrest. lia.
Qed.

(** The flags handed to the engine: entry [t] is set exactly when LP row
    [t - 1] is on the delete list. *)
Lemma slack_rowflags_spec (n : Z) (dl : list nat) (fl : list Z) :
  0 <= n ->
  slack_rowflags n (Z.of_nat <$> dl) = Ok fl ->
  forall k, (Z.of_nat k < n) -> nth (S k) fl 0 = if bool_decide (k ∈ dl) then 1 else 0.
Proof.
  intros Hn H. unfold slack_rowflags in H. inv_bind H. destruct a as [fl' u].
  injection H as ->. rewrite length_fmap in Hm.
  set (P := fun (i : Z) (s : list Z * unit) =>
              length (fst s) = Z.to_nat (n + 1) /\
              forall k, (Z.of_nat k < n) ->
                fst s !! S k = Some (if bool_decide (k ∈ take (Z.to_nat i) dl) then 1 else 0)).
  assert (HP : P (Z.of_nat (length dl)) (fl, u)).
  { apply (for_range_inv P 0 _ _ _ _ (Nat2Z.is_nonneg _) Hm).
    - unfold P. simpl. split; [apply length_replicate|].
      intros k Hk. apply lookup_replicate. split; [reflexivity|lia].
    - intros i [f u0] [f' u1] Hi [Hlen Hf] Hb. simpl in *.
      inv_bind Hb. rename a into d. apply aget_Ok_inv in Hm0 as [_ Hd].
      inv_bind Hb. apply aset_Ok_inv in Hm0 as [Hr ->]. injection Hb as <- <-.
      apply list_lookup_fmap_Some in Hd as (d' & -> & Hd').
      unfold P. simpl. split; [now rewrite length_insert|].
      intros k Hk.
      replace (Z.to_nat (i + 1)) with (S (Z.to_nat i)) by lia.
      rewrite (take_S_r _ _ _ Hd').
      destruct (decide (k = d')) as [->|Hne].
      + replace (Z.to_nat (1 + Z.of_nat d')) with (S d') by lia.
        rewrite list_lookup_insert_eq by lia.
        rewrite bool_decide_eq_true_2; [reflexivity|].
        apply elem_of_app. right. now left.
      + rewrite list_lookup_insert_ne by lia. rewrite (Hf k Hk).
        assert (Hiff : k ∈ take (Z.to_nat i) dl <-> k ∈ take (Z.to_nat i) dl ++ [d']).
        { rewrite elem_of_app, list_elem_of_singleton. intuition. }
        now rewrite (bool_decide_ext _ _ Hiff). }
  destruct HP as [_ HP]. intros k Hk. simpl in HP.
  rewrite Nat2Z.id, firstn_all in HP.
  apply nth_lookup_Some. apply HP, Hk.
Qed.

Lemma keep_unflagged_spec (D : nat -> bool) (flag : nat -> Z) (rs0 : list lp_row) :
  forall (rs : list lp_row) (i : nat),
    rs = drop i rs0 ->
    (forall k, (i <= k < i + length rs)%nat -> (flag k =? 0) = negb (D k)) ->
    Forall2 (fun k r => rs0 !! k = Some r)
            (filter (fun k => D k = false) (seq i (length rs)))
            (keep_unflagged flag i rs).
Proof.
  induction rs as [|r rs IH]; intros i Hrs Hfl; simpl; [constructor|].
  assert (Hr : rs0 !! i = Some r).
  { rewrite <- (Nat.add_0_r i), <- lookup_drop, <- Hrs. reflexivity. }
  assert (Hrs' : rs = drop (S i) rs0).
  { replace (S i) with (i + 1)%nat by lia.
    rewrite <- drop_drop, <- Hrs. reflexivity. }
  specialize (IH (S i) Hrs' ltac:(intros k Hk; apply Hfl; simpl; lia)).
  rewrite filter_cons. rewrite (Hfl i) by (simpl; lia).
  destruct (D i) eqn:E; simpl.
  - exact IH.
  - constructor; [exact Hr|exact IH].
Qed.

Lemma keep_unflagged_all (rs : list lp_row) (i : nat) :
  keep_unflagged (fun _ => 0) i rs = rs.
Proof.
  revert i. induction rs as [|r rs IH]; intros i; simpl; [reflexivity|]. now rewrite IH.
Qed.

Lemma doomed_upto_elem (rows0 : list rcon) (lpr0 : list Z) (slack : list float) (n k : nat) :
  k ∈ doomed_upto rows0 lpr0 slack n <-> (k < n)%nat /\ doomed_at rows0 lpr0 slack k = true.
Proof.
  unfold doomed_upto. rewrite list_elem_of_filter, elem_of_seq. intuition lia.
Qed.

(** What a run of [_gst_delete_slack_rows_from_LP] past its guard has done,
    in terms of the state on entry. *)
Lemma delete_slack_rows_post (bbip bbip' : bbinfo) :
  PrimFloat.leb (nd_z (bb_node bbip)) (delrow_z (bb_node bbip)) = false ->
  _gst_delete_slack_rows_from_LP bbip = Ok bbip' ->
  let pool := bb_cpool bbip in
  let pool' := bb_cpool bbip' in
  let n := Z.to_nat (nlprows pool) in
  let kept := kept_upto (rows pool) (lprows pool) (bb_slack bbip) n in
  let status := new_status (rows pool) (lprows pool) (bb_slack bbip) in
  lp_num_rows (bb_lp bbip) = nlprows pool /\
  Forall2 (fun k r => lp_rowset (bb_lp bbip) !! k = Some r) kept (lp_rowset (bb_lp bbip')) /\
  nlprows pool' = Z.of_nat (length kept) /\
  npend pool' = npend pool /\
  Forall2 (fun k row => lprows pool !! k = Some row) kept
          (take (length kept) (lprows pool')) /\
  (forall k, (k < n)%nat ->
     exists row rc, lprows pool !! k = Some row /\ 0 <= row /\
                    rows pool !! Z.to_nat row = Some rc /\ lprow rc = Z.of_nat k /\
                    rows pool' !! Z.to_nat row = Some (set_lprow (status k) rc)) /\
  (forall row rc, rows pool !! row = Some rc ->
     (forall k, (k < n)%nat -> lprows pool !! k <> Some (Z.of_nat row)) ->
     rows pool' !! row = Some rc) /\
  (forall i, 0 <= i < npend pool ->
     lprows pool' !! Z.to_nat (Z.of_nat (length kept) + i)
     = lprows pool !! Z.to_nat (nlprows pool + i)) /\
  bb_slack bbip' = bb_slack bbip /\
  bb_node bbip' =
    (if (length kept <? n)%nat then set_delrow_z (nd_z (bb_node bbip)) (bb_node bbip)
     else bb_node bbip).
Proof.
  intros Hguard H. unfold _gst_delete_slack_rows_from_LP in H. rewrite Hguard in H.
  inv_fatal H. apply negb_false_iff, Z.eqb_eq in Hc.
  inv_bind H. destruct a as [[[rs lpr] j] dlist].
  inv_bind H. destruct a as [lpr2 j2].
  set (pool := bb_cpool bbip) in *.
  set (n := Z.to_nat (nlprows pool)).
  assert (Hn0 : 0 <= nlprows pool) by (rewrite <- Hc; unfold lp_num_rows; lia).
  (* the main loop *)
  pose proof (for_range_inv (slack_inv (rows pool) (lprows pool) (bb_slack bbip))
                0 (nlprows pool) _ _ _ Hn0 Hm
                (slack_inv_init _ _ _)
                (fun k t t' _ => slack_pass_step _ _ _ k t t')) as Hinv.
  destruct Hinv as (_ & Hlrs & Hllpr & Hj & Hdl & Hkept & Hdrop & Hdone & Hrest).
  fold n in Hj, Hdl, Hkept, Hdrop, Hdone, Hrest.
  set (kept := kept_upto (rows pool) (lprows pool) (bb_slack bbip) n) in *.
  pose proof (kept_upto_length (rows pool) (lprows pool) (bb_slack bbip) n) as Hkl.
  fold kept in Hkl.
  (* the copy of the pending entries *)
  assert (Hcopy : copy_inv lpr (nlprows pool) j (Z.max 0 (npend pool)) (lpr2, j2)).
  { destruct (Z.le_gt_cases 0 (npend pool)) as [Hp|Hp].
    - rewrite Z.max_r by lia.
      apply (for_range_inv (copy_inv lpr (nlprows pool) j) 0 _ _ _ _ Hp Hm0).
      + unfold copy_inv. repeat split; auto; intros; lia.
      + intros k t t' _. apply copy_pending_step. lia.
    - rewrite for_range_empty in Hm0 by lia. injection Hm0 as <- <-.
      rewrite Z.max_l by lia.
      unfold copy_inv. repeat split; auto; intros; lia. }
  destruct Hcopy as (_ & Hj2 & Hl2 & Htake2 & Hdone2 & Hrest2).
  assert (Hpost_pool :
    forall q, bb_cpool q = set_nlprows j (set_lprows lpr2 (set_rows rs pool)) ->
      nlprows (bb_cpool q) = Z.of_nat (length kept) /\
      npend (bb_cpool q) = npend pool /\
      Forall2 (fun k row => lprows pool !! k = Some row) kept
              (take (length kept) (lprows (bb_cpool q))) /\
      (forall k, (k < n)%nat ->
         exists row rc, lprows pool !! k = Some row /\ 0 <= row /\
           rows pool !! Z.to_nat row = Some rc /\ lprow rc = Z.of_nat k /\
           rows (bb_cpool q) !! Z.to_nat row
           = Some (set_lprow (new_status (rows pool) (lprows pool) (bb_slack bbip) k) rc)) /\
      (forall row rc, rows pool !! row = Some rc ->
         (forall k, (k < n)%nat -> lprows pool !! k <> Some (Z.of_nat row)) ->
         rows (bb_cpool q) !! row = Some rc) /\
      (forall i, 0 <= i < npend pool ->
         lprows (bb_cpool q) !! Z.to_nat (Z.of_nat (length kept) + i)
         = lprows pool !! Z.to_nat (nlprows pool + i))).
  { intros q ->. cbn [nlprows npend lprows rows set_nlprows set_lprows set_rows].
    split; [exact Hj|]. split; [reflexivity|]. split.
    { replace (length kept) with (Z.to_nat j) by lia. rewrite Htake2.
      replace (Z.to_nat j) with (length kept) by lia. exact Hkept. }
    split; [exact Hdone|]. split; [exact Hrest|].
    intros i Hi. rewrite <- Hj. rewrite Hdone2 by lia.
    eapply drop_eq_lookup; [exact Hdrop|]. lia. }
  assert (Hkl' : (length kept <? n)%nat = (0 <? Z.of_nat (length dlist))).
  { subst dlist. rewrite length_fmap.
    assert (Hsum : (length kept + length (doomed_upto (rows pool) (lprows pool)
                                            (bb_slack bbip) n) = n)%nat).
    { unfold kept, kept_upto, doomed_upto. clear.
      induction n as [|m IH]; [reflexivity|].
      rewrite seq_S, !list.filter_app, !length_app. simpl.
      rewrite !filter_cons, !filter_nil.
      destruct (doomed_at _ _ _ m); simpl; lia. }
    destruct (Nat.ltb_spec (length kept) n), (Z.ltb_spec 0 (Z.of_nat
      (length (doomed_upto (rows pool) (lprows pool) (bb_slack bbip) n)))); lia. }
  split; [exact Hc|].
  cbv zeta. subst kept n.
  destruct (0 <? Z.of_nat (length dlist)) eqn:Ek.
  - inv_bind H. rename a into fl. injection H as <-.
    cbn [bb_lp bb_cpool bb_node bb_slack set_bb_lp set_bb_node set_bb_cpool delete_row_set
         lp_rowset delrow_z set_delrow_z].
    destruct (Hpost_pool (set_bb_cpool (set_nlprows j (set_lprows lpr2 (set_rows rs pool)))
                                       bbip) eq_refl) as (P1 & P2 & P3 & P4 & P5 & P6).
    cbn [bb_cpool set_bb_cpool] in P1, P2, P3, P4, P5, P6.
    rewrite Hkl'.
    split; [|repeat split; auto].
    subst dlist.
    pose proof (slack_rowflags_spec _ _ _ Hn0 Hm1) as Hfl.
    assert (Hlen : length (lp_rowset (bb_lp bbip)) = Z.to_nat (nlprows pool))
      by (unfold lp_num_rows in Hc; lia).
    unfold kept_upto. rewrite <- Hlen.
    apply keep_unflagged_spec; [reflexivity|].
    intros k Hk. rewrite Hfl by lia.
    destruct (doomed_at (rows pool) (lprows pool) (bb_slack bbip) k) eqn:Ed.
    + rewrite bool_decide_eq_true_2; [reflexivity|].
      apply doomed_upto_elem. split; [lia|exact Ed].
    + rewrite bool_decide_eq_false_2; [reflexivity|].
      rewrite doomed_upto_elem. intros [_ E]. congruence.
  - injection H as <-.
    destruct (Hpost_pool (set_bb_cpool (set_nlprows j (set_lprows lpr2 (set_rows rs pool)))
                                       bbip) eq_refl) as (P1 & P2 & P3 & P4 & P5 & P6).
    cbn [bb_lp bb_cpool bb_node bb_slack set_bb_cpool] in *.
    rewrite Hkl'.
    split; [|repeat split; auto].
    assert (Hlen : length (lp_rowset (bb_lp bbip)) = Z.to_nat (nlprows pool))
      by (unfold lp_num_rows in Hc; lia).
    unfold kept_upto. rewrite <- Hlen.
    pose proof (keep_unflagged_spec (doomed_at (rows pool) (lprows pool) (bb_slack bbip))
                  (fun _ => 0) (lp_rowset (bb_lp bbip)) (lp_rowset (bb_lp bbip)) 0%nat
                  eq_refl) as HF.
    rewrite keep_unflagged_all in HF. apply HF.
    intros k Hk.
    destruct (doomed_at (rows pool) (lprows pool) (bb_slack bbip) k) eqn:Ed; [|reflexivity].
    exfalso. subst dlist. rewrite length_fmap in Ek.
    assert (Hin : k ∈ doomed_upto (rows pool) (lprows pool) (bb_slack bbip)
                                  (Z.to_nat (nlprows pool)))
      by (apply doomed_upto_elem; split; [lia|exact Ed]).
    destruct (doomed_upto (rows pool) (lprows pool) (bb_slack bbip)
                          (Z.to_nat (nlprows pool)));
      [inversion Hin|simpl in Ek; discriminate].
Qed.

(** The loaded part of the pool agrees with the LP: the counts are equal,
    the arrays are long enough, and LP row [k] is a pool row whose header
    says so. *)
Definition loaded_ok (bbip : bbinfo) : Prop :=
  let pool := bb_cpool bbip in
  lp_num_rows (bb_lp bbip) = nlprows pool /\
  0 <= npend pool /\
  nlprows pool + npend pool <= Z.of_nat (length (lprows pool)) /\
  nlprows pool <= Z.of_nat (length (bb_slack bbip)) /\
  forall k, (k < Z.to_nat (nlprows pool))%nat ->
    exists row rc, lprows pool !! k = Some row /\ 0 <= row /\
                   rows pool !! Z.to_nat row = Some rc /\ lprow rc = Z.of_nat k.

Lemma slack_rowflags_total (n : Z) (dl : list Z) :
  (forall d, d ∈ dl -> 0 <= d < n) -> exists fl, slack_rowflags n dl = Ok fl.
Proof.
  intros Hd. unfold slack_rowflags.
  destruct (for_range_total
              (fun (_ : Z) (s : list Z * unit) => length (fst s) = Z.to_nat (n + 1))
              0 (Z.of_nat (length dl))
              (fun i (s : list Z * unit) =>
                 let! d := aget dl i in
                 let! fl' := aset (fst s) (1 + d) 1 in
                 Ok (fl', tt))
              (replicate (Z.to_nat (n + 1)) 0, tt)) as ([fl u] & -> & _).
  - lia.
  - apply length_replicate.
  - intros k [f u] Hk Hlen. simpl in Hlen.
    destruct (lookup_lt_is_Some_2 dl (Z.to_nat k)) as [d Hdk]; [lia|].
    rewrite (aget_Ok _ _ d) by (auto; lia). cbn [bind fst].
    assert (Hin : d ∈ dl) by (eapply list_elem_of_lookup_2, Hdk).
    apply Hd in Hin.
    rewrite aset_Ok by lia. cbn [bind]. eexists. split; [reflexivity|].
    simpl. now rewrite length_insert.
  - cbn [bind]. eauto.
Qed.

Lemma delete_slack_rows_total (bbip : bbinfo) :
  loaded_ok bbip -> exists bbip', _gst_delete_slack_rows_from_LP bbip = Ok bbip'.
Proof.
  intros (Hrows & Hnp & Hcap & Hsl & Hload).
  unfold _gst_delete_slack_rows_from_LP.
  destruct (PrimFloat.leb _ _); [eauto|].
  rewrite Hrows, Z.eqb_refl. cbn [negb fatal_if bind].
  set (pool := bb_cpool bbip) in *.
  assert (Hn0 : 0 <= nlprows pool) by (rewrite <- Hrows; unfold lp_num_rows; lia).
  destruct (for_range_total (slack_inv (rows pool) (lprows pool) (bb_slack bbip))
              0 (nlprows pool) (slack_pass (bb_slack bbip))
              (rows pool, lprows pool, 0, [])) as ([[[rs lpr] j] dlist] & -> & Hinv).
  - exact Hn0.
  - apply slack_inv_init.
  - intros k t Hk Hinv.
    assert (exists t', slack_pass (bb_slack bbip) k t = Ok t') as [t' Ht'];
      [|exists t'; split; [exact Ht'|eapply slack_pass_step; eauto]].
    destruct t as [[[rs lpr] j] dlist].
    destruct Hinv as (_ & Hlrs & Hllpr & Hj & Hdl & Hkept & Hdrop & Hdone & Hrest).
    destruct (Hload (Z.to_nat k) ltac:(lia)) as (row & rc & Hrow & Hr0 & Hrc & Hlp).
    assert (Hrs : rs !! Z.to_nat row = Some rc).
    { apply Hrest; [exact Hrc|]. intros k2 Hk2 E.
      destruct (Hload k2 ltac:(lia)) as (row2 & rc2 & Hrow2 & _ & Hrc2 & Hlp2).
      rewrite Z2Nat.id in E by lia. rewrite E in Hrow2. injection Hrow2 as <-.
      rewrite Hrc in Hrc2. injection Hrc2 as <-. lia. }
    assert (Hlk : lpr !! Z.to_nat k = Some row).
    { rewrite <- Hrow. eapply drop_eq_lookup; [exact Hdrop|lia]. }
    destruct (lookup_lt_is_Some_2 (bb_slack bbip) (Z.to_nat k)) as [sl Hslk]; [lia|].
    unfold slack_pass.
    rewrite (aget_Ok _ _ _ (proj1 Hk) Hlk). cbn [bind].
    rewrite (aget_Ok _ _ _ Hr0 Hrs). cbn [bind].
    rewrite Hlp, Z2Nat.id, Z.eqb_refl by lia. cbn [negb fatal_if bind].
    rewrite (aget_Ok _ _ _ (proj1 Hk) Hslk). cbn [bind].
    pose proof (lookup_lt_Some _ _ _ Hrs) as Hlt.
    pose proof (kept_upto_length (rows pool) (lprows pool) (bb_slack bbip) (Z.to_nat k)).
    pose proof (lookup_lt_Some _ _ _ Hlk).
    destruct (PrimFloat.ltb FUZZ sl); [|destruct (has_discard_flag rc)];
      rewrite !aset_Ok by lia; cbn [bind]; eauto.
  - cbn [bind].
    destruct Hinv as (_ & Hlrs & Hllpr & Hj & Hdl & Hkept & Hdrop & Hdone & Hrest).
    pose proof (kept_upto_length (rows pool) (lprows pool) (bb_slack bbip)
                                 (Z.to_nat (nlprows pool))) as Hkl.
    destruct (for_range_total (copy_inv lpr (nlprows pool) j)
                0 (npend pool) (copy_pending (nlprows pool)) (lpr, j))
      as ([lpr2 j2] & -> & _).
    + exact Hnp.
    + unfold copy_inv. repeat split; auto; intros; lia.
    + intros i t Hi Hci.
      assert (exists t', copy_pending (nlprows pool) i t = Ok t') as [t' Ht'];
        [|exists t'; split; [exact Ht'|eapply copy_pending_step; eauto; lia]].
      destruct t as [lpr' j']. destruct Hci as (_ & -> & Hl' & _).
      unfold copy_pending.
      destruct (lookup_lt_is_Some_2 lpr' (Z.to_nat (nlprows pool + i))) as [v Hv]; [lia|].
      rewrite (aget_Ok _ _ v) by (auto; lia). cbn [bind].
      rewrite aset_Ok by lia. cbn [bind]. eauto.
    + cbn [bind]. destruct (0 <? Z.of_nat (length dlist)); [|eauto].
      destruct (slack_rowflags_total (nlprows pool) dlist) as [fl ->]; [|cbn [bind]; eauto].
      intros d Hd. subst dlist.
      apply list_elem_of_fmap in Hd as (d' & -> & Hd').
      apply doomed_upto_elem in Hd' as [Hd' _]. lia.
Qed.

(** What [_gst_delete_slack_rows_from_LP] has done when it has run: with
    [kept] the LP rows that are neither slack beyond [FUZZ] nor flagged for
    discard, in increasing order,
    - the LP holds the rows [kept], in this order, and the pool counts them;
    - the pool row of a deleted LP row has status [-1];
    - the pool row of a kept LP row [k] has as status its new position [p]
      (the position of [k] in [kept]), [lprows [p]] names it and LP row [p]
      is the former LP row [k];
    - every other row header is as it was, and the pending entries follow
      the loaded ones as before;
    - the slack vector is as it was, and so is the node, but that its
      [delrow_z] is now its objective value [z] when a row was deleted. *)
Definition delete_slack_post (bbip bbip' : bbinfo) : Prop :=
  let pool := bb_cpool bbip in
  let pool' := bb_cpool bbip' in
  let n := Z.to_nat (nlprows pool) in
  let doomed := doomed_at (rows pool) (lprows pool) (bb_slack bbip) in
  let kept := kept_upto (rows pool) (lprows pool) (bb_slack bbip) n in
  Forall2 (fun k r => lp_rowset (bb_lp bbip) !! k = Some r) kept (lp_rowset (bb_lp bbip')) /\
  nlprows pool' = Z.of_nat (length kept) /\
  lp_num_rows (bb_lp bbip') = nlprows pool' /\
  (forall k, (k < n)%nat ->
     exists row rc,
       lprows pool !! k = Some row /\ 0 <= row /\
       rows pool !! Z.to_nat row = Some rc /\ lprow rc = Z.of_nat k /\
       if doomed k then rows pool' !! Z.to_nat row = Some (set_lprow (-1) rc)
       else exists p,
           kept !! p = Some k /\
           rows pool' !! Z.to_nat row = Some (set_lprow (Z.of_nat p) rc) /\
           lprows pool' !! p = Some row /\
           lp_rowset (bb_lp bbip') !! p = lp_rowset (bb_lp bbip) !! k) /\
  (forall row rc, rows pool !! row = Some rc ->
     (forall k, (k < n)%nat -> lprows pool !! k <> Some (Z.of_nat row)) ->
     rows pool' !! row = Some rc) /\
  npend pool' = npend pool /\
  (forall i, 0 <= i < npend pool ->
     lprows pool' !! Z.to_nat (nlprows pool' + i)
     = lprows pool !! Z.to_nat (nlprows pool + i)) /\
  bb_slack bbip' = bb_slack bbip /\
  bb_node bbip' =
    (if (length kept <? n)%nat then set_delrow_z (nd_z (bb_node bbip)) (bb_node bbip)
     else bb_node bbip).

Lemma delete_slack_post_holds (bbip bbip' : bbinfo) :
  PrimFloat.leb (nd_z (bb_node bbip)) (delrow_z (bb_node bbip)) = false ->
  _gst_delete_slack_rows_from_LP bbip = Ok bbip' ->
  delete_slack_post bbip bbip'.
Proof.
  intros Hguard H.
  pose proof (delete_slack_rows_post _ _ Hguard H) as Hpost. cbv zeta in Hpost.
  destruct Hpost as (Hc & HLP & Hnl & Hnp & Hlpr & Hst & Hrest & Hpend & Hsl & Hnode).
  unfold delete_slack_post. cbv zeta.
  set (pool := bb_cpool bbip) in *. set (pool' := bb_cpool bbip') in *.
  set (n := Z.to_nat (nlprows pool)) in *.
  set (kept := kept_upto (rows pool) (lprows pool) (bb_slack bbip) n) in *.
  split; [exact HLP|]. split; [exact Hnl|]. split.
  { unfold lp_num_rows. rewrite Hnl. f_equal.
    symmetry. eapply Forall2_length, HLP. }
  split; [|split; [exact Hrest|split; [exact Hnp|split; [|split; [exact Hsl|exact Hnode]]]]].
  + intros k Hk.
    destruct (Hst k Hk) as (row & rc & Hrow & Hr0 & Hrc & Hlp & Hrs').
    exists row, rc. repeat split; auto.
    unfold new_status in Hrs'.
    destruct (doomed_at (rows pool) (lprows pool) (bb_slack bbip) k) eqn:Ed;
      [exact Hrs'|].
    exists (length (kept_upto (rows pool) (lprows pool) (bb_slack bbip) k)).
    pose proof (kept_upto_lookup _ _ _ n k Hk Ed) as Hp. fold kept in Hp.
    split; [exact Hp|]. split; [exact Hrs'|].
    pose proof (lookup_lt_Some _ _ _ Hp) as Hplt.
    split.
    * destruct (Forall2_lookup_l _ _ _ _ _ Hlpr Hp) as (row' & Hrow' & E).
      rewrite Hrow in E. injection E as <-.
      rewrite lookup_take_lt in Hrow' by exact Hplt. exact Hrow'.
    * destruct (Forall2_lookup_l _ _ _ _ _ HLP Hp) as (r & Hr & E).
      now rewrite Hr, E.
  + intros i Hi. rewrite Hnl. apply Hpend, Hi.
Qed.

(** C8.  [_gst_delete_slack_rows_from_LP] returns the state as it is, LP
    rows and row statuses included, when its guard [z <= delrow_z] holds of
    the node: it goes on only when the node's objective value [z] is above
    [delrow_z] (or one of the two is not a number).  When it goes on, the
    routine runs to its end on a state whose loaded rows agree with the LP,
    and removes from the LP exactly the loaded rows whose slack exceeds
    [FUZZ] or that carry the discard flag, sets the status of each removed
    row to not-loaded, and compacts the rows that stay, so that each one's
    recorded LP index is its new position; the slack vector and the node are
    left as they are, but that [delrow_z] becomes [z] when a row was
    removed.  So [delrow_z] is the objective value at the last deletion: a
    call that follows a deletion, the objective value being a number and
    still the same, returns the state as it is. *)
Theorem delete_slack_rows_spec :
  forall bbip : bbinfo,
    (PrimFloat.leb (nd_z (bb_node bbip)) (delrow_z (bb_node bbip)) = true ->
     _gst_delete_slack_rows_from_LP bbip = Ok bbip) /\
    (PrimFloat.leb (nd_z (bb_node bbip)) (delrow_z (bb_node bbip)) = false ->
     (loaded_ok bbip -> exists bbip', _gst_delete_slack_rows_from_LP bbip = Ok bbip') /\
     (forall bbip', _gst_delete_slack_rows_from_LP bbip = Ok bbip' ->
        delete_slack_post bbip bbip' /\
        (nlprows (bb_cpool bbip') < nlprows (bb_cpool bbip) ->
         delrow_z (bb_node bbip') = nd_z (bb_node bbip') /\
         (PrimFloat.is_nan (nd_z (bb_node bbip)) = false ->
          _gst_delete_slack_rows_from_LP bbip' = Ok bbip')))).
Proof.
  intros bbip. split.
  - intros Hle. unfold _gst_delete_slack_rows_from_LP. now rewrite Hle.
  - intros Hguard.
    split; [apply delete_slack_rows_total|].
    intros bbip' H.
    pose proof (delete_slack_post_holds _ _ Hguard H) as Hpost.
    split; [exact Hpost|]. intros Hless.
    destruct Hpost as (_ & Hnl & _ & _ & _ & _ & _ & _ & Hnode). cbv zeta in Hnode.
    pose proof (kept_upto_length (rows (bb_cpool bbip)) (lprows (bb_cpool bbip))
                  (bb_slack bbip) (Z.to_nat (nlprows (bb_cpool bbip)))) as Hkl.
    destruct (Nat.ltb_spec
                (length (kept_upto (rows (bb_cpool bbip)) (lprows (bb_cpool bbip))
                           (bb_slack bbip) (Z.to_nat (nlprows (bb_cpool bbip)))))
                (Z.to_nat (nlprows (bb_cpool bbip)))) as [_|Hge]; [|lia].
    rewrite Hnode. cbn [delrow_z nd_z set_delrow_z]. split; [reflexivity|].
    intros Hnum. unfold _gst_delete_slack_rows_from_LP.
    rewrite Hnode. cbn [delrow_z nd_z set_delrow_z].
    now rewrite (leb_refl_number _ Hnum).
Qed.

(** A state with four loaded rows: LP row 1 is slack by 1/2 and LP row 2
    holds a pool row flagged for discard. *)
Definition four_rows_state : bbinfo :=
  let r (u : Z) (k : Z) (f : Z) :=
    mk_rcon 1 [mk_rcoef (RC_VAR_BASE + u) 1; mk_rcoef RC_OP_LE 1] (-1) k 0 0 f u 0 in
  let l := mk_lp_row 1 REL_LE in
  mk_bbinfo
    (mk_LP [l [(0, 1)]; l [(1, 1)]; l [(2, 1)]; l [(3, 1)]] 4 true ([], []))
    (mk_cpool 4 [r 0 0 0; r 1 1 0; r 2 2 RCON_FLAG_DISCARD; r 3 3 0]
              8 4 [0; 1; 2; 3; 0; 0; 0; 0] 4 0 0 4
              (replicate (Z.to_nat CPOOL_HASH_SIZE) (-1)) 4 4)
    (mk_bbnode 2 1 (-1) [] 0 None None None)
    [0; 0.5; 0; 0]%float.

(** [delete_slack_rows_spec] on [four_rows_state], where [z] is 2 and
    [delrow_z] is 1: the run deletes LP rows 1 and 2 and sets [delrow_z] to
    2, and a second call changes nothing. *)
Lemma delete_slack_rows_spec_witness :
  PrimFloat.leb (nd_z (bb_node four_rows_state)) (delrow_z (bb_node four_rows_state))
    = false /\
  loaded_ok four_rows_state /\
  exists bbip',
    _gst_delete_slack_rows_from_LP four_rows_state = Ok bbip' /\
    delete_slack_post four_rows_state bbip' /\
    lprow <$> rows (bb_cpool bbip') = [0; -1; -1; 1] /\
    lr_mat <$> lp_rowset (bb_lp bbip') = [[(0, 1)]; [(3, 1)]] /\
    delrow_z (bb_node bbip') = 2%float /\
    _gst_delete_slack_rows_from_LP bbip' = Ok bbip'.
Proof.
  assert (Hlt : PrimFloat.leb (nd_z (bb_node four_rows_state))
                              (delrow_z (bb_node four_rows_state)) = false)
    by (vm_compute; reflexivity).
  assert (Hok : loaded_ok four_rows_state).
  { unfold loaded_ok. cbv zeta. repeat split; try (vm_compute; congruence).
    intros k Hk.
    destruct k as [|[|[|[|k]]]]; try (vm_compute in Hk; lia);
      eexists _, _; (split; [reflexivity|]; split; [|split; reflexivity]); lia. }
  split; [exact Hlt|]. split; [exact Hok|].
  destruct (proj2 (delete_slack_rows_spec four_rows_state) Hlt) as [Htot Hpost].
  destruct (Htot Hok) as [bbip' E].
  destruct (Hpost bbip' E) as [Hp Hagain].
  exists bbip'. split; [exact E|]. split; [exact Hp|].
  assert (Hless : nlprows (bb_cpool bbip') < nlprows (bb_cpool four_rows_state))
    by (clear Hp Hagain; vm_compute in E; injection E as <-; vm_compute; reflexivity).
  destruct (Hagain Hless) as [_ Hsecond].
  assert (Hnum : PrimFloat.is_nan (nd_z (bb_node four_rows_state)) = false)
    by (vm_compute; reflexivity).
  split; [|split; [|split; [|exact (Hsecond Hnum)]]];
    clear Hp Hagain Hsecond; vm_compute in E; injection E as <-; vm_compute; reflexivity.
Defined.

(** ** Garbage collection *)

(** Two headers that differ in their [next] link at most. *)
Definition same_but_next (a b : rcon) : Prop := b = set_next (next b) a.

Lemma same_but_next_refl (a : rcon) : same_but_next a a.
Proof. destruct a; reflexivity. Qed.

Lemma same_but_next_trans (a b c : rcon) :
  same_but_next a b -> same_but_next b c -> same_but_next a c.
Proof. unfold same_but_next. intros -> ->. destruct a; reflexivity. Qed.

Lemma same_but_next_set (a : rcon) (v : Z) : same_but_next a (set_next v a).
Proof. destruct a; reflexivity. Qed.

(** Row [i] may be evicted: it was added after the initialization, is not in
    the LP nor on its way to it, and no suspended node refers to it. *)
Definition evictable (pool : cpool) (i : Z) : Prop :=
  initrows pool <= i < nrows pool /\ 0 <= i /\
  exists rc, rows pool !! Z.to_nat i = Some rc /\ lprow rc = -1 /\ refc rc <= 0.

Lemma candidates_evictable (pool : cpool) (cands : list (Z * Z)) :
  for_range (initrows pool) (nrows pool) (candidate_pass pool) [] = Ok cands ->
  Forall (fun c => evictable pool (fst c)) cands.
Proof.
  intros H.
  destruct (Z.le_gt_cases (initrows pool) (nrows pool)) as [Hle|Hgt];
    [|rewrite for_range_empty in H by lia; injection H as <-; constructor].
  apply (for_range_inv (fun (_ : Z) cs => Forall (fun c => evictable pool (fst c)) cs)
           _ _ _ _ _ Hle H); [constructor|].
  intros k cs cs' Hk Hcs Hb. unfold candidate_pass in Hb.
  inv_bind Hb. rename a into rcp. apply aget_Ok_inv in Hm as [Hk0 Hrcp].
  assert (Hev : lprow rcp = -1 -> refc rcp <= 0 -> evictable pool k).
  { intros H1 H2. split; [lia|]. split; [lia|]. eauto. }
  destruct (Z.eqb_spec (lprow rcp) (-1)) as [E1|E1]; simpl in Hb;
    [|injection Hb as <-; exact Hcs].
  destruct (Z.ltb_spec 0 (refc rcp)); [injection Hb as <-; exact Hcs|].
  destruct (has_discard_flag rcp).
  - injection Hb as <-. apply Forall_app. split; [exact Hcs|].
    constructor; [apply Hev; auto|constructor].
  - destruct (_ <? GRACE_TIME); injection Hb as <-; [exact Hcs|].
    apply Forall_app. split; [exact Hcs|].
    constructor; [apply Hev; auto|constructor].
Qed.

(** *** The sort keeps the candidates *)

Section SortKeeps.

Variable Good : Z * Z -> Prop.

Lemma sift_keeps (fuel : nat) (h c : Z) (a a' : list (Z * Z)) (j j' : Z) :
  sift fuel h c a j = Ok (a', j') ->
  Forall Good a -> Forall Good a' /\ length a' = length a.
Proof.
  revert a j. induction fuel as [|fuel IH]; intros a j H Ha; simpl in H.
  - destruct (j >=? h); [discriminate|]. injection H as <- <-. auto.
  - destruct (j >=? h); [|injection H as <- <-; auto].
    inv_bind H. rename a0 into e. apply aget_Ok_inv in Hm as [_ He].
    destruct (snd e <=? c); [injection H as <- <-; auto|].
    inv_bind H. apply aset_Ok_inv in Hm as [_ ->].
    apply IH in H as [H1 H2].
    + split; [exact H1|]. now rewrite H2, length_insert.
    + apply Forall_insert; [exact Ha|].
      eapply Forall_lookup_1; eauto.
Qed.

Lemma gap_insert_keeps (h i : Z) (a a' : list (Z * Z)) :
  gap_insert h i a = Ok a' -> Forall Good a -> Forall Good a' /\ length a' = length a.
Proof.
  unfold gap_insert. intros H Ha.
  inv_bind H. rename a0 into tmp. apply aget_Ok_inv in Hm as [_ Htmp].
  inv_bind H. destruct a0 as [a1 j].
  apply sift_keeps in Hm as [H1 H2]; [|exact Ha].
  apply aset_Ok_inv in H as [_ ->].
  split; [|now rewrite length_insert].
  apply Forall_insert; [exact H1|]. eapply Forall_lookup_1; eauto.
Qed.

Lemma gap_passes_keeps (fuel : nat) (h n : Z) (a a' : list (Z * Z)) :
  gap_passes fuel h n a = Ok a' -> Forall Good a -> Forall Good a' /\ length a' = length a.
Proof.
  revert h a. induction fuel as [|fuel IH]; intros h a H Ha; simpl in H.
  all: inv_bind H; rename a0 into a1.
  all: assert (H1 : Forall Good a1 /\ length a1 = length a).
  all: try (destruct (Z.le_gt_cases (Z.quot h 3) n) as [Hle|Hgt];
            [|rewrite for_range_empty in Hm by lia; injection Hm as <-; auto];
            apply (for_range_inv (fun (_ : Z) t => Forall Good t /\ length t = length a)
                     _ _ _ _ _ Hle Hm); [auto|];
            intros k t t' _ [Ht Hl] Hb; apply gap_insert_keeps in Hb as [Hb1 Hb2];
            [split; [exact Hb1|congruence]|exact Ht]).
  - destruct (1 <? Z.quot h 3); [discriminate|]. injection H as <-. exact H1.
  - destruct H1 as [H1 H2].
    destruct (1 <? Z.quot h 3); [|injection H as <-; auto].
    apply IH in H as [H3 H4]; [|exact H1]. split; [exact H3|congruence].
Qed.

Lemma sort_gc_candidates_keeps (a a' : list (Z * Z)) (n : Z) :
  sort_gc_candidates a n = Ok a' -> Forall Good a -> Forall Good a' /\ length a' = length a.
Proof.
  unfold sort_gc_candidates. intros H Ha. inv_bind H.
  eapply gap_passes_keeps; eauto.
Qed.

End SortKeeps.

(** *** The choice of the rows to delete *)

(** The sum of the lengths of the rows named by the candidates [lo .. hi]. *)
Definition picked_nz (rs : list rcon) (cands : list (Z * Z)) (lo hi : Z) : Z :=
  fold_right (fun t acc =>
                match cands !! t with
                | Some c => match rs !! Z.to_nat (fst c) with
                            | Some rk => len rk + acc
                            | None => acc
                            end
                | None => acc
                end) 0 (seq (Z.to_nat lo) (Z.to_nat (hi + 1 - lo))).

Lemma picked_nz_step (rs : list rcon) (cands : list (Z * Z)) (lo hi : Z) (c : Z * Z)
    (rk : rcon) :
  0 < lo <= hi + 1 ->
  cands !! Z.to_nat (lo - 1) = Some c -> rs !! Z.to_nat (fst c) = Some rk ->
  picked_nz rs cands (lo - 1) hi = len rk + picked_nz rs cands lo hi.
Proof.
  intros Hlo Hc Hrk. unfold picked_nz.
  replace (Z.to_nat (hi + 1 - (lo - 1))) with (S (Z.to_nat (hi + 1 - lo))) by lia.
  simpl. rewrite Hc, Hrk.
  replace (S (Z.to_nat (lo - 1))) with (Z.to_nat lo) by lia. reflexivity.
Qed.

Lemma pick_victims_unfold (fuel : nat) (rs : list rcon) (cands : list (Z * Z))
    (mr i nz minrow : Z) :
  pick_victims fuel rs cands mr i nz minrow =
  let! c := aget cands i in
  let! rk := aget rs (fst c) in
  if nz + len rk >=? mr then Ok (i, nz + len rk, if fst c <? minrow then fst c else minrow)
  else if i =? 0 then Ok (i, nz + len rk, if fst c <? minrow then fst c else minrow)
  else match fuel with
       | O => Undef
       | S fuel' =>
           pick_victims fuel' rs cands mr (i - 1) (nz + len rk)
                        (if fst c <? minrow then fst c else minrow)
       end.
Proof. destruct fuel; reflexivity. Qed.

Lemma pick_victims_spec (fuel : nat) (rs : list rcon) (cands : list (Z * Z))
    (mr i nz minrow i' nz' minrow' hi : Z) :
  pick_victims fuel rs cands mr i nz minrow = Ok (i', nz', minrow') ->
  0 <= i <= hi ->
  nz = picked_nz rs cands (i + 1) hi ->
  0 <= i' <= i /\
  nz' = picked_nz rs cands i' hi /\
  (mr <= nz' \/ i' = 0) /\
  minrow' <= minrow /\
  (minrow' = minrow \/ exists t c, i' <= t <= i /\ cands !! Z.to_nat t = Some c /\
                                   fst c = minrow') /\
  (forall t c, i' <= t <= i -> cands !! Z.to_nat t = Some c -> minrow' <= fst c).
Proof.
  revert i nz minrow.
  induction fuel as [|fuel IH]; intros i nz minrow H Hi Hnz;
    rewrite pick_victims_unfold in H;
    inv_bind H; rename a into c; apply aget_Ok_inv in Hm as [_ Hc];
    inv_bind H; rename a into rk; apply aget_Ok_inv in Hm as [_ Hrk];
    (assert (Hnz' : nz + len rk = picked_nz rs cands i hi)
      by (pose proof (picked_nz_step rs cands (i + 1) hi c rk) as P;
          replace (i + 1 - 1) with i in P by lia;
          specialize (P ltac:(lia) Hc Hrk); lia));
    set (m := if fst c <? minrow then fst c else minrow) in *;
    (assert (Hm1 : m <= minrow) by (unfold m; destruct (Z.ltb_spec (fst c) minrow); lia));
    (assert (Hm2 : m <= fst c) by (unfold m; destruct (Z.ltb_spec (fst c) minrow); lia));
    (assert (Hm3 : m = minrow \/ exists t c0, i <= t <= i /\
                       cands !! Z.to_nat t = Some c0 /\ fst c0 = m)
      by (unfold m; destruct (Z.ltb_spec (fst c) minrow);
          [right; exists i, c; repeat split; auto; lia|now left]));
    (assert (Hstop : (mr <= nz + len rk \/ i = 0) ->
                 Ok (i, nz + len rk, m) = Ok (i', nz', minrow') ->
                 0 <= i' <= i /\ nz' = picked_nz rs cands i' hi /\ (mr <= nz' \/ i' = 0) /\
                 minrow' <= minrow /\
                 (minrow' = minrow \/ exists t c, i' <= t <= i /\
                    cands !! Z.to_nat t = Some c /\ fst c = minrow') /\
                 (forall t c, i' <= t <= i -> cands !! Z.to_nat t = Some c ->
                              minrow' <= fst c))
      by (intros Hex [= <- <- <-];
          split; [lia|]; split; [exact Hnz'|]; split; [exact Hex|]; split; [exact Hm1|];
          split; [exact Hm3|];
          intros t c0 Ht Hc0; replace t with i in Hc0 by lia;
          rewrite Hc in Hc0; injection Hc0 as <-; exact Hm2));
    rewrite Z.geb_leb in H;
    (destruct (Z.leb_spec mr (nz + len rk)) as [Hge|Hlt]; [apply Hstop; auto|]);
    (destruct (Z.eqb_spec i 0) as [Hi0|Hi0]; [apply Hstop; auto|]).
  - discriminate.
  - apply IH in H; [|lia|replace (i - 1 + 1) with i by lia; exact Hnz'].
    destruct H as (A & B & C & D & E & F).
    split; [lia|]. split; [exact B|]. split; [exact C|]. split; [lia|]. split.
    + destruct E as [E|(t & c0 & Ht & Hc0 & Hf)].
      * destruct Hm3 as [Hm3|(t & c0 & Ht & Hc0 & Hf)]; [left; congruence|].
        right. exists t, c0. repeat split; auto; lia.
      * right. exists t, c0. repeat split; auto; lia.
    + intros t c0 Ht Hc0. destruct (Z.eq_dec t i) as [->|Hne].
      * rewrite Hc in Hc0. injection Hc0 as <-. lia.
      * apply (F t c0); [lia|exact Hc0].
Qed.

(** *** The relinking of the chains touches [next] fields only *)

Lemma Forall2_same_but_next_refl (rs : list rcon) : Forall2 same_but_next rs rs.
Proof. induction rs; constructor; auto using same_but_next_refl. Qed.

Lemma Forall2_same_but_next_trans (a b c : list rcon) :
  Forall2 same_but_next a b -> Forall2 same_but_next b c -> Forall2 same_but_next a c.
Proof.
  intros H. revert c. induction H; intros c' H'; inversion H'; subst; constructor.
  - eapply same_but_next_trans; eauto.
  - auto.
Qed.

Lemma Forall2_same_but_next_insert (rs : list rcon) (j : nat) (rc : rcon) (v : Z) :
  rs !! j = Some rc -> Forall2 same_but_next rs (<[j := set_next v rc]> rs).
Proof.
  revert j. induction rs as [|r rs IH]; intros j H; [discriminate|].
  destruct j as [|j]; simpl in *.
  - injection H as ->. constructor; [apply same_but_next_set|].
    apply Forall2_same_but_next_refl.
  - constructor; [apply same_but_next_refl|]. apply IH, H.
Qed.

Lemma hook_write_frame (hs hs' : list Z) (rs rs' : list rcon) (hk : hook) (v : Z) :
  hook_write hs rs hk v = Ok (hs', rs') ->
  length hs' = length hs /\ Forall2 same_but_next rs rs'.
Proof.
  destruct hk as [i|j]; simpl; intros H.
  - inv_bind H. apply aset_Ok_inv in Hm as [_ ->]. injection H as <- <-.
    split; [apply length_insert|apply Forall2_same_but_next_refl].
  - inv_bind H. apply aget_Ok_inv in Hm as [_ Hj]. inv_bind H.
    apply aset_Ok_inv in Hm as [_ ->]. injection H as <- <-.
    split; [reflexivity|]. now apply Forall2_same_but_next_insert.
Qed.

Lemma rethread_frame (fuel : nat) (renum hs hs' : list Z) (rs rs' : list rcon) (hk : hook) :
  rethread fuel renum hs rs hk = Ok (hs', rs') ->
  length hs' = length hs /\ Forall2 same_but_next rs rs'.
Proof.
  revert hs rs hk. induction fuel as [|fuel IH]; intros hs rs hk H; simpl in H.
  all: inv_bind H; rename a into j.
  - destruct (j >=? 0); [discriminate|]. injection H as <- <-.
    split; [reflexivity|apply Forall2_same_but_next_refl].
  - destruct (j >=? 0);
      [|injection H as <- <-; split; [reflexivity|apply Forall2_same_but_next_refl]].
    inv_bind H. rename a into rcp. inv_bind H. rename a into k.
    destruct (k <? 0); inv_bind H; destruct a as [hs1 rs1];
      apply hook_write_frame in Hm2 as [H1 H2];
      apply IH in H as [H3 H4];
      (split; [congruence|eapply Forall2_same_but_next_trans; eauto]).
Qed.

Lemma rethread_all_frame (renum hs hs' : list Z) (rs rs' : list rcon) (n : Z) :
  for_range 0 n (rethread_pass renum) (hs, rs) = Ok (hs', rs') ->
  length hs' = length hs /\ Forall2 same_but_next rs rs'.
Proof.
  intros H.
  destruct (Z.le_gt_cases 0 n) as [Hle|Hgt];
    [|rewrite for_range_empty in H by lia; injection H as <- <-;
      split; [reflexivity|apply Forall2_same_but_next_refl]].
  apply (for_range_inv
           (fun (_ : Z) (s : list Z * list rcon) =>
              length (fst s) = length hs /\ Forall2 same_but_next rs (snd s))
           _ _ _ _ _ Hle H).
  - split; [reflexivity|apply Forall2_same_but_next_refl].
  - intros k [h1 r1] [h2 r2] _ [H1 H2] Hb. unfold rethread_pass in Hb.
    cbn [fst snd] in *.
    apply rethread_frame in Hb as [H3 H4].
    split; [congruence|eapply Forall2_same_but_next_trans; eauto].
Qed.

(** *** The compaction of the headers leaves the rows below [minrow] alone *)

Lemma compact_prefix (delflags : list bool) (minrow n : Z) (rs rs' : list rcon) (j : Z) :
  0 <= minrow ->
  for_range minrow n (compact_pass delflags) (rs, minrow) = Ok (rs', j) ->
  take (Z.to_nat minrow) rs' = take (Z.to_nat minrow) rs /\ minrow <= j /\
  length rs' = length rs.
Proof.
  intros H0 H.
  destruct (Z.le_gt_cases minrow n) as [Hle|Hgt];
    [|rewrite for_range_empty in H by lia; injection H as <- <-; auto with lia].
  apply (for_range_inv
           (fun (_ : Z) (s : list rcon * Z) =>
              take (Z.to_nat minrow) (fst s) = take (Z.to_nat minrow) rs /\
              minrow <= snd s /\ length (fst s) = length rs)
           _ _ _ _ _ Hle H).
  - simpl. auto with lia.
  - intros k [r1 j1] [r2 j2] _ (H1 & H2 & H3) Hb. unfold compact_pass in Hb. simpl in *.
    inv_bind Hb. destruct a.
    + injection Hb as <- <-. auto.
    + inv_bind Hb. inv_bind Hb. apply aset_Ok_inv in Hm1 as [_ ->].
      injection Hb as <- <-.
      split; [rewrite take_insert_ge by lia; exact H1|].
      split; [lia|]. now rewrite length_insert.
Qed.

(** *** The deletion flags and the renumbering *)

(** The number of rows that stay among those flagged by [fl]. *)
Fixpoint live_count (fl : list bool) : nat :=
  match fl with
  | [] => 0
  | b :: fl' => (if b then 0 else 1) + live_count fl'
  end.

(** The number of rows that stay among the first [k]. *)
Definition kept_before (fl : list bool) (k : nat) : nat := live_count (take k fl).

Lemma live_count_app (a b : list bool) :
  live_count (a ++ b) = (live_count a + live_count b)%nat.
Proof. induction a as [|x a IH]; simpl; [reflexivity|]. rewrite IH. lia. Qed.

Lemma live_count_le (a : list bool) : (live_count a <= length a)%nat.
Proof. induction a as [|[] a IH]; simpl; lia. Qed.

Lemma kept_before_S (fl : list bool) (k : nat) (b : bool) :
  fl !! k = Some b ->
  kept_before fl (S k) = (kept_before fl k + if b then 0 else 1)%nat.
Proof.
  intros H. unfold kept_before. rewrite (take_S_r _ _ _ H), live_count_app.
  simpl. lia.
Qed.

Lemma kept_before_le (fl : list bool) (k : nat) : (kept_before fl k <= k)%nat.
Proof.
  unfold kept_before. pose proof (live_count_le (take k fl)) as H.
  rewrite length_take in H. lia.
Qed.

Lemma kept_before_mono (fl : list bool) (k k' : nat) :
  (k <= k')%nat -> (kept_before fl k <= kept_before fl k')%nat.
Proof.
  induction 1 as [|k' _ IH]; [lia|].
  destruct (fl !! k') as [b|] eqn:E.
  - rewrite (kept_before_S _ _ _ E). lia.
  - apply lookup_ge_None in E. unfold kept_before in *.
    rewrite (take_ge fl k') in IH by lia. rewrite (take_ge fl (S k')) by lia. exact IH.
Qed.

Lemma kept_before_lt (fl : list bool) (k k' : nat) :
  (k < k')%nat -> fl !! k = Some false -> (kept_before fl k < kept_before fl k')%nat.
Proof.
  intros H Hk. pose proof (kept_before_mono fl (S k) k' ltac:(lia)) as Hm.
  rewrite (kept_before_S _ _ _ Hk) in Hm. lia.
Qed.

Lemma kept_before_all (fl : list bool) (m : nat) :
  (forall k, (k < m)%nat -> fl !! k = Some false) -> kept_before fl m = m.
Proof.
  induction m as [|m IH]; intros H; [reflexivity|].
  rewrite (kept_before_S fl m false) by (apply H; lia).
  rewrite IH by (intros k Hk; apply H; lia). lia.
Qed.

Lemma kept_before_length (fl : list bool) (k : nat) :
  (length fl <= k)%nat -> kept_before fl k = live_count fl.
Proof. intros H. unfold kept_before. now rewrite take_ge. Qed.

(** Row [k] is flagged exactly when it is one of the candidates [lo ..
    hi - 1]. *)
Definition flagged_by (cands : list (Z * Z)) (lo hi : Z) (k : nat) : Prop :=
  exists u c, lo <= u < hi /\ cands !! Z.to_nat u = Some c /\ fst c = Z.of_nat k.

Lemma flag_pass_spec (cands : list (Z * Z)) (lo hi : Z) (n : nat) (fl : list bool) :
  0 <= lo ->
  for_range lo hi (flag_pass cands) (replicate n false) = Ok fl ->
  length fl = n /\
  forall k, fl !! k = Some true <-> flagged_by cands lo hi k.
Proof.
  intros Hlo H.
  destruct (Z.le_gt_cases lo hi) as [Hle|Hgt].
  - apply (for_range_inv
             (fun (t : Z) (f : list bool) =>
                length f = n /\ forall k, f !! k = Some true <-> flagged_by cands lo t k)
             _ _ _ _ _ Hle H).
    + split; [apply length_replicate|]. intros k. split.
      * intros Hk. apply lookup_replicate in Hk as [? _]. discriminate.
      * intros (u & c & Hu & _). lia.
    + intros t f f' Ht [Hlen Hf] Hb. unfold flag_pass in Hb.
      inv_bind Hb. rename a into c. apply aget_Ok_inv in Hm as [_ Hc].
      apply aset_Ok_inv in Hb as [Hr ->].
      split; [now rewrite length_insert|].
      intros k. destruct (decide (k = Z.to_nat (fst c))) as [->|Hne].
      * rewrite list_lookup_insert_eq by lia. split; [intros _|reflexivity].
        exists t, c. repeat split; auto; lia.
      * rewrite list_lookup_insert_ne by auto. rewrite Hf. split.
        -- intros (u & c0 & Hu & Hc0 & Hk). exists u, c0. repeat split; auto; lia.
        -- intros (u & c0 & Hu & Hc0 & Hk).
           destruct (Z.eq_dec u t) as [->|Hut].
           ++ rewrite Hc in Hc0. injection Hc0 as <-. lia.
           ++ exists u, c0. repeat split; auto; lia.
  - rewrite for_range_empty in H by lia. injection H as <-.
    split; [apply length_replicate|]. intros k. split.
    + intros Hk. apply lookup_replicate in Hk as [? _]. discriminate.
    + intros (u & c & Hu & _). lia.
Qed.

(** [renum] maps a row that stays to the number of rows that stay before
    it, and a deleted row to [-1]. *)
Definition renum_of (fl : list bool) (k : nat) : Z :=
  match fl !! k with
  | Some false => Z.of_nat (kept_before fl k)
  | _ => -1
  end.

Lemma renum_pass_spec (fl : list bool) (init renum : list Z) (j : Z) :
  length init = length fl ->
  for_range 0 (Z.of_nat (length fl)) (renum_pass fl) (init, 0) = Ok (renum, j) ->
  length renum = length fl /\ j = Z.of_nat (live_count fl) /\
  forall k, (k < length fl)%nat -> renum !! k = Some (renum_of fl k).
Proof.
  intros Hinit H.
  pose proof (for_range_inv
     (fun (t : Z) (s : list Z * Z) =>
        length (fst s) = length fl /\ snd s = Z.of_nat (kept_before fl (Z.to_nat t)) /\
        forall k, (k < Z.to_nat t)%nat -> fst s !! k = Some (renum_of fl k))
     _ _ _ _ _ (Nat2Z.is_nonneg _) H) as Hinv.
  simpl in Hinv. rewrite Nat2Z.id in Hinv.
  rewrite (kept_before_length fl (length fl)) in Hinv by lia.
  apply Hinv; clear Hinv.
  - split; [exact Hinit|]. split; [reflexivity|]. intros k Hk. simpl in Hk. lia.
  - intros t [r j0] [r' j'] Ht (Hl & Hj & Hr) Hb. simpl in *.
    inv_bind Hb. rename a into d. apply aget_Ok_inv in Hm as [_ Hd].
    replace (Z.to_nat (t + 1)) with (S (Z.to_nat t)) by lia.
    rewrite (kept_before_S _ _ _ Hd).
    destruct d; inv_bind Hb; apply aset_Ok_inv in Hm as [_ ->]; injection Hb as <- <-.
    all: split; [now rewrite length_insert|]; split; [lia|]; intros k Hk.
    all: destruct (decide (k = Z.to_nat t)) as [->|Hne];
      [rewrite list_lookup_insert_eq by lia; unfold renum_of; rewrite Hd; f_equal; lia
      |rewrite list_lookup_insert_ne by auto; apply Hr; lia].
Qed.

Lemma lprows_pass_spec (renum lpr lpr' : list Z) (n : Z) :
  0 <= n ->
  for_range 0 n (lprows_pass renum) lpr = Ok lpr' ->
  length lpr' = length lpr /\
  (forall i, (i < Z.to_nat n)%nat ->
     exists r j, lpr !! i = Some r /\ 0 <= r /\ renum !! Z.to_nat r = Some j /\ 0 <= j /\
                 lpr' !! i = Some j) /\
  (forall i, (Z.to_nat n <= i)%nat -> lpr' !! i = lpr !! i).
Proof.
  intros Hn H.
  apply (for_range_inv
     (fun (t : Z) (l : list Z) =>
        length l = length lpr /\
        (forall i, (i < Z.to_nat t)%nat ->
           exists r j, lpr !! i = Some r /\ 0 <= r /\ renum !! Z.to_nat r = Some j /\
                       0 <= j /\ l !! i = Some j) /\
        (forall i, (Z.to_nat t <= i)%nat -> l !! i = lpr !! i))
     _ _ _ _ _ Hn H).
  - split; [reflexivity|]. split; [intros i Hi; simpl in Hi; lia|auto].
  - intros t l l' Ht (Hl & Hdone & Hrest) Hb. unfold lprows_pass in Hb.
    inv_bind Hb. rename a into r. apply aget_Ok_inv in Hm as [_ Hr].
    inv_bind Hb. rename a into j. apply aget_Ok_inv in Hm as [Hr0 Hj].
    inv_fatal Hb. apply Z.ltb_ge in Hc. apply aset_Ok_inv in Hb as [_ ->].
    rewrite Hrest in Hr by lia.
    split; [now rewrite length_insert|]. split.
    + intros i Hi. destruct (decide (i = Z.to_nat t)) as [->|Hne].
      * exists r, j. repeat split; auto; try lia.
        apply list_lookup_insert_eq. rewrite Hl. apply lookup_lt_Some in Hr. lia.
      * rewrite list_lookup_insert_ne by auto. apply Hdone. lia.
    + intros i Hi. rewrite list_lookup_insert_ne by lia. apply Hrest. lia.
Qed.

(** *** The relinking of one chain *)

(** A chain being relinked: the link that leads to row [j] holds the new
    number of [j], the rows are still at their old places. *)
Inductive mchain (renum : list Z) (rs : list rcon) : Z -> list Z -> Prop :=
| mchain_end (v : Z) : v < 0 -> mchain renum rs v []
| mchain_link (v j : Z) (rc : rcon) (l : list Z) :
    0 <= v -> 0 <= j -> renum !! Z.to_nat j = Some v -> rs !! Z.to_nat j = Some rc ->
    mchain renum rs (next rc) l -> mchain renum rs v (j :: l).

Definition stays (renum : list Z) (j : Z) : bool :=
  match renum !! Z.to_nat j with
  | Some v => 0 <=? v
  | None => false
  end.

(** The rows of a chain that stay. *)
Fixpoint live_rows (renum : list Z) (l : list Z) : list Z :=
  match l with
  | [] => []
  | j :: l' => if stays renum j then j :: live_rows renum l' else live_rows renum l'
  end.

Lemma live_rows_elem (renum : list Z) (l : list Z) (j : Z) :
  j ∈ live_rows renum l <-> j ∈ l /\ stays renum j = true.
Proof.
  induction l as [|x l IH]; simpl.
  - split; [intros H; inversion H|intros [H _]; inversion H].
  - destruct (stays renum x) eqn:E; rewrite ?elem_of_cons, IH, ?elem_of_cons.
    + split; [intros [->|[? ?]]; auto|intros [[->|?] ?]; auto].
    + split; [intros [? ?]; auto|intros [[->|?] ?]; [congruence|auto]].
Qed.

Lemma live_rows_NoDup (renum : list Z) (l : list Z) : NoDup l -> NoDup (live_rows renum l).
Proof.
  induction 1 as [|x l Hx Hl IH]; simpl; [constructor|].
  destruct (stays renum x); [|exact IH].
  constructor; [|exact IH]. rewrite live_rows_elem. tauto.
Qed.

Lemma chain_frame (rs rs' : list rcon) (j : Z) (l : list Z) :
  chain rs j l ->
  (forall k, k ∈ l -> rs' !! Z.to_nat k = rs !! Z.to_nat k) ->
  chain rs' j l.
Proof.
  induction 1 as [j Hj|j rc l Hj Hl _ IH]; intros Hf; [now constructor|].
  econstructor; [exact Hj| |].
  - rewrite Hf by (left). exact Hl.
  - apply IH. intros k Hk. apply Hf. now right.
Qed.

Lemma mchain_frame (renum : list Z) (rs rs' : list rcon) (v : Z) (l : list Z) :
  mchain renum rs v l ->
  (forall k, k ∈ l -> rs' !! Z.to_nat k = rs !! Z.to_nat k) ->
  mchain renum rs' v l.
Proof.
  induction 1 as [v Hv|v j rc l Hv Hj Hr Hl _ IH]; intros Hf; [now constructor|].
  econstructor; [exact Hv|exact Hj|exact Hr| |].
  - rewrite Hf by (left). exact Hl.
  - apply IH. intros k Hk. apply Hf. now right.
Qed.

Lemma rethread_unfold (fuel : nat) (renum hs : list Z) (rs : list rcon) (hk : hook) :
  rethread fuel renum hs rs hk =
  let! j := hook_read hs rs hk in
  if j >=? 0 then
    match fuel with
    | O => Undef
    | S fuel' =>
        let! rcp := aget rs j in
        let! k := aget renum j in
        if k <? 0 then
          let! (hs', rs') := hook_write hs rs hk (next rcp) in
          rethread fuel' renum hs' rs' hk
        else
          let! (hs', rs') := hook_write hs rs hk k in
          rethread fuel' renum hs' rs' (HookRow j)
    end
  else Ok (hs, rs).
Proof. destruct fuel; reflexivity. Qed.

(** What a write through the hook does. *)
Definition hooked_hash (hs : list Z) (hk : hook) (v : Z) : list Z :=
  match hk with
  | HookHash b => <[Z.to_nat b := v]> hs
  | HookRow _ => hs
  end.

Lemma hook_write_spec (hs : list Z) (rs : list rcon) (hk : hook) (j0 v : Z) :
  hook_read hs rs hk = Ok j0 ->
  exists rs1,
    hook_write hs rs hk v = Ok (hooked_hash hs hk v, rs1) /\
    hook_read (hooked_hash hs hk v) rs1 hk = Ok v /\
    length rs1 = length rs /\
    (forall k, 0 <= k -> hk <> HookRow k -> rs1 !! Z.to_nat k = rs !! Z.to_nat k).
Proof.
  destruct hk as [b|jp]; simpl; intros H.
  - apply aget_Ok_inv in H as [Hb Hl]. exists rs.
    pose proof (lookup_lt_Some _ _ _ Hl) as Hlt.
    rewrite aset_Ok by lia. simpl. split; [reflexivity|].
    split; [apply aget_Ok; [lia|]; apply list_lookup_insert_eq; lia|]. auto.
  - inv_bind H. rename a into rcp. injection H as <-.
    pose proof Hm as Hm'. apply aget_Ok_inv in Hm' as [Hjp Hl].
    pose proof (lookup_lt_Some _ _ _ Hl) as Hlt.
    exists (<[Z.to_nat jp := set_next v rcp]> rs).
    rewrite Hm. simpl. rewrite aset_Ok by lia. simpl. split; [reflexivity|].
    split; [|split; [apply length_insert|]].
    + rewrite (aget_Ok _ jp (set_next v rcp)); [destruct rcp; reflexivity|lia|].
      apply list_lookup_insert_eq. lia.
    + intros k Hk Hne. apply list_lookup_insert_ne. intros E.
      apply Hne. f_equal. lia.
Qed.

Lemma hooked_hash_twice (hs : list Z) (hk : hook) (u v : Z) :
  hooked_hash (hooked_hash hs hk u) hk v = hooked_hash hs hk v.
Proof. destruct hk; simpl; [apply list_insert_insert_eq|reflexivity]. Qed.

Lemma hooked_hash_read (hs : list Z) (rs : list rcon) (hk : hook) (v : Z) :
  hook_read hs rs hk = Ok v -> hooked_hash hs hk v = hs.
Proof.
  destruct hk as [b|jp]; simpl; intros H; [|reflexivity].
  apply aget_Ok_inv in H as [_ H]. now apply list_insert_id.
Qed.

(** Relinking the rest [l] of a chain, reached through the hook [hk]: the
    run ends, the hook leads to the rows of [l] that stay, and nothing but
    the hook and the links of the rows of [l] is written. *)
Lemma rethread_spec (renum : list Z) (l : list Z) :
  forall (fuel : nat) (hs : list Z) (rs : list rcon) (hk : hook) (j0 : Z),
    hook_read hs rs hk = Ok j0 ->
    chain rs j0 l -> NoDup l ->
    (forall j, j ∈ l -> is_Some (renum !! Z.to_nat j)) ->
    (forall jp, hk = HookRow jp -> jp ∉ l) ->
    (length l <= fuel)%nat ->
    exists v rs',
      rethread fuel renum hs rs hk = Ok (hooked_hash hs hk v, rs') /\
      hook_read (hooked_hash hs hk v) rs' hk = Ok v /\
      mchain renum rs' v (live_rows renum l) /\
      length rs' = length rs /\
      (forall k, 0 <= k -> k ∉ l -> hk <> HookRow k ->
         rs' !! Z.to_nat k = rs !! Z.to_nat k).
Proof.
  induction l as [|j l1 IH]; intros fuel hs rs hk j0 Hread Hch Hnd Hren Hhk Hfuel.
  - inversion Hch; subst. exists j0, rs.
    rewrite rethread_unfold, Hread. simpl.
    destruct (Z.geb_spec j0 0); [lia|].
    rewrite (hooked_hash_read _ _ _ _ Hread).
    split; [reflexivity|]. split; [exact Hread|]. split; [now constructor|]. auto.
  - inversion Hch as [|? rc ? Hj Hrc Hch1]; subst.
    inversion Hnd as [|? ? Hj1 Hnd1]; subst.
    destruct fuel as [|fuel]; [simpl in Hfuel; lia|]. simpl in Hfuel.
    destruct (Hren j ltac:(left)) as [k Hk].
    assert (Hjhk : hk <> HookRow j) by (intros E; apply (Hhk j E); left).
    rewrite rethread_unfold, Hread. simpl.
    destruct (Z.geb_spec j 0); [|lia].
    rewrite (aget_Ok _ _ _ Hj Hrc), (aget_Ok _ _ _ Hj Hk). simpl.
    destruct (Z.ltb_spec k 0) as [Hneg|Hpos].
    + destruct (hook_write_spec hs rs hk j (next rc) Hread) as (rs1 & Hw & Hr1 & Hl1 & Hf1).
      rewrite Hw. simpl.
      destruct (IH fuel (hooked_hash hs hk (next rc)) rs1 hk (next rc) Hr1)
        as (v & rs' & Hrun & Hr' & Hm & Hl' & Hf'); auto.
      * apply (chain_frame rs); [exact Hch1|]. intros t Ht.
        apply Hf1; [eapply chain_in_range in Ht; [lia|exact Hch1]|].
        intros E. apply (Hhk t E). now right.
      * intros t Ht. apply Hren. now right.
      * intros jp E Hin. apply (Hhk jp E). now right.
      * lia.
      * rewrite hooked_hash_twice in Hrun, Hr'. exists v, rs'.
        split; [exact Hrun|]. split; [exact Hr'|]. split.
        -- simpl. unfold stays. rewrite Hk.
           destruct (Z.leb_spec 0 k); [lia|]. exact Hm.
        -- split; [congruence|]. intros t Ht Hnin Hne.
           rewrite Hf'; auto. intros Hin. apply Hnin. now right.
    + destruct (hook_write_spec hs rs hk j k Hread) as (rs1 & Hw & Hr1 & Hl1 & Hf1).
      rewrite Hw. simpl.
      assert (Hrc1 : rs1 !! Z.to_nat j = Some rc) by (rewrite Hf1; auto).
      assert (Hrj : hook_read (hooked_hash hs hk k) rs1 (HookRow j) = Ok (next rc)).
      { simpl. rewrite (aget_Ok _ _ _ Hj Hrc1). reflexivity. }
      destruct (IH fuel (hooked_hash hs hk k) rs1 (HookRow j) (next rc) Hrj)
        as (v & rs' & Hrun & Hr' & Hm & Hl' & Hf'); auto.
      * apply (chain_frame rs); [exact Hch1|]. intros t Ht.
        apply Hf1; [eapply chain_in_range in Ht; [lia|exact Hch1]|].
        intros E. apply (Hhk t E). now right.
      * intros t Ht. apply Hren. now right.
      * intros jp [= <-]. exact Hj1.
      * lia.
      * simpl in Hrun, Hr'. exists k, rs'.
        split; [exact Hrun|].
        assert (Hrk : hook_read (hooked_hash hs hk k) rs' hk = Ok k).
        { destruct hk as [b|jp]; [exact Hr1|].
          assert (Hjp : 0 <= jp).
          { simpl in Hread. destruct (aget rs jp) eqn:Eg; try discriminate.
            now apply aget_Ok_inv in Eg as [? _]. }
          assert (E : aget rs' jp = aget rs1 jp).
          { unfold aget. rewrite Hf'; auto.
            intros Hin. apply (Hhk jp eq_refl). now right. }
          simpl in Hr1 |- *. rewrite E. exact Hr1. }
        split; [exact Hrk|]. split.
        -- simpl. unfold stays. rewrite Hk.
           destruct (Z.leb_spec 0 k); [|lia].
           inv_bind Hr'. rename a into rc'. injection Hr' as <-.
           apply aget_Ok_inv in Hm0 as [_ Hrc'].
           econstructor; eauto.
        -- split; [congruence|]. intros t Ht Hnin Hne.
           rewrite Hf'; auto.
           ++ intros Hin. apply Hnin. now right.
           ++ intros [= <-]. apply Hnin. left.
Qed.

(** *** The relinking of all the chains *)

Lemma bucket_chain_det (p : cpool) (h : Z) (l1 l2 : list Z) :
  bucket_chain p h l1 -> bucket_chain p h l2 -> l1 = l2.
Proof.
  intros (h1 & H1 & C1) (h2 & H2 & C2). rewrite H1 in H2. injection H2 as <-.
  eapply chain_det; eauto.
Qed.

Lemma rethread_all_spec (p : cpool) (renum : list Z) :
  pool_hash_ok p -> length renum = length (rows p) ->
  exists hs' rs',
    for_range 0 CPOOL_HASH_SIZE (rethread_pass renum) (hash p, rows p) = Ok (hs', rs') /\
    length hs' = length (hash p) /\ length rs' = length (rows p) /\
    forall h l, 0 <= h < CPOOL_HASH_SIZE -> bucket_chain p h l ->
      exists v, hs' !! Z.to_nat h = Some v /\ mchain renum rs' v (live_rows renum l).
Proof.
  intros (Hlen & Hbuckets & Hrows) Hren.
  destruct (for_range_total
    (fun (b : Z) (s : list Z * list rcon) =>
       length (fst s) = length (hash p) /\ length (snd s) = length (rows p) /\
       (forall h l, 0 <= h < b -> bucket_chain p h l ->
          exists v, fst s !! Z.to_nat h = Some v /\
                    mchain renum (snd s) v (live_rows renum l)) /\
       (forall h, b <= h -> fst s !! Z.to_nat h = hash p !! Z.to_nat h) /\
       (forall j rc, rows p !! j = Some rc -> b <= hval rc -> snd s !! j = Some rc))
    0 CPOOL_HASH_SIZE (rethread_pass renum) (hash p, rows p))
    as ([hs' rs'] & Hrun & H1 & H2 & H3 & _).
  - unfold CPOOL_HASH_SIZE. lia.
  - simpl. repeat split; auto. intros h l Hh. lia.
  - intros b [hs rs] Hb (I1 & I2 & I3 & I4 & I5). simpl in I1, I2, I3, I4, I5.
    destruct (Hbuckets b Hb) as (l & (head & Hhead & Hch) & Hnd & Hl).
    unfold rethread_pass. cbn [fst snd].
    assert (Hsame : forall k, k ∈ l -> rs !! Z.to_nat k = rows p !! Z.to_nat k).
    { intros k Hk. destruct (Hl k Hk) as (rcp & Hrcp & Hv).
      rewrite Hrcp. apply (I5 _ _ Hrcp). lia. }
    assert (Hread : hook_read hs rs (HookHash b) = Ok head).
    { simpl. apply aget_Ok; [lia|]. rewrite I4 by lia. exact Hhead. }
    assert (Hrange : forall k, k ∈ l -> 0 <= k < Z.of_nat (length rs)).
    { intros k Hk. rewrite I2. eapply chain_in_range; eauto. }
    destruct (rethread_spec renum l (S (length rs)) hs rs (HookHash b) head Hread)
      as (v & rs1 & Hrun & Hr1 & Hm & Hl1 & Hf1).
    + apply (chain_frame (rows p)); auto.
    + exact Hnd.
    + intros k Hk. apply lookup_lt_is_Some. rewrite Hren, <- I2.
      specialize (Hrange k Hk). lia.
    + intros jp [=].
    + pose proof (NoDup_range_length (length rs) l Hnd Hrange). lia.
    + simpl in Hrun, Hr1. eexists. split; [exact Hrun|]. cbn [fst snd].
      apply aget_Ok_inv in Hr1 as [_ Hr1].
      split; [now rewrite length_insert|]. split; [congruence|].
      assert (Hother : forall j rc h, rows p !! j = Some rc -> hval rc = h -> h <> b ->
                         Z.of_nat j ∉ l).
      { intros j rc h Hj Hh Hne Hin. destruct (Hl _ Hin) as (rcp & Hrcp & Hv).
        rewrite Nat2Z.id in Hrcp. congruence. }
      split; [|split].
      * intros h l' Hh Hbc. destruct (Z.eq_dec h b) as [->|Hne].
        -- exists v. split; [exact Hr1|].
           replace l' with l; [exact Hm|].
           eapply bucket_chain_det; eauto. exists head. auto.
        -- destruct (I3 h l' ltac:(lia) Hbc) as (v0 & Hv0 & Hm0).
           exists v0. split; [rewrite list_lookup_insert_ne by lia; exact Hv0|].
           apply (mchain_frame renum rs); [exact Hm0|].
           intros k Hk. apply live_rows_elem in Hk as [Hk _].
           destruct (Hbuckets h ltac:(lia)) as (l2 & Hbc2 & _ & Hl2).
           rewrite <- (bucket_chain_det _ _ _ _ Hbc Hbc2) in Hl2.
           destruct (Hl2 k Hk) as (rcp & Hrcp & Hv).
           assert (0 <= k).
           { destruct Hbc as (? & _ & Hc). eapply chain_in_range in Hc; eauto. lia. }
           apply Hf1; [lia| |discriminate].
           replace k with (Z.of_nat (Z.to_nat k)) by lia.
           eapply Hother; eauto.
      * intros h Hh. rewrite list_lookup_insert_ne by lia. apply I4. lia.
      * intros j rc Hj Hh.
        replace j with (Z.to_nat (Z.of_nat j)) by lia.
        rewrite Hf1; [|lia| |discriminate].
        -- rewrite Nat2Z.id. apply (I5 _ _ Hj). lia.
        -- eapply Hother; eauto. lia.
  - exists hs', rs'. simpl in *. repeat split; auto.
Qed.

(** *** The compaction of the row headers *)

Lemma kept_before_surj (fl : list bool) (k' : nat) :
  (k' < live_count fl)%nat -> exists k, fl !! k = Some false /\ kept_before fl k = k'.
Proof.
  induction fl as [|b fl IH] using rev_ind; simpl; [lia|].
  rewrite live_count_app. simpl. intros H.
  destruct (decide (k' < live_count fl)%nat) as [Hlt|Hge].
  - destruct (IH Hlt) as (k & Hk & Hkb). exists k.
    pose proof (lookup_lt_Some _ _ _ Hk) as Hlen.
    split; [now apply lookup_app_l_Some|].
    unfold kept_before in *. rewrite take_app_le by lia. exact Hkb.
  - destruct b; [lia|]. exists (length fl). split.
    + rewrite lookup_app_r by lia. now rewrite Nat.sub_diag.
    + unfold kept_before. rewrite take_app_le by lia. rewrite take_ge by lia. lia.
Qed.

Lemma compact_spec (fl : list bool) (minrow : Z) (rs : list rcon) :
  length fl = length rs -> 0 <= minrow <= Z.of_nat (length rs) ->
  (forall k, (k < Z.to_nat minrow)%nat -> fl !! k = Some false) ->
  exists rs',
    for_range minrow (Z.of_nat (length rs)) (compact_pass fl) (rs, minrow)
      = Ok (rs', Z.of_nat (live_count fl)) /\
    length rs' = length rs /\
    forall k rc, fl !! k = Some false -> rs !! k = Some rc ->
                 rs' !! kept_before fl k = Some rc.
Proof.
  intros Hlen Hmin Hlow.
  destruct (for_range_total
    (fun (i : Z) (s : list rcon * Z) =>
       length (fst s) = length rs /\
       snd s = Z.of_nat (kept_before fl (Z.to_nat i)) /\
       (forall k, (k < Z.to_nat i)%nat -> fl !! k = Some false ->
                  fst s !! kept_before fl k = rs !! k) /\
       (forall k, (Z.to_nat i <= k)%nat -> fst s !! k = rs !! k))
    minrow (Z.of_nat (length rs)) (compact_pass fl) (rs, minrow))
    as ([rs' j] & Hrun & H1 & H2 & H3 & _).
  - lia.
  - simpl. split; [reflexivity|]. split; [rewrite kept_before_all by auto; lia|].
    split; [|auto]. intros k Hk _.
    rewrite kept_before_all; [reflexivity|]. intros k0 Hk0. apply Hlow. lia.
  - intros i [r j] Hi (I1 & I2 & I3 & I4). simpl in I1, I2, I3, I4.
    unfold compact_pass.
    destruct (lookup_lt_is_Some_2 fl (Z.to_nat i) ltac:(lia)) as [d Hd].
    rewrite (aget_Ok fl i d ltac:(lia) Hd). simpl.
    replace (Z.to_nat (i + 1)) with (S (Z.to_nat i)) by lia.
    rewrite (kept_before_S _ _ _ Hd).
    destruct d.
    + eexists. split; [reflexivity|]. simpl.
      split; [exact I1|]. split; [lia|]. split.
      * intros k Hk Hf. destruct (decide (k = Z.to_nat i)) as [->|Hne]; [congruence|].
        apply I3; [lia|exact Hf].
      * intros k Hk. apply I4. lia.
    + destruct (lookup_lt_is_Some_2 rs (Z.to_nat i) ltac:(lia)) as [rc Hrc].
      rewrite (aget_Ok r i rc) by (try lia; rewrite I4 by lia; exact Hrc). simpl.
      pose proof (kept_before_le fl (Z.to_nat i)) as Hle.
      rewrite aset_Ok by lia. simpl.
      eexists. split; [reflexivity|]. simpl.
      split; [now rewrite length_insert|]. split; [lia|]. split.
      * intros k Hk Hf. destruct (decide (k = Z.to_nat i)) as [->|Hne].
        -- rewrite I2, Nat2Z.id, Hrc. apply list_lookup_insert_eq. lia.
        -- rewrite list_lookup_insert_ne; [apply I3; [lia|exact Hf]|].
           pose proof (kept_before_lt fl k (Z.to_nat i) ltac:(lia) Hf). lia.
      * intros k Hk. rewrite list_lookup_insert_ne by lia. apply I4. lia.
  - simpl in *. rewrite Nat2Z.id in H2, H3.
    rewrite (kept_before_length fl (length rs)) in H2 by lia. subst j.
    exists rs'. split; [exact Hrun|]. split; [exact H1|].
    intros k rc Hk Hrc. rewrite H3; auto. apply lookup_lt_Some in Hrc. lia.
Qed.

(** *** The candidates *)

(** The test of the candidate loop on one row header. *)
Definition gc_candidate (pool : cpool) (rcp : rcon) : bool :=
  (lprow rcp =? -1) && negb (0 <? refc rcp) &&
  (has_discard_flag rcp || negb (wrap32 (iter pool - biter rcp) <? GRACE_TIME)).

Lemma candidate_pass_spec (pool : cpool) (i : Z) (rcp : rcon) (cs : list (Z * Z)) :
  aget (rows pool) i = Ok rcp ->
  exists cost,
    candidate_pass pool i cs = Ok (if gc_candidate pool rcp then cs ++ [(i, cost)] else cs).
Proof.
  intros H. unfold candidate_pass, gc_candidate. rewrite H. simpl.
  destruct (lprow rcp =? -1); simpl; [|now exists 0].
  destruct (0 <? refc rcp); simpl; [now exists 0|].
  destruct (has_discard_flag rcp); simpl; [now eexists|].
  destruct (_ <? GRACE_TIME); simpl; [now exists 0|now eexists].
Qed.

Lemma candidates_total (pool : cpool) :
  0 <= initrows pool ->
  exists cands,
    for_range (initrows pool) (nrows pool) (candidate_pass pool) [] = Ok cands /\
    forall k, k ∈ cands.*1 <->
      initrows pool <= k < nrows pool /\
      exists rcp, rows pool !! Z.to_nat k = Some rcp /\ gc_candidate pool rcp = true.
Proof.
  intros H0.
  destruct (Z.le_gt_cases (initrows pool) (nrows pool)) as [Hle|Hgt].
  - destruct (for_range_total
      (fun (t : Z) (cs : list (Z * Z)) =>
         forall k, k ∈ cs.*1 <->
           initrows pool <= k < t /\
           exists rcp, rows pool !! Z.to_nat k = Some rcp /\ gc_candidate pool rcp = true)
      (initrows pool) (nrows pool) (candidate_pass pool) []) as (cs & Hrun & Hcs); auto.
    + intros k. simpl. split; [intros Hk; inversion Hk|intros [? _]; lia].
    + intros t cs Ht Hcs. unfold nrows in Ht.
      destruct (lookup_lt_is_Some_2 (rows pool) (Z.to_nat t) ltac:(lia)) as [rcp Hrcp].
      destruct (candidate_pass_spec pool t rcp cs
                  (aget_Ok (rows pool) t rcp ltac:(lia) Hrcp)) as [cost Hc].
      eexists. split; [exact Hc|]. intros k.
      destruct (gc_candidate pool rcp) eqn:E.
      * rewrite fmap_app, elem_of_app, Hcs. simpl. rewrite list_elem_of_singleton. split.
        -- intros [[Hk Hex]| ->]; [split; [lia|exact Hex]|]. split; [lia|eauto].
        -- intros [Hk Hex]. destruct (Z.eq_dec k t) as [->|Hne]; [now right|].
           left. split; [lia|exact Hex].
      * rewrite Hcs. split.
        -- intros [Hk Hex]. split; [lia|exact Hex].
        -- intros [Hk (r & Hr & Hg)]. split; [|eauto].
           destruct (Z.eq_dec k t) as [->|Hne]; [congruence|lia].
    + exists cs. auto.
  - exists []. rewrite for_range_empty by lia. split; [reflexivity|].
    intros k. simpl. split; [intros Hk; inversion Hk|intros [? _]; lia].
Qed.

Lemma gc_candidate_evictable (pool : cpool) (k : Z) (rcp : rcon) :
  initrows pool <= k < nrows pool -> 0 <= k ->
  rows pool !! Z.to_nat k = Some rcp -> gc_candidate pool rcp = true ->
  evictable pool k.
Proof.
  intros Hk H0 Hr Hg. unfold gc_candidate in Hg.
  apply andb_true_iff in Hg as [Hg _]. apply andb_true_iff in Hg as [H1 H2].
  apply Z.eqb_eq in H1. apply negb_true_iff, Z.ltb_ge in H2.
  split; [exact Hk|]. split; [exact H0|]. eauto.
Qed.

(** *** The sort ends and loses no candidate *)

Lemma sift_unfold (fuel : nat) (h c : Z) (a : list (Z * Z)) (j : Z) :
  sift fuel h c a j =
  if j >=? h then
    match fuel with
    | O => Undef
    | S fuel' =>
        let! e := aget a (j - h) in
        if snd e <=? c then Ok (a, j)
        else
          let! a' := aset a j e in
          sift fuel' h c a' (j - h)
    end
  else Ok (a, j).
Proof. destruct fuel; reflexivity. Qed.

Lemma swap_elem (a : list (Z * Z)) (i j : nat) (e tmp x : Z * Z) :
  a !! i = Some e -> (j < length a)%nat -> i <> j ->
  x ∈ <[j := tmp]> a -> x ∈ <[i := tmp]> (<[j := e]> a).
Proof.
  intros Hi Hj Hne Hx. apply list_elem_of_lookup in Hx as [t Ht].
  pose proof (lookup_lt_Some _ _ _ Hi) as Hlt.
  apply list_elem_of_lookup.
  destruct (decide (t = j)) as [->|Htj].
  - rewrite list_lookup_insert_eq in Ht by lia. injection Ht as <-.
    exists i. apply list_lookup_insert_eq. rewrite length_insert. lia.
  - rewrite list_lookup_insert_ne in Ht by auto.
    destruct (decide (t = i)) as [->|Hti].
    + exists j. rewrite list_lookup_insert_ne by auto.
      rewrite list_lookup_insert_eq by lia. congruence.
    + exists t. now rewrite !list_lookup_insert_ne by auto.
Qed.

Lemma sift_total (fuel : nat) (h c : Z) :
  1 <= h ->
  forall (a : list (Z * Z)) (j : Z),
    0 <= j < Z.of_nat (length a) -> (Z.to_nat j < fuel)%nat ->
    exists a' j',
      sift fuel h c a j = Ok (a', j') /\ 0 <= j' <= j /\ length a' = length a /\
      forall tmp x, x ∈ <[Z.to_nat j := tmp]> a -> x ∈ <[Z.to_nat j' := tmp]> a'.
Proof.
  intros Hh. induction fuel as [|fuel IH]; intros a j Hj Hf; [lia|].
  rewrite sift_unfold.
  destruct (Z.geb_spec j h) as [Hge|Hlt];
    [|exists a, j; repeat split; auto; lia].
  destruct (lookup_lt_is_Some_2 a (Z.to_nat (j - h)) ltac:(lia)) as [e He].
  rewrite (aget_Ok a (j - h) e ltac:(lia) He). simpl.
  destruct (snd e <=? c); [exists a, j; repeat split; auto; lia|].
  rewrite aset_Ok by lia. simpl.
  destruct (IH (<[Z.to_nat j := e]> a) (j - h)) as (a' & j' & Hrun & Hj' & Hl & Hsub).
  - rewrite length_insert. lia.
  - lia.
  - exists a', j'. split; [exact Hrun|]. split; [lia|].
    split; [now rewrite Hl, length_insert|].
    intros tmp x Hx. apply Hsub. eapply swap_elem; eauto; lia.
Qed.

Lemma gap_insert_total (h i : Z) (a : list (Z * Z)) :
  1 <= h -> 0 <= i < Z.of_nat (length a) ->
  exists a', gap_insert h i a = Ok a' /\ length a' = length a /\
             forall x, x ∈ a -> x ∈ a'.
Proof.
  intros Hh Hi. unfold gap_insert.
  destruct (lookup_lt_is_Some_2 a (Z.to_nat i) ltac:(lia)) as [tmp Htmp].
  rewrite (aget_Ok a i tmp ltac:(lia) Htmp). cbn [bind].
  destruct (sift_total (S (Z.to_nat i)) h (snd tmp) Hh a i Hi ltac:(lia))
    as (a' & j' & Hrun & Hj' & Hl & Hsub).
  rewrite Hrun. cbn [bind]. rewrite aset_Ok by lia.
  eexists. split; [reflexivity|]. split; [now rewrite length_insert|].
  intros x Hx. apply Hsub. now rewrite list_insert_id.
Qed.

Lemma gap_loop_total (h n : Z) (a : list (Z * Z)) :
  1 <= h -> n <= Z.of_nat (length a) ->
  exists a', for_range h n (gap_insert h) a = Ok a' /\ length a' = length a /\
             forall x, x ∈ a -> x ∈ a'.
Proof.
  intros Hh Hn. destruct (Z.le_gt_cases h n) as [Hle|Hgt];
    [|exists a; rewrite for_range_empty by lia; auto].
  destruct (for_range_total
    (fun (_ : Z) (t : list (Z * Z)) => length t = length a /\ forall x, x ∈ a -> x ∈ t)
    h n (gap_insert h) a) as (a' & Hrun & Hl & Hsub); auto.
  - intros i t Hi [Hl Hsub].
    destruct (gap_insert_total h i t Hh ltac:(lia)) as (t' & Ht' & Hl' & Hs').
    exists t'. split; [exact Ht'|]. split; [congruence|auto].
  - exists a'. auto.
Qed.

(** The gaps 1, 4, 13, 40, ... *)
Inductive gap : Z -> Prop :=
| gap_1 : gap 1
| gap_next (h : Z) : gap h -> gap (3 * h + 1).

Lemma gap_pos (h : Z) : gap h -> 1 <= h.
Proof. induction 1; lia. Qed.

Lemma first_gap_total (n : Z) (fuel : nat) :
  forall h, gap h -> (Z.to_nat (n + 1 - h) <= fuel)%nat ->
    exists h', first_gap fuel h n = Ok h' /\ gap h' /\ n < h'.
Proof.
  induction fuel as [|fuel IH]; intros h Hg Hf; simpl.
  - destruct (Z.leb_spec h n); [lia|]. exists h. auto.
  - destruct (Z.leb_spec h n); [|exists h; auto].
    pose proof (gap_pos h Hg). apply IH; [now constructor|lia].
Qed.

Lemma gap_passes_unfold (fuel : nat) (h n : Z) (a : list (Z * Z)) :
  gap_passes fuel h n a =
  let! a' := for_range (Z.quot h 3) n (gap_insert (Z.quot h 3)) a in
  if 1 <? Z.quot h 3 then
    match fuel with
    | O => Undef
    | S fuel' => gap_passes fuel' (Z.quot h 3) n a'
    end
  else Ok a'.
Proof. destruct fuel; reflexivity. Qed.

Lemma gap_passes_total (n : Z) (h : Z) :
  gap h ->
  forall (fuel : nat) (a : list (Z * Z)),
    (Z.to_nat h <= fuel)%nat -> n <= Z.of_nat (length a) ->
    exists a', gap_passes fuel (3 * h + 1) n a = Ok a' /\ length a' = length a /\
               forall x, x ∈ a -> x ∈ a'.
Proof.
  induction 1 as [|h Hg IH]; intros fuel a Hf Hn; rewrite gap_passes_unfold.
  - replace (Z.quot (3 * 1 + 1) 3) with 1 by reflexivity.
    destruct (gap_loop_total 1 n a ltac:(lia) Hn) as (a' & Hrun & Hl & Hs).
    rewrite Hrun. simpl. exists a'. auto.
  - pose proof (gap_pos h Hg) as Hpos.
    replace (Z.quot (3 * (3 * h + 1) + 1) 3) with (3 * h + 1)
      by (apply Z.quot_unique with 1; lia).
    destruct (gap_loop_total (3 * h + 1) n a ltac:(lia) Hn) as (a1 & Hrun & Hl & Hs).
    rewrite Hrun. simpl. destruct (Z.ltb_spec 1 (3 * h + 1)); [|lia].
    destruct fuel as [|fuel]; [lia|].
    destruct (IH fuel a1 ltac:(lia) ltac:(lia)) as (a' & Hrun' & Hl' & Hs').
    exists a'. split; [exact Hrun'|]. split; [congruence|auto].
Qed.

Lemma sort_gc_candidates_total (a : list (Z * Z)) (n : Z) :
  1 <= n <= Z.of_nat (length a) ->
  exists a', sort_gc_candidates a n = Ok a' /\ length a' = length a /\
             forall x, x ∈ a -> x ∈ a'.
Proof.
  intros Hn. unfold sort_gc_candidates.
  destruct (first_gap_total n (S (Z.to_nat n)) 1 gap_1 ltac:(lia)) as (h & Hh & Hg & Hlt).
  rewrite Hh. cbn [bind].
  inversion Hg as [E|g Hg' E]; [lia|]. subst h.
  pose proof (gap_pos g Hg').
  apply gap_passes_total; [exact Hg'|lia|lia].
Qed.

(** *** The remaining loops end *)

Lemma pick_victims_total (rs : list rcon) (cands : list (Z * Z)) (mr : Z) (fuel : nat) :
  (forall c, c ∈ cands -> 0 <= fst c < Z.of_nat (length rs)) ->
  forall i nz minrow,
    0 <= i < Z.of_nat (length cands) -> (Z.to_nat i <= fuel)%nat ->
    exists r, pick_victims fuel rs cands mr i nz minrow = Ok r.
Proof.
  intros Hc. induction fuel as [|fuel IH]; intros i nz minrow Hi Hf;
    rewrite pick_victims_unfold;
    destruct (lookup_lt_is_Some_2 cands (Z.to_nat i) ltac:(lia)) as [c Hci];
    rewrite (aget_Ok cands i c ltac:(lia) Hci); cbn [bind];
    pose proof (Hc c (list_elem_of_lookup_2 _ _ _ Hci)) as Hr;
    destruct (lookup_lt_is_Some_2 rs (Z.to_nat (fst c)) ltac:(lia)) as [rk Hrk];
    rewrite (aget_Ok rs (fst c) rk ltac:(lia) Hrk); cbn [bind];
    (destruct (_ >=? mr); [eauto|]);
    (destruct (Z.eqb_spec i 0); [eauto|]).
  - lia.
  - apply IH; lia.
Qed.

Lemma flag_loop_total (cands : list (Z * Z)) (lo : Z) (n : nat) :
  (forall c, c ∈ cands -> 0 <= fst c < Z.of_nat n) -> 0 <= lo ->
  exists fl, for_range lo (Z.of_nat (length cands)) (flag_pass cands) (replicate n false)
             = Ok fl.
Proof.
  intros Hc Hlo.
  destruct (Z.le_gt_cases lo (Z.of_nat (length cands))) as [Hle|Hgt];
    [|rewrite for_range_empty by lia; eauto].
  destruct (for_range_total
    (fun (_ : Z) (f : list bool) => length f = n)
    lo (Z.of_nat (length cands)) (flag_pass cands) (replicate n false))
    as (fl & Hrun & _); [exact Hle|apply length_replicate| |eauto].
  intros t f Ht Hl. unfold flag_pass.
  destruct (lookup_lt_is_Some_2 cands (Z.to_nat t) ltac:(lia)) as [c Hci].
  rewrite (aget_Ok cands t c ltac:(lia) Hci). cbn [bind].
  pose proof (Hc c (list_elem_of_lookup_2 _ _ _ Hci)) as Hr.
  rewrite aset_Ok by lia. eexists. split; [reflexivity|]. now rewrite length_insert.
Qed.

Lemma renum_loop_total (fl : list bool) (init : list Z) :
  length init = length fl ->
  exists renum j,
    for_range 0 (Z.of_nat (length fl)) (renum_pass fl) (init, 0) = Ok (renum, j).
Proof.
  intros Hinit.
  destruct (for_range_total
    (fun (_ : Z) (s : list Z * Z) => length (fst s) = length fl)
    0 (Z.of_nat (length fl)) (renum_pass fl) (init, 0))
    as ([renum j] & Hrun & _); [lia|exact Hinit| |eauto].
  intros t [r j] Ht Hl. simpl in Hl. unfold renum_pass.
  destruct (lookup_lt_is_Some_2 fl (Z.to_nat t) ltac:(lia)) as [d Hd].
  rewrite (aget_Ok fl t d ltac:(lia) Hd). cbn [bind].
  destruct d; rewrite aset_Ok by lia; cbn [bind];
    (eexists; split; [reflexivity|]; simpl; now rewrite length_insert).
Qed.

Lemma lprows_loop_total (renum lpr : list Z) (n : Z) :
  0 <= n ->
  (forall i, (i < Z.to_nat n)%nat ->
     exists r j, lpr !! i = Some r /\ 0 <= r /\ renum !! Z.to_nat r = Some j /\ 0 <= j) ->
  exists lpr', for_range 0 n (lprows_pass renum) lpr = Ok lpr'.
Proof.
  intros Hn Hok.
  destruct (for_range_total
    (fun (t : Z) (l : list Z) =>
       length l = length lpr /\ forall i, (Z.to_nat t <= i)%nat -> l !! i = lpr !! i)
    0 n (lprows_pass renum) lpr) as (lpr' & Hrun & _); [exact Hn|auto| |eauto].
  intros t l Ht [Hl Hrest]. unfold lprows_pass.
  destruct (Hok (Z.to_nat t) ltac:(lia)) as (r & j & Hr & Hr0 & Hj & Hj0).
  rewrite <- Hrest in Hr by lia.
  rewrite (aget_Ok l t r ltac:(lia) Hr). cbn [bind].
  rewrite (aget_Ok renum r j Hr0 Hj). cbn [bind].
  destruct (Z.ltb_spec j 0); [lia|]. cbn [fatal_if bind].
  apply lookup_lt_Some in Hr. rewrite aset_Ok by lia.
  eexists. split; [reflexivity|]. split; [now rewrite length_insert|].
  intros i Hi. rewrite list_lookup_insert_ne by lia. apply Hrest. lia.
Qed.

(** *** The pool after the collection *)

Lemma kept_before_live (fl : list bool) (k : nat) :
  fl !! k = Some false -> (kept_before fl k < live_count fl)%nat.
Proof.
  intros H. pose proof (lookup_lt_Some _ _ _ H) as Hlt.
  pose proof (kept_before_lt fl k (length fl) Hlt H) as Hk.
  now rewrite (kept_before_length fl (length fl)) in Hk by lia.
Qed.

Lemma kept_before_inj (fl : list bool) (k1 k2 : nat) :
  fl !! k1 = Some false -> fl !! k2 = Some false ->
  kept_before fl k1 = kept_before fl k2 -> k1 = k2.
Proof.
  intros H1 H2 E.
  destruct (Nat.lt_trichotomy k1 k2) as [Hlt|[Heq|Hgt]]; [|exact Heq|].
  - pose proof (kept_before_lt fl k1 k2 Hlt H1). lia.
  - pose proof (kept_before_lt fl k2 k1 Hgt H2). lia.
Qed.

Lemma renum_of_stays (fl : list bool) (k : nat) (v : Z) :
  renum_of fl k = v -> 0 <= v -> fl !! k = Some false /\ v = Z.of_nat (kept_before fl k).
Proof.
  unfold renum_of. destruct (fl !! k) as [[]|]; intros <- H; try lia. auto.
Qed.

Lemma renum_of_false (fl : list bool) (k : nat) :
  fl !! k = Some false -> renum_of fl k = Z.of_nat (kept_before fl k).
Proof. unfold renum_of. now intros ->. Qed.

(** The renumbering array of the run. *)
Definition renum_ok (fl : list bool) (renum : list Z) : Prop :=
  length renum = length fl /\
  forall k, (k < length fl)%nat -> renum !! k = Some (renum_of fl k).

Lemma stays_flag (fl : list bool) (renum : list Z) (j : Z) :
  renum_ok fl renum -> 0 <= j ->
  stays renum j = true <-> fl !! Z.to_nat j = Some false.
Proof.
  intros [Hl Hr] Hj. unfold stays.
  destruct (decide (Z.to_nat j < length fl)%nat) as [Hlt|Hge].
  - rewrite (Hr _ Hlt). unfold renum_of.
    destruct (fl !! Z.to_nat j) as [[]|]; split; intros H; try discriminate; auto.
    apply Z.leb_le. lia.
  - rewrite (lookup_ge_None_2 renum) by lia.
    rewrite (lookup_ge_None_2 fl) by lia. split; discriminate.
Qed.

(** The moved rows, seen from the rows before the move. *)
Definition moved (fl : list bool) (rs1 R : list rcon) : Prop :=
  length R = live_count fl /\
  forall k rc, fl !! k = Some false -> rs1 !! k = Some rc ->
               R !! kept_before fl k = Some rc.

Lemma mchain_chain (fl : list bool) (renum : list Z) (rs1 R : list rcon) (v : Z)
    (l : list Z) :
  renum_ok fl renum -> moved fl rs1 R ->
  mchain renum rs1 v l ->
  chain R v ((fun j => renum_of fl (Z.to_nat j)) <$> l).
Proof.
  intros [Hl Hr] [_ Hmv]. induction 1 as [v Hv|v j rc l Hv Hj Hren Hrc _ IH]; simpl.
  - now constructor.
  - pose proof (lookup_lt_Some _ _ _ Hren) as Hlt. rewrite Hr in Hren by lia.
    injection Hren as Hren.
    destruct (renum_of_stays _ _ _ Hren Hv) as [Hfl Hkb].
    rewrite Hren. econstructor; [exact Hv| |exact IH].
    rewrite Hkb, Nat2Z.id. now apply Hmv.
Qed.

Lemma same_but_next_stored (a b : rcon) :
  same_but_next a b -> stored_ok a -> stored_ok b /\ hval b = hval a.
Proof.
  unfold same_but_next. intros -> H. destruct a; simpl in *. split; [exact H|reflexivity].
Qed.

Lemma gc_hash_ok (p p' : cpool) (fl : list bool) (renum : list Z) (rs1 : list rcon) :
  pool_hash_ok p ->
  length fl = length (rows p) ->
  renum_ok fl renum ->
  length (hash p') = length (hash p) ->
  Forall2 same_but_next (rows p) rs1 ->
  (forall h l, 0 <= h < CPOOL_HASH_SIZE -> bucket_chain p h l ->
     exists v, hash p' !! Z.to_nat h = Some v /\
               mchain renum rs1 v (live_rows renum l)) ->
  moved fl rs1 (rows p') ->
  pool_hash_ok p'.
Proof.
  intros (Hlen & Hbuckets & Hrows) Hfl Hren Hlh Hsame Hch Hmv.
  assert (Hnew : forall h l, 0 <= h < CPOOL_HASH_SIZE -> bucket_chain p h l ->
            bucket_chain p' h ((fun j => renum_of fl (Z.to_nat j)) <$> live_rows renum l)).
  { intros h l Hh Hl. destruct (Hch h l Hh Hl) as (v & Hv & Hm).
    exists v. split; [exact Hv|]. eapply mchain_chain; eauto. }
  assert (Hrow : forall k rc, rows p !! k = Some rc -> fl !! k = Some false ->
            exists rc', rows p' !! kept_before fl k = Some rc' /\ same_but_next rc rc').
  { intros k rc Hk Hf.
    destruct (Forall2_lookup_l _ _ _ _ _ Hsame Hk) as (rc' & Hrc' & Hs).
    exists rc'. split; [|exact Hs]. destruct Hmv as [_ Hmv]. now apply Hmv. }
  split; [congruence|]. split.
  - intros h Hh. destruct (Hbuckets h Hh) as (l & Hbc & Hnd & Hl).
    assert (Hpos : forall j, j ∈ l -> 0 <= j).
    { intros j Hj. destruct Hbc as (? & _ & Hc).
      eapply chain_in_range in Hc; eauto. lia. }
    eexists. split; [apply Hnew; eauto|]. split.
    + apply NoDup_fmap_2_strong; [|now apply live_rows_NoDup].
      intros j1 j2 H1 H2 E.
      apply live_rows_elem in H1 as [H1 S1]. apply live_rows_elem in H2 as [H2 S2].
      pose proof (Hpos j1 H1) as P1. pose proof (Hpos j2 H2) as P2.
      apply (stays_flag fl renum j1 Hren P1) in S1.
      apply (stays_flag fl renum j2 Hren P2) in S2.
      rewrite !renum_of_false in E by auto.
      assert (Z.to_nat j1 = Z.to_nat j2)
        by (eapply kept_before_inj; eauto; lia).
      lia.
    + intros j' Hin. apply list_elem_of_fmap in Hin as (j & -> & Hj).
      apply live_rows_elem in Hj as [Hj Sj].
      apply (stays_flag fl renum j Hren (Hpos j Hj)) in Sj.
      destruct (Hl j Hj) as (rcp & Hrcp & Hv).
      destruct (Hrow _ _ Hrcp Sj) as (rc' & Hrc' & Hs).
      exists rc'. rewrite renum_of_false, Nat2Z.id by auto. split; [exact Hrc'|].
      unfold same_but_next in Hs. rewrite Hs. destruct rcp; simpl in *. exact Hv.
  - intros j' rcp' Hj'.
    assert (Hlt : (j' < live_count fl)%nat).
    { destruct Hmv as [Hl' _]. rewrite <- Hl'. eapply lookup_lt_Some; eauto. }
    destruct (kept_before_surj fl j' Hlt) as (k & Hk & Hkb).
    destruct (lookup_lt_is_Some_2 (rows p) k) as [rc Hrc];
      [rewrite <- Hfl; eapply lookup_lt_Some; eauto|].
    destruct (Hrow _ _ Hrc Hk) as (rc' & Hrc' & Hs).
    rewrite Hkb, Hj' in Hrc'. injection Hrc' as <-.
    destruct (Hrows _ _ Hrc) as (Hst & l & Hbc & Hin).
    destruct (same_but_next_stored _ _ Hs Hst) as [Hst' Hhv].
    split; [exact Hst'|]. rewrite Hhv.
    eexists. split.
    + apply Hnew; [|exact Hbc].
      destruct Hst as (_ & _ & _ & hv0 & _ & ->). apply bucket_of_range.
    + apply list_elem_of_fmap. exists (Z.of_nat k). split.
      * rewrite Nat2Z.id, renum_of_false by auto. lia.
      * apply live_rows_elem. split; [exact Hin|].
        apply (stays_flag fl renum (Z.of_nat k) Hren (Nat2Z.is_nonneg k)).
        now rewrite Nat2Z.id.
Qed.

(** *** The whole collection *)

(** The loaded rows and the array [lprows] agree. *)
Definition pool_lp_ok (p : cpool) : Prop :=
  0 <= nlprows p <= Z.of_nat (length (lprows p)) /\
  (forall i, (i < Z.to_nat (nlprows p))%nat ->
     exists row rc, lprows p !! i = Some row /\ 0 <= row /\
                    rows p !! Z.to_nat row = Some rc /\ lprow rc = Z.of_nat i) /\
  (forall k rc, rows p !! k = Some rc -> 0 <= lprow rc ->
     lprow rc < nlprows p /\ lprows p !! Z.to_nat (lprow rc) = Some (Z.of_nat k)).

(** The state in which the collector is called: the hash index and the LP
    index are sound and no row is pending. *)
Definition pool_gc_ready (p : cpool) : Prop :=
  pool_hash_ok p /\ pool_lp_ok p /\ npend p = 0 /\ 0 <= initrows p.

(** The size the collector aims at. *)
Definition gc_target (p : cpool) (target_pool_non_zeros : Z) : Z :=
  if 0 <? target_pool_non_zeros then target_pool_non_zeros
  else 16 * useful_nz (rows p).

(** The pool [p'] is the pool [p] without the rows flagged by [fl]: a row
    that stays moves to the number of rows that stay before it and keeps
    everything but its link, [lprows] is renumbered, the counters of the LP
    side are the same. *)
Definition gc_result (p : cpool) (fl : list bool) (p' : cpool) : Prop :=
  length fl = length (rows p) /\
  length (rows p') = live_count fl /\
  (forall k rc, rows p !! k = Some rc -> fl !! k = Some false ->
     exists rc', rows p' !! kept_before fl k = Some rc' /\ same_but_next rc rc') /\
  (forall i, (i < Z.to_nat (nlprows p))%nat ->
     exists row, lprows p !! i = Some row /\
                 lprows p' !! i = Some (renum_of fl (Z.to_nat row))) /\
  length (lprows p') = length (lprows p) /\
  nlprows p' = nlprows p /\ npend p' = npend p /\ initrows p' = initrows p /\
  iter p' = iter p /\ pool_uid p' = pool_uid p /\ maxrows p' = maxrows p.

Lemma kept_before_replicate (n k : nat) :
  (k <= n)%nat -> kept_before (replicate n false) k = k.
Proof.
  intros H. apply kept_before_all. intros j Hj. apply lookup_replicate. split; [auto|lia].
Qed.

Lemma live_count_replicate (n : nat) : live_count (replicate n false) = n.
Proof. induction n; simpl; auto. Qed.

Lemma gc_result_id (p : cpool) :
  pool_lp_ok p -> gc_result p (replicate (length (rows p)) false) p.
Proof.
  intros (Hn & Hlp & _). unfold gc_result.
  split; [apply length_replicate|]. split; [now rewrite live_count_replicate|].
  split; [|split; [|repeat split; reflexivity]].
  - intros k rc Hk _. pose proof (lookup_lt_Some _ _ _ Hk).
    rewrite kept_before_replicate by lia. exists rc. split; [exact Hk|].
    apply same_but_next_refl.
  - intros i Hi. destruct (Hlp i Hi) as (row & rc & Hrow & H0 & Hrc & _).
    exists row. split; [exact Hrow|]. rewrite Hrow. f_equal.
    pose proof (lookup_lt_Some _ _ _ Hrc).
    unfold renum_of. rewrite (proj2 (lookup_replicate _ _ _ _)) by (split; [reflexivity|lia]).
    rewrite kept_before_replicate by lia. lia.
Qed.

Lemma picked_nz_nonneg (rs : list rcon) (cands : list (Z * Z)) (lo hi : Z) :
  (forall rc, rc ∈ rs -> 0 <= len rc) -> 0 <= picked_nz rs cands lo hi.
Proof.
  intros H. unfold picked_nz.
  induction (seq (Z.to_nat lo) (Z.to_nat (hi + 1 - lo))) as [|t l IH]; simpl; [lia|].
  destruct (cands !! t) as [c|]; [|exact IH].
  destruct (rs !! Z.to_nat (fst c)) as [rk|] eqn:E; [|exact IH].
  pose proof (H rk (list_elem_of_lookup_2 _ _ _ E)). lia.
Qed.

(** The rows of a sound pool that stay keep the LP index sound. *)
Lemma gc_lp_ok (p p' : cpool) (fl : list bool) :
  pool_lp_ok p -> gc_result p fl p' ->
  (forall k, fl !! k = Some true -> evictable p (Z.of_nat k)) ->
  pool_lp_ok p'.
Proof.
  intros (Hn & Hlp & Hback) (Hfl & Hlen & Hrow & Hlpr & Hll & Hnl & _) Hev.
  assert (Hloaded : forall k rc, rows p !! k = Some rc -> lprow rc <> -1 ->
                      fl !! k = Some false).
  { intros k rc Hk Hl. pose proof (lookup_lt_Some _ _ _ Hk) as Hlt.
    destruct (lookup_lt_is_Some_2 fl k ltac:(lia)) as [[] Hb]; [|exact Hb].
    destruct (Hev k Hb) as (_ & _ & rc' & Hrc' & Hl' & _).
    rewrite Nat2Z.id, Hk in Hrc'. injection Hrc' as <-. contradiction. }
  split; [rewrite Hnl, Hll; exact Hn|]. split.
  - intros i Hi. rewrite Hnl in Hi.
    destruct (Hlpr i Hi) as (row & Hr & Hr').
    destruct (Hlp i Hi) as (row' & rc & Hrw & H0 & Hrc & Hi').
    rewrite Hr in Hrw. injection Hrw as <-.
    assert (Hf : fl !! Z.to_nat row = Some false) by (apply (Hloaded _ _ Hrc); lia).
    destruct (Hrow _ _ Hrc Hf) as (rc' & Hrc' & Hs).
    exists (renum_of fl (Z.to_nat row)), rc'. rewrite renum_of_false by auto.
    rewrite renum_of_false in Hr' by auto.
    split; [exact Hr'|]. split; [lia|]. rewrite Nat2Z.id. split; [exact Hrc'|].
    unfold same_but_next in Hs. rewrite Hs. destruct rc; simpl in *. exact Hi'.
  - intros k' rc' Hk' Hl'.
    assert (Hlt : (k' < live_count fl)%nat)
      by (rewrite <- Hlen; eapply lookup_lt_Some; eauto).
    destruct (kept_before_surj fl k' Hlt) as (k & Hk & Hkb).
    destruct (lookup_lt_is_Some_2 (rows p) k) as [rc Hrc];
      [rewrite <- Hfl; eapply lookup_lt_Some; eauto|].
    destruct (Hrow _ _ Hrc Hk) as (rc2 & Hrc2 & Hs).
    rewrite Hkb, Hk' in Hrc2. injection Hrc2 as <-.
    assert (El : lprow rc' = lprow rc)
      by (unfold same_but_next in Hs; rewrite Hs; destruct rc; reflexivity).
    rewrite El in Hl' |- *. destruct (Hback _ _ Hrc Hl') as [Hb1 Hb2].
    rewrite Hnl. split; [exact Hb1|].
    destruct (Hlpr (Z.to_nat (lprow rc)) ltac:(lia)) as (row & Hr & Hr').
    rewrite Hb2 in Hr. injection Hr as <-.
    rewrite Hr', Nat2Z.id, renum_of_false by auto. now rewrite Hkb.
Qed.

Lemma gc_run (p : cpool) (ncoeff tgt : Z) :
  pool_gc_ready p ->
  exists p' fl,
    garbage_collect_pool p ncoeff tgt = Ok p' /\
    gc_result p fl p' /\ pool_hash_ok p' /\
    (forall k, fl !! k = Some true -> evictable p (Z.of_nat k)) /\
    num_nz p' <= num_nz p /\
    (num_nz p' + ncoeff <= gc_target p tgt \/
     forall k rc, initrows p <= Z.of_nat k -> rows p !! k = Some rc ->
                  gc_candidate p rc = true -> fl !! k = Some true).
Proof.
  intros (Hhash & Hlp & Hnp & Hinit).
  unfold garbage_collect_pool. rewrite Hnp.
  change (0 <? 0) with false. cbn [fatal_if bind].
  destruct (candidates_total p Hinit) as (cands & Hcands & Hcspec).
  rewrite Hcands. cbn [bind]. cbv zeta.
  change (if 0 <? tgt then tgt else 16 * useful_nz (rows p)) with (gc_target p tgt).
  set (target := gc_target p tgt).
  assert (Hid : (num_nz p + ncoeff <= target \/
                 forall k rc, initrows p <= Z.of_nat k -> rows p !! k = Some rc ->
                              gc_candidate p rc = true ->
                              replicate (length (rows p)) false !! k = Some true) ->
                exists p' fl,
                  Ok p = Ok p' /\ gc_result p fl p' /\ pool_hash_ok p' /\
                  (forall k, fl !! k = Some true -> evictable p (Z.of_nat k)) /\
                  num_nz p' <= num_nz p /\
                  (num_nz p' + ncoeff <= target \/
                   forall k rc, initrows p <= Z.of_nat k -> rows p !! k = Some rc ->
                                gc_candidate p rc = true -> fl !! k = Some true)).
  { intros Hd. exists p, (replicate (length (rows p)) false).
    split; [reflexivity|]. split; [now apply gc_result_id|]. split; [exact Hhash|].
    split; [|split; [lia|exact Hd]].
    intros k Hk. apply lookup_replicate in Hk as [? _]. discriminate. }
  assert (Hin : forall k rc, initrows p <= Z.of_nat k -> rows p !! k = Some rc ->
                  gc_candidate p rc = true -> Z.of_nat k ∈ cands.*1).
  { intros k rc Hk Hrc Hg. apply Hcspec. pose proof (lookup_lt_Some _ _ _ Hrc).
    split; [unfold nrows; lia|]. exists rc. now rewrite Nat2Z.id. }
  destruct (Z.leb_spec (Z.of_nat (length cands)) 0) as [Hc0|Hc0].
  { apply Hid. right. intros k rc Hk Hrc Hg. exfalso.
    pose proof (Hin k rc Hk Hrc Hg) as Hc.
    destruct cands; [inversion Hc|simpl in Hc0; lia]. }
  destruct (Z.leb_spec (num_nz p + ncoeff) target) as [Hsmall|Hbig].
  { apply Hid. now left. }
  clear Hid. set (count := Z.of_nat (length cands)) in *.
  match goal with |- context [pick_victims _ _ _ ?m _ _ _] => set (mr := m) end.
  assert (Hmr : num_nz p + ncoeff - target <= mr).
  { subst mr. destruct (Z.ltb_spec target (num_nz p + ncoeff)); [|lia]. simpl.
    destruct (Z.ltb_spec (Z.quot (3 * ncoeff) 2) (num_nz p + ncoeff - target)); lia. }
  clearbody mr.
  pose proof (candidates_evictable p cands Hcands) as Hgood.
  destruct (sort_gc_candidates_total cands count ltac:(lia)) as (cands' & Hsort & Hlen' & Hsub).
  destruct (sort_gc_candidates_keeps _ _ _ _ Hsort Hgood) as [Hgood' _].
  rewrite Hsort. cbn [bind].
  assert (Hrange : forall c, c ∈ cands' -> 0 <= fst c < Z.of_nat (length (rows p))).
  { intros c Hc. apply list_elem_of_lookup_1 in Hc as [u Hu].
    pose proof (Forall_lookup_1 _ _ _ _ Hgood' Hu) as (Hr & H0 & _).
    unfold nrows in Hr. lia. }
  destruct (pick_victims_total (rows p) cands' mr (Z.to_nat count) Hrange
              (count - 1) 0 (nrows p)) as ([[i' nz'] minrow'] & Hpick); [lia|lia|].
  rewrite Hpick. cbn [bind].
  destruct (pick_victims_spec _ _ _ _ _ _ _ _ _ _ (count - 1) Hpick)
    as (Hi' & Hnz' & Hstop & Hmin1 & Hmin2 & Hmin3); [lia| |].
  { unfold picked_nz.
    replace (Z.to_nat (count - 1 + 1 - (count - 1 + 1))) with 0%nat by lia. reflexivity. }
  destruct (flag_loop_total cands' i' (length (rows p)) Hrange ltac:(lia)) as (fl & Hflag).
  rewrite Hlen' in Hflag. fold count in Hflag. rewrite Hflag. cbn [bind].
  destruct (flag_pass_spec cands' i' count (length (rows p)) fl ltac:(lia) Hflag)
    as [Hfl Hflspec].
  destruct (renum_loop_total fl (replicate (length (rows p)) 0))
    as (renum & jj & Hrenum); [rewrite length_replicate; lia|].
  destruct (renum_pass_spec fl (replicate (length (rows p)) 0) renum jj
              ltac:(rewrite length_replicate; lia) Hrenum) as (Hrl & _ & Hrspec).
  assert (Hrok : renum_ok fl renum) by (split; auto).
  rewrite Hfl in Hrenum. unfold nrows. rewrite Hrenum. cbn [bind].
  assert (Hev : forall k, fl !! k = Some true -> evictable p (Z.of_nat k)).
  { intros k Hk. apply Hflspec in Hk as (u & c & Hu & Hc & Hck). rewrite <- Hck.
    exact (Forall_lookup_1 _ _ _ _ Hgood' Hc). }
  assert (Hprot : forall k rc, rows p !! k = Some rc -> lprow rc <> -1 ->
                    fl !! k = Some false).
  { intros k rc Hk Hl. pose proof (lookup_lt_Some _ _ _ Hk) as Hlt.
    destruct (lookup_lt_is_Some_2 fl k ltac:(lia)) as [[] Hb]; [|exact Hb].
    destruct (Hev k Hb) as (_ & _ & rc' & Hrc' & Hl' & _).
    rewrite Nat2Z.id, Hk in Hrc'. injection Hrc' as <-. contradiction. }
  destruct Hlp as (Hn & Hlp & Hback).
  destruct (lprows_loop_total renum (lprows p) (nlprows p) (proj1 Hn)) as (lpr & Hlpr).
  { intros i Hi. destruct (Hlp i Hi) as (row & rc & Hrow & H0 & Hrc & Hli).
    pose proof (lookup_lt_Some _ _ _ Hrc) as Hlt.
    exists row, (renum_of fl (Z.to_nat row)).
    split; [exact Hrow|]. split; [exact H0|]. split; [apply Hrspec; lia|].
    rewrite renum_of_false; [lia|]. apply (Hprot _ _ Hrc). lia. }
  rewrite Hlpr. cbn [bind].
  destruct (lprows_pass_spec _ _ _ _ (proj1 Hn) Hlpr) as (Hll & Hlspec & _).
  destruct (rethread_all_spec p renum Hhash ltac:(congruence))
    as (hs' & rs1 & Hre & Hhl & Hrl1 & Hchains).
  rewrite Hre. cbn [bind].
  destruct (rethread_all_frame _ _ _ _ _ _ Hre) as [_ Hsame].
  assert (Hminrange : 0 <= minrow' <= Z.of_nat (length rs1)).
  { rewrite Hrl1. destruct Hmin2 as [->|(t & c & Ht & Hc & <-)]; [unfold nrows; lia|].
    pose proof (Hrange c (list_elem_of_lookup_2 _ _ _ Hc)). lia. }
  destruct (compact_spec fl minrow' rs1 ltac:(congruence) Hminrange)
    as (rs2 & Hcomp & Hl2 & Hmoved).
  { intros k Hk. destruct (lookup_lt_is_Some_2 fl k ltac:(lia)) as [[] Hb]; [|exact Hb].
    apply Hflspec in Hb as (u & c & Hu & Hc & Hck).
    pose proof (Hmin3 u c ltac:(lia) Hc). lia. }
  rewrite Hrl1 in Hcomp. rewrite Hcomp. cbn [bind]. rewrite Nat2Z.id.
  assert (Hmv : moved fl rs1 (take (live_count fl) rs2)).
  { pose proof (live_count_le fl). split; [rewrite length_take; lia|].
    intros k rc Hk Hrc. rewrite lookup_take_lt by (now apply kept_before_live).
    now apply Hmoved. }
  eexists. exists fl. split; [reflexivity|].
  split; [|split; [|split; [exact Hev|split]]].
  - unfold gc_result. cbn [rows lprows nlprows npend initrows iter pool_uid maxrows].
    split; [exact Hfl|]. split; [apply Hmv|]. split; [|split].
    + intros k rc Hk Hf.
      destruct (Forall2_lookup_l _ _ _ _ _ Hsame Hk) as (rc' & Hrc' & Hs).
      exists rc'. split; [|exact Hs]. now apply Hmv.
    + intros i Hi. destruct (Hlspec i Hi) as (r & j & Hr & Hr0 & Hj & _ & Hlj).
      exists r. split; [exact Hr|]. rewrite Hlj. f_equal.
      pose proof (lookup_lt_Some _ _ _ Hj) as Hlt. rewrite Hrspec in Hj by lia.
      congruence.
    + repeat split; auto.
  - eapply (gc_hash_ok p _ fl renum rs1); eauto.
  - cbn [num_nz]. pose proof (picked_nz_nonneg (rows p) cands' i' (count - 1)) as Hpos.
    rewrite <- Hnz' in Hpos. destruct Hhash as (_ & _ & Hst).
    assert (0 <= nz'); [|lia]. apply Hpos. intros rc Hrc.
    apply list_elem_of_lookup_1 in Hrc as [k Hk].
    destruct (Hst _ _ Hk) as ((_ & _ & -> & _) & _). lia.
  - cbn [num_nz]. destruct Hstop as [Hge|Hi0]; [left; lia|]. right.
    intros k rc Hk Hrc Hg. apply Hflspec.
    pose proof (Hin k rc Hk Hrc Hg) as Hc.
    apply list_elem_of_fmap in Hc as (c & Hck & Hc).
    apply Hsub, list_elem_of_lookup_1 in Hc as [u Hu].
    pose proof (lookup_lt_Some _ _ _ Hu).
    exists (Z.of_nat u), c. rewrite Nat2Z.id. split; [lia|]. split; [exact Hu|].
    now rewrite Hck.
Qed.

(** *** The rows below [initrows] *)

(** Whatever the state of the pool, a collection that ends leaves the rows
    below [initrows] where they are. *)
Lemma gc_initial_rows_kept (p p' : cpool) (ncoeff tgt : Z) (k : nat) (rc : rcon) :
  garbage_collect_pool p ncoeff tgt = Ok p' ->
  Z.of_nat k < initrows p -> rows p !! k = Some rc ->
  exists rc', rows p' !! k = Some rc' /\ same_but_next rc rc'.
Proof.
  intros H Hk Hrc. unfold garbage_collect_pool in H.
  inv_fatal H. inv_bind H. rename a into cands. cbv zeta in H.
  assert (Hsame : Ok p = Ok p' ->
            exists rc', rows p' !! k = Some rc' /\ same_but_next rc rc').
  { intros [= <-]. exists rc. split; [exact Hrc|apply same_but_next_refl]. }
  destruct (Z.leb_spec (Z.of_nat (length cands)) 0) as [Hc0|Hc0]; [auto|].
  destruct (_ <=? _); [auto|]. clear Hsame.
  inv_bind H. rename a into cands'.
  inv_bind H. destruct a as [[i' nz'] minrow'].
  inv_bind H. rename a into fl.
  inv_bind H. destruct a as [renum jj].
  inv_bind H. rename a into lpr.
  inv_bind H. destruct a as [hs' rs1].
  inv_bind H. destruct a as [rs2 j]. injection H as <-. cbn [rows].
  pose proof (candidates_evictable p cands Hm) as Hgood.
  destruct (sort_gc_candidates_keeps _ _ _ _ Hm0 Hgood) as [Hgood' Hlen'].
  destruct (pick_victims_spec _ _ _ _ _ _ _ _ _ _ (Z.of_nat (length cands) - 1) Hm1)
    as (_ & _ & _ & _ & Hmin & _); [lia| |].
  { unfold picked_nz.
    match goal with |- context [seq _ ?n] => replace n with 0%nat by lia end.
    reflexivity. }
  assert (Hlow : initrows p <= minrow').
  { destruct Hmin as [->|(t & c & Ht & Hct & <-)].
    - destruct cands as [|c cands]; [simpl in Hc0; lia|].
      inversion Hgood as [|? ? (Hr & _) _]; subst. lia.
    - pose proof (Forall_lookup_1 _ _ _ _ Hgood' Hct) as (Hr & _). lia. }
  destruct (rethread_all_frame _ _ _ _ _ _ Hm5) as [_ Hframe].
  assert (Hmin0 : 0 <= minrow') by lia.
  destruct (compact_prefix _ _ _ _ _ _ Hmin0 Hm6) as (Htake & Hj & _).
  destruct (Forall2_lookup_l _ _ _ _ _ Hframe Hrc) as (rc' & Hrc' & Hs).
  exists rc'. split; [|exact Hs].
  rewrite lookup_take_lt by lia.
  rewrite <- (lookup_take_lt rs2 (Z.to_nat minrow') k) by lia.
  rewrite Htake, lookup_take_lt by lia. exact Hrc'.
Qed.

(** C10.  The collector ends on every pool whose hash index and LP index
    are sound and that has no pending row, and the rows it deletes have
    numbers from [initrows] on; and whatever the pool, a collection that ends
    leaves every row below [initrows] at its place with its coefficients,
    flags, counters and LP status as they were (the link of its hash chain
    may be rewritten), be it stale, flagged for discarding, unreferenced or
    not loaded. *)
Theorem gc_never_evicts_initial_rows (p : cpool) (ncoeff target_pool_non_zeros : Z) :
  (pool_gc_ready p ->
   exists p' fl,
     garbage_collect_pool p ncoeff target_pool_non_zeros = Ok p' /\
     gc_result p fl p' /\
     forall k, fl !! k = Some true -> initrows p <= Z.of_nat k) /\
  (forall p' k rc,
     garbage_collect_pool p ncoeff target_pool_non_zeros = Ok p' ->
     Z.of_nat k < initrows p -> rows p !! k = Some rc ->
     exists rc', rows p' !! k = Some rc' /\ same_but_next rc rc').
Proof.
  split.
  - intros Hready.
    destruct (gc_run p ncoeff target_pool_non_zeros Hready)
      as (p' & fl & Hrun & Hres & _ & Hev & _).
    exists p', fl. split; [exact Hrun|]. split; [exact Hres|].
    intros k Hk. destruct (Hev k Hk) as (Hr & _). lia.
  - intros p' k rc. apply gc_initial_rows_kept.
Qed.

(** C6, as the code has it.  On a pool whose hash index and LP index are
    sound and that has no pending row the collector ends; every row that is
    in the LP ([lprow] other than -1) or has a positive reference count
    stays, moved to the number of rows that stay before it and unchanged but
    for its chain link; the hash index and the LP index of the new pool are
    sound for the new row numbers; the recorded size does not grow, and the
    impending size [num_nz + ncoeff] is within the target unless every
    candidate row has been deleted. *)
Theorem gc_keeps_protected_rows (p : cpool) (ncoeff target_pool_non_zeros : Z) :
  pool_gc_ready p ->
  exists p' fl,
    garbage_collect_pool p ncoeff target_pool_non_zeros = Ok p' /\
    gc_result p fl p' /\
    (forall k rc, rows p !! k = Some rc -> lprow rc <> -1 \/ 0 < refc rc ->
                  fl !! k = Some false) /\
    pool_gc_ready p' /\
    num_nz p' <= num_nz p /\
    (num_nz p' + ncoeff <= gc_target p target_pool_non_zeros \/
     forall k rc, initrows p <= Z.of_nat k -> rows p !! k = Some rc ->
                  gc_candidate p rc = true -> fl !! k = Some true).
Proof.
  intros Hready.
  destruct (gc_run p ncoeff target_pool_non_zeros Hready)
    as (p' & fl & Hrun & Hres & Hhash' & Hev & Hnz & Hsize).
  exists p', fl. destruct Hready as (Hhash & Hlp & Hnp & Hinit).
  split; [exact Hrun|]. split; [exact Hres|]. split; [|split; [|auto]].
  - intros k rc Hk Hpr. destruct Hres as (Hfl & _).
    pose proof (lookup_lt_Some _ _ _ Hk) as Hlt.
    destruct (lookup_lt_is_Some_2 fl k ltac:(lia)) as [[] Hb]; [|exact Hb].
    destruct (Hev k Hb) as (_ & _ & rc' & Hrc' & Hl' & Hr').
    rewrite Nat2Z.id, Hk in Hrc'. injection Hrc' as <-. lia.
  - split; [exact Hhash'|]. split; [eapply gc_lp_ok; eauto|].
    destruct Hres as (_ & _ & _ & _ & _ & _ & -> & -> & _). auto.
Qed.

(** *** A pool to collect *)

(** Two headers with the same coefficients, length, link and bucket. *)
Definition same_index_fields (a b : rcon) : Prop :=
  coefs b = coefs a /\ len b = len a /\ next b = next a /\ hval b = hval a.

Lemma chain_headers (rs rs' : list rcon) (j : Z) (l : list Z) :
  Forall2 same_index_fields rs rs' -> chain rs j l -> chain rs' j l.
Proof.
  intros HF. induction 1 as [j Hj|j rc l Hj Hl _ IH]; [now constructor|].
  destruct (Forall2_lookup_l _ _ _ _ _ HF Hl) as (rc' & Hrc' & _ & _ & Hn & _).
  econstructor; [exact Hj|exact Hrc'|]. now rewrite Hn.
Qed.

Lemma pool_hash_ok_headers (p p' : cpool) :
  hash p' = hash p -> Forall2 same_index_fields (rows p) (rows p') ->
  pool_hash_ok p -> pool_hash_ok p'.
Proof.
  intros Hh HF (Hlen & Hbuckets & Hrows).
  assert (Hbc : forall h l, bucket_chain p h l -> bucket_chain p' h l).
  { intros h l (head & Hhead & Hc). exists head. rewrite Hh.
    split; [exact Hhead|]. eapply chain_headers; eauto. }
  split; [now rewrite Hh|]. split.
  - intros h Hr. destruct (Hbuckets h Hr) as (l & Hl & Hnd & Hin).
    exists l. split; [auto|]. split; [exact Hnd|].
    intros j Hj. destruct (Hin j Hj) as (rcp & Hrcp & Hv).
    destruct (Forall2_lookup_l _ _ _ _ _ HF Hrcp) as (rc' & Hrc' & _ & _ & _ & Hv').
    exists rc'. split; [exact Hrc'|congruence].
  - intros j rcp' Hj.
    destruct (Forall2_lookup_r _ _ _ _ _ HF Hj) as (rcp & Hrcp & Hc & Hl & _ & Hv).
    destruct (Hrows _ _ Hrcp) as (Hst & l & Hbl & Hin).
    split.
    + unfold stored_ok in *. rewrite Hc, Hl, Hv. exact Hst.
    + exists l. rewrite Hv. auto.
Qed.

Lemma alter_lprow_headers (v : Z) (k : nat) (rs : list rcon) :
  Forall2 same_index_fields rs (alter (set_lprow v) k rs).
Proof.
  revert k. induction rs as [|r rs IH]; intros k; [constructor|].
  destruct k as [|k]; simpl.
  - constructor; [destruct r; repeat split|].
    clear IH. induction rs; constructor; auto. repeat split.
  - constructor; [repeat split|apply IH].
Qed.

(** The pool after one more call of [_gst_add_constraint_to_pool]. *)
Definition added (p : cpool) (rp : list rcoef) : cpool :=
  match _gst_add_constraint_to_pool p rp false with
  | Ok (p', _, _) => p'
  | _ => p
  end.

Lemma added_ok (p : cpool) (rp : list rcoef) :
  pool_hash_ok p /\ pool_rows_distinct p ->
  pool_hash_ok (added p rp) /\ pool_rows_distinct (added p rp).
Proof.
  intros [H1 H2]. unfold added.
  destruct (_gst_add_constraint_to_pool p rp false) as [[[p' r'] res]| |] eqn:E; auto.
  eapply add_constraint_keeps_invariants; eauto.
Qed.

(** The rows [x1 + x2 <= 1], [x1 + x3 <= 1] and [x2 + x3 <= 1]. *)
Definition seeded_pool : cpool :=
  added (added (added (empty_pool 4)
                      [mk_rcoef 3 1; mk_rcoef 4 1; mk_rcoef RC_OP_LE 1])
               [mk_rcoef 3 1; mk_rcoef 5 1; mk_rcoef RC_OP_LE 1])
        [mk_rcoef 4 1; mk_rcoef 5 1; mk_rcoef RC_OP_LE 1].

(** Twenty iterations later: the first row is the one initial row, the third
    row is row 0 of the LP, the second row is neither. *)
Definition gc_pool : cpool :=
  mk_cpool (pool_uid seeded_pool) (alter (set_lprow 0) 2%nat (rows seeded_pool))
           (maxrows seeded_pool) (num_nz seeded_pool)
           (<[0%nat := 2]> (lprows seeded_pool)) 1 0 20 1 (hash seeded_pool) 0 0.

Lemma gc_pool_ready : pool_gc_ready gc_pool.
Proof.
  split; [|split; [|split; [reflexivity|cbn; lia]]].
  - apply (pool_hash_ok_headers seeded_pool);
      [reflexivity|apply alter_lprow_headers|].
    destruct (empty_pool_ok 4 ltac:(lia)) as (H1 & H2 & _).
    apply added_ok, added_ok, added_ok. auto.
  - split; [vm_compute; split; discriminate|]. split.
    + intros i Hi. replace i with 0%nat by (vm_compute in Hi; lia).
      eexists _, _. split; [vm_compute; reflexivity|]. split; [lia|].
      split; vm_compute; reflexivity.
    + intros k rc Hk Hl.
      destruct k as [|[|[|k]]]; vm_compute in Hk; try discriminate;
        injection Hk as <-; vm_compute in Hl |- *; try (now destruct Hl).
      split; reflexivity.
Qed.

(** [gc_never_evicts_initial_rows] on [gc_pool]: the one initial row is as
    stale as the row that is deleted. *)
Lemma gc_never_evicts_initial_rows_witness :
  pool_gc_ready gc_pool /\
  exists p' rc rc',
    garbage_collect_pool gc_pool 0 1 = Ok p' /\ Z.of_nat 0 < initrows gc_pool /\
    rows gc_pool !! 0%nat = Some rc /\ gc_candidate gc_pool rc = true /\
    length (rows p') = 2%nat /\
    rows p' !! 0%nat = Some rc' /\ same_but_next rc rc'.
Proof.
  split; [exact gc_pool_ready|].
  destruct (gc_never_evicts_initial_rows gc_pool 0 1) as [Htotal Hkept].
  destruct (Htotal gc_pool_ready) as (p' & fl & Hrun & _).
  destruct (rows gc_pool !! 0%nat) as [rc|] eqn:Hrc; [|vm_compute in Hrc; discriminate].
  destruct (Hkept p' 0%nat rc Hrun ltac:(cbn; lia) Hrc) as (rc' & Hrc' & Hs).
  exists p', rc, rc'. split; [exact Hrun|]. split; [cbn; lia|]. split; [reflexivity|].
  split; [vm_compute in Hrc; injection Hrc as <-; reflexivity|].
  split; [vm_compute in Hrun; injection Hrun as <-; reflexivity|]. auto.
Defined.

(** [gc_keeps_protected_rows] on [gc_pool]. *)
Lemma gc_keeps_protected_rows_witness :
  pool_gc_ready gc_pool /\
  exists p' fl,
    garbage_collect_pool gc_pool 0 1 = Ok p' /\
    gc_result gc_pool fl p' /\
    (forall k rc, rows gc_pool !! k = Some rc -> lprow rc <> -1 \/ 0 < refc rc ->
                  fl !! k = Some false) /\
    pool_gc_ready p' /\
    num_nz p' <= num_nz gc_pool /\
    (num_nz p' + 0 <= gc_target gc_pool 1 \/
     forall k rc, initrows gc_pool <= Z.of_nat k -> rows gc_pool !! k = Some rc ->
                  gc_candidate gc_pool rc = true -> fl !! k = Some true).
Proof.
  split; [exact gc_pool_ready|].
  exact (gc_keeps_protected_rows gc_pool 0 1 gc_pool_ready).
Defined.

(** C6, as the claim words it, fails on [gc_pool] with a target of one
    coefficient: the one candidate row is deleted, the rows that must stay
    hold four coefficients. *)
Lemma gc_leaves_pool_above_target :
  pool_gc_ready gc_pool /\
  exists p',
    garbage_collect_pool gc_pool 0 1 = Ok p' /\
    length (rows p') = 2%nat /\
    gc_target gc_pool 1 = 1 /\ num_nz p' = 4 /\ gc_target gc_pool 1 < num_nz p'.
Proof.
  split; [exact gc_pool_ready|].
  eexists. split; [vm_compute; reflexivity|].
  repeat split.
Qed.

(** ** Union-find *)

(** [r] is the root that the parent links lead to from [x]. *)
Inductive Root (par : list Z) : Z -> Z -> Prop :=
| Root_here (x : Z) : 0 <= x -> par !! Z.to_nat x = Some x -> Root par x x
| Root_step (x px r : Z) :
    0 <= x -> par !! Z.to_nat x = Some px -> px <> x -> Root par px r -> Root par x r.

Lemma Root_det (par : list Z) (x r1 r2 : Z) : Root par x r1 -> Root par x r2 -> r1 = r2.
Proof.
  intros H1. revert r2. induction H1 as [x Hx Hp|x px r Hx Hp Hne _ IH]; intros r2 H2.
  - inversion H2 as [|? px ? ? Hp' Hne]; subst; [reflexivity|]. congruence.
  - inversion H2 as [? ? Hp'|? px' ? ? Hp' Hne' Hr]; subst; [congruence|].
    rewrite Hp in Hp'. injection Hp' as <-. now apply IH.
Qed.

Lemma Root_fix (par : list Z) (x r : Z) :
  Root par x r -> 0 <= r /\ par !! Z.to_nat r = Some r.
Proof. induction 1; auto. Qed.

Lemma Root_root (par : list Z) (x r : Z) : Root par x r -> Root par r r.
Proof. intros H. apply Root_fix in H as [H0 Hp]. now constructor. Qed.

Lemma Root_in (par : list Z) (x r : Z) :
  Root par x r -> 0 <= x < Z.of_nat (length par).
Proof.
  intros H. inversion H as [? H0 Hp|? ? ? H0 Hp]; subst;
    apply lookup_lt_Some in Hp; lia.
Qed.

(** Path compression: pointing [x] at its root changes no root. *)
Lemma Root_compress (par : list Z) (x r : Z) :
  Root par x r -> x <> r ->
  forall y ry, Root par y ry <-> Root (<[Z.to_nat x := r]> par) y ry.
Proof.
  intros Hx Hne y ry.
  destruct (Root_fix _ _ _ Hx) as [Hr0 Hr].
  pose proof (Root_in _ _ _ Hx) as Hxin.
  assert (Hrr : Root (<[Z.to_nat x := r]> par) r r).
  { constructor; [exact Hr0|]. rewrite list_lookup_insert_ne by lia. exact Hr. }
  split.
  - induction 1 as [y Hy Hp|y py ry Hy Hp Hpy Hroot IH].
    + constructor; [exact Hy|]. destruct (Z.eq_dec y x) as [->|Hyx].
      * exfalso. apply Hne. eapply Root_det; [|exact Hx]. now constructor.
      * rewrite list_lookup_insert_ne by lia. exact Hp.
    + destruct (Z.eq_dec y x) as [->|Hyx].
      * assert (ry = r) by (eapply Root_det; [|exact Hx]; econstructor; eauto).
        subst ry. apply (Root_step _ x r r); auto.
        apply list_lookup_insert_eq. lia.
      * apply (Root_step _ y py ry); auto.
        rewrite list_lookup_insert_ne by lia. exact Hp.
  - induction 1 as [y Hy Hp|y py ry Hy Hp Hpy Hroot IH].
    + destruct (Z.eq_dec y x) as [->|Hyx].
      * rewrite list_lookup_insert_eq in Hp by lia. congruence.
      * rewrite list_lookup_insert_ne in Hp by lia. now constructor.
    + destruct (Z.eq_dec y x) as [->|Hyx].
      * rewrite list_lookup_insert_eq in Hp by lia. injection Hp as <-.
        assert (ry = r) by (eapply Root_det; [exact IH|]; now constructor).
        now subst ry.
      * rewrite list_lookup_insert_ne in Hp by lia.
        apply (Root_step _ y py ry); auto.
Qed.

(** Linking the root [a] under the root [b]. *)
Lemma Root_link (par : list Z) (a b : Z) :
  Root par a a -> Root par b b -> a <> b ->
  forall y r,
    Root (<[Z.to_nat a := b]> par) y r <->
    (Root par y r /\ r <> a) \/ (Root par y a /\ r = b).
Proof.
  intros Ha Hb Hne y r.
  destruct (Root_fix _ _ _ Ha) as [Ha0 Hpa]. destruct (Root_fix _ _ _ Hb) as [Hb0 Hpb].
  pose proof (Root_in _ _ _ Ha) as Hain.
  assert (Hbb : Root (<[Z.to_nat a := b]> par) b b).
  { constructor; [exact Hb0|]. rewrite list_lookup_insert_ne by lia. exact Hpb. }
  split.
  - induction 1 as [y Hy Hp|y py r Hy Hp Hpy Hroot IH].
    + destruct (Z.eq_dec y a) as [->|Hya].
      * rewrite list_lookup_insert_eq in Hp by lia. congruence.
      * rewrite list_lookup_insert_ne in Hp by lia. left. split; [now constructor|auto].
    + destruct (Z.eq_dec y a) as [->|Hya].
      * rewrite list_lookup_insert_eq in Hp by lia. injection Hp as <-.
        right. split; [exact Ha|]. eapply Root_det; eauto.
      * rewrite list_lookup_insert_ne in Hp by lia.
        destruct IH as [[H1 H2]|[H1 H2]].
        -- left. split; [|exact H2]. apply (Root_step _ y py r); auto.
        -- right. split; [|exact H2]. apply (Root_step _ y py a); auto.
  - intros [[H Hra]|[H ->]].
    + induction H as [y Hy Hp|y py r Hy Hp Hpy Hroot IH].
      * constructor; [exact Hy|]. rewrite list_lookup_insert_ne by lia. exact Hp.
      * assert (y <> a) by (intros ->; congruence).
        apply (Root_step _ y py r); auto.
        rewrite list_lookup_insert_ne by lia. exact Hp.
    + remember a as a' eqn:E in H. revert E.
      induction H as [y Hy Hp|y py r Hy Hp Hpy Hroot IH]; intros ->.
      * apply (Root_step _ a b b); auto. apply list_lookup_insert_eq. lia.
      * assert (y <> a) by (intros ->; congruence).
        apply (Root_step _ y py b); auto.
        rewrite list_lookup_insert_ne by lia. exact Hp.
Qed.

(** The forest is sound: the links stay inside the arrays and lead to
    strictly higher ranks, and no rank exceeds [R]. *)
Definition uf_ok (R : Z) (uf : union_find_t) : Prop :=
  length (rank uf) = length (parent uf) /\
  (forall x px, parent uf !! x = Some px -> 0 <= px < Z.of_nat (length (parent uf))) /\
  (forall x rx, rank uf !! x = Some rx -> 0 <= rx <= R) /\
  (forall x px rx rpx,
     0 <= x -> parent uf !! Z.to_nat x = Some px -> px <> x ->
     rank uf !! Z.to_nat x = Some rx -> rank uf !! Z.to_nat px = Some rpx -> rx < rpx).

Lemma uf_ok_mono (R R' : Z) (uf : union_find_t) : R <= R' -> uf_ok R uf -> uf_ok R' uf.
Proof.
  intros HR (H1 & H2 & H3 & H4). repeat split; auto.
  - eapply H2; eauto.
  - eapply H2; eauto.
  - eapply H3; eauto.
  - specialize (H3 _ _ H). lia.
Qed.

Lemma uf_find_unfold (fuel : nat) (uf : union_find_t) (x : Z) :
  uf_find fuel uf x =
  let! px := aget (parent uf) x in
  if negb (px =? x) then
    match fuel with
    | O => Undef
    | S fuel' =>
        let! (uf', r) := uf_find fuel' uf px in
        let! par' := aset (parent uf') x r in
        Ok (mk_uf par' (rank uf') (size uf'), r)
    end
  else Ok (uf, px).
Proof. destruct fuel; reflexivity. Qed.

Lemma Root_rank (R : Z) (uf : union_find_t) (x r rx rr : Z) :
  uf_ok R uf -> Root (parent uf) x r -> x <> r ->
  rank uf !! Z.to_nat x = Some rx -> rank uf !! Z.to_nat r = Some rr -> rx < rr.
Proof.
  intros (Hl & Hp & Hr & Hm) H. revert rx.
  induction H as [x Hx Hpx|x px r Hx Hpx Hne Hroot IH]; intros rx Hxr Hrx Hrr.
  - contradiction.
  - pose proof (Hp _ _ Hpx) as Hin.
    destruct (lookup_lt_is_Some_2 (rank uf) (Z.to_nat px) ltac:(lia)) as [rpx Hrpx].
    pose proof (Hm x px rx rpx Hx Hpx Hne Hrx Hrpx).
    destruct (Z.eq_dec px r) as [->|Hpr]; [congruence|].
    specialize (IH rpx Hpr Hrpx Hrr). lia.
Qed.

(** [uf_find] ends, returns the root and keeps every root. *)
Lemma uf_find_spec (R : Z) (fuel : nat) :
  forall (uf : union_find_t) (x rx : Z),
    uf_ok R uf -> 0 <= x -> rank uf !! Z.to_nat x = Some rx ->
    (Z.to_nat (R - rx) <= fuel)%nat ->
    exists uf' r,
      uf_find fuel uf x = Ok (uf', r) /\ Root (parent uf) x r /\
      uf_ok R uf' /\ rank uf' = rank uf /\ length (parent uf') = length (parent uf) /\
      forall y ry, Root (parent uf) y ry <-> Root (parent uf') y ry.
Proof.
  induction fuel as [|fuel IH]; intros uf x rx Hok Hx Hrx Hfuel;
    rewrite uf_find_unfold;
    pose proof Hok as (Hl & Hp & Hr & Hm);
    (destruct (lookup_lt_is_Some_2 (parent uf) (Z.to_nat x)) as [px Hpx];
      [rewrite <- Hl; eapply lookup_lt_Some; eauto|]);
    rewrite (aget_Ok (parent uf) x px Hx Hpx); cbn [bind];
    (destruct (Z.eqb_spec px x) as [->|Hne]; cbn [negb];
      [exists uf, x; split; [reflexivity|]; split; [now constructor|];
       split; [exact Hok|]; split; [reflexivity|]; split; [reflexivity|];
       intros; reflexivity|]);
    pose proof (Hp _ _ Hpx) as Hin;
    (destruct (lookup_lt_is_Some_2 (rank uf) (Z.to_nat px) ltac:(lia)) as [rpx Hrpx]);
    pose proof (Hm x px rx rpx Hx Hpx Hne Hrx Hrpx) as Hlt;
    pose proof (Hr _ _ Hrpx) as Hb.
  - lia.
  - destruct (IH uf px rpx Hok ltac:(lia) Hrpx ltac:(lia))
      as (uf1 & r & Hrun & Hroot & Hok1 & Hrk1 & Hlen1 & Hiff).
    rewrite Hrun. cbn [bind].
    pose proof (lookup_lt_Some _ _ _ Hpx) as Hxlt.
    rewrite aset_Ok by lia. cbn [bind].
    assert (Hxr : Root (parent uf) x r) by (econstructor; eauto).
    destruct (Root_fix _ _ _ Hroot) as [Hr0 Hrfix].
    assert (Hxne : x <> r) by (intros ->; congruence).
    pose proof (lookup_lt_Some _ _ _ Hrfix) as Hrlt.
    destruct (lookup_lt_is_Some_2 (rank uf) (Z.to_nat r) ltac:(lia)) as [rr Hrr].
    pose proof (Root_rank R uf x r rx rr Hok Hxr Hxne Hrx Hrr) as Hrank.
    eexists _, r. split; [reflexivity|]. split; [exact Hxr|].
    destruct Hok1 as (Hl1 & Hp1 & Hr1 & Hm1).
    split; [|split; [exact Hrk1|split; [cbn; now rewrite length_insert|]]].
    + split; [cbn; now rewrite length_insert|]. cbn [parent rank]. split; [|split].
      * intros y py Hy. rewrite length_insert.
        destruct (decide (y = Z.to_nat x)) as [->|Hyx].
        -- rewrite list_lookup_insert_eq in Hy by lia. injection Hy as <-. lia.
        -- rewrite list_lookup_insert_ne in Hy by auto. eauto.
      * exact Hr1.
      * intros y py ry rpy Hy Hpy Hney Hry Hrpy.
        destruct (Z.eq_dec y x) as [->|Hyx].
        -- rewrite list_lookup_insert_eq in Hpy by lia. injection Hpy as <-.
           rewrite Hrk1 in Hry, Hrpy. congruence.
        -- rewrite list_lookup_insert_ne in Hpy by lia. eapply Hm1; eauto.
    + cbn [parent]. intros y ry. rewrite Hiff.
      apply Root_compress; [|exact Hxne]. now apply Hiff.
Qed.

Lemma uf_ok_link (R : Z) (uf : union_find_t) (a b ra rb rb' : Z) (rank' : list Z) :
  uf_ok R uf ->
  Root (parent uf) a a -> Root (parent uf) b b -> a <> b ->
  rank uf !! Z.to_nat a = Some ra -> rank uf !! Z.to_nat b = Some rb ->
  rank' = <[Z.to_nat b := rb']> (rank uf) -> rb <= rb' <= R + 1 -> ra < rb' ->
  uf_ok (R + 1) (mk_uf (<[Z.to_nat a := b]> (parent uf)) rank' (size uf)).
Proof.
  intros (Hl & Hp & Hr & Hm) Ha Hb Hne Hra Hrb -> Hb' Hlt.
  destruct (Root_fix _ _ _ Ha) as [Ha0 Hpa]. destruct (Root_fix _ _ _ Hb) as [Hb0 Hpb].
  pose proof (lookup_lt_Some _ _ _ Hpa) as Halt.
  pose proof (lookup_lt_Some _ _ _ Hpb) as Hblt.
  unfold uf_ok. cbn [parent rank]. rewrite !length_insert.
  split; [exact Hl|]. split; [|split].
  - intros x px Hx. destruct (decide (x = Z.to_nat a)) as [->|Hxa].
    + rewrite list_lookup_insert_eq in Hx by lia. injection Hx as <-. lia.
    + rewrite list_lookup_insert_ne in Hx by auto. eauto.
  - intros x rx Hx. destruct (decide (x = Z.to_nat b)) as [->|Hxb].
    + rewrite list_lookup_insert_eq in Hx by lia. injection Hx as <-.
      specialize (Hr _ _ Hrb). lia.
    + rewrite list_lookup_insert_ne in Hx by auto. specialize (Hr _ _ Hx). lia.
  - intros x px rx rpx Hx Hpx Hnex Hrx Hrpx.
    destruct (Z.eq_dec x a) as [->|Hxa].
    + rewrite list_lookup_insert_eq in Hpx by lia. injection Hpx as <-.
      rewrite list_lookup_insert_eq in Hrpx by lia. injection Hrpx as <-.
      rewrite list_lookup_insert_ne in Hrx by lia. congruence.
    + rewrite list_lookup_insert_ne in Hpx by lia.
      assert (x <> b) by (intros ->; congruence).
      rewrite list_lookup_insert_ne in Hrx by lia.
      destruct (Z.eq_dec px b) as [->|Hpb'].
      * rewrite list_lookup_insert_eq in Hrpx by lia. injection Hrpx as <-.
        pose proof (Hm x b rx rb Hx Hpx Hnex Hrx Hrb). lia.
      * rewrite list_lookup_insert_ne in Hrpx by (specialize (Hp _ _ Hpx); lia).
        eapply Hm; eauto.
Qed.

(** [uf_union] ends; it fails exactly when the two roots are the same, and
    it links one of the two roots under the other otherwise. *)
Lemma uf_union_spec (R : Z) (fuel : nat) (uf : union_find_t) (x y : Z) :
  uf_ok R uf ->
  0 <= x < Z.of_nat (length (parent uf)) -> 0 <= y < Z.of_nat (length (parent uf)) ->
  (Z.to_nat R <= fuel)%nat ->
  exists uf' ok rx ry,
    uf_union fuel uf x y = Ok (uf', ok) /\
    Root (parent uf) x rx /\ Root (parent uf) y ry /\ ok = negb (rx =? ry) /\
    uf_ok (R + 1) uf' /\ length (parent uf') = length (parent uf) /\
    (ok = false -> uf_ok R uf' /\
                   forall z r, Root (parent uf') z r <-> Root (parent uf) z r) /\
    (ok = true ->
     exists a b, ((a = rx /\ b = ry) \/ (a = ry /\ b = rx)) /\
       forall z r, Root (parent uf') z r <->
                   (Root (parent uf) z r /\ r <> a) \/ (Root (parent uf) z a /\ r = b)).
Proof.
  intros Hok Hx Hy Hfuel. unfold uf_union.
  pose proof Hok as (Hl & _ & Hr & _).
  destruct (lookup_lt_is_Some_2 (rank uf) (Z.to_nat x) ltac:(lia)) as [kx Hkx].
  pose proof (Hr _ _ Hkx) as Hbx.
  destruct (uf_find_spec R fuel uf x kx Hok ltac:(lia) Hkx ltac:(lia))
    as (uf1 & rx & Hrun1 & Hrx & Hok1 & Hrk1 & Hlen1 & Hiff1).
  rewrite Hrun1. cbn [bind].
  destruct (lookup_lt_is_Some_2 (rank uf1) (Z.to_nat y) ltac:(rewrite Hrk1; lia))
    as [ky Hky].
  pose proof Hok1 as (Hl1 & _ & Hr1 & _). pose proof (Hr1 _ _ Hky) as Hby.
  destruct (uf_find_spec R fuel uf1 y ky Hok1 ltac:(lia) Hky ltac:(lia))
    as (uf2 & ry & Hrun2 & Hry & Hok2 & Hrk2 & Hlen2 & Hiff2).
  rewrite Hrun2. cbn [bind].
  assert (Hiff : forall z r, Root (parent uf2) z r <-> Root (parent uf) z r).
  { intros z r. now rewrite Hiff1, Hiff2. }
  apply Hiff1 in Hry.
  exists (if rx =? ry then uf2 else
            match rank uf2 !! Z.to_nat rx, rank uf2 !! Z.to_nat ry with
            | Some a1, Some a2 =>
                if a1 <? a2 then
                  mk_uf (<[Z.to_nat rx := ry]> (parent uf2)) (rank uf2) (size uf2)
                else if a2 <? a1 then
                  mk_uf (<[Z.to_nat ry := rx]> (parent uf2)) (rank uf2) (size uf2)
                else
                  mk_uf (<[Z.to_nat ry := rx]> (parent uf2))
                        (<[Z.to_nat rx := a1 + 1]> (rank uf2)) (size uf2)
            | _, _ => uf2
            end), (negb (rx =? ry)), rx, ry.
  destruct (Z.eqb_spec rx ry) as [->|Hne]; cbn [negb].
  { split; [reflexivity|]. split; [exact Hrx|]. split; [exact Hry|].
    split; [reflexivity|]. split; [eapply uf_ok_mono; [|exact Hok2]; lia|].
    split; [congruence|]. split; [auto|discriminate]. }
  pose proof (proj2 (Hiff _ _) (Root_root _ _ _ Hrx)) as Hrxx.
  pose proof (proj2 (Hiff _ _) (Root_root _ _ _ Hry)) as Hryy.
  destruct (Root_fix _ _ _ Hrxx) as [Hx0 Hpx]. destruct (Root_fix _ _ _ Hryy) as [Hy0 Hpy].
  pose proof (lookup_lt_Some _ _ _ Hpx) as Hxlt.
  pose proof (lookup_lt_Some _ _ _ Hpy) as Hylt.
  pose proof Hok2 as (Hl2 & _ & Hr2 & _).
  destruct (lookup_lt_is_Some_2 (rank uf2) (Z.to_nat rx) ltac:(lia)) as [a1 Ha1].
  destruct (lookup_lt_is_Some_2 (rank uf2) (Z.to_nat ry) ltac:(lia)) as [a2 Ha2].
  rewrite Ha1, Ha2.
  rewrite (aget_Ok (rank uf2) rx a1 Hx0 Ha1). cbn [bind].
  rewrite (aget_Ok (rank uf2) ry a2 Hy0 Ha2). cbn [bind].
  pose proof (Hr2 _ _ Ha1) as Hb1. pose proof (Hr2 _ _ Ha2) as Hb2.
  assert (Hlink : forall a b : Z, ((a = rx /\ b = ry) \/ (a = ry /\ b = rx)) ->
            forall z r, Root (<[Z.to_nat a := b]> (parent uf2)) z r <->
              (Root (parent uf) z r /\ r <> a) \/ (Root (parent uf) z a /\ r = b)).
  { intros a b Hab z r. rewrite <- !Hiff.
    destruct Hab as [[-> ->]|[-> ->]]; apply Root_link; auto. }
  destruct (Z.ltb_spec a1 a2) as [Hlt|Hge];
    [|destruct (Z.ltb_spec a2 a1) as [Hgt|Hle]];
    rewrite ?aset_Ok by lia; cbn [bind]; rewrite ?aset_Ok by lia; cbn [bind].
  - split; [reflexivity|]. split; [exact Hrx|]. split; [exact Hry|].
    split; [reflexivity|]. split; [|split; [cbn; now rewrite length_insert, Hlen2, Hlen1|]].
    + apply (uf_ok_link R uf2 rx ry a1 a2 a2); auto; try lia.
      symmetry. now apply list_insert_id.
    + split; [discriminate|]. intros _. exists rx, ry. split; [auto|].
      cbn [parent]. apply Hlink. auto.
  - split; [reflexivity|]. split; [exact Hrx|]. split; [exact Hry|].
    split; [reflexivity|]. split; [|split; [cbn; now rewrite length_insert, Hlen2, Hlen1|]].
    + apply (uf_ok_link R uf2 ry rx a2 a1 a1); auto; try lia.
      symmetry. now apply list_insert_id.
    + split; [discriminate|]. intros _. exists ry, rx. split; [auto|].
      cbn [parent]. apply Hlink. auto.
  - split; [reflexivity|]. split; [exact Hrx|]. split; [exact Hry|].
    split; [reflexivity|]. split; [|split; [cbn; now rewrite length_insert, Hlen2, Hlen1|]].
    + apply (uf_ok_link R uf2 ry rx a2 a1 (a1 + 1)); auto; lia.
    + split; [discriminate|]. intros _. exists ry, rx. split; [auto|].
      cbn [parent]. apply Hlink. auto.
Qed.

(** ** Connectivity *)

(** Two vertices are connected by the pairs [E]. *)
Inductive conn (E : list (Z * Z)) : Z -> Z -> Prop :=
| conn_refl (a : Z) : conn E a a
| conn_edge (a b : Z) : (a, b) ∈ E -> conn E a b
| conn_sym (a b : Z) : conn E a b -> conn E b a
| conn_trans (a b c : Z) : conn E a b -> conn E b c -> conn E a c.

Lemma conn_mono (E E' : list (Z * Z)) (a b : Z) :
  (forall e, e ∈ E -> e ∈ E') -> conn E a b -> conn E' a b.
Proof.
  intros Hsub. induction 1;
    [apply conn_refl|apply conn_edge; auto|now apply conn_sym|eapply conn_trans; eauto].
Qed.

Definition same_set (par : list Z) (a b : Z) : Prop :=
  exists r, Root par a r /\ Root par b r.

Lemma same_set_sym (par : list Z) (a b : Z) : same_set par a b -> same_set par b a.
Proof. intros (r & H1 & H2). exists r. auto. Qed.

Lemma same_set_trans (par : list Z) (a b c : Z) :
  same_set par a b -> same_set par b c -> same_set par a c.
Proof.
  intros (r & H1 & H2) (r' & H3 & H4).
  rewrite (Root_det _ _ _ _ H3 H2) in H4. exists r. auto.
Qed.

(** The forest stands for the connectivity of the pairs [E]. *)
Definition uf_models (uf : union_find_t) (E : list (Z * Z)) : Prop :=
  (forall a b, same_set (parent uf) a b -> conn E a b) /\
  (forall a b, (a, b) ∈ E -> same_set (parent uf) a b).

Lemma Root_exists (R : Z) (uf : union_find_t) (x : Z) :
  uf_ok R uf -> 0 <= x < Z.of_nat (length (parent uf)) ->
  exists r, Root (parent uf) x r.
Proof.
  intros Hok Hx. pose proof Hok as (Hl & _ & Hr & _).
  destruct (lookup_lt_is_Some_2 (rank uf) (Z.to_nat x) ltac:(lia)) as [kx Hkx].
  pose proof (Hr _ _ Hkx).
  destruct (uf_find_spec R (Z.to_nat R) uf x kx Hok ltac:(lia) Hkx ltac:(lia))
    as (_ & r & _ & Hroot & _).
  eauto.
Qed.

Lemma models_complete (R : Z) (uf : union_find_t) (E : list (Z * Z)) (a b : Z) :
  uf_ok R uf -> uf_models uf E -> conn E a b ->
  0 <= a < Z.of_nat (length (parent uf)) \/ 0 <= b < Z.of_nat (length (parent uf)) ->
  same_set (parent uf) a b.
Proof.
  intros Hok [_ Hedges]. induction 1 as [a|a b Hab|a b _ IH|a b c _ IH1 _ IH2]; intros Hin.
  - destruct (Root_exists R uf a Hok ltac:(tauto)) as [r Hr]. exists r. auto.
  - auto.
  - apply same_set_sym, IH. tauto.
  - destruct Hin as [Ha|Hc].
    + pose proof (IH1 (or_introl Ha)) as H1.
      destruct H1 as (r & Hra & Hrb). pose proof (Root_in _ _ _ Hrb) as Hb.
      apply same_set_trans with b; [exists r; auto|]. apply IH2. now left.
    + pose proof (IH2 (or_intror Hc)) as H2.
      destruct H2 as (r & Hrb & Hrc). pose proof (Root_in _ _ _ Hrb) as Hb.
      apply same_set_trans with b; [|exists r; auto]. apply IH1. now right.
Qed.

(** A union that succeeds adds its pair to the connectivity. *)
Lemma models_union (uf uf' : union_find_t) (E : list (Z * Z)) (x y rx ry a b : Z) :
  uf_models uf E ->
  Root (parent uf) x rx -> Root (parent uf) y ry ->
  (a = rx /\ b = ry) \/ (a = ry /\ b = rx) ->
  (forall z r, Root (parent uf') z r <->
               (Root (parent uf) z r /\ r <> a) \/ (Root (parent uf) z a /\ r = b)) ->
  uf_models uf' (E ++ [(x, y)]).
Proof.
  intros [Hsound Hedges] Hx Hy Hab Hiff.
  assert (Hxy : conn (E ++ [(x, y)]) x y).
  { apply conn_edge, elem_of_app. right. now left. }
  assert (Hold : forall u v, same_set (parent uf) u v -> conn (E ++ [(x, y)]) u v).
  { intros u v H. eapply conn_mono; [|apply Hsound, H].
    intros e He. apply elem_of_app. now left. }
  assert (Hcross : forall u v, Root (parent uf) u b -> Root (parent uf) v a ->
                     conn (E ++ [(x, y)]) u v).
  { intros u v Hu Hv. destruct Hab as [[-> ->]|[-> ->]].
    - apply conn_trans with y; [apply Hold; exists ry; auto|].
      apply conn_trans with x; [now apply conn_sym|apply Hold; exists rx; auto].
    - apply conn_trans with x; [apply Hold; exists rx; auto|].
      apply conn_trans with y; [exact Hxy|apply Hold; exists ry; auto]. }
  assert (Hmap : forall z r, Root (parent uf) z r ->
                   Root (parent uf') z (if Z.eq_dec r a then b else r)).
  { intros z r Hz. apply Hiff. destruct (Z.eq_dec r a) as [->|Hne]; auto. }
  split.
  - intros u v (r & Hu & Hv). apply Hiff in Hu, Hv.
    destruct Hu as [[Hu Hua]|[Hu ->]], Hv as [[Hv Hva]|[Hv Hvb]].
    + apply Hold. exists r. auto.
    + subst r. now apply Hcross.
    + apply conn_sym. now apply Hcross.
    + apply Hold. exists a. auto.
  - intros u v Huv. apply elem_of_app in Huv as [Huv|Huv].
    + destruct (Hedges u v Huv) as (r & Hu & Hv).
      exists (if Z.eq_dec r a then b else r). split; now apply Hmap.
    + apply list_elem_of_singleton in Huv. injection Huv as -> ->.
      exists b. pose proof (Hmap _ _ Hx) as H1. pose proof (Hmap _ _ Hy) as H2.
      destruct Hab as [[-> ->]|[-> ->]];
        destruct (Z.eq_dec rx ry), (Z.eq_dec rx rx), (Z.eq_dec ry ry), (Z.eq_dec ry rx);
        subst; try congruence; auto.
Qed.

Lemma models_roots (uf uf' : union_find_t) (E : list (Z * Z)) :
  uf_models uf E ->
  (forall z r, Root (parent uf') z r <-> Root (parent uf) z r) ->
  uf_models uf' E.
Proof.
  intros [H1 H2] Hiff. split.
  - intros a b (r & Ha & Hb). apply H1. exists r. split; now apply Hiff.
  - intros a b Hab. destruct (H2 a b Hab) as (r & Ha & Hb).
    exists r. split; now apply Hiff.
Qed.

(** ** Vertex bitmaps *)

(** Vertex [k] is in the bitmap. *)
Definition bit (bm : list Z) (k : Z) : bool :=
  match bm !! Z.to_nat (k / 32) with
  | Some w => Z.testbit w (k mod 32)
  | None => false
  end.

Lemma shiftr_5 (k : Z) : Z.shiftr k 5 = k / 32.
Proof. now rewrite Z.shiftr_div_pow2 by lia. Qed.

Lemma land_31 (k : Z) : Z.land k 31 = k mod 32.
Proof. change 31 with (Z.ones 5). now rewrite Z.land_ones by lia. Qed.

Lemma land_bit (w b : Z) :
  0 <= b -> negb (Z.land w (Z.shiftl 1 b) =? 0) = Z.testbit w b.
Proof.
  intros Hb. rewrite Z.shiftl_1_l.
  destruct (Z.testbit w b) eqn:E.
  - destruct (Z.eqb_spec (Z.land w (2 ^ b)) 0) as [H0|]; [|reflexivity].
    assert (Hbit : Z.testbit (Z.land w (2 ^ b)) b = true)
      by (rewrite Z.land_spec, E, Z.pow2_bits_true by lia; reflexivity).
    rewrite H0, Z.bits_0 in Hbit. discriminate.
  - destruct (Z.eqb_spec (Z.land w (2 ^ b)) 0) as [|Hn]; [reflexivity|].
    exfalso. apply Hn. apply Z.bits_inj'. intros i Hi.
    rewrite Z.land_spec, Z.bits_0, Z.pow2_bits_eqb by lia.
    destruct (Z.eqb_spec b i) as [->|]; [now rewrite E|apply andb_false_r].
Qed.

Lemma bit_zero (n : nat) (k : Z) : bit (replicate n 0) k = false.
Proof.
  unfold bit. destruct (replicate n 0 !! Z.to_nat (k / 32)) as [w|] eqn:E; [|reflexivity].
  apply lookup_replicate in E as [-> _]. apply Z.bits_0.
Qed.

Lemma BITON_spec (bm : list Z) (k : Z) :
  0 <= k < 32 * Z.of_nat (length bm) -> BITON bm k = Ok (bit bm k).
Proof.
  intros Hk. unfold BITON, bit. rewrite shiftr_5, land_31.
  assert (0 <= k / 32 < Z.of_nat (length bm))
    by (split; [apply Z.div_pos; lia|apply Z.div_lt_upper_bound; lia]).
  destruct (lookup_lt_is_Some_2 bm (Z.to_nat (k / 32)) ltac:(lia)) as [w Hw].
  rewrite (aget_Ok bm (k / 32) w ltac:(lia) Hw), Hw. cbn [bind].
  f_equal. apply land_bit. apply Z.mod_pos_bound. lia.
Qed.

Lemma SETBIT_spec (bm : list Z) (j : Z) :
  0 <= j < 32 * Z.of_nat (length bm) ->
  exists bm',
    SETBIT bm j = Ok bm' /\ length bm' = length bm /\
    forall k, 0 <= k -> bit bm' k = (k =? j) || bit bm k.
Proof.
  intros Hj. unfold SETBIT. rewrite shiftr_5, land_31.
  assert (0 <= j / 32 < Z.of_nat (length bm))
    by (split; [apply Z.div_pos; lia|apply Z.div_lt_upper_bound; lia]).
  destruct (lookup_lt_is_Some_2 bm (Z.to_nat (j / 32)) ltac:(lia)) as [w Hw].
  rewrite (aget_Ok bm (j / 32) w ltac:(lia) Hw). cbn [bind].
  rewrite aset_Ok by lia. eexists. split; [reflexivity|].
  split; [apply length_insert|].
  intros k Hk. unfold bit.
  pose proof (Z.mod_pos_bound j 32 ltac:(lia)) as Hjm.
  pose proof (Z.mod_pos_bound k 32 ltac:(lia)) as Hkm.
  pose proof (Z.div_pos k 32 Hk ltac:(lia)) as Hkd.
  pose proof (Z.div_mod j 32 ltac:(lia)) as Ej.
  pose proof (Z.div_mod k 32 ltac:(lia)) as Ek.
  destruct (Z.eq_dec (k / 32) (j / 32)) as [Ed|Hd].
  - rewrite Ed, list_lookup_insert_eq, Hw by lia.
    rewrite Z.lor_spec, Z.shiftl_1_l, Z.pow2_bits_eqb by lia.
    rewrite orb_comm. f_equal.
    destruct (Z.eqb_spec (j mod 32) (k mod 32)), (Z.eqb_spec k j); auto; try lia.
  - rewrite list_lookup_insert_ne by lia.
    destruct (Z.eqb_spec k j) as [->|]; [contradiction|reflexivity].
Qed.

Lemma mark_vertices_spec (vs : list Z) :
  forall bm,
    (forall v, v ∈ vs -> 0 <= v < 32 * Z.of_nat (length bm)) ->
    exists bm',
      mark_vertices bm vs = Ok bm' /\ length bm' = length bm /\
      forall k, 0 <= k -> bit bm' k = true <-> k ∈ vs \/ bit bm k = true.
Proof.
  induction vs as [|j vs IH]; intros bm Hvs; simpl.
  - exists bm. split; [reflexivity|]. split; [reflexivity|].
    intros k _. split; [auto|]. intros [H|H]; [inversion H|exact H].
  - destruct (SETBIT_spec bm j (Hvs j ltac:(left))) as (bm1 & Hset & Hl1 & Hb1).
    rewrite Hset. cbn [bind].
    destruct (IH bm1) as (bm' & Hrun & Hl' & Hb').
    { intros v Hv. rewrite Hl1. apply Hvs. now right. }
    exists bm'. split; [exact Hrun|]. split; [congruence|].
    intros k Hk. rewrite (Hb' k Hk), (Hb1 k Hk), orb_true_iff, elem_of_cons, Z.eqb_eq.
    tauto.
Qed.

(** ** The cycle check *)

(** The constraint built when a union fails: its mask holds the marked
    vertices of the set of [root]. *)
Lemma build_sec_spec (R : Z) (fuel : nat) (nverts kmasks : Z) (uf : union_find_t)
    (cv : list Z) (root : Z) :
  uf_ok R uf -> length (parent uf) = Z.to_nat nverts -> 0 <= root < nverts ->
  (Z.to_nat R <= fuel)%nat ->
  0 <= kmasks -> nverts <= 32 * kmasks -> length cv = Z.to_nat kmasks ->
  exists cp,
    build_sec fuel nverts kmasks uf cv root = Ok cp /\
    c_iteration cp = -1 /\ c_type cp = CT_SUBTOUR /\
    length (c_mask cp) = Z.to_nat kmasks /\
    forall k, 0 <= k ->
      bit (c_mask cp) k = true <->
      k < nverts /\ bit cv k = true /\ same_set (parent uf) root k.
Proof.
  intros Hok Hlen Hroot Hfuel Hk0 Hkm Hcv. unfold build_sec.
  pose proof Hok as (Hl & _ & Hr & _).
  destruct (lookup_lt_is_Some_2 (rank uf) (Z.to_nat root) ltac:(lia)) as [kr Hkr].
  pose proof (Hr _ _ Hkr) as Hbr.
  destruct (uf_find_spec R fuel uf root kr Hok ltac:(lia) Hkr ltac:(lia))
    as (uf1 & cr & Hrun1 & Hcr & Hok1 & Hrk1 & Hlen1 & Hiff1).
  rewrite Hrun1. cbn [bind].
  destruct (for_range_total
    (fun (k : Z) (s : union_find_t * list Z) =>
       uf_ok R (fst s) /\ length (parent (fst s)) = Z.to_nat nverts /\
       (forall z r, Root (parent uf) z r <-> Root (parent (fst s)) z r) /\
       length (snd s) = Z.to_nat kmasks /\
       forall v, 0 <= v ->
         bit (snd s) v = true <->
         v < k /\ bit cv v = true /\ Root (parent uf) v cr)
    0 nverts (sec_pass fuel cv cr) (uf1, replicate (Z.to_nat kmasks) 0))
    as ([uf2 mask] & Hrun & _ & _ & _ & Hml & Hbits).
  - lia.
  - cbn [fst snd]. split; [exact Hok1|]. split; [congruence|]. split; [exact Hiff1|].
    split; [apply length_replicate|]. intros v Hv. rewrite bit_zero.
    split; [discriminate|]. intros [? _]. lia.
  - intros k [u m] Hk (I1 & I2 & I3 & I4 & I5). cbn [fst snd] in *.
    unfold sec_pass. rewrite BITON_spec by lia. cbn [bind].
    destruct (bit cv k) eqn:Ebit.
    + pose proof I1 as (Hlu & _ & Hru & _).
      destruct (lookup_lt_is_Some_2 (rank u) (Z.to_nat k) ltac:(lia)) as [kk Hkk].
      pose proof (Hru _ _ Hkk) as Hbk.
      destruct (uf_find_spec R fuel u k kk I1 ltac:(lia) Hkk ltac:(lia))
        as (u' & r & Hrunk & Hrk & Hoku & _ & Hlenu & Hiffu).
      rewrite Hrunk. cbn [bind]. apply I3 in Hrk.
      assert (Hiff' : forall z r0, Root (parent uf) z r0 <-> Root (parent u') z r0)
        by (intros z r0; now rewrite I3, Hiffu).
      destruct (Z.eqb_spec r cr) as [->|Hne].
      * destruct (SETBIT_spec m k ltac:(lia)) as (m' & Hset & Hlm & Hbm).
        rewrite Hset. cbn [bind]. eexists. split; [reflexivity|]. cbn [fst snd].
        split; [exact Hoku|]. split; [congruence|]. split; [exact Hiff'|].
        split; [congruence|]. intros v Hv.
        rewrite (Hbm v Hv), orb_true_iff, Z.eqb_eq, (I5 v Hv). split.
        -- intros [->|(H1 & H2 & H3)]; [split; [lia|auto]|split; [lia|auto]].
        -- intros (H1 & H2 & H3). destruct (Z.eq_dec v k); [now left|right].
           split; [lia|auto].
      * eexists. split; [reflexivity|]. cbn [fst snd].
        split; [exact Hoku|]. split; [congruence|]. split; [exact Hiff'|].
        split; [exact I4|]. intros v Hv. rewrite (I5 v Hv). split.
        -- intros (H1 & H2 & H3). split; [lia|auto].
        -- intros (H1 & H2 & H3). split; [|auto].
           destruct (Z.eq_dec v k) as [->|]; [|lia].
           exfalso. apply Hne. eapply Root_det; eauto.
    + eexists. split; [reflexivity|]. cbn [fst snd].
      split; [exact I1|]. split; [exact I2|]. split; [exact I3|]. split; [exact I4|].
      intros v Hv. rewrite (I5 v Hv). split.
      * intros (H1 & H2 & H3). split; [lia|auto].
      * intros (H1 & H2 & H3). split; [|auto].
        destruct (Z.eq_dec v k) as [->|]; [congruence|lia].
  - rewrite Hrun. cbn [bind]. eexists. split; [reflexivity|]. cbn.
    split; [reflexivity|]. split; [reflexivity|]. split; [exact Hml|].
    intros k Hk. cbn [snd] in Hbits. rewrite (Hbits k Hk). split.
    + intros (H1 & H2 & H3). split; [exact H1|]. split; [exact H2|]. exists cr. auto.
    + intros (H1 & H2 & r & H3 & H4). split; [exact H1|]. split; [exact H2|].
      now rewrite (Root_det _ _ _ _ Hcr H3).
Qed.

(** The pairs that the star of one component hands to [uf_union]. *)
Definition star (vs : list Z) : list (Z * Z) :=
  match vs with
  | [] => []
  | root :: rest => pair root <$> rest
  end.

(** The components that are selected: [x [i] >= 0.5]. *)
Fixpoint picked (x : list float) (es : list (list Z)) : list (list Z) :=
  match x, es with
  | xi :: x', vs :: es' =>
      if PrimFloat.ltb xi 0.5 then picked x' es' else vs :: picked x' es'
  | _, _ => []
  end.

Definition pairs (cs : list (list Z)) : list (Z * Z) := concat (star <$> cs).

(** No pair joins two vertices that the pairs before it connect. *)
Definition forest (P : list (Z * Z)) : Prop :=
  forall n a b, P !! n = Some (a, b) -> ~ conn (take n P) a b.

Lemma forest_nil : forest [].
Proof. intros n a b H. discriminate. Qed.

Lemma forest_snoc (P : list (Z * Z)) (a b : Z) :
  forest P -> ~ conn P a b -> forest (P ++ [(a, b)]).
Proof.
  intros HP Hab n c d Hn.
  destruct (decide (n < length P)%nat) as [Hlt|Hge].
  - rewrite lookup_app_l in Hn by lia. rewrite take_app_le by lia. now apply HP.
  - pose proof (lookup_lt_Some _ _ _ Hn) as Hl. rewrite length_app in Hl. simpl in Hl.
    assert (n = length P) by lia. subst n.
    rewrite lookup_app_r, Nat.sub_diag in Hn by lia. injection Hn as <- <-.
    rewrite take_app_le, take_ge by lia. exact Hab.
Qed.

Lemma pairs_snoc (cs : list (list Z)) (vs : list Z) :
  pairs (cs ++ [vs]) = pairs cs ++ star vs.
Proof. unfold pairs. rewrite fmap_app, concat_app. simpl. now rewrite app_nil_r. Qed.

(** What the check returns on the selected components [sel]: nothing when
    no union fails; else the constraint built at the first union that
    fails, that of the pair [t] of the component [vs], whose mask holds the
    vertices of the components up to [vs] that the pairs before connect to
    the first vertex of [vs]. *)
Definition cycle_spec (nverts : Z) (sel : list (list Z)) (r : option constraint) : Prop :=
  match r with
  | None => forest (pairs sel)
  | Some cp =>
      c_iteration cp = -1 /\ c_type cp = CT_SUBTOUR /\
      length (c_mask cp) = Z.to_nat (BMAP_ELTS nverts) /\
      exists done vs rest t root j,
        sel = done ++ vs :: rest /\ star vs !! t = Some (root, j) /\
        forest (pairs done ++ take t (star vs)) /\
        conn (pairs done ++ take t (star vs)) root j /\
        forall k, 0 <= k ->
          bit (c_mask cp) k = true <->
          k ∈ concat (done ++ [vs]) /\ conn (pairs done ++ take t (star vs)) root k
  end.

(** The unions of one star. *)
Lemma star_unions_spec (fuel : nat) (nverts kmasks : Z) (cv : list Z) (root : Z)
    (rest : list Z) :
  0 <= root < nverts -> (forall v, v ∈ rest -> 0 <= v < nverts) ->
  0 <= kmasks -> nverts <= 32 * kmasks -> length cv = Z.to_nat kmasks ->
  forall (uf : union_find_t) (R : Z) (E : list (Z * Z)),
    uf_ok R uf -> length (parent uf) = Z.to_nat nverts ->
    uf_models uf E -> forest E -> 0 <= R ->
    (Z.to_nat R + length rest <= fuel)%nat ->
    exists res,
      star_unions fuel nverts kmasks cv root rest uf = Ok res /\
      match res with
      | inl uf' =>
          uf_ok (R + Z.of_nat (length rest)) uf' /\
          length (parent uf') = Z.to_nat nverts /\
          uf_models uf' (E ++ (pair root <$> rest)) /\
          forest (E ++ (pair root <$> rest))
      | inr cp =>
          c_iteration cp = -1 /\ c_type cp = CT_SUBTOUR /\
          length (c_mask cp) = Z.to_nat kmasks /\
          exists t j,
            rest !! t = Some j /\
            forest (E ++ (pair root <$> take t rest)) /\
            conn (E ++ (pair root <$> take t rest)) root j /\
            forall k, 0 <= k ->
              bit (c_mask cp) k = true <->
              k < nverts /\ bit cv k = true /\
              conn (E ++ (pair root <$> take t rest)) root k
      end.
Proof.
  intros Hroot Hrest Hk0 Hkm Hcv.
  induction rest as [|j rest IH]; intros uf R E Hok Hlen Hmod Hfor HR Hfuel; simpl.
  - eexists. split; [reflexivity|]. simpl.
    rewrite Z.add_0_r, app_nil_r. auto.
  - simpl in Hfuel.
    destruct (uf_union_spec R fuel uf root j Hok ltac:(lia)
                ltac:(specialize (Hrest j ltac:(left)); lia) ltac:(lia))
      as (uf' & ok & rx & ry & Hrun & Hrx & Hry & Hokv & Hok' & Hlen' & Hfail & Hsucc).
    rewrite Hrun. cbn [bind].
    assert (Hdec : conn E root j <-> rx = ry).
    { split.
      - intros Hc. destruct (models_complete R uf E root j Hok Hmod Hc) as (r & H1 & H2);
          [left; lia|].
        rewrite (Root_det _ _ _ _ Hrx H1), (Root_det _ _ _ _ Hry H2). reflexivity.
      - intros <-. apply Hmod. exists rx. auto. }
    destruct ok.
    + destruct (Hsucc eq_refl) as (a & b & Hab & Hiff).
      assert (Hnc : ~ conn E root j).
      { rewrite Hdec. intros ->. rewrite Z.eqb_refl in Hokv. discriminate. }
      destruct (IH ltac:(intros v Hv; apply Hrest; now right) uf' (R + 1)
                   (E ++ [(root, j)]) Hok' ltac:(congruence))
        as (res & Hres & Hspec).
      * eapply models_union; eauto.
      * now apply forest_snoc.
      * lia.
      * lia.
      * exists res. split; [exact Hres|].
        destruct res as [uf2|cp].
        -- rewrite <- app_assoc in Hspec. simpl in Hspec.
           replace (R + Z.of_nat (S (length rest))) with (R + 1 + Z.of_nat (length rest))
             by lia.
           exact Hspec.
        -- destruct Hspec as (H1 & H2 & H3 & t & j' & Ht & Hf & Hc & Hb).
           split; [exact H1|]. split; [exact H2|]. split; [exact H3|].
           exists (S t), j'. simpl. rewrite <- app_assoc in Hf, Hc, Hb. simpl in Hf, Hc, Hb.
           auto.
    + destruct (Hfail eq_refl) as (HokR & Hiff).
      assert (Hc : conn E root j).
      { apply Hdec. destruct (Z.eqb_spec rx ry); [auto|discriminate]. }
      destruct (build_sec_spec R fuel nverts kmasks uf' cv root HokR ltac:(congruence)
                  Hroot ltac:(lia) Hk0 Hkm Hcv)
        as (cp & Hcp & H1 & H2 & H3 & Hbits).
      rewrite Hcp. cbn [bind]. eexists. split; [reflexivity|]. cbn beta iota.
      split; [exact H1|]. split; [exact H2|]. split; [exact H3|].
      exists 0%nat, j. simpl. rewrite app_nil_r.
      split; [reflexivity|]. split; [exact Hfor|]. split; [exact Hc|].
      intros k Hk. rewrite (Hbits k Hk).
      assert (Hss : same_set (parent uf') root k <-> conn E root k).
      { split.
        - intros (r & Ha & Hb). apply Hmod. exists r. split; now apply Hiff.
        - intros Hck.
          destruct (models_complete R uf E root k Hok Hmod Hck) as (r & Ha & Hb);
            [left; lia|].
          exists r. split; now apply Hiff. }
      rewrite Hss. reflexivity.
Qed.

(** The hypergraph and the solution vector fit together. *)
Definition hypergraph_ok (cip : gst_hypergraph) (x : list float) : Prop :=
  0 <= num_verts cip /\
  num_edges cip = Z.of_nat (length (edge cip)) /\
  (length (edge cip) <= length x)%nat /\
  forall vs v, vs ∈ edge cip -> v ∈ vs -> 0 <= v < num_verts cip.

Lemma picked_nil (x : list float) : picked x [] = [].
Proof. destruct x; reflexivity. Qed.

Lemma star_short (vs : list Z) : (length vs < 2)%nat -> star vs = [].
Proof. destruct vs as [|v [|w vs]]; simpl; auto; lia. Qed.

Lemma scan_edges_spec (fuel : nat) (cip : gst_hypergraph) (x : list float) (kmasks : Z) :
  hypergraph_ok cip x -> kmasks = BMAP_ELTS (num_verts cip) ->
  forall (n i : nat) (uf : union_find_t) (cv : list Z) (done : list (list Z)) (R : Z),
    (i + n = length (edge cip))%nat ->
    uf_ok R uf -> length (parent uf) = Z.to_nat (num_verts cip) ->
    uf_models uf (pairs done) -> forest (pairs done) -> 0 <= R ->
    length cv = Z.to_nat kmasks ->
    (forall k, 0 <= k -> bit cv k = true <-> k ∈ concat done) ->
    (forall v, v ∈ concat done -> 0 <= v < num_verts cip) ->
    (Z.to_nat R + length (concat (drop i (edge cip))) <= fuel)%nat ->
    exists r,
      scan_edges fuel cip x kmasks n (Z.of_nat i) uf cv = Ok r /\
      cycle_spec (num_verts cip) (done ++ picked (drop i x) (drop i (edge cip))) r.
Proof.
  intros (Hnv & Hne & Hlx & Hin) Hkm.
  assert (Hk0 : 0 <= kmasks) by (subst kmasks; unfold BMAP_ELTS; apply Z.div_pos; lia).
  assert (Hk32 : num_verts cip <= 32 * kmasks).
  { subst kmasks. unfold BMAP_ELTS.
    pose proof (Z.div_mod (num_verts cip + 31) 32 ltac:(lia)).
    pose proof (Z.mod_pos_bound (num_verts cip + 31) 32 ltac:(lia)). lia. }
  induction n as [|n IH]; intros i uf cv done R Hi Hok Hlen Hmod Hfor HR Hcv Hbits Hdone Hfuel.
  - simpl. exists None. split; [reflexivity|].
    rewrite (drop_ge (edge cip)) by lia. rewrite picked_nil, app_nil_r. exact Hfor.
  - destruct (lookup_lt_is_Some_2 (edge cip) i ltac:(lia)) as [vs Hvs].
    destruct (lookup_lt_is_Some_2 x i ltac:(lia)) as [xi Hxi].
    rewrite (drop_S _ _ _ Hvs) in Hfuel |- *. rewrite (drop_S _ _ _ Hxi).
    simpl in Hfuel. rewrite length_app in Hfuel.
    cbn [scan_edges picked].
    rewrite (aget_Ok x (Z.of_nat i) xi ltac:(lia)) by (now rewrite Nat2Z.id).
    cbn [bind]. replace (Z.of_nat i + 1) with (Z.of_nat (S i)) by lia.
    destruct (PrimFloat.ltb xi 0.5).
    { apply (IH (S i) uf cv done R); auto; lia. }
    rewrite (aget_Ok (edge cip) (Z.of_nat i) vs ltac:(lia)) by (now rewrite Nat2Z.id).
    cbn [bind].
    assert (Hvin : forall v, v ∈ vs -> 0 <= v < num_verts cip).
    { intros v Hv. eapply Hin; [|exact Hv]. eapply list_elem_of_lookup_2; eauto. }
    destruct (mark_vertices_spec vs cv) as (cv' & Hmark & Hcv' & Hbits').
    { intros v Hv. specialize (Hvin v Hv). lia. }
    rewrite Hmark. cbn [bind].
    assert (Hbits2 : forall k, 0 <= k -> bit cv' k = true <-> k ∈ concat (done ++ [vs])).
    { intros k Hk. rewrite (Hbits' k Hk), (Hbits k Hk), concat_app, elem_of_app.
      simpl. rewrite app_nil_r. tauto. }
    assert (Hdone2 : forall v, v ∈ concat (done ++ [vs]) -> 0 <= v < num_verts cip).
    { intros v Hv. rewrite concat_app, elem_of_app in Hv. simpl in Hv.
      rewrite app_nil_r in Hv. destruct Hv; auto. }
    destruct (Z.leb_spec 2 (Z.of_nat (length vs))) as [H2|H2].
    + destruct vs as [|root rest]; [simpl in H2; lia|].
      simpl in Hfuel.
      destruct (star_unions_spec fuel (num_verts cip) kmasks cv' root rest
                  (Hvin root ltac:(left)) ltac:(intros v Hv; apply Hvin; now right)
                  Hk0 Hk32 ltac:(congruence) uf R (pairs done) Hok Hlen Hmod Hfor HR
                  ltac:(lia)) as (res & Hres & Hspec).
      rewrite Hres. cbn [bind]. destruct res as [uf'|cp].
      * destruct Hspec as (Hok' & Hlen' & Hmod' & Hfor').
        destruct (IH (S i) uf' cv' (done ++ [root :: rest]) (R + Z.of_nat (length rest)))
          as (r & Hr & Hrs); auto; try lia.
        -- now rewrite pairs_snoc.
        -- now rewrite pairs_snoc.
        -- exists r. split; [exact Hr|]. now rewrite <- app_assoc in Hrs.
      * destruct Hspec as (H1 & H3 & H4 & t & j & Ht & Hf & Hc & Hb).
        eexists. split; [reflexivity|]. simpl.
        split; [exact H1|]. split; [exact H3|]. split; [congruence|].
        exists done, (root :: rest), (picked (drop (S i) x) (drop (S i) (edge cip))), t, root, j.
        simpl. rewrite <- fmap_take.
        split; [reflexivity|]. split; [now rewrite list_lookup_fmap, Ht|].
        split; [exact Hf|]. split; [exact Hc|].
        intros k Hk. rewrite (Hb k Hk), (Hbits2 k Hk). split; [tauto|].
        intros [Hkin Hck]. split; [|auto]. apply (Hdone2 k Hkin).
    + destruct (IH (S i) uf cv' (done ++ [vs]) R) as (r & Hr & Hrs); auto; try lia.
      * rewrite pairs_snoc, star_short, app_nil_r by lia. exact Hmod.
      * rewrite pairs_snoc, star_short, app_nil_r by lia. exact Hfor.
      * exists r. split; [exact Hr|]. now rewrite <- app_assoc in Hrs.
Qed.

Lemma create_union_find_lookup (n : Z) (x : nat) (px : Z) :
  parent (create_union_find n) !! x = Some px -> px = Z.of_nat x /\ (x < Z.to_nat n)%nat.
Proof.
  unfold create_union_find. cbn [parent].
  change (map Z.of_nat (seq 0 (Z.to_nat n))) with (Z.of_nat <$> seq 0 (Z.to_nat n)).
  rewrite list_lookup_fmap. intros H.
  destruct (seq 0 (Z.to_nat n) !! x) as [y|] eqn:E; [|discriminate].
  apply lookup_seq in E as [-> Hlt]. injection H as <-. auto.
Qed.

Lemma create_union_find_ok (n : Z) :
  uf_ok 0 (create_union_find n) /\
  length (parent (create_union_find n)) = Z.to_nat n /\
  uf_models (create_union_find n) [].
Proof.
  assert (Hlen : length (parent (create_union_find n)) = Z.to_nat n).
  { unfold create_union_find. cbn [parent]. now rewrite length_map, length_seq. }
  split; [|split; [exact Hlen|]].
  - split; [unfold create_union_find at 1; cbn [rank]; now rewrite length_replicate|].
    split; [|split].
    + intros x px H. apply create_union_find_lookup in H as [-> H]. lia.
    + intros x rx H. unfold create_union_find in H. cbn [rank] in H.
      apply lookup_replicate in H as [-> _]. lia.
    + intros x px rx rpx Hx H Hne. apply create_union_find_lookup in H as [-> _]. lia.
  - split.
    + intros a b (r & Ha & Hb).
      assert (Hfix : forall y r', Root (parent (create_union_find n)) y r' -> r' = y).
      { intros y r' H. inversion H as [|? py ? Hy Hp Hne]; subst; [reflexivity|].
        apply create_union_find_lookup in Hp as [-> _]. lia. }
      rewrite <- (Hfix _ _ Ha), <- (Hfix _ _ Hb). apply conn_refl.
    + intros a b H. inversion H.
Qed.

(** The triangle of the components [(0,1)], [(1,2)] and [(0,2)]. *)
Definition triangle : gst_hypergraph := mk_hg 3 3 [[0; 1]; [1; 2]; [0; 2]].

(** C5.  On a hypergraph whose components list vertices below [num_verts]
    and a solution vector with an entry for every component,
    [_gst_check_integer_solution_for_cycles] ends with the result that
    [cycle_spec] describes for the selected components: nothing when no
    union of the stars fails, and otherwise the subtour constraint built at
    the first union whose two vertices the earlier pairs connect, whose mask
    holds exactly the vertices of the components selected so far that are
    connected to the first vertex of the failing component.  All of
    [(0,1)], [(1,2)], [(0,2)] selected gives the mask [{0,1,2}]; [(0,1)] and
    [(1,2)] alone give nothing. *)
Theorem cycle_check_spec :
  (forall (x : list float) (cip : gst_hypergraph),
     hypergraph_ok cip x ->
     exists r,
       _gst_check_integer_solution_for_cycles x cip = Ok r /\
       cycle_spec (num_verts cip) (picked x (edge cip)) r) /\
  _gst_check_integer_solution_for_cycles [1; 1; 1]%float triangle
    = Ok (Some (mk_constraint (-1) CT_SUBTOUR [7])) /\
  _gst_check_integer_solution_for_cycles [1; 1; 0]%float triangle = Ok None /\
  _gst_check_integer_solution_for_cycles [1; 1]%float (mk_hg 3 2 [[0; 1]; [1; 2]]) = Ok None.
Proof.
  split; [|repeat split].
  intros x cip Hok. unfold _gst_check_integer_solution_for_cycles.
  destruct (create_union_find_ok (num_verts cip)) as (Huf & Hlen & Hmod).
  pose proof Hok as (Hnv & Hne & _).
  rewrite Hne, Nat2Z.id.
  destruct (scan_edges_spec (S (length (concat (edge cip)))) cip x
              (BMAP_ELTS (num_verts cip)) Hok eq_refl (length (edge cip)) 0
              (create_union_find (num_verts cip))
              (replicate (Z.to_nat (BMAP_ELTS (num_verts cip))) 0) [] 0)
    as (r & Hr & Hspec); auto.
  - exact forest_nil.
  - lia.
  - apply length_replicate.
  - intros k Hk. rewrite bit_zero. simpl. split; [discriminate|]. intros H. inversion H.
  - intros v H. inversion H.
  - exists r. auto.
Qed.

(** [cycle_check_spec] on the triangle with all three components selected:
    the mask [7] is the set [{0,1,2}]. *)
Lemma cycle_check_spec_witness :
  hypergraph_ok triangle [1; 1; 1]%float /\
  exists r,
    _gst_check_integer_solution_for_cycles [1; 1; 1]%float triangle = Ok r /\
    cycle_spec 3 [[0; 1]; [1; 2]; [0; 2]] r /\
    r = Some (mk_constraint (-1) CT_SUBTOUR [7]) /\
    bit [7] 0 = true /\ bit [7] 1 = true /\ bit [7] 2 = true /\ bit [7] 3 = false.
Proof.
  assert (Hok : hypergraph_ok triangle [1; 1; 1]%float).
  { split; [cbn; lia|]. split; [reflexivity|]. split; [cbn; lia|].
    intros vs v Hvs Hv. cbn in Hvs.
    repeat (apply elem_of_cons in Hvs as [->|Hvs];
            [repeat (apply elem_of_cons in Hv as [->|Hv]; [cbn; lia|]); inversion Hv|]).
    inversion Hvs. }
  split; [exact Hok|].
  destruct (proj1 cycle_check_spec [1; 1; 1]%float triangle Hok) as (r & Hr & Hspec).
  exists r. split; [exact Hr|]. split; [exact Hspec|].
  split; [|repeat split].
  vm_compute in Hr. now injection Hr as <-.
Defined.

(** ** The rows of the LP against the rows of the pool *)

(** The sum of the products of an LP row with [x], in the order of its
    entries, each step rounded. *)
Fixpoint mat_sum (mat : list (Z * Z)) (x : list float) (sum : float) : outcome float :=
  match mat with
  | [] => Ok sum
  | (c, v) :: mat' =>
      let! xv := aget x c in
      mat_sum mat' x (sum + of_int v * xv)%float
  end.

(** The slack of an LP row at [x], as [compute_slack_value] measures the
    slack of a pool row. *)
Definition lp_row_slack (lr : lp_row) (x : list float) : outcome float :=
  let! sum := mat_sum (lr_mat lr) x 0%float in
  match lr_ctype lr with
  | REL_LE => Ok (of_int (lr_rhs lr) - sum)%float
  | REL_EQ =>
      let sum' := (sum - of_int (lr_rhs lr))%float in
      Ok (if PrimFloat.ltb 0 sum' then (- sum')%float else sum')
  | REL_GE => Ok (sum - of_int (lr_rhs lr))%float
  end.

Definition ctype_of (op : Z) : option rel :=
  if op =? RC_OP_LE then Some REL_LE
  else if op =? RC_OP_EQ then Some REL_EQ
  else if op =? RC_OP_GE then Some REL_GE
  else None.

(** The LP row [lr] is the pool row [rc] as [_gst_add_pending_rows_to_LP]
    hands it to the engine. *)
Definition row_in_lp (rc : rcon) (lr : lp_row) : Prop :=
  exists e, row_to_lp (coefs rc) [] = Ok (lr_mat lr, e) /\
            lr_rhs lr = val e /\ ctype_of (var e) = Some (lr_ctype lr).

Lemma mat_sum_app (m1 m2 : list (Z * Z)) (x : list float) (s : float) :
  mat_sum (m1 ++ m2) x s = let! s1 := mat_sum m1 x s in mat_sum m2 x s1.
Proof.
  revert s. induction m1 as [|[c v] m1 IH]; intros s; simpl; [reflexivity|].
  destruct (aget x c); simpl; auto.
Qed.

Lemma row_to_lp_sum (cp : list rcoef) (x : list float) :
  forall (acc m : list (Z * Z)) (e : rcoef) (s0 : float),
    row_to_lp cp acc = Ok (m, e) ->
    (let! s := mat_sum acc x 0%float in row_sum cp x s) =
    (let! s := mat_sum m x 0%float in Ok (s, e)).
Proof.
  induction cp as [|c cp IH]; intros acc m e s0 H; simpl in H; [discriminate|].
  simpl. destruct (var c <? RC_VAR_BASE).
  - injection H as <- <-. reflexivity.
  - rewrite <- (IH _ _ _ s0 H), mat_sum_app. simpl.
    destruct (mat_sum acc x 0%float); simpl; auto.
    destruct (aget x (var c - RC_VAR_BASE)); reflexivity.
Qed.

Lemma row_in_lp_slack (rc : rcon) (lr : lp_row) (x : list float) :
  row_in_lp rc lr -> lp_row_slack lr x = compute_slack_value (coefs rc) x.
Proof.
  intros (e & Hconv & Hrhs & Hct).
  pose proof (row_to_lp_sum (coefs rc) x [] _ _ 0%float Hconv) as H. simpl in H.
  unfold lp_row_slack, compute_slack_value. rewrite H.
  destruct (mat_sum (lr_mat lr) x 0%float) as [s| |]; simpl; auto.
  unfold ctype_of in Hct. rewrite Hrhs.
  destruct (var e =? RC_OP_LE); [injection Hct as <-; reflexivity|].
  destruct (var e =? RC_OP_EQ); [injection Hct as <-; reflexivity|].
  destruct (var e =? RC_OP_GE); [injection Hct as <-; reflexivity|discriminate].
Qed.

(** The loaded rows are registered in [lprows] and stand in the LP at the
    position they record. *)
Definition lp_synced (bbip : bbinfo) : Prop :=
  let pool := bb_cpool bbip in
  0 <= npend pool /\
  forall j rc, rows pool !! j = Some rc -> 0 <= lprow rc ->
    lprow rc < nlprows pool /\
    lprows pool !! Z.to_nat (lprow rc) = Some (Z.of_nat j) /\
    exists lr, lp_rowset (bb_lp bbip) !! Z.to_nat (lprow rc) = Some lr /\ row_in_lp rc lr.

(** The row [cp] passes the test of the scan at [x]: its slack, as
    [compute_slack_value] computes it, is not below [- FUZZ]. *)
Definition row_passes (cp : list rcoef) (x : list float) : Prop :=
  exists s, compute_slack_value cp x = Ok s /\ PrimFloat.ltb s (- FUZZ) = false.

(** The same of an LP row. *)
Definition lp_row_passes (lr : lp_row) (x : list float) : Prop :=
  exists s, lp_row_slack lr x = Ok s /\ PrimFloat.ltb s (- FUZZ) = false.

(** *** Loading the pending rows keeps the LP and the pool in step *)

Lemma row_in_lp_coefs (rc rc' : rcon) (lr : lp_row) :
  coefs rc' = coefs rc -> row_in_lp rc lr -> row_in_lp rc' lr.
Proof. unfold row_in_lp. now intros ->. Qed.

Lemma pending_pass1_inv (pool : cpool) (i1 i2 : Z) (rs : list rcon) (nc : Z) :
  0 <= i1 <= i2 ->
  for_range i1 i2 (pending_pass1 (lprows pool)) (rows pool, 0) = Ok (rs, nc) ->
  forall j rc', rs !! j = Some rc' ->
    exists rc, rows pool !! j = Some rc /\ coefs rc' = coefs rc /\
      (lprow rc' = lprow rc \/
       (lprow rc = -2 /\ i1 <= lprow rc' < i2 /\
        lprows pool !! Z.to_nat (lprow rc') = Some (Z.of_nat j))).
Proof.
  intros Hi H.
  apply (for_range_inv
    (fun (i : Z) (s : list rcon * Z) =>
       forall j rc', fst s !! j = Some rc' ->
         exists rc, rows pool !! j = Some rc /\ coefs rc' = coefs rc /\
           (lprow rc' = lprow rc \/
            (lprow rc = -2 /\ i1 <= lprow rc' < i /\
             lprows pool !! Z.to_nat (lprow rc') = Some (Z.of_nat j))))
    _ _ _ _ _ (proj2 Hi) H).
  - intros j rc' Hj. exists rc'. auto.
  - intros i [r n0] [r' n'] Hir Hinv Hb. cbn [fst] in *. unfold pending_pass1 in Hb.
    inv_bind Hb. rename a into row. apply aget_Ok_inv in Hm as [_ Hrow].
    inv_bind Hb. rename a into rcp. apply aget_Ok_inv in Hm as [Hrow0 Hrcp].
    inv_fatal Hb. apply negb_false_iff, Z.eqb_eq in Hc.
    inv_bind Hb. apply aset_Ok_inv in Hm as [_ ->]. injection Hb as <- <-.
    intros j rc' Hj. destruct (decide (j = Z.to_nat row)) as [->|Hne].
    + rewrite list_lookup_insert_eq in Hj by (apply lookup_lt_Some in Hrcp; lia).
      injection Hj as <-.
      destruct (Hinv _ _ Hrcp) as (rc & Hrc & Hco & Hl).
      exists rc. split; [exact Hrc|]. split; [destruct rcp; exact Hco|].
      right. destruct rcp; cbn in *. split; [destruct Hl as [<-|(? & ? & _)]; lia|].
      split; [lia|]. rewrite Hrow. f_equal. lia.
    + rewrite list_lookup_insert_ne in Hj by auto.
      destruct (Hinv _ _ Hj) as (rc & Hrc & Hco & Hl).
      exists rc. split; [exact Hrc|]. split; [exact Hco|].
      destruct Hl as [Hl|(H1 & H2 & H3)]; [now left|right].
      split; [exact H1|]. split; [lia|exact H3].
Qed.

Lemma pending_pass2_inv (pool : cpool) (i1 i2 : Z) (new : list lp_row) (nzi : Z) :
  0 <= i1 <= i2 ->
  for_range i1 i2 (pending_pass2 pool) ([], 0) = Ok (new, nzi) ->
  length new = Z.to_nat (i2 - i1) /\
  forall k, i1 <= k < i2 ->
    exists row rcp lr,
      lprows pool !! Z.to_nat k = Some row /\ 0 <= row /\
      rows pool !! Z.to_nat row = Some rcp /\
      new !! Z.to_nat (k - i1) = Some lr /\ row_in_lp rcp lr.
Proof.
  intros Hi H.
  apply (for_range_inv
    (fun (i : Z) (s : list lp_row * Z) =>
       length (fst s) = Z.to_nat (i - i1) /\
       forall k, i1 <= k < i ->
         exists row rcp lr,
           lprows pool !! Z.to_nat k = Some row /\ 0 <= row /\
           rows pool !! Z.to_nat row = Some rcp /\
           fst s !! Z.to_nat (k - i1) = Some lr /\ row_in_lp rcp lr)
    _ _ _ _ _ (proj2 Hi) H).
  - cbn. split; [lia|]. intros k Hk. lia.
  - intros i [nw z0] [nw' z'] Hir [Hlen Hinv] Hb. cbn [fst] in *.
    unfold pending_pass2 in Hb.
    inv_bind Hb. rename a into row. apply aget_Ok_inv in Hm as [_ Hrow].
    inv_bind Hb. rename a into rcp. apply aget_Ok_inv in Hm as [Hrow0 Hrcp].
    inv_bind Hb. destruct a as [mat e].
    inv_bind Hb. rename a into ctype. injection Hb as <- <-.
    split; [rewrite length_app; simpl; lia|].
    intros k Hk. destruct (Z.eq_dec k i) as [->|Hne].
    + exists row, rcp, (mk_lp_row (val e) ctype mat).
      split; [exact Hrow|]. split; [exact Hrow0|]. split; [exact Hrcp|]. split.
      * rewrite lookup_app_r by lia. rewrite Hlen, Nat.sub_diag. reflexivity.
      * exists e. cbn. split; [exact Hm|]. split; [reflexivity|].
        unfold ctype_of.
        destruct (var e =? RC_OP_LE); [congruence|].
        destruct (var e =? RC_OP_EQ); [congruence|].
        destruct (var e =? RC_OP_GE); [congruence|discriminate].
    + destruct (Hinv k ltac:(lia)) as (row' & rcp' & lr & H1 & H2 & H3 & H4 & H5).
      exists row', rcp', lr. repeat split; auto; try lia.
      rewrite lookup_app_l; [exact H4|]. apply lookup_lt_Some in H4. exact H4.
Qed.

Lemma add_pending_synced (bbip bbip' : bbinfo) :
  lp_synced bbip -> _gst_add_pending_rows_to_LP bbip = Ok bbip' ->
  lp_synced bbip' /\ bb_node bbip' = bb_node bbip.
Proof.
  intros [Hnp Hsync] H. unfold _gst_add_pending_rows_to_LP in H.
  inv_fatal H. apply negb_false_iff, Z.eqb_eq in Hc.
  inv_fatal H. apply Z.ltb_ge in Hc0.
  destruct (Z.eqb_spec (npend (bb_cpool bbip)) 0) as [E0|Hne];
    [injection H as <-; split; [split; auto|reflexivity]|].
  inv_bind H. destruct a as [rs nc].
  inv_bind H. destruct a as [new nzi].
  inv_fatal H. injection H as <-.
  set (pool := bb_cpool bbip) in *.
  assert (Hi : 0 <= nlprows pool <= nlprows pool + npend pool)
    by (unfold lp_num_rows in Hc; lia).
  pose proof (pending_pass1_inv pool _ _ _ _ Hi Hm) as H1.
  apply (pending_pass2_inv _ _ _ _ _ Hi) in Hm0 as [Hlen H2].
  cbn [rows lprows set_hwm set_rows] in H2.
  split; [|reflexivity].
  unfold lp_synced.
  cbn [bb_cpool bb_lp set_bb_cpool set_bb_lp npend set_npend nlprows set_nlprows rows
       lprows set_hwm set_rows add_rows lp_rowset].
  split; [lia|]. intros j rc' Hj Hl.
  destruct (H1 _ _ Hj) as (rc & Hrc & Hco & [Hsame|(Hp & Hrange & Hlpr)]).
  - rewrite Hsame in Hl |- *. destruct (Hsync _ _ Hrc Hl) as (Hlt & Hreg & lr & Hlr & Hin).
    split; [lia|]. split; [exact Hreg|]. exists lr.
    split; [now apply lookup_app_l_Some|]. eapply row_in_lp_coefs; eauto.
  - split; [lia|]. split; [exact Hlpr|].
    destruct (H2 (lprow rc') Hrange) as (row & rcp & lr & Hr1 & Hr0 & Hr2 & Hr3 & Hr4).
    rewrite Hlpr in Hr1. injection Hr1 as <-. rewrite Nat2Z.id, Hj in Hr2.
    injection Hr2 as <-. exists lr. split; [|exact Hr4].
    rewrite lookup_app_r by (unfold lp_num_rows in Hc; lia).
    rewrite <- Hr3. f_equal. unfold lp_num_rows in Hc. lia.
Qed.

(** *** Deleting slack rows keeps the LP and the pool in step *)

Lemma delete_slack_frame (bbip bbip' : bbinfo) :
  _gst_delete_slack_rows_from_LP bbip = Ok bbip' ->
  length (rows (bb_cpool bbip')) = length (rows (bb_cpool bbip)) /\
  nd_x (bb_node bbip') = nd_x (bb_node bbip) /\
  nd_z (bb_node bbip') = nd_z (bb_node bbip) /\
  cpiter (bb_node bbip') = cpiter (bb_node bbip) /\
  pool_uid (bb_cpool bbip') = pool_uid (bb_cpool bbip) /\
  iter (bb_cpool bbip') = iter (bb_cpool bbip).
Proof.
  intros H. unfold _gst_delete_slack_rows_from_LP in H.
  destruct (PrimFloat.leb _ _); [injection H as <-; auto 10|].
  inv_fatal H. apply negb_false_iff, Z.eqb_eq in Hc.
  inv_bind H. destruct a as [[[rs lpr] j] dlist].
  inv_bind H. destruct a as [lpr2 j2].
  assert (Hn0 : 0 <= nlprows (bb_cpool bbip)) by (rewrite <- Hc; unfold lp_num_rows; lia).
  pose proof (for_range_inv
                (slack_inv (rows (bb_cpool bbip)) (lprows (bb_cpool bbip)) (bb_slack bbip))
                0 (nlprows (bb_cpool bbip)) _ _ _ Hn0 Hm
                (slack_inv_init _ _ _)
                (fun k t t' _ => slack_pass_step _ _ _ k t t')) as (_ & Hlrs & _).
  destruct (0 <? Z.of_nat (length dlist)).
  - inv_bind H. injection H as <-. cbn. auto 10.
  - injection H as <-. cbn. auto 10.
Qed.

Lemma delete_slack_synced (bbip bbip' : bbinfo) :
  lp_synced bbip -> _gst_delete_slack_rows_from_LP bbip = Ok bbip' ->
  lp_synced bbip' /\
  forall lr, lr ∈ lp_rowset (bb_lp bbip') -> lr ∈ lp_rowset (bb_lp bbip).
Proof.
  intros [Hnp Hsync] H.
  destruct (PrimFloat.leb (nd_z (bb_node bbip)) (delrow_z (bb_node bbip))) eqn:Hguard.
  { unfold _gst_delete_slack_rows_from_LP in H. rewrite Hguard in H.
    injection H as <-. split; [split; auto|auto]. }
  pose proof (delete_slack_frame _ _ H) as (Hlen & _).
  pose proof (delete_slack_post_holds _ _ Hguard H) as Hpost.
  unfold delete_slack_post in Hpost. cbv zeta in Hpost.
  destruct Hpost as (HLP & Hnl & Hcount & Hst & Hrest & Hnp' & _).
  set (pool := bb_cpool bbip) in *. set (pool' := bb_cpool bbip') in *.
  set (n := Z.to_nat (nlprows pool)) in *.
  set (kept := kept_upto (rows pool) (lprows pool) (bb_slack bbip) n) in *.
  split; [split; [fold pool'; lia|]|].
  - fold pool'. intros j rc' Hj Hl.
    destruct (lookup_lt_is_Some_2 (rows pool) j) as [rc Hrc];
      [rewrite <- Hlen; eapply lookup_lt_Some; eauto|].
    destruct (Z_lt_le_dec (lprow rc) 0) as [Hneg|Hpos].
    + (* not loaded before: the header is as it was *)
      rewrite (Hrest j rc Hrc) in Hj; [injection Hj as <-; lia|].
      intros k Hk Hreg.
      destruct (Hst k Hk) as (row & rc0 & Hrow & _ & Hrc0 & Hlp0 & _).
      rewrite Hreg in Hrow. injection Hrow as <-. rewrite Nat2Z.id, Hrc in Hrc0.
      injection Hrc0 as <-. lia.
    + destruct (Hsync _ _ Hrc Hpos) as (Hlt & Hreg & lr & Hlr & Hin).
      destruct (Hst (Z.to_nat (lprow rc)) ltac:(lia))
        as (row & rc0 & Hrow & _ & Hrc0 & Hlp0 & Hnew).
      rewrite Hreg in Hrow. injection Hrow as <-. rewrite Nat2Z.id, Hrc in Hrc0.
      injection Hrc0 as <-. rewrite Nat2Z.id in Hnew.
      destruct (doomed_at _ _ _ _).
      * rewrite Hj in Hnew. injection Hnew as ->. destruct rc; cbn in Hl. lia.
      * destruct Hnew as (p & Hp & Hrow' & Hlpr' & HLP').
        rewrite Hj in Hrow'. injection Hrow' as ->.
        pose proof (lookup_lt_Some _ _ _ Hp) as Hplt.
        assert (El : lprow (set_lprow (Z.of_nat p) rc) = Z.of_nat p)
          by (destruct rc; reflexivity).
        rewrite El, Nat2Z.id. split; [lia|]. split; [exact Hlpr'|].
        exists lr. split; [rewrite HLP'; exact Hlr|].
        eapply row_in_lp_coefs; [|exact Hin]. destruct rc; reflexivity.
  - intros lr Hlr. apply list_elem_of_lookup_1 in Hlr as [p Hp].
    destruct (Forall2_lookup_r _ _ _ _ _ HLP Hp) as (k & _ & Hk).
    eapply list_elem_of_lookup_2; eauto.
Qed.

(** *** Steps that leave the loaded rows alone *)

(** From [p] to [p'] the loaded rows, their entries in [lprows] and all the
    coefficients are the same; rows that are not loaded may have turned from
    not-loaded to pending or back. *)
Definition loaded_frame (p p' : cpool) : Prop :=
  nlprows p' = nlprows p /\ pool_uid p' = pool_uid p /\
  length (rows p') = length (rows p) /\
  (forall k, 0 <= k < nlprows p -> lprows p' !! Z.to_nat k = lprows p !! Z.to_nat k) /\
  (forall j rc', rows p' !! j = Some rc' ->
     exists rc, rows p !! j = Some rc /\ coefs rc' = coefs rc /\
                (lprow rc' = lprow rc \/ (lprow rc < 0 /\ lprow rc' < 0))).

Lemma loaded_frame_refl (p : cpool) : loaded_frame p p.
Proof. unfold loaded_frame. repeat split; auto. intros j rc H. exists rc. auto. Qed.

Lemma loaded_frame_trans (p1 p2 p3 : cpool) :
  loaded_frame p1 p2 -> loaded_frame p2 p3 -> loaded_frame p1 p3.
Proof.
  intros (A1 & A2 & A3 & A4 & A5) (B1 & B2 & B3 & B4 & B5).
  split; [congruence|]. split; [congruence|]. split; [congruence|]. split.
  - intros k Hk. rewrite B4 by lia. now apply A4.
  - intros j rc3 H3. destruct (B5 _ _ H3) as (rc2 & H2 & Hc2 & Hl2).
    destruct (A5 _ _ H2) as (rc1 & H1 & Hc1 & Hl1).
    exists rc1. split; [exact H1|]. split; [congruence|].
    destruct Hl2 as [E2|[N2 N3]], Hl1 as [E1|[N1 N2']]; [left|right|right|right]; lia.
Qed.

Lemma lp_synced_frame (b b' : bbinfo) :
  lp_synced b -> bb_lp b' = bb_lp b -> loaded_frame (bb_cpool b) (bb_cpool b') ->
  0 <= npend (bb_cpool b') -> lp_synced b'.
Proof.
  intros [_ Hsync] Hlp (F1 & _ & _ & F4 & F5) Hnp. split; [exact Hnp|].
  intros j rc' Hj Hl. destruct (F5 _ _ Hj) as (rc & Hrc & Hco & [E|[N1 N2]]); [|lia].
  rewrite E in Hl |- *. destruct (Hsync _ _ Hrc Hl) as (Hlt & Hreg & lr & Hlr & Hin).
  split; [lia|]. split; [rewrite F4 by lia; exact Hreg|].
  exists lr. rewrite Hlp. split; [exact Hlr|]. eapply row_in_lp_coefs; eauto.
Qed.

(** A write to one header that keeps the coefficients. *)
Lemma loaded_frame_row (p : cpool) (i : nat) (rc rc' : rcon) :
  rows p !! i = Some rc -> coefs rc' = coefs rc ->
  (lprow rc' = lprow rc \/ (lprow rc < 0 /\ lprow rc' < 0)) ->
  loaded_frame p (set_rows (<[i := rc']> (rows p)) p).
Proof.
  intros Hi Hco Hl. unfold loaded_frame. cbn [nlprows pool_uid rows lprows set_rows].
  split; [reflexivity|]. split; [reflexivity|]. split; [apply length_insert|].
  split; [auto|].
  intros j r Hj. destruct (decide (j = i)) as [->|Hne].
  - rewrite list_lookup_insert_eq in Hj by (eapply lookup_lt_Some; eauto).
    injection Hj as <-. exists rc. auto.
  - rewrite list_lookup_insert_ne in Hj by auto. exists r. auto.
Qed.

Lemma mark_row_pending_frame (pool pool' : cpool) (i : Z) :
  0 <= npend pool ->
  _gst_mark_row_pending_to_LP pool i = Ok pool' ->
  loaded_frame pool pool' /\ 0 <= npend pool' /\ iter pool' = iter pool.
Proof.
  intros Hnp H. unfold _gst_mark_row_pending_to_LP in H.
  inv_fatal H. inv_bind H. rename a into rcp. apply aget_Ok_inv in Hm as [Hi Hrcp].
  destruct ((lprow rcp >=? 0) || (lprow rcp =? -2));
    [injection H as <-; split; [apply loaded_frame_refl|auto]|].
  inv_fatal H. apply negb_false_iff, Z.eqb_eq in Hc0.
  inv_bind H. apply aset_Ok_inv in Hm as [_ ->].
  inv_bind H. apply aset_Ok_inv in Hm as [_ ->]. injection H as <-.
  split; [|cbn; split; [lia|reflexivity]].
  pose proof (loaded_frame_row pool (Z.to_nat i) rcp (set_lprow (-2) rcp) Hrcp) as HF.
  destruct HF as (F1 & F2 & F3 & F4 & F5);
    [destruct rcp; reflexivity|right; destruct rcp; cbn in *; lia|].
  cbn [nlprows pool_uid rows lprows set_rows] in F1, F2, F3, F4, F5.
  unfold loaded_frame. cbn [nlprows pool_uid rows lprows set_rows set_lprows set_npend].
  split; [reflexivity|]. split; [reflexivity|]. split; [exact F3|]. split; [|exact F5].
  intros k Hk. apply list_lookup_insert_ne. lia.
Qed.

(** The scan of the pool for violations: a scan that marks no row has
    computed the slack of every row that is not loaded and found none below
    [- FUZZ]. *)
Lemma violation_scan_spec (bbip : bbinfo) (x : list float) (pool' : cpool) (any : bool) :
  lp_synced bbip ->
  for_range 0 (nrows (bb_cpool bbip)) (violation_pass x) (bb_cpool bbip, false)
    = Ok (pool', any) ->
  loaded_frame (bb_cpool bbip) pool' /\ 0 <= npend pool' /\
  (any = false ->
   forall j rc, rows pool' !! j = Some rc -> lprow rc < 0 -> row_passes (coefs rc) x).
Proof.
  intros [Hnp _] H. set (pool := bb_cpool bbip) in *.
  pose proof (for_range_inv
    (fun (i : Z) (s : cpool * bool) =>
       loaded_frame pool (fst s) /\ 0 <= npend (fst s) /\
       (snd s = false ->
        forall j rc, (j < Z.to_nat i)%nat -> rows (fst s) !! j = Some rc -> lprow rc < 0 ->
          row_passes (coefs rc) x))
    0 (nrows pool) (violation_pass x) (pool, false) (pool', any)
    ltac:(unfold nrows; lia) H) as Hinv.
  cbn [fst snd] in Hinv.
  destruct Hinv as (F & Hnp' & Hsat).
  - split; [apply loaded_frame_refl|]. split; [exact Hnp|]. intros _ j rc Hj. lia.
  - intros i [p a] [p2 a2] Hi (IF & Inp & Isat) Hb. cbn [fst snd] in *.
    unfold violation_pass in Hb.
    inv_bind Hb. rename a0 into rcp. apply aget_Ok_inv in Hm as [Hi0 Hrcp].
    inv_bind Hb. rename a0 into sl. rename Hm into Hsl.
    assert (Hprev : forall (q : cpool) (b : bool),
              (forall j, j <> Z.to_nat i -> rows q !! j = rows p !! j) ->
              (b = false -> a = false) ->
              (b = false -> forall rc, rows q !! Z.to_nat i = Some rc -> lprow rc < 0 ->
                 coefs rc = coefs rcp /\ PrimFloat.ltb sl (- FUZZ) = false) ->
              b = false ->
              forall j rc, (j < Z.to_nat (i + 1))%nat -> rows q !! j = Some rc ->
                lprow rc < 0 -> row_passes (coefs rc) x).
    { intros q b Hsame Hba Hnew Hb0 j rc Hj Hrc Hl.
      destruct (decide (j = Z.to_nat i)) as [->|Hne].
      - destruct (Hnew Hb0 rc Hrc Hl) as [Hco Hs]. exists sl. rewrite Hco. auto.
      - rewrite Hsame in Hrc by auto. apply (Isat (Hba Hb0) j rc); auto. lia. }
    destruct (PrimFloat.ltb FUZZ sl) eqn:Ebig.
    { injection Hb as <- <-. split; [exact IF|]. split; [exact Inp|].
      apply (Hprev p a); auto.
      intros _ rc Hrc _. rewrite Hrcp in Hrc. injection Hrc as <-.
      split; [reflexivity|]. now apply above_fuzz_not_below. }
    inv_bind Hb. apply aset_Ok_inv in Hm as [_ ->].
    pose proof (loaded_frame_row p (Z.to_nat i) rcp (set_biter (iter p) rcp) Hrcp
                  ltac:(destruct rcp; reflexivity)
                  ltac:(left; destruct rcp; reflexivity)) as HF1.
    set (p1 := set_rows (<[Z.to_nat i := set_biter (iter p) rcp]> (rows p)) p) in *.
    assert (Hrow1 : rows p1 !! Z.to_nat i = Some (set_biter (iter p) rcp)).
    { cbn. apply list_lookup_insert_eq. eapply lookup_lt_Some; eauto. }
    assert (Hsame1 : forall j, j <> Z.to_nat i -> rows p1 !! j = rows p !! j).
    { intros j Hj. cbn. now apply list_lookup_insert_ne. }
    destruct (Z.geb_spec (lprow rcp) 0) as [Hload|Hnot].
    { injection Hb as <- <-.
      split; [eapply loaded_frame_trans; eauto|]. split; [exact Inp|].
      apply (Hprev p1 a); auto.
      intros _ rc Hrc Hl. rewrite Hrow1 in Hrc. injection Hrc as <-.
      destruct rcp; cbn in *. lia. }
    destruct (PrimFloat.ltb sl (- FUZZ)) eqn:Eviol.
    { inv_bind Hb. injection Hb as <- <-.
      destruct (mark_row_pending_frame p1 a0 i Inp Hm) as (HF2 & Hnp2 & _).
      split; [eapply loaded_frame_trans; [exact IF|];
              eapply loaded_frame_trans; eauto|].
      split; [exact Hnp2|]. discriminate. }
    injection Hb as <- <-.
    split; [eapply loaded_frame_trans; eauto|]. split; [exact Inp|].
    apply (Hprev p1 a); auto.
    intros _ rc Hrc Hl. rewrite Hrow1 in Hrc. injection Hrc as <-.
    split; [destruct rcp; reflexivity|reflexivity].
  - split; [exact F|]. split; [exact Hnp'|].
    intros Ha j rc Hj Hl. apply (Hsat Ha j rc); auto.
    destruct F as (_ & _ & Hlen & _). apply lookup_lt_Some in Hj.
    unfold nrows. lia.
Qed.

(** *** Pruning the pending rows leaves the loaded rows alone *)

Definition below_same (base : Z) (a b : list Z) : Prop :=
  forall k, 0 <= k < base -> b !! Z.to_nat k = a !! Z.to_nat k.

Lemma below_same_insert (base i v : Z) (a b : list Z) :
  below_same base a b -> base <= i -> below_same base a (<[Z.to_nat i := v]> b).
Proof. intros H Hi k Hk. rewrite list_lookup_insert_ne by lia. now apply H. Qed.

Lemma prune_sift_frame (rs : list rcon) (base h key : Z) (lpr0 : list Z) (fuel : nat) :
  0 <= h ->
  forall (lpr lpr' : list Z) (p2 p2' : Z),
    h <= p2 -> below_same base lpr0 lpr ->
    prune_sift fuel rs base h key h lpr p2 = Ok (lpr', p2') ->
    0 <= p2' /\ below_same base lpr0 lpr'.
Proof.
  intros Hh. induction fuel as [|fuel IH]; intros lpr lpr' p2 p2' Hp Hb H; simpl in H;
    [discriminate|].
  inv_bind H. inv_bind H.
  destruct (len a0 <=? key); [injection H as <- <-; split; [lia|exact Hb]|].
  inv_bind H. apply aset_Ok_inv in Hm1 as [_ ->].
  pose proof (below_same_insert base (base + p2) a _ _ Hb ltac:(lia)) as Hb'.
  destruct (Z.ltb_spec (p2 - h) h); [injection H as <- <-; split; [lia|exact Hb']|].
  eapply IH; [|exact Hb'|exact H]. lia.
Qed.

Lemma prune_insert_frame (rs : list rcon) (base h p1 : Z) (lpr0 lpr lpr' : list Z) :
  0 <= h <= p1 -> below_same base lpr0 lpr ->
  prune_insert rs base h p1 lpr = Ok lpr' -> below_same base lpr0 lpr'.
Proof.
  intros Hh Hb H. unfold prune_insert in H.
  inv_bind H. inv_bind H. inv_bind H. destruct a1 as [l2 p2].
  apply (prune_sift_frame rs base h (len a0) lpr0) in Hm1 as [Hp2 Hb2];
    [|lia|lia|exact Hb].
  apply aset_Ok_inv in H as [_ ->]. apply below_same_insert; [exact Hb2|lia].
Qed.

Lemma prune_passes_frame (rs : list rcon) (base n : Z) (lpr0 : list Z) (fuel : nat) :
  forall (h : Z) (lpr lpr' : list Z),
    0 <= h -> below_same base lpr0 lpr ->
    prune_passes fuel rs base h n lpr = Ok lpr' -> below_same base lpr0 lpr'.
Proof.
  induction fuel as [|fuel IH]; intros h lpr lpr' Hh Hb H; simpl in H; inv_bind H.
  all: assert (Hq : 0 <= Z.quot h 3) by (apply Z.quot_pos; lia).
  all: assert (Ha : below_same base lpr0 a).
  all: try (destruct (Z.le_gt_cases (Z.quot h 3) n) as [Hle|Hgt];
            [|rewrite for_range_empty in Hm by lia; injection Hm as <-; exact Hb];
            apply (for_range_inv (fun (_ : Z) l => below_same base lpr0 l)
                     _ _ _ _ _ Hle Hm Hb);
            intros k t t' Hk Ht Hbody;
            eapply prune_insert_frame; [|exact Ht|exact Hbody]; lia).
  - destruct (1 <? Z.quot h 3); [discriminate|]. now injection H as <-.
  - destruct (1 <? Z.quot h 3); [|now injection H as <-].
    eapply IH; [|exact Ha|exact H]. exact Hq.
Qed.

Lemma first_gap_pos (fuel : nat) (n : Z) :
  forall h h', 1 <= h -> first_gap fuel h n = Ok h' -> 1 <= h'.
Proof.
  induction fuel as [|fuel IH]; intros h h' Hh H; simpl in H.
  - destruct (h <=? n); [discriminate|]. injection H as <-. exact Hh.
  - destruct (h <=? n); [|injection H as <-; exact Hh].
    eapply IH; [|exact H]. lia.
Qed.

Lemma pending_total_nonneg (n : nat) (rs : list rcon) (lpr : list Z) (base : Z) :
  forall i total i' total',
    0 <= i -> pending_total n rs lpr base i total = Ok (i', total') -> 0 <= i'.
Proof.
  induction n as [|n IH]; intros i total i' total' Hi H; simpl in H.
  - injection H as <- _. exact Hi.
  - inv_bind H. inv_bind H.
    destruct (THRESHOLD <? total + len a0); [injection H as <- _; exact Hi|].
    eapply IH; [|exact H]. lia.
Qed.

Lemma unpend_loop_frame (lpr : list Z) (base i n : Z) (rs0 rs : list rcon) :
  for_range i n (unpend_pass lpr base) rs0 = Ok rs ->
  length rs = length rs0 /\
  forall j rc', rs !! j = Some rc' ->
    exists rc, rs0 !! j = Some rc /\ coefs rc' = coefs rc /\
               (lprow rc' = lprow rc \/ (lprow rc < 0 /\ lprow rc' < 0)).
Proof.
  intros H.
  destruct (Z.le_gt_cases i n) as [Hle|Hgt];
    [|rewrite for_range_empty in H by lia; injection H as <-; split; [reflexivity|];
      intros j rc Hj; exists rc; auto].
  apply (for_range_inv
    (fun (_ : Z) (r : list rcon) =>
       length r = length rs0 /\
       forall j rc', r !! j = Some rc' ->
         exists rc, rs0 !! j = Some rc /\ coefs rc' = coefs rc /\
                    (lprow rc' = lprow rc \/ (lprow rc < 0 /\ lprow rc' < 0)))
    _ _ _ _ _ Hle H).
  - split; [reflexivity|]. intros j rc Hj. exists rc. auto.
  - intros k r r' Hk [Hl Hinv] Hb. unfold unpend_pass in Hb.
    inv_bind Hb. rename a into tmp. inv_bind Hb. rename a into rcp.
    apply aget_Ok_inv in Hm0 as [_ Hrcp].
    inv_fatal Hb. apply negb_false_iff, Z.eqb_eq in Hc.
    apply aset_Ok_inv in Hb as [_ ->].
    split; [now rewrite length_insert|].
    intros j rc' Hj. destruct (decide (j = Z.to_nat tmp)) as [->|Hne].
    + rewrite list_lookup_insert_eq in Hj by (eapply lookup_lt_Some; eauto).
      injection Hj as <-. destruct (Hinv _ _ Hrcp) as (rc & Hrc & Hco & Hlp).
      exists rc. split; [exact Hrc|]. split; [destruct rcp; exact Hco|].
      right. destruct rcp; cbn in *. lia.
    + rewrite list_lookup_insert_ne in Hj by auto. now apply Hinv.
Qed.

Lemma prune_pending_synced (bbip bbip' : bbinfo) (can_del_slack : bool) :
  lp_synced bbip -> prune_pending_rows bbip can_del_slack = Ok bbip' ->
  lp_synced bbip'.
Proof.
  intros Hsync H. unfold prune_pending_rows in H.
  inv_bind H. destruct a as [i0 total].
  destruct (total <=? THRESHOLD); [now injection H as <-|].
  inv_bind H. rename a into b1.
  assert (Hs1 : lp_synced b1).
  { destruct can_del_slack; [|now injection Hm0 as <-].
    eapply delete_slack_synced; eauto. }
  inv_bind H. rename a into h. inv_bind H. rename a into lpr.
  inv_bind H. destruct a as [i t]. inv_bind H. rename a into rs. injection H as <-.
  pose proof (first_gap_pos _ _ 1 h ltac:(lia) Hm1) as Hh.
  pose proof (prune_passes_frame _ _ _ (lprows (bb_cpool b1)) _ h _ _ ltac:(lia)
                ltac:(intros k _; reflexivity) Hm2) as Hfr.
  pose proof (pending_total_nonneg _ _ _ _ 0 0 i t ltac:(lia) Hm3) as Hi.
  destruct (unpend_loop_frame _ _ _ _ _ _ Hm4) as [Hlen Hrows].
  eapply (lp_synced_frame b1); [exact Hs1|reflexivity| |cbn; exact Hi].
  unfold loaded_frame.
  cbn [bb_cpool set_bb_cpool nlprows pool_uid rows lprows set_npend set_lprows set_rows].
  split; [reflexivity|]. split; [reflexivity|]. split; [exact Hlen|].
  split; [exact Hfr|exact Hrows].
Qed.

(** ** [_gst_solve_LP_over_constraint_pool]: what an optimal return has
    tested *)

Lemma lp_synced_eq (b b' : bbinfo) :
  bb_lp b' = bb_lp b -> bb_cpool b' = bb_cpool b -> lp_synced b -> lp_synced b'.
Proof. unfold lp_synced. cbv zeta. now intros -> ->. Qed.

Lemma lp_synced_rowset (b b' : bbinfo) :
  lp_rowset (bb_lp b') = lp_rowset (bb_lp b) ->
  rows (bb_cpool b') = rows (bb_cpool b) -> lprows (bb_cpool b') = lprows (bb_cpool b) ->
  nlprows (bb_cpool b') = nlprows (bb_cpool b) -> npend (bb_cpool b') = npend (bb_cpool b) ->
  lp_synced b -> lp_synced b'.
Proof. unfold lp_synced. cbv zeta. now intros -> -> -> -> ->. Qed.

Lemma realloc_slack_same (b : bbinfo) :
  bb_lp (realloc_slack b) = bb_lp b /\ bb_cpool (realloc_slack b) = bb_cpool b /\
  bb_node (realloc_slack b) = bb_node b.
Proof. unfold realloc_slack. destruct (_ <? _); auto. Qed.

(** The return taken from the stamp: the LP, the pool and the node are as
    they were. *)
Definition returned_from_stamp (bbip bbip' : bbinfo) : Prop :=
  bb_lp bbip' = bb_lp bbip /\ bb_cpool bbip' = bb_cpool bbip /\
  bb_node bbip' = bb_node bbip.

(** The return taken from the loop, with [solve] the engine: the node's
    solution is the one that the engine gave, with status optimal, for an LP
    [lp] that holds every row of the final LP;
    - every row of the pool that is not loaded passes the test of the scan
      at this solution;
    - every loaded row of the pool stands in the final LP, so in [lp]: it
      passes the test as well if the engine's solution does so on the rows
      of [lp], which is not tested. *)
Definition returned_from_scan (solve : LP_t -> lp_solution) (bbip' : bbinfo) : Prop :=
  let x := nd_x (bb_node bbip') in
  exists lp,
    sol_status (solve lp) = OPTIMAL /\ x = sol_x (solve lp) /\
    (forall lr, lr ∈ lp_rowset (bb_lp bbip') -> lr ∈ lp_rowset lp) /\
    (forall j rc, rows (bb_cpool bbip') !! j = Some rc -> lprow rc < 0 ->
       row_passes (coefs rc) x) /\
    (forall j rc, rows (bb_cpool bbip') !! j = Some rc -> 0 <= lprow rc ->
       exists lr, lr ∈ lp_rowset lp /\ row_in_lp rc lr /\
                  lp_row_slack lr x = compute_slack_value (coefs rc) x) /\
    ((forall lr, lr ∈ lp_rowset lp -> lp_row_passes lr x) ->
     forall j rc, rows (bb_cpool bbip') !! j = Some rc -> row_passes (coefs rc) x).

Section SolveOverPoolSound.

Variable solve : LP_t -> lp_solution.

Lemma solve_single_LP_inv (bbip b1 : bbinfo) (status : bblp_status) (x : list float) :
  solve_single_LP solve bbip = Ok (b1, status, x) ->
  bb_cpool b1 = bb_cpool bbip /\
  lp_rowset (bb_lp b1) = lp_rowset (bb_lp bbip) /\
  x = sol_x (solve (bb_lp bbip)) /\
  (status = BBLP_OPTIMAL -> sol_status (solve (bb_lp bbip)) = OPTIMAL).
Proof.
  unfold solve_single_LP. intros H. inv_bind H.
  destruct (_ && _); [|discriminate]. injection H as <- <- <-. cbn.
  split; [reflexivity|]. split; [reflexivity|]. split; [reflexivity|].
  intros ->. destruct (sol_status (solve (bb_lp bbip))); cbn in Hm; congruence.
Qed.

Lemma solve_loop_sound (fuel : nat) :
  forall (bbip bbip' : bbinfo) (status : bblp_status),
    lp_synced bbip ->
    solve_loop solve fuel bbip = Ok (bbip', status) ->
    lp_synced bbip' /\
    (status = BBLP_OPTIMAL -> returned_from_scan solve bbip').
Proof.
  induction fuel as [|fuel IH]; intros bbip bbip' status Hsync H; simpl in H;
    [discriminate|].
  destruct (realloc_slack_same bbip) as (Elp & Epool & _).
  inv_bind H. destruct a as [[b1 st] x].
  apply solve_single_LP_inv in Hm as (Ep1 & El1 & Ex & Hopt).
  rewrite Elp in Ex, Hopt. rewrite Elp in El1. rewrite Epool in Ep1.
  set (b2 := set_bb_cpool (set_iter (next_iter (iter (bb_cpool b1))) (bb_cpool b1)) b1) in *.
  assert (Hs2 : lp_synced b2).
  { apply (lp_synced_rowset bbip); auto; subst b2; cbn; now rewrite ?Ep1. }
  destruct st; try (injection H as <- <-; split; [exact Hs2|discriminate]).
  inv_bind H. rename a into b4.
  set (b3 := update_lp_solution_history x b2) in *.
  assert (Hs3 : lp_synced b3) by (apply (lp_synced_eq b2); auto).
  destruct (delete_slack_synced _ _ Hs3 Hm) as [Hs4 Hsub].
  destruct (delete_slack_frame _ _ Hm) as (_ & Hx4 & _).
  inv_bind H. destruct a as [pool5 any].
  destruct (violation_scan_spec b4 x pool5 any Hs4 Hm0) as (Hfr & Hnp5 & Hsat).
  set (b5 := set_bb_cpool pool5 b4) in *.
  assert (Hs5 : lp_synced b5) by (apply (lp_synced_frame b4); auto).
  destruct any; cbn [negb] in H.
  - inv_bind H. inv_bind H.
    apply (IH _ _ _ (proj1 (add_pending_synced _ _ (prune_pending_synced _ _ _ Hs5 Hm1)
                              Hm2)) H).
  - destruct (negb (basis_valid _)); [apply (IH _ _ _ Hs5 H)|].
    injection H as <- <-. split; [exact Hs5|]. intros _.
    assert (Hx5 : nd_x (bb_node b5) = x).
    { cbn [bb_cpool bb_node set_bb_cpool b5]. rewrite Hx4. reflexivity. }
    assert (Hin : forall lr, lr ∈ lp_rowset (bb_lp b5) -> lr ∈ lp_rowset (bb_lp bbip)).
    { intros lr Hlr. rewrite <- El1. apply (Hsub lr). exact Hlr. }
    assert (Hloaded : forall j rc, rows (bb_cpool b5) !! j = Some rc -> 0 <= lprow rc ->
              exists lr, lr ∈ lp_rowset (bb_lp bbip) /\ row_in_lp rc lr /\
                         lp_row_slack lr x = compute_slack_value (coefs rc) x).
    { intros j rc Hj Hpos. destruct Hs5 as [_ Hs5].
      destruct (Hs5 j rc Hj Hpos) as (_ & _ & lr & Hlr & Hrl).
      exists lr. split; [apply Hin; eapply list_elem_of_lookup_2; eauto|].
      split; [exact Hrl|]. now apply row_in_lp_slack. }
    unfold returned_from_scan. cbv zeta. rewrite Hx5.
    exists (bb_lp bbip). split; [exact (Hopt eq_refl)|]. split; [exact Ex|].
    split; [exact Hin|]. split; [exact (Hsat eq_refl)|]. split; [exact Hloaded|].
    intros Hengine j rc Hj.
    destruct (Z_lt_le_dec (lprow rc) 0) as [Hneg|Hpos]; [now apply (Hsat eq_refl j)|].
    destruct (Hloaded j rc Hj Hpos) as (lr & Hlr & _ & Hsl).
    destruct (Hengine lr Hlr) as (s & Hs & Hle).
    exists s. rewrite <- Hsl. auto.
Qed.


End SolveOverPoolSound.

(** *** A run with one cut *)

Definition row_ok (x : list float) (lr : lp_row) : bool :=
  match lp_row_slack lr x with
  | Ok s => negb (PrimFloat.ltb s (- FUZZ))
  | _ => false
  end.

(** An engine over two variables that answers [(1, 1)] on the empty LP and
    the origin on any other LP that the origin satisfies. *)
Definition corner_solve (lp : LP_t) : lp_solution :=
  match lp_rowset lp with
  | [] => mk_sol OPTIMAL 2 [1; 1]%float []
  | rs =>
      if forallb (row_ok [0; 0]%float) rs
      then mk_sol OPTIMAL 0 [0; 0]%float
             (map (fun lr => match lp_row_slack lr [0; 0]%float with
                             | Ok s => s
                             | _ => 0%float
                             end) rs)
      else mk_sol INFEASIBLE 0 [0; 0]%float (map (fun _ => 0%float) rs)
  end.

Lemma corner_solve_sound (lp : LP_t) (lr : lp_row) :
  sol_status (corner_solve lp) = OPTIMAL -> lr ∈ lp_rowset lp ->
  lp_row_passes lr (sol_x (corner_solve lp)).
Proof.
  unfold corner_solve. intros Hst Hin.
  destruct (lp_rowset lp) as [|r rs] eqn:E; [inversion Hin|].
  destruct (forallb (row_ok [0; 0]%float) (r :: rs)) eqn:F; [|discriminate].
  cbn [sol_x]. apply list_elem_of_In in Hin.
  pose proof (proj1 (forallb_forall _ _) F lr Hin) as Hok. unfold row_ok in Hok.
  unfold lp_row_passes.
  destruct (lp_row_slack lr [0; 0]%float) as [s| |]; try discriminate.
  exists s. split; [reflexivity|]. now apply negb_true_iff.
Qed.

(** The pool holds [x1 + x2 <= 1], not loaded; the LP is empty. *)
Definition cut_state : bbinfo :=
  mk_bbinfo (mk_LP [] 0 true ([], []))
    (mk_cpool 1
       [mk_rcon 2 [mk_rcoef 3 1; mk_rcoef 4 1; mk_rcoef RC_OP_LE 1] (-1) (-1) 0 0 0 0 0]
       4 2 [0; 0; 0; 0] 0 0 0 0 (replicate (Z.to_nat CPOOL_HASH_SIZE) (-1)) 0 0)
    (mk_bbnode 0 0 (-1) [] 0 None None None) [].


(** *** An optimal return with a violated row *)

(** An engine that answers [x1 = 1.00001], with status optimal, whatever the
    rows of the LP are. *)
Definition lax_solve (lp : LP_t) : lp_solution :=
  mk_sol OPTIMAL 0x1.0000a7c5ac472p+0 [0x1.0000a7c5ac472p+0]%float
    (map (fun _ => 0%float) (lp_rowset lp)).

(** The pool holds the row [x1 <= 1], which is LP row 0. *)
Definition loaded_state : bbinfo :=
  mk_bbinfo (mk_LP [mk_lp_row 1 REL_LE [(0, 1)]] 1 true ([], []))
    (mk_cpool 1
       [mk_rcon 1 [mk_rcoef RC_VAR_BASE 1; mk_rcoef RC_OP_LE 1] (-1) 0 0 0 0 0 0]
       4 1 [0; 0; 0; 0] 1 0 0 1 (replicate (Z.to_nat CPOOL_HASH_SIZE) (-1)) 1 1)
    (mk_bbnode 0 0 (-1) [] 0 None None None) [0]%float.


(** ** Saving and restoring a node's basis *)

(** *** Counting the loaded rows *)

Lemma live_count_positions (pre fl : list bool) :
  live_count fl =
  length (filter (fun k => (pre ++ fl) !! k = Some false) (seq (length pre) (length fl))).
Proof.
  revert pre. induction fl as [|b fl IH]; intros pre; [reflexivity|].
  cbn [length seq live_count]. rewrite filter_cons.
  specialize (IH (pre ++ [b])). rewrite <- app_assoc, length_app in IH. cbn in IH.
  replace (length pre + 1)%nat with (S (length pre)) in IH by lia.
  assert (Hb : (pre ++ b :: fl) !! length pre = Some b)
    by (rewrite lookup_app_r by lia; now rewrite Nat.sub_diag).
  destruct (decide ((pre ++ b :: fl) !! length pre = Some false)) as [E|E].
  - rewrite Hb in E. injection E as ->. cbn [length]. rewrite IH. reflexivity.
  - destruct b; [|congruence]. rewrite IH. reflexivity.
Qed.

Lemma live_count_NoDup (fl : list bool) (L : list nat) :
  NoDup L -> (forall k, k ∈ L <-> fl !! k = Some false) -> length L = live_count fl.
Proof.
  intros Hnd Hel. rewrite (live_count_positions [] fl). apply Permutation_length.
  apply NoDup_Permutation; [exact Hnd|apply list.NoDup_filter, NoDup_seq|].
  intros k. rewrite Hel, list_elem_of_filter, elem_of_seq. cbn [app length].
  split; [|tauto]. intros H. split; [exact H|]. apply lookup_lt_Some in H. lia.
Qed.

(** The flag of a row: set when the row is not one of the LP's. *)
Definition unloaded_flags (rs : list rcon) : list bool := (fun rc => lprow rc <? 0) <$> rs.

Lemma unloaded_flags_lookup (rs : list rcon) (k : nat) (b : bool) :
  unloaded_flags rs !! k = Some b <->
  exists rc, rs !! k = Some rc /\ (lprow rc <? 0) = b.
Proof.
  unfold unloaded_flags. rewrite list_lookup_fmap.
  destruct (rs !! k) as [rc|]; cbn; split.
  - intros [= <-]. eauto.
  - intros (rc' & [= <-] & <-). reflexivity.
  - discriminate.
  - intros (rc' & E & _). discriminate.
Qed.

Lemma loaded_count (p : cpool) :
  pool_lp_ok p -> live_count (unloaded_flags (rows p)) = Z.to_nat (nlprows p).
Proof.
  intros ([Hn0 Hn] & Hlp & Hrow).
  set (L := Z.to_nat <$> take (Z.to_nat (nlprows p)) (lprows p)).
  assert (HL : forall i k, L !! i = Some k <->
             (i < Z.to_nat (nlprows p))%nat /\
             exists rc, lprows p !! i = Some (Z.of_nat k) /\ rows p !! k = Some rc /\
                        lprow rc = Z.of_nat i).
  { intros i k. unfold L. rewrite list_lookup_fmap. split.
    - intros H. destruct (take _ _ !! i) as [row|] eqn:E; [|discriminate].
      injection H as <-. apply lookup_take_Some in E as [E Hi].
      split; [exact Hi|]. destruct (Hlp i Hi) as (row' & rc & E' & H0 & Hrc & Hl).
      rewrite E in E'. injection E' as <-. exists rc. rewrite Z2Nat.id by lia. auto.
    - intros (Hi & rc & E & _). rewrite lookup_take_lt by exact Hi. rewrite E. cbn.
      now rewrite Nat2Z.id. }
  rewrite <- (live_count_NoDup (unloaded_flags (rows p)) L).
  - unfold L. rewrite length_fmap, length_take. lia.
  - apply NoDup_alt. intros i j k Hi Hj.
    apply HL in Hi as (_ & rc & _ & Hrc & Hl), Hj as (_ & rc' & _ & Hrc' & Hl').
    rewrite Hrc in Hrc'. injection Hrc' as <-. lia.
  - intros k. rewrite unloaded_flags_lookup, list_elem_of_lookup. split.
    + intros (i & Hi). apply HL in Hi as (Hi & rc & _ & Hrc & Hl).
      exists rc. split; [exact Hrc|]. apply Z.ltb_ge. lia.
    + intros (rc & Hrc & Hl). apply Z.ltb_ge in Hl.
      destruct (Hrow k rc Hrc Hl) as [Hlt E]. exists (Z.to_nat (lprow rc)).
      apply HL. split; [lia|]. exists rc. rewrite Z2Nat.id by lia. auto.
Qed.

(** *** [_gst_save_node_basis] *)

(** What the save does to a header: a loaded row gets one more reference. *)
Definition bump (rc : rcon) : rcon :=
  if lprow rc <? 0 then rc else set_refc (refc rc + 1) rc.

Lemma bump_step (rows0 : list rcon) (i : nat) (rc : rcon) :
  rows0 !! i = Some rc ->
  (bump <$> take (S i) rows0) ++ drop (S i) rows0 =
  <[i := bump rc]> ((bump <$> take i rows0) ++ drop i rows0).
Proof.
  intros H. pose proof (lookup_lt_Some _ _ _ H) as Hi.
  rewrite (take_S_r _ _ _ H), fmap_app, <- app_assoc. cbn [fmap list_fmap app].
  rewrite insert_app_r_alt by (rewrite length_fmap, length_take; lia).
  rewrite length_fmap, length_take. replace (i - i `min` length rows0)%nat with 0%nat by lia.
  rewrite (drop_S _ _ _ H). reflexivity.
Qed.

Lemma save_node_basis_spec (nodep : bbnode) (bbip : bbinfo) :
  let pool := bb_cpool bbip in
  let fl := unloaded_flags (rows pool) in
  lp_num_rows (bb_lp bbip) = nlprows pool -> pool_lp_ok pool ->
  exists uids brow,
    _gst_save_node_basis nodep bbip =
      Ok (set_saved (nlprows pool) (Some uids) (Some brow) (Some (lp_basis (bb_lp bbip)))
                    nodep,
          set_bb_cpool (set_rows (bump <$> rows pool) pool) bbip) /\
    length uids = live_count fl /\ length brow = live_count fl /\
    forall k rc, rows pool !! k = Some rc -> 0 <= lprow rc ->
      uids !! kept_before fl k = Some (uid rc) /\
      brow !! kept_before fl k = Some (lprow rc).
Proof.
  intros pool fl Hlp Hok. pose proof (loaded_count pool Hok) as Hcnt. fold fl in Hcnt.
  destruct Hok as ([Hn0 Hn] & _ & _).
  set (rows0 := rows pool) in *. set (n := nlprows pool) in *.
  assert (Hfl : forall k rc, rows0 !! k = Some rc -> fl !! k = Some (lprow rc <? 0)).
  { intros k rc H. apply unloaded_flags_lookup. eauto. }
  destruct (for_range_total
    (fun (i : Z) (s : list rcon * list Z * list Z * Z) =>
       let '(rs, uids, brow, j) := s in
       rs = (bump <$> take (Z.to_nat i) rows0) ++ drop (Z.to_nat i) rows0 /\
       j = Z.of_nat (kept_before fl (Z.to_nat i)) /\
       length uids = Z.to_nat n /\ length brow = Z.to_nat n /\
       forall k rc, (k < Z.to_nat i)%nat -> rows0 !! k = Some rc -> 0 <= lprow rc ->
         uids !! kept_before fl k = Some (uid rc) /\
         brow !! kept_before fl k = Some (lprow rc))
    0 (nrows pool) save_pass
    (rows0, replicate (Z.to_nat n) 0, replicate (Z.to_nat n) 0, 0))
    as ([[[rs uids] brow] j] & Hrun & Hrs & Hj & Hlu & Hlb & Hrec).
  - unfold nrows. lia.
  - rewrite take_0, drop_0. split; [reflexivity|]. split; [reflexivity|].
    rewrite !length_replicate. split; [reflexivity|]. split; [reflexivity|].
    intros k rc Hk. lia.
  - intros i [[[rs uids] brow] j] Hi (Hrs & Hj & Hlu & Hlb & Hrec).
    unfold nrows in Hi. fold rows0 in Hi.
    destruct (lookup_lt_is_Some_2 rows0 (Z.to_nat i) ltac:(lia)) as [rc Hrc].
    assert (Hget : aget rs i = Ok rc).
    { apply aget_Ok; [lia|]. rewrite Hrs, lookup_app_r; rewrite length_fmap, length_take;
        [|lia]. rewrite lookup_drop. rewrite <- Hrc. f_equal. lia. }
    unfold save_pass. rewrite Hget. cbn [bind].
    replace (Z.to_nat (i + 1)) with (S (Z.to_nat i)) by lia.
    pose proof (Hfl _ _ Hrc) as Hf.
    rewrite (kept_before_S _ _ _ Hf).
    destruct (Z.ltb_spec (lprow rc) 0) as [Hneg|Hpos].
    + eexists. split; [reflexivity|]. split; [|split; [lia|split; [exact Hlu|split; [exact Hlb|]]]].
      * rewrite (bump_step _ _ _ Hrc), <- Hrs. unfold bump.
        destruct (Z.ltb_spec (lprow rc) 0); [|lia].
        symmetry. apply list_insert_id. apply aget_Ok_inv in Hget. tauto.
      * intros k rc' Hk Hrc' Hl.
        destruct (decide (k = Z.to_nat i)) as [->|Hne]; [|apply Hrec; auto; lia].
        rewrite Hrc in Hrc'. injection Hrc' as <-. lia.
    + assert (Hlt : (kept_before fl (Z.to_nat i) < Z.to_nat n)%nat).
      { rewrite <- Hcnt, <- (kept_before_length fl (length fl)) by lia.
        apply kept_before_lt; [|exact Hf].
        apply lookup_lt_Some in Hf. exact Hf. }
      assert (Hlen : length rs = length rows0).
      { rewrite Hrs, length_app, length_fmap, length_take, length_drop. lia. }
      rewrite aset_Ok by lia. cbn [bind].
      rewrite aset_Ok by lia. cbn [bind].
      rewrite aset_Ok by lia. cbn [bind].
      eexists. split; [reflexivity|].
      rewrite Hj, !Nat2Z.id.
      split; [|split; [lia|split; [now rewrite length_insert|split;
                                   [now rewrite length_insert|]]]].
      * rewrite (bump_step _ _ _ Hrc), <- Hrs. unfold bump.
        destruct (Z.ltb_spec (lprow rc) 0); [lia|]. reflexivity.
      * intros k rc' Hk Hrc' Hl.
        destruct (decide (k = Z.to_nat i)) as [->|Hne].
        -- rewrite Hrc in Hrc'. injection Hrc' as <-.
           rewrite !list_lookup_insert_eq by lia. auto.
        -- assert (Hkl : (kept_before fl k < kept_before fl (Z.to_nat i))%nat).
           { apply kept_before_lt; [lia|]. rewrite (Hfl _ _ Hrc'). f_equal.
             apply Z.ltb_ge. lia. }
           rewrite !list_lookup_insert_ne by lia. apply Hrec; auto. lia.
  - exists uids, brow. unfold _gst_save_node_basis. fold pool. fold n.
    replace (negb (n =? lp_num_rows (bb_lp bbip))) with false
      by (symmetry; apply negb_false_iff, Z.eqb_eq; lia).
    cbn [fatal_if bind]. fold rows0. rewrite Hrun. cbn [bind].
    assert (Hlen : length fl = length rows0) by (unfold fl, unloaded_flags; apply length_fmap).
    unfold nrows in Hj, Hrs, Hrec. fold rows0 in Hj, Hrs, Hrec.
    rewrite Nat2Z.id in Hj, Hrs, Hrec.
    rewrite kept_before_length in Hj by lia. rewrite Hcnt in Hj.
    replace (negb (j =? n)) with false
      by (symmetry; apply negb_false_iff, Z.eqb_eq; lia).
    cbn [fatal_if bind]. rewrite take_ge, drop_ge, app_nil_r in Hrs by lia.
    unfold get_current_basis. rewrite Hrs. split; [reflexivity|].
    rewrite Hcnt. split; [exact Hlu|]. split; [exact Hlb|].
    intros k rc Hk Hl. apply Hrec; auto. now apply lookup_lt_Some in Hk.
Qed.

(** *** [_gst_restore_node_basis]: the loops *)

Lemma seek_uid_found (rs : list rcon) (u : Z) (k : nat) (rc : rcon) (r : nat) :
  (r <= k)%nat -> rs !! k = Some rc -> uid rc = u ->
  (forall q rc', (r <= q < k)%nat -> rs !! q = Some rc' -> uid rc' <> u) ->
  seek_uid (drop r rs) (Z.of_nat r) u = Ok (Z.of_nat k).
Proof.
  remember (k - r)%nat as d eqn:Hd. revert r Hd.
  induction d as [|d IH]; intros r Hd Hr Hk Hu Hne.
  - assert (r = k) by lia. subst r. rewrite (drop_S _ _ _ Hk). cbn [seek_uid].
    rewrite Hu, Z.eqb_refl. reflexivity.
  - destruct (lookup_lt_is_Some_2 rs r) as [rc' Hrc'];
      [apply lookup_lt_Some in Hk; lia|].
    rewrite (drop_S _ _ _ Hrc'). cbn [seek_uid].
    destruct (Z.eqb_spec (uid rc') u) as [E|_];
      [exfalso; apply (Hne r rc'); auto; lia|].
    replace (Z.of_nat r + 1) with (Z.of_nat (S r)) by lia.
    apply IH; auto; try lia. intros q rc'' Hq. apply Hne. lia.
Qed.

(** The header after the first loop of the restore has seen the LP rows
    below [i]. *)
Definition unloaded_upto (i : Z) (rc : rcon) : rcon :=
  if (0 <=? lprow rc) && (lprow rc <? i) then set_lprow (-1) rc else rc.

Lemma unload_total (p : cpool) :
  pool_lp_ok p ->
  for_range 0 (nlprows p) (unload_pass p) (rows p) =
    Ok (unloaded_upto (nlprows p) <$> rows p).
Proof.
  intros ([Hn0 Hn] & Hlp & Hrow).
  destruct (for_range_total
    (fun (i : Z) (rs : list rcon) => rs = unloaded_upto i <$> rows p)
    0 (nlprows p) (unload_pass p) (rows p)) as (rs & Hrun & Hrs).
  - lia.
  - symmetry. rewrite <- (list_fmap_id (rows p)) at 2. apply list_fmap_ext.
    intros k rc Hk. unfold unloaded_upto.
    destruct (Z.leb_spec 0 (lprow rc)), (Z.ltb_spec (lprow rc) 0); cbn; auto; lia.
  - intros i rs Hi ->.
    destruct (Hlp (Z.to_nat i) ltac:(lia)) as (row & rc & Hl & Hr0 & Hrc & Hli).
    unfold unload_pass. rewrite (aget_Ok _ _ _ (proj1 Hi) Hl). cbn [bind].
    destruct (Z.ltb_spec row 0); [lia|].
    pose proof (lookup_lt_Some _ _ _ Hrc) as Hlt.
    replace (row >=? nrows p) with false
      by (symmetry; rewrite Z.geb_leb; apply Z.leb_gt; unfold nrows; lia).
    cbn [fatal_if bind].
    assert (Hsame : unloaded_upto i rc = rc).
    { unfold unloaded_upto. destruct (Z.ltb_spec (lprow rc) i); [lia|].
      now rewrite andb_false_r. }
    rewrite (aget_Ok _ _ (unloaded_upto i rc)) by
      (auto; rewrite list_lookup_fmap, Hrc; reflexivity).
    cbn [bind]. rewrite aset_Ok by (rewrite length_fmap; lia).
    eexists. split; [reflexivity|].
    apply list_eq. intros k. rewrite list_lookup_fmap.
    destruct (decide (k = Z.to_nat row)) as [->|Hne].
    + rewrite list_lookup_insert_eq by (rewrite length_fmap; lia).
      rewrite Hrc, Hsame. cbn. f_equal. unfold unloaded_upto.
      destruct (Z.leb_spec 0 (lprow rc)), (Z.ltb_spec (lprow rc) (i + 1)); cbn; auto; lia.
    + rewrite list_lookup_insert_ne by lia. rewrite list_lookup_fmap.
      destruct (rows p !! k) as [rc'|] eqn:Hk; [|reflexivity]. cbn. f_equal.
      unfold unloaded_upto.
      destruct (Z.leb_spec 0 (lprow rc')) as [Hpos|]; [|reflexivity]. cbn.
      destruct (Hrow k rc' Hk Hpos) as [_ Hback].
      assert (lprow rc' <> i).
      { intros E. rewrite E, Hl in Hback. injection Hback as ->. lia. }
      destruct (Z.ltb_spec (lprow rc') i), (Z.ltb_spec (lprow rc') (i + 1)); auto; lia.
  - rewrite Hrun, Hrs. reflexivity.
Qed.

(** "Transition all rows back": what the first loop makes of a header. *)
Definition unload (rc : rcon) : rcon :=
  if 0 <=? lprow rc then set_lprow (-1) rc else rc.

Lemma unloaded_upto_all (p : cpool) :
  pool_lp_ok p -> unloaded_upto (nlprows p) <$> rows p = unload <$> rows p.
Proof.
  intros (_ & _ & Hrow). apply list_fmap_ext. intros k rc Hk.
  unfold unloaded_upto, unload.
  destruct (Z.leb_spec 0 (lprow rc)) as [Hpos|]; [|reflexivity].
  destruct (Hrow k rc Hk Hpos) as [Hlt _].
  destruct (Z.ltb_spec (lprow rc) (nlprows p)); [reflexivity|lia].
Qed.

Lemma reset_total (lpr : list Z) (nu : Z) :
  0 <= nu <= Z.of_nat (length lpr) ->
  for_range 0 nu (fun i lpr => aset lpr i (-1)) lpr =
    Ok (replicate (Z.to_nat nu) (-1) ++ drop (Z.to_nat nu) lpr).
Proof.
  intros Hnu.
  destruct (for_range_total
    (fun (i : Z) (l : list Z) =>
       l = replicate (Z.to_nat i) (-1) ++ drop (Z.to_nat i) lpr)
    0 nu (fun i lpr => aset lpr i (-1)) lpr) as (l & Hrun & Hl).
  - lia.
  - reflexivity.
  - intros i l Hi ->.
    rewrite aset_Ok by (rewrite length_app, length_replicate, length_drop; lia).
    eexists. split; [reflexivity|].
    replace (Z.to_nat (i + 1)) with (S (Z.to_nat i)) by lia.
    destruct (lookup_lt_is_Some_2 lpr (Z.to_nat i) ltac:(lia)) as [v Hv].
    rewrite insert_app_r_alt by (rewrite length_replicate; lia).
    rewrite length_replicate, Nat.sub_diag, (drop_S _ _ _ Hv). cbn [insert list_insert].
    rewrite replicate_S_end, <- app_assoc. reflexivity.
  - rewrite Hrun, Hl. reflexivity.
Qed.

(** The flags that the restore hands to [delete_row_set], for an LP of [n]
    rows: every row but the last is deleted, the last one when the word that
    follows the array is not zero. *)
Lemma keep_unflagged_none (flag : nat -> Z) (rs : list lp_row) (i : nat) :
  (forall t, (t < length rs)%nat -> flag (i + t)%nat <> 0) ->
  keep_unflagged flag i rs = [].
Proof.
  revert i. induction rs as [|r rs IH]; intros i H; cbn [keep_unflagged]; [reflexivity|].
  pose proof (H 0%nat ltac:(cbn; lia)) as H0. rewrite Nat.add_0_r in H0.
  destruct (Z.eqb_spec (flag i) 0); [contradiction|].
  apply IH. intros t Ht. replace (S i + t)%nat with (i + S t)%nat by lia.
  apply H. cbn. lia.
Qed.

Lemma keep_unflagged_app (flag : nat -> Z) (a b : list lp_row) (i : nat) :
  keep_unflagged flag i (a ++ b) =
  keep_unflagged flag i a ++ keep_unflagged flag (i + length a) b.
Proof.
  revert i. induction a as [|r a IH]; intros i; cbn [app keep_unflagged length].
  - now rewrite Nat.add_0_r.
  - rewrite IH. replace (S i + length a)%nat with (i + S (length a))%nat by lia.
    destruct (flag i =? 0); reflexivity.
Qed.

Lemma restore_flag (n t : nat) (w : Z) :
  nth (S t) (<[0%nat := 0]> (replicate n 1 ++ [w])) 0 =
  if decide (S t < n)%nat then 1 else if decide (S t = n) then w else 0.
Proof.
  rewrite nth_lookup, list_lookup_insert_ne by lia.
  destruct (decide (S t < n)%nat) as [Hlt|Hge].
  - rewrite lookup_app_l by (rewrite length_replicate; lia).
    now rewrite lookup_replicate_2 by lia.
  - rewrite lookup_app_r by (rewrite length_replicate; lia).
    rewrite length_replicate. destruct (decide (S t = n)) as [->|Hne].
    + now rewrite Nat.sub_diag.
    + destruct (S t - n)%nat as [|d] eqn:E; [lia|]. reflexivity.
Qed.

Lemma restore_deletes_all (lp : LP_t) (past_end : Z) :
  lp_rowset lp = [] \/ past_end <> 0 ->
  lp_rowset (delete_row_set lp
     (<[0%nat := 0]> (replicate (Z.to_nat (lp_num_rows lp)) 1 ++ [past_end]))) = [].
Proof.
  intros H. unfold delete_row_set, lp_num_rows. cbn [lp_rowset]. rewrite Nat2Z.id.
  apply keep_unflagged_none. intros t Ht. cbn [Nat.add]. rewrite restore_flag.
  destruct H as [E|Hw]; [rewrite E in Ht; cbn in Ht; lia|].
  destruct (decide (S t < length (lp_rowset lp))%nat); [lia|].
  destruct (decide (S t = length (lp_rowset lp))); [exact Hw|lia].
Qed.

Lemma restore_keeps_last (lp : LP_t) :
  lp_rowset lp <> [] ->
  length (lp_rowset (delete_row_set lp
     (<[0%nat := 0]> (replicate (Z.to_nat (lp_num_rows lp)) 1 ++ [0])))) = 1%nat.
Proof.
  intros Hne. unfold delete_row_set, lp_num_rows. cbn [lp_rowset]. rewrite Nat2Z.id.
  destruct (lp_rowset lp) as [|r0 rs0] using rev_ind; [contradiction|]. clear IHrs0.
  rewrite keep_unflagged_app, keep_unflagged_none.
  - cbn [app keep_unflagged Nat.add]. rewrite restore_flag, length_app. cbn [length].
    destruct (decide (S (length rs0) < length rs0 + 1)%nat); [lia|].
    destruct (decide (S (length rs0) = length rs0 + 1)%nat); [reflexivity|lia].
  - intros t Ht. cbn [Nat.add]. rewrite restore_flag, length_app. cbn [length].
    destruct (decide (S t < length rs0 + 1)%nat); lia.
Qed.

(** *** The replay of the recorded rows *)

Section Replay.

(** The headers when the replay starts, the rows that the snapshot names
    (those that [fl] leaves unflagged, in the order of the pool), the
    snapshot and the array [lprows]. *)
Variable rows_u : list rcon.
Variable fl : list bool.
Variable uids brow : list Z.
Variable lpr0 : list Z.

Hypothesis fl_length : length fl = length rows_u.
Hypothesis uids_length : length uids = live_count fl.
Hypothesis brow_length : length brow = live_count fl.
Hypothesis rows_unloaded : forall k rc, rows_u !! k = Some rc -> lprow rc = -1.
Hypothesis uid_NoDup : NoDup (uid <$> rows_u).
Hypothesis uids_recorded : forall k rc,
    rows_u !! k = Some rc -> fl !! k = Some false ->
    uids !! kept_before fl k = Some (uid rc).
Hypothesis brow_NoDup : NoDup brow.
Hypothesis brow_range : forall v, v ∈ brow -> 0 <= v < Z.of_nat (live_count fl).
Hypothesis lpr0_reset : forall q, (q < live_count fl)%nat -> lpr0 !! q = Some (-1).

(** The header of row [k] when the first [m] recorded rows are replayed. *)
Definition replay_row (m : nat) (k : nat) (rc : rcon) : rcon :=
  match fl !! k with
  | Some false =>
      if (kept_before fl k <? m)%nat
      then set_lprow (-2) (set_refc (refc rc - 1) rc)
      else rc
  | _ => rc
  end.

Definition replay_inv (m : Z) (s : list rcon * list Z * Z) : Prop :=
  let '(rs, lpr, r) := s in
  rs = imap (replay_row (Z.to_nat m)) rows_u /\
  length lpr = length lpr0 /\
  (forall k j, fl !! k = Some false -> (kept_before fl k < Z.to_nat m)%nat ->
     brow !! kept_before fl k = Some j -> lpr !! Z.to_nat j = Some (Z.of_nat k)) /\
  (forall q, (forall m', (m' < Z.to_nat m)%nat -> brow !! m' <> Some (Z.of_nat q)) ->
     lpr !! q = lpr0 !! q) /\
  0 <= r /\
  (forall k, fl !! k = Some false -> (Z.to_nat m <= kept_before fl k)%nat ->
     r <= Z.of_nat k).

Lemma replay_row_uid (m k : nat) (rc : rcon) : uid (replay_row m k rc) = uid rc.
Proof.
  unfold replay_row. destruct (fl !! k) as [[]|]; try reflexivity.
  destruct (kept_before fl k <? m)%nat; reflexivity.
Qed.

Lemma replay_inv_init : replay_inv 0 (rows_u, lpr0, 0).
Proof.
  unfold replay_inv. split; [|split; [reflexivity|split; [|split; [|split]]]].
  - apply list_eq. intros k. rewrite list_lookup_imap.
    destruct (rows_u !! k) as [rc|]; [|reflexivity]. cbn. f_equal.
    unfold replay_row. destruct (fl !! k) as [[]|]; reflexivity.
  - intros k j _ Hk. cbn in Hk. lia.
  - reflexivity.
  - lia.
  - intros. lia.
Qed.

Lemma replay_step (m : Z) (s : list rcon * list Z * Z) :
  0 <= m < Z.of_nat (live_count fl) -> replay_inv m s ->
  exists s', replay_pass uids brow (Z.of_nat (live_count fl)) m s = Ok s' /\
             replay_inv (m + 1) s'.
Proof.
  intros Hm. destruct s as [[rs lpr] r]. intros (Hrs & Hll & Hdone & Hrest & Hr0 & Hr).
  destruct (kept_before_surj fl (Z.to_nat m) ltac:(lia)) as (k & Hk & Hkb).
  destruct (lookup_lt_is_Some_2 rows_u k) as [rc Hrc];
    [apply lookup_lt_Some in Hk; lia|].
  pose proof (uids_recorded k rc Hrc Hk) as Hu. rewrite Hkb in Hu.
  destruct (lookup_lt_is_Some_2 brow (Z.to_nat m) ltac:(lia)) as [j Hj].
  pose proof (brow_range j ltac:(eapply list_elem_of_lookup_2; eauto)) as Hjr.
  assert (Hrsk : forall q rcq, rows_u !! q = Some rcq ->
             rs !! q = Some (replay_row (Z.to_nat m) q rcq)).
  { intros q rcq Hq. rewrite Hrs, list_lookup_imap, Hq. reflexivity. }
  assert (Hrk : rs !! k = Some rc).
  { rewrite (Hrsk k rc Hrc). f_equal. unfold replay_row. rewrite Hk.
    destruct (Nat.ltb_spec (kept_before fl k) (Z.to_nat m)); [lia|reflexivity]. }
  assert (Hseek : seek_uid (drop (Z.to_nat r) rs) r (uid rc) = Ok (Z.of_nat k)).
  { rewrite <- (Z2Nat.id r) at 2 by lia.
    apply (seek_uid_found rs (uid rc) k rc); auto.
    - specialize (Hr k Hk ltac:(lia)). lia.
    - intros q rcq Hq Hrq E.
      destruct (lookup_lt_is_Some_2 rows_u q) as [rcq0 Hq0];
        [apply lookup_lt_Some in Hrc; lia|].
      rewrite (Hrsk q rcq0 Hq0) in Hrq. injection Hrq as <-.
      rewrite replay_row_uid in E.
      assert (q = k); [|lia].
      apply (NoDup_lookup (uid <$> rows_u) q k (uid rc) uid_NoDup);
        rewrite list_lookup_fmap; [rewrite Hq0; cbn; f_equal; exact E|rewrite Hrc; reflexivity]. }
  assert (Hfree : forall m', (m' < Z.to_nat m)%nat -> brow !! m' <> Some j).
  { intros m' Hm' E.
    pose proof (NoDup_lookup brow m' (Z.to_nat m) j brow_NoDup E Hj). lia. }
  assert (Hlj : lpr !! Z.to_nat j = Some (-1)).
  { rewrite Hrest; [apply lpr0_reset; lia|].
    intros m' Hm'. rewrite Z2Nat.id by lia. now apply Hfree. }
  unfold replay_pass.
  rewrite (aget_Ok uids m (uid rc)) by (auto; lia). cbn [bind].
  rewrite (aget_Ok brow m j) by (auto; lia). cbn [bind].
  rewrite Hseek. cbn [bind].
  rewrite (aget_Ok rs (Z.of_nat k) rc) by (rewrite ?Nat2Z.id; auto; lia). cbn [bind].
  assert (Hl1 : lprow (set_refc (refc rc - 1) rc) = -1)
    by (cbn; now apply (rows_unloaded k)).
  rewrite Hl1. replace (-1 =? -1) with true by reflexivity. cbn [negb].
  destruct (Z.ltb_spec j 0); [lia|].
  replace (j >=? Z.of_nat (live_count fl)) with false
    by (symmetry; rewrite Z.geb_leb; apply Z.leb_gt; lia).
  rewrite (aget_Ok lpr j (-1)) by (auto; lia). cbn [bind].
  replace (-1 =? -1) with true by reflexivity. cbn [negb fatal_if bind].
  pose proof (lookup_lt_Some _ _ _ Hrk) as Hklt.
  pose proof (lookup_lt_Some _ _ _ Hlj) as Hjlt.
  rewrite aset_Ok by lia. cbn [bind]. rewrite aset_Ok by lia. cbn [bind].
  eexists. split; [reflexivity|]. unfold replay_inv.
  replace (Z.to_nat (m + 1)) with (S (Z.to_nat m)) by lia. rewrite Nat2Z.id.
  split; [|split; [now rewrite length_insert|split; [|split; [|split]]]].
  - apply list_eq. intros q. rewrite list_lookup_imap.
    destruct (decide (q = k)) as [->|Hne].
    + rewrite list_lookup_insert_eq by lia. rewrite Hrc. cbn. f_equal.
      unfold replay_row. rewrite Hk.
      destruct (Nat.ltb_spec (kept_before fl k) (S (Z.to_nat m))); [|lia].
      reflexivity.
    + rewrite list_lookup_insert_ne by lia.
      destruct (rows_u !! q) as [rcq|] eqn:Hq.
      * rewrite (Hrsk q rcq Hq). cbn. f_equal. unfold replay_row.
        destruct (fl !! q) as [[]|] eqn:Hfq; try reflexivity.
        assert (kept_before fl q <> Z.to_nat m).
        { intros E. apply Hne. apply (kept_before_inj fl); auto. lia. }
        destruct (Nat.ltb_spec (kept_before fl q) (Z.to_nat m)),
                 (Nat.ltb_spec (kept_before fl q) (S (Z.to_nat m))); auto; lia.
      * rewrite Hrs, list_lookup_imap, Hq. reflexivity.
  - intros k' j' Hk' Hlt Hj'.
    destruct (decide (kept_before fl k' = Z.to_nat m)) as [E|Hne].
    + assert (k' = k) by (apply (kept_before_inj fl); auto; lia). subst k'.
      rewrite E, Hj in Hj'. injection Hj' as <-.
      now rewrite list_lookup_insert_eq by lia.
    + assert (j' <> j).
      { intros ->. apply (Hfree (kept_before fl k')); auto. lia. }
      pose proof (brow_range j' ltac:(eapply list_elem_of_lookup_2; eauto)).
      rewrite list_lookup_insert_ne by lia. apply Hdone; auto. lia.
  - intros q Hq.
    assert (q <> Z.to_nat j).
    { intros ->. apply (Hq (Z.to_nat m)); [lia|]. rewrite Z2Nat.id by lia. exact Hj. }
    rewrite list_lookup_insert_ne by lia. apply Hrest. intros m' Hm'. apply Hq. lia.
  - lia.
  - intros k' Hk' Hge.
    destruct (Nat.le_gt_cases k' k) as [Hle|Hgt]; [|lia].
    pose proof (kept_before_mono fl k' k Hle). lia.
Qed.

Lemma replay_total :
  exists rs lpr r,
    for_range 0 (Z.of_nat (live_count fl))
      (replay_pass uids brow (Z.of_nat (live_count fl))) (rows_u, lpr0, 0)
      = Ok (rs, lpr, r) /\
    rs = imap (replay_row (live_count fl)) rows_u /\
    length lpr = length lpr0 /\
    (forall k j, fl !! k = Some false -> brow !! kept_before fl k = Some j ->
       lpr !! Z.to_nat j = Some (Z.of_nat k)) /\
    (forall q, (live_count fl <= q)%nat -> lpr !! q = lpr0 !! q).
Proof.
  destruct (for_range_total replay_inv 0 (Z.of_nat (live_count fl))
              (replay_pass uids brow (Z.of_nat (live_count fl))) (rows_u, lpr0, 0))
    as ([[rs lpr] r] & Hrun & Hrs & Hll & Hdone & Hrest & _).
  - lia.
  - exact replay_inv_init.
  - intros m s Hm Hs. now apply replay_step.
  - rewrite Nat2Z.id in *. exists rs, lpr, r.
    split; [exact Hrun|]. split; [exact Hrs|]. split; [exact Hll|]. split.
    + intros k j Hk Hj. apply Hdone; auto. now apply kept_before_live.
    + intros q Hq. apply Hrest. intros m' Hm' E.
      pose proof (brow_range _ ltac:(eapply list_elem_of_lookup_2; eauto)). lia.
Qed.

End Replay.

(** *** Loading the pending rows: the run ends *)

(** A row that [_gst_add_pending_rows_to_LP] can hand to the engine: its
    coefficients end in a relational operator and [len] counts them. *)
Definition row_loadable (rc : rcon) : Prop :=
  exists lr, row_in_lp rc lr /\ len rc = Z.of_nat (length (lr_mat lr)).

Lemma row_in_lp_fun (rc : rcon) (lr lr' : lp_row) :
  row_in_lp rc lr -> row_in_lp rc lr' -> lr = lr'.
Proof.
  intros (e & Hc & Hr & Ht) (e' & Hc' & Hr' & Ht').
  rewrite Hc in Hc'. injection Hc' as Hm <-.
  rewrite Ht in Ht'. injection Ht' as Hty.
  destruct lr, lr'. cbn in *. congruence.
Qed.

Section AddPending.

Variable bbip : bbinfo.

(** The sum of the [len] fields of the rows registered in [lprows] at the
    [n] positions from [a] on. *)
Definition len_at (i : Z) : Z :=
  match lprows (bb_cpool bbip) !! Z.to_nat i with
  | Some row =>
      match rows (bb_cpool bbip) !! Z.to_nat row with
      | Some rc => len rc
      | None => 0
      end
  | None => 0
  end.

Fixpoint len_sum (a : Z) (n : nat) : Z :=
  match n with
  | O => 0
  | S n' => len_sum a n' + len_at (a + Z.of_nat n')
  end.

Hypothesis lp_count : lp_num_rows (bb_lp bbip) = nlprows (bb_cpool bbip).
Hypothesis nlprows_nonneg : 0 <= nlprows (bb_cpool bbip).
Hypothesis npend_nonneg : 0 <= npend (bb_cpool bbip).
Hypothesis pending_rows : forall i,
    nlprows (bb_cpool bbip) <= i < nlprows (bb_cpool bbip) + npend (bb_cpool bbip) ->
    exists k rc, lprows (bb_cpool bbip) !! Z.to_nat i = Some (Z.of_nat k) /\
                 rows (bb_cpool bbip) !! k = Some rc /\ lprow rc = -2 /\
                 row_loadable rc.
Hypothesis pending_distinct : forall i i' k,
    nlprows (bb_cpool bbip) <= i < nlprows (bb_cpool bbip) + npend (bb_cpool bbip) ->
    nlprows (bb_cpool bbip) <= i' < nlprows (bb_cpool bbip) + npend (bb_cpool bbip) ->
    lprows (bb_cpool bbip) !! Z.to_nat i = Some k ->
    lprows (bb_cpool bbip) !! Z.to_nat i' = Some k -> i = i'.

Lemma pending_pass1_total :
  let pool := bb_cpool bbip in
  let i1 := nlprows pool in
  let i2 := i1 + npend pool in
  exists rs,
    for_range i1 i2 (pending_pass1 (lprows pool)) (rows pool, 0)
      = Ok (rs, len_sum i1 (Z.to_nat (i2 - i1))) /\
    length rs = length (rows pool) /\
    (forall i k rc, i1 <= i < i2 -> lprows pool !! Z.to_nat i = Some (Z.of_nat k) ->
       rows pool !! k = Some rc -> rs !! k = Some (set_lprow i rc)) /\
    (forall k rc, rows pool !! k = Some rc ->
       (forall i, i1 <= i < i2 -> lprows pool !! Z.to_nat i <> Some (Z.of_nat k)) ->
       rs !! k = Some rc).
Proof.
  intros pool i1 i2. subst pool.
  assert (H1 : 0 <= i1) by exact nlprows_nonneg.
  assert (H2 : i2 = i1 + npend (bb_cpool bbip)) by reflexivity.
  assert (H3 : 0 <= npend (bb_cpool bbip)) by exact npend_nonneg.
  destruct (for_range_total
    (fun (i : Z) (s : list rcon * Z) =>
       length (fst s) = length (rows (bb_cpool bbip)) /\
       (forall i' k rc, i1 <= i' < i -> lprows (bb_cpool bbip) !! Z.to_nat i' = Some (Z.of_nat k) ->
          rows (bb_cpool bbip) !! k = Some rc -> fst s !! k = Some (set_lprow i' rc)) /\
       (forall k rc, rows (bb_cpool bbip) !! k = Some rc ->
          (forall i', i1 <= i' < i -> lprows (bb_cpool bbip) !! Z.to_nat i' <> Some (Z.of_nat k)) ->
          fst s !! k = Some rc) /\
       snd s = len_sum i1 (Z.to_nat (i - i1)))
    i1 i2 (pending_pass1 (lprows (bb_cpool bbip))) (rows (bb_cpool bbip), 0))
    as ([rs nc] & Hrun & Hlen & Hdone & Hrest & Hnc).
  - lia.
  - cbn [fst snd]. split; [reflexivity|]. split; [intros; lia|].
    split; [auto|]. now rewrite Z.sub_diag.
  - intros i [rs nc] Hi (Hlen & Hdone & Hrest & Hnc). cbn [fst snd] in *.
    destruct (pending_rows i Hi) as (k & rc & Hl & Hrc & Hst & _).
    assert (Hrk : rs !! k = Some rc).
    { apply Hrest; [exact Hrc|]. intros i' Hi' E.
      pose proof (pending_distinct i' i (Z.of_nat k) ltac:(change (i1 <= i' < i2); lia) Hi E Hl).
      lia. }
    unfold pending_pass1.
    rewrite (aget_Ok _ i (Z.of_nat k)) by (auto; lia). cbn [bind].
    rewrite (aget_Ok rs (Z.of_nat k) rc) by (rewrite ?Nat2Z.id; auto; lia). cbn [bind].
    rewrite Hst. cbn [Z.eqb negb fatal_if bind]. replace (-2 =? -2) with true by reflexivity.
    cbn [negb fatal_if bind].
    pose proof (lookup_lt_Some _ _ _ Hrk) as Hlt.
    rewrite aset_Ok by lia. cbn [bind]. rewrite Nat2Z.id.
    eexists. split; [reflexivity|]. cbn [fst snd].
    split; [now rewrite length_insert|]. split; [|split].
    + intros i' k' rc' Hi' Hl' Hrc'.
      destruct (Z.eq_dec i' i) as [->|Hne].
      * rewrite Hl in Hl'. injection Hl' as Hk. apply Nat2Z.inj in Hk. subst k'.
        rewrite Hrc in Hrc'. injection Hrc' as <-.
        now rewrite list_lookup_insert_eq by lia.
      * assert (k' <> k).
        { intros ->.
          pose proof (pending_distinct i' i (Z.of_nat k) ltac:(change (i1 <= i' < i2); lia)
                        Hi Hl' Hl). lia. }
        rewrite list_lookup_insert_ne by lia. apply Hdone; auto. lia.
    + intros k' rc' Hrc' Hfree.
      assert (k' <> k).
      { intros ->. apply (Hfree i); [lia|exact Hl]. }
      rewrite list_lookup_insert_ne by lia. apply Hrest; auto.
      intros i' Hi'. apply Hfree. lia.
    + replace (Z.to_nat (i + 1 - i1)) with (S (Z.to_nat (i - i1))) by lia.
      cbn [len_sum]. rewrite <- Hnc. f_equal.
      unfold len_at. 
      replace (i1 + Z.of_nat (Z.to_nat (i - i1))) with i by lia.
      rewrite Hl, Nat2Z.id, Hrc. reflexivity.
  - cbn [fst snd] in *. exists rs. rewrite Hrun, Hnc. auto.
Qed.

Lemma pending_pass2_step (pool' : cpool) (i : Z) (k : nat) (rc' : rcon) (lr : lp_row)
    (new : list lp_row) (nzi : Z) :
  0 <= i -> lprows pool' !! Z.to_nat i = Some (Z.of_nat k) ->
  rows pool' !! k = Some rc' -> row_in_lp rc' lr ->
  pending_pass2 pool' i (new, nzi) = Ok (new ++ [lr], nzi + Z.of_nat (length (lr_mat lr))).
Proof.
  intros Hi Hl Hrc (e & Hconv & Hrhs & Hct). unfold pending_pass2.
  rewrite (aget_Ok _ i (Z.of_nat k)) by auto. cbn [bind].
  rewrite (aget_Ok _ (Z.of_nat k) rc') by (rewrite ?Nat2Z.id; auto; lia). cbn [bind].
  rewrite Hconv. cbn [bind]. unfold ctype_of in Hct.
  destruct lr as [rhs ct mat]. cbn [lr_rhs lr_ctype lr_mat] in *. subst rhs.
  destruct (var e =? RC_OP_LE); [injection Hct as <-; reflexivity|].
  destruct (var e =? RC_OP_EQ); [injection Hct as <-; reflexivity|].
  destruct (var e =? RC_OP_GE); [injection Hct as <-; reflexivity|discriminate].
Qed.

Lemma pending_pass2_total (pool' : cpool) :
  let pool := bb_cpool bbip in
  let i1 := nlprows pool in
  let i2 := i1 + npend pool in
  lprows pool' = lprows pool ->
  (forall i k rc, i1 <= i < i2 -> lprows pool !! Z.to_nat i = Some (Z.of_nat k) ->
     rows pool !! k = Some rc ->
     exists rc', rows pool' !! k = Some rc' /\ coefs rc' = coefs rc) ->
  exists new,
    for_range i1 i2 (pending_pass2 pool') ([], 0)
      = Ok (new, len_sum i1 (Z.to_nat (i2 - i1))) /\
    length new = Z.to_nat (i2 - i1) /\
    forall i k rc, i1 <= i < i2 -> lprows pool !! Z.to_nat i = Some (Z.of_nat k) ->
      rows pool !! k = Some rc ->
      exists lr, new !! Z.to_nat (i - i1) = Some lr /\ row_in_lp rc lr.
Proof.
  intros pool i1 i2 Hlpr Hrows. subst pool.
  assert (H1 : 0 <= i1) by exact nlprows_nonneg.
  assert (H2 : i2 = i1 + npend (bb_cpool bbip)) by reflexivity.
  assert (H3 : 0 <= npend (bb_cpool bbip)) by exact npend_nonneg.
  destruct (for_range_total
    (fun (i : Z) (s : list lp_row * Z) =>
       length (fst s) = Z.to_nat (i - i1) /\
       (forall i' k rc, i1 <= i' < i ->
          lprows (bb_cpool bbip) !! Z.to_nat i' = Some (Z.of_nat k) ->
          rows (bb_cpool bbip) !! k = Some rc ->
          exists lr, fst s !! Z.to_nat (i' - i1) = Some lr /\ row_in_lp rc lr) /\
       snd s = len_sum i1 (Z.to_nat (i - i1)))
    i1 i2 (pending_pass2 pool') ([], 0))
    as ([new nzi] & Hrun & Hlen & Hdone & Hnz).
  - lia.
  - cbn [fst snd]. rewrite Z.sub_diag. split; [reflexivity|].
    split; [intros; lia|reflexivity].
  - intros i [new nzi] Hi (Hlen & Hdone & Hnz). cbn [fst snd] in *.
    destruct (pending_rows i Hi) as (k & rc & Hl & Hrc & Hst & lr & Hlr & Hln).
    destruct (Hrows i k rc Hi Hl Hrc) as (rc' & Hrc' & Hco).
    rewrite (pending_pass2_step pool' i k rc' lr); auto; try lia.
    + eexists. split; [reflexivity|]. cbn [fst snd].
      replace (Z.to_nat (i + 1 - i1)) with (S (Z.to_nat (i - i1))) by lia.
      split; [rewrite length_app; cbn; lia|]. split.
      * intros i' k' rc0 Hi' Hl' Hrc0.
        destruct (Z.eq_dec i' i) as [->|Hne].
        -- rewrite Hl in Hl'. injection Hl' as Hk. apply Nat2Z.inj in Hk. subst k'.
           rewrite Hrc in Hrc0. injection Hrc0 as <-.
           exists lr. split; [|exact Hlr].
           rewrite lookup_app_r by lia. rewrite Hlen, Nat.sub_diag. reflexivity.
        -- destruct (Hdone i' k' rc0 ltac:(lia) Hl' Hrc0) as (lr' & Hn & Hlr').
           exists lr'. split; [|exact Hlr'].
           rewrite lookup_app_l; [exact Hn|]. apply lookup_lt_Some in Hn. exact Hn.
      * cbn [len_sum]. rewrite <- Hnz. f_equal. unfold len_at.
        replace (i1 + Z.of_nat (Z.to_nat (i - i1))) with i by lia.
        rewrite Hl, Nat2Z.id, Hrc. lia.
    + now rewrite Hlpr.
    + now apply (row_in_lp_coefs rc).
  - cbn [fst snd] in *. exists new. rewrite Hrun, Hnz. auto.
Qed.

(** The state after [_gst_add_pending_rows_to_LP]. *)
Definition pending_loaded (bbip' : bbinfo) : Prop :=
  let pool := bb_cpool bbip in
  let pool' := bb_cpool bbip' in
  let i1 := nlprows pool in
  let i2 := i1 + npend pool in
  bb_node bbip' = bb_node bbip /\
  nlprows pool' = i2 /\ npend pool' = 0 /\ lprows pool' = lprows pool /\
  length (rows pool') = length (rows pool) /\
  (forall i k rc, i1 <= i < i2 -> lprows pool !! Z.to_nat i = Some (Z.of_nat k) ->
     rows pool !! k = Some rc -> rows pool' !! k = Some (set_lprow i rc)) /\
  (forall k rc, rows pool !! k = Some rc ->
     (forall i, i1 <= i < i2 -> lprows pool !! Z.to_nat i <> Some (Z.of_nat k)) ->
     rows pool' !! k = Some rc) /\
  lp_basis (bb_lp bbip') = lp_basis (bb_lp bbip) /\
  exists new,
    lp_rowset (bb_lp bbip') = lp_rowset (bb_lp bbip) ++ new /\
    length new = Z.to_nat (npend pool) /\
    forall i k rc, i1 <= i < i2 -> lprows pool !! Z.to_nat i = Some (Z.of_nat k) ->
      rows pool !! k = Some rc ->
      exists lr, new !! Z.to_nat (i - i1) = Some lr /\ row_in_lp rc lr.

Lemma add_pending_total :
  exists bbip', _gst_add_pending_rows_to_LP bbip = Ok bbip' /\ pending_loaded bbip'.
Proof.
  unfold _gst_add_pending_rows_to_LP.
  replace (negb (lp_num_rows (bb_lp bbip) =? nlprows (bb_cpool bbip))) with false
    by (symmetry; apply negb_false_iff, Z.eqb_eq; exact lp_count).
  cbn [fatal_if bind].
  destruct (Z.ltb_spec (npend (bb_cpool bbip)) 0) as [Hneg|_];
    [pose proof npend_nonneg; lia|].
  cbn [fatal_if bind].
  destruct (Z.eqb_spec (npend (bb_cpool bbip)) 0) as [E0|Hne].
  - exists bbip. split; [reflexivity|]. unfold pending_loaded. rewrite E0.
    split; [reflexivity|]. split; [lia|]. split; [reflexivity|]. split; [reflexivity|].
    split; [reflexivity|]. split; [intros; lia|]. split; [auto|]. split; [reflexivity|].
    exists []. rewrite app_nil_r. split; [reflexivity|]. split; [reflexivity|].
    intros; lia.
  - destruct pending_pass1_total as (rs & Hrun1 & Hlen & Hdone & Hrest).
    rewrite Hrun1. cbn [bind].
    match goal with
    | |- context [pending_pass2 ?p] => set (pool2 := p)
    end.
    destruct (pending_pass2_total pool2) as (new & Hrun2 & Hnl & Hnew).
    + reflexivity.
    + intros i k rc Hi Hl Hrc. exists (set_lprow i rc). split; [|reflexivity].
      now apply Hdone.
    + rewrite Hrun2. cbn [bind]. rewrite Z.eqb_refl. cbn [negb fatal_if bind].
      eexists. split; [reflexivity|]. unfold pending_loaded.
      cbn -[Z.add Z.sub Z.to_nat].
      split; [reflexivity|]. split; [reflexivity|]. split; [reflexivity|].
      split; [reflexivity|]. split; [exact Hlen|]. split; [exact Hdone|].
      split; [exact Hrest|]. split; [reflexivity|].
      exists new. split; [reflexivity|]. split; [rewrite Hnl; f_equal; lia|exact Hnew].
Qed.

End AddPending.

(** *** [_gst_restore_node_basis] on a valid snapshot *)

Lemma NoDup_range_full (l : list Z) (n : nat) :
  NoDup l -> length l = n -> (forall v, v ∈ l -> 0 <= v < Z.of_nat n) ->
  forall i, 0 <= i < Z.of_nat n -> i ∈ l.
Proof.
  intros Hnd Hlen Hr i Hi.
  assert (Hnd' : NoDup (Z.to_nat <$> l)).
  { apply NoDup_fmap_2_strong; [|exact Hnd].
    intros a b Ha Hb E. apply Hr in Ha, Hb. lia. }
  assert (Hsub : Z.to_nat <$> l ⊆+ seq 0 n).
  { apply NoDup_submseteq; [exact Hnd'|].
    intros k Hk. apply list_elem_of_fmap in Hk as (z & -> & Hz).
    apply Hr in Hz. apply elem_of_seq. lia. }
  apply submseteq_length_Permutation in Hsub; [|rewrite length_fmap, length_seq; lia].
  assert (Hin : Z.to_nat i ∈ Z.to_nat <$> l) by (rewrite Hsub; apply elem_of_seq; lia).
  apply list_elem_of_fmap in Hin as (z & E & Hz).
  pose proof (Hr z Hz). replace i with z by lia. exact Hz.
Qed.

Lemma unload_uid (rc : rcon) : uid (unload rc) = uid rc.
Proof. unfold unload. destruct (0 <=? lprow rc); reflexivity. Qed.

Lemma unload_eq (rc : rcon) :
  (lprow rc < 0 -> lprow rc = -1) -> unload rc = set_lprow (-1) rc.
Proof.
  intros H. unfold unload. destruct (Z.leb_spec 0 (lprow rc)) as [|Hneg]; [reflexivity|].
  destruct rc. cbn in *. rewrite (H Hneg). reflexivity.
Qed.

(** The state in which a node is resumed: the pool's record of the LP is
    sound, no row is pending, the rows have distinct [uid]s. *)
Definition restore_ready (bbip : bbinfo) : Prop :=
  let p := bb_cpool bbip in
  lp_num_rows (bb_lp bbip) = nlprows p /\ pool_lp_ok p /\ npend p = 0 /\
  (forall k rc, rows p !! k = Some rc -> lprow rc < 0 -> lprow rc = -1) /\
  NoDup (uid <$> rows p) /\
  maxrows p <= Z.of_nat (length (lprows p)).

(** The snapshot of [nodep] is [(uids, brow)] and names the rows of [p]
    that [fl] leaves unflagged, in the order of the pool; [brow] gives each
    of them an LP position of its own. *)
Definition snapshot_valid (nodep : bbnode) (p : cpool) (fl : list bool)
    (uids brow : list Z) : Prop :=
  bc_uids nodep = Some uids /\ bc_row nodep = Some brow /\
  n_uids nodep = Z.of_nat (live_count fl) /\
  Z.of_nat (live_count fl) <= maxrows p /\
  length fl = length (rows p) /\
  length uids = live_count fl /\ length brow = live_count fl /\
  NoDup brow /\ (forall v, v ∈ brow -> 0 <= v < Z.of_nat (live_count fl)) /\
  forall k rc, rows p !! k = Some rc -> fl !! k = Some false ->
    uids !! kept_before fl k = Some (uid rc) /\ row_loadable rc.

(** The header of row [k] after the restore. *)
Definition restored_row (fl : list bool) (brow : list Z) (k : nat) (rc : rcon) : rcon :=
  match fl !! k with
  | Some false =>
      set_lprow (default (-1) (brow !! kept_before fl k)) (set_refc (refc rc - 1) rc)
  | _ => set_lprow (-1) rc
  end.

Lemma replay_row_live (fl : list bool) (m k : nat) (rc : rcon) :
  fl !! k = Some false -> (kept_before fl k < m)%nat ->
  replay_row fl m k rc = set_lprow (-2) (set_refc (refc rc - 1) rc).
Proof.
  intros Hk Hlt. unfold replay_row. rewrite Hk.
  destruct (Nat.ltb_spec (kept_before fl k) m); [reflexivity|lia].
Qed.

Lemma replay_row_other (fl : list bool) (m k : nat) (rc : rcon) :
  fl !! k <> Some false -> replay_row fl m k rc = rc.
Proof.
  intros Hk. unfold replay_row. destruct (fl !! k) as [[]|]; auto. congruence.
Qed.

Lemma row_loadable_ext (rc rc' : rcon) :
  coefs rc' = coefs rc -> len rc' = len rc -> row_loadable rc -> row_loadable rc'.
Proof.
  intros Hc Hl (lr & Hlr & Hlen). exists lr. split; [|congruence].
  now apply (row_in_lp_coefs rc).
Qed.

(** What the restore leaves: the recorded rows are the LP's rows, each at
    its recorded position and with one reference less, and no other row is
    loaded. *)
Definition restored (fl : list bool) (brow : list Z) (nodep : bbnode)
    (bbip bbip' : bbinfo) : Prop :=
  let p := bb_cpool bbip in
  let p' := bb_cpool bbip' in
  rows p' = imap (restored_row fl brow) (rows p) /\
  nlprows p' = Z.of_nat (live_count fl) /\ npend p' = 0 /\
  (forall k j, fl !! k = Some false -> brow !! kept_before fl k = Some j ->
     lprows p' !! Z.to_nat j = Some (Z.of_nat k)) /\
  length (lp_rowset (bb_lp bbip')) = live_count fl /\
  (forall k rc j, rows p !! k = Some rc -> fl !! k = Some false ->
     brow !! kept_before fl k = Some j ->
     exists lr, lp_rowset (bb_lp bbip') !! Z.to_nat j = Some lr /\ row_in_lp rc lr) /\
  (forall bs, nd_basis nodep = Some bs ->
     lp_basis (bb_lp bbip') = bs /\ basis_valid (bb_lp bbip') = true) /\
  bb_node bbip' = bb_node bbip.

Section Restore.

Variable nodep : bbnode.
Variable bbip : bbinfo.
Variable fl : list bool.
Variable uids brow : list Z.

Hypothesis ready : restore_ready bbip.
Hypothesis valid : snapshot_valid nodep (bb_cpool bbip) fl uids brow.

(** The state that the restore hands to [_gst_add_pending_rows_to_LP]. *)
Definition pending_state (past_end : Z) (rs : list rcon) (lpr : list Z) : bbinfo :=
  let lp := bb_lp bbip in
  let pool := bb_cpool bbip in
  set_bb_cpool
    (set_npend (Z.of_nat (live_count fl))
       (set_lprows lpr (set_rows rs (set_nlprows 0 (set_rows (unload <$> rows pool) pool)))))
    (set_bb_lp
       (delete_row_set lp
          (<[0%nat := 0]> (replicate (Z.to_nat (lp_num_rows lp)) 1 ++ [past_end])))
       bbip).

Lemma restore_reaches_add_pending (past_end : Z) :
  exists lpr,
    let rs := imap (replay_row fl (live_count fl)) (unload <$> rows (bb_cpool bbip)) in
    _gst_restore_node_basis past_end nodep bbip =
      (let! b := _gst_add_pending_rows_to_LP (pending_state past_end rs lpr) in
       Ok (set_saved 0 None None None nodep,
           match nd_basis nodep with
           | Some bs => set_bb_lp (set_current_basis (bb_lp b) bs) b
           | None => b
           end)) /\
    length lpr = length (lprows (bb_cpool bbip)) /\
    (forall k j, fl !! k = Some false -> brow !! kept_before fl k = Some j ->
       lpr !! Z.to_nat j = Some (Z.of_nat k)) /\
    (forall q, (live_count fl <= q)%nat -> lpr !! q = lprows (bb_cpool bbip) !! q).
Proof.
  destruct ready as (Hcnt & Hok & Hnp & Hneg & Huid & Hmax).
  destruct valid as (Hbu & Hbr & Hnu & Hroom & Hfl & Hlu & Hlb & Hnd & Hrng & Hrec).
  set (pool := bb_cpool bbip) in *.
  destruct (replay_total (unload <$> rows pool) fl uids brow
              (replicate (live_count fl) (-1) ++ drop (live_count fl) (lprows pool)))
    as (rs & lpr & r & Hrun & Hrs & Hll & Hdone & Hrest).
  - now rewrite length_fmap.
  - exact Hlu.
  - exact Hlb.
  - intros k rc Hk. rewrite list_lookup_fmap in Hk.
    destruct (rows pool !! k) as [rc0|] eqn:E; [|discriminate]. injection Hk as <-.
    rewrite unload_eq; [reflexivity|]. now apply (Hneg k).
  - rewrite <- list_fmap_compose.
    replace (uid ∘ unload <$> rows pool) with (uid <$> rows pool); [exact Huid|].
    apply list_fmap_ext. intros k rc _. cbn. now rewrite unload_uid.
  - intros k rc Hk Hf. rewrite list_lookup_fmap in Hk.
    destruct (rows pool !! k) as [rc0|] eqn:E; [|discriminate]. injection Hk as <-.
    rewrite unload_uid. now apply Hrec.
  - exact Hnd.
  - exact Hrng.
  - intros q Hq. rewrite lookup_app_l by (rewrite length_replicate; lia).
    now apply lookup_replicate_2.
  - exists lpr. cbv zeta. split; [|split; [|split]].
    + unfold _gst_restore_node_basis. rewrite Hbu. cbv zeta. fold pool.
      rewrite Hcnt, Z.eqb_refl. cbn [negb].
      rewrite Hnp. cbn [Z.eqb negb fatal_if bind].
      rewrite (unload_total pool Hok). cbn [bind]. rewrite (unloaded_upto_all pool Hok).
      rewrite Hnu.
      replace (maxrows (set_nlprows 0 (set_rows (unload <$> rows pool) pool))
               <? Z.of_nat (live_count fl)) with false
        by (symmetry; apply Z.ltb_ge; exact Hroom).
      cbn [fatal_if bind].
      replace (lprows (set_nlprows 0 (set_rows (unload <$> rows pool) pool)))
        with (lprows pool) by reflexivity.
      rewrite reset_total by lia. cbn [bind]. rewrite Hbr. cbn [bind].
      replace (rows (set_nlprows 0 (set_rows (unload <$> rows pool) pool)))
        with (unload <$> rows pool) by reflexivity.
      rewrite Nat2Z.id, Hrun. cbn [bind]. rewrite <- Hrs, <- Hcnt. reflexivity.
    + rewrite Hll, length_app, length_replicate, length_drop. lia.
    + exact Hdone.
    + intros q Hq. rewrite (Hrest q Hq).
      rewrite lookup_app_r by (rewrite length_replicate; lia).
      rewrite length_replicate, lookup_drop. f_equal. lia.
Qed.

(** With a zero in the word after [rowflags], the last LP row stays and the
    run ends on the row count. *)
Lemma restore_fatal :
  lp_rowset (bb_lp bbip) <> [] -> _gst_restore_node_basis 0 nodep bbip = Fatal.
Proof.
  intros Hne. destruct (restore_reaches_add_pending 0) as (lpr & Heq & _).
  cbv zeta in Heq. rewrite Heq. unfold _gst_add_pending_rows_to_LP.
  unfold pending_state at 1 2. cbn [bb_lp bb_cpool set_bb_cpool set_bb_lp].
  unfold lp_num_rows at 1. rewrite (restore_keeps_last _ Hne). reflexivity.
Qed.

Lemma restore_total (past_end : Z) :
  lp_rowset (bb_lp bbip) = [] \/ past_end <> 0 ->
  exists bbip',
    _gst_restore_node_basis past_end nodep bbip
      = Ok (set_saved 0 None None None nodep, bbip') /\
    restored fl brow nodep bbip bbip'.
Proof.
  intros Hdel. destruct (restore_reaches_add_pending past_end)
    as (lpr & Heq & Hll & Hdone & Hrest).
  cbv zeta in Heq. rewrite Heq. clear Heq.
  destruct ready as (Hcnt & Hok & Hnp & Hneg & Huid & Hmax).
  destruct valid as (Hbu & Hbr & Hnu & Hroom & Hfl & Hlu & Hlb & Hnd & Hrng & Hrec).
  set (pool := bb_cpool bbip) in *.
  set (nu := live_count fl) in *.
  set (rs := imap (replay_row fl nu) (unload <$> rows pool)) in *.
  set (S := pending_state past_end rs lpr).
  assert (Hrsk : forall k rc0, rows pool !! k = Some rc0 ->
             rs !! k = Some (replay_row fl nu k (unload rc0))).
  { intros k rc0 Hk. unfold rs. now rewrite list_lookup_imap, list_lookup_fmap, Hk. }
  assert (Hslot : forall i, 0 <= i < Z.of_nat nu ->
             exists k rc0, fl !! k = Some false /\ brow !! kept_before fl k = Some i /\
                           rows pool !! k = Some rc0 /\
                           lpr !! Z.to_nat i = Some (Z.of_nat k)).
  { intros i Hi.
    pose proof (NoDup_range_full brow nu Hnd Hlb Hrng i Hi) as Hin.
    apply list_elem_of_lookup_1 in Hin as (m & Hm).
    pose proof (lookup_lt_Some _ _ _ Hm) as Hmlt.
    destruct (kept_before_surj fl m ltac:(lia)) as (k & Hk & Hkb).
    destruct (lookup_lt_is_Some_2 (rows pool) k) as [rc0 Hrc0];
      [apply lookup_lt_Some in Hk; lia|].
    exists k, rc0. rewrite Hkb. split; [exact Hk|]. split; [exact Hm|].
    split; [exact Hrc0|]. apply Hdone; [exact Hk|now rewrite Hkb]. }
  assert (Hlive : forall k j, fl !! k = Some false -> brow !! kept_before fl k = Some j ->
             0 <= j < Z.of_nat nu).
  { intros k j _ Hj. apply Hrng. eapply list_elem_of_lookup_2; eauto. }
  assert (HlpS : lp_rowset (bb_lp S) = []) by (apply restore_deletes_all; exact Hdel).
  destruct (add_pending_total S) as (bbipB & HrunB & HB).
  - unfold lp_num_rows. rewrite HlpS. reflexivity.
  - cbn. lia.
  - cbn. lia.
  - intros i Hi. cbn in Hi.
    destruct (Hslot i ltac:(lia)) as (k & rc0 & Hk & Hj & Hrc0 & Hl).
    exists k, (replay_row fl nu k (unload rc0)). split; [exact Hl|].
    split; [now apply Hrsk|].
    rewrite replay_row_live by (auto; now apply kept_before_live).
    split; [reflexivity|].
    apply (row_loadable_ext rc0); [| |now apply (Hrec k)];
      unfold unload; destruct (0 <=? lprow rc0); reflexivity.
  - intros i i' k Hi Hi' Hl Hl'. cbn in Hi, Hi', Hl, Hl'.
    destruct (Hslot i ltac:(lia)) as (k1 & rc1 & Hk1 & Hj1 & _ & Hl1).
    destruct (Hslot i' ltac:(lia)) as (k2 & rc2 & Hk2 & Hj2 & _ & Hl2).
    rewrite Hl1 in Hl. rewrite Hl2 in Hl'.
    assert (k1 = k2) by (apply Nat2Z.inj; congruence). subst k2. congruence.
  - rewrite HrunB. cbn [bind]. eexists. split; [reflexivity|].
    destruct HB as (Bnode & Bnl & Bnp & Blpr & Blen & Bdone & Brest & Bbasis
                    & new & Bnew & Bnewl & Bnewr).
    cbn [bb_cpool bb_lp S pending_state set_bb_cpool set_bb_lp rows lprows nlprows npend
         set_npend set_lprows set_rows set_nlprows] in Bnl, Bnp, Blpr, Blen, Bdone, Brest,
         Bnewl, Bnewr.
    rewrite HlpS in Bnew. cbn [app] in Bnew.
    assert (Hrows : rows (bb_cpool bbipB) = imap (restored_row fl brow) (rows pool)).
    { apply list_eq. intros k. rewrite list_lookup_imap.
      destruct (rows pool !! k) as [rc0|] eqn:Hrc0; cbn.
      - destruct (decide (fl !! k = Some false)) as [Hk|Hk].
        + pose proof (kept_before_live fl k Hk) as Hkl.
          destruct (lookup_lt_is_Some_2 brow (kept_before fl k) ltac:(lia)) as [j Hj].
          pose proof (Hlive k j Hk Hj) as Hjr.
          rewrite (Bdone j k _ ltac:(lia) (Hdone k j Hk Hj) (Hrsk k rc0 Hrc0)).
          f_equal. rewrite replay_row_live by auto.
          unfold restored_row. rewrite Hk, Hj. cbn [default].
          destruct rc0 as [a1 a2 a3 a4 a5 a6 a7 a8 a9]. unfold unload. cbn.
          destruct (0 <=? a4); reflexivity.
        + rewrite (Brest k _ (Hrsk k rc0 Hrc0)).
          * f_equal. rewrite replay_row_other by exact Hk.
            rewrite unload_eq by (now apply (Hneg k)).
            unfold restored_row. destruct (fl !! k) as [[]|]; congruence.
          * intros i Hi Hl.
            destruct (Hslot i ltac:(lia)) as (k1 & rc1 & Hk1 & _ & _ & Hl1).
            rewrite Hl1 in Hl. injection Hl as Hkk. apply Nat2Z.inj in Hkk. congruence.
      - apply lookup_ge_None. rewrite Blen. unfold rs.
        rewrite length_imap, length_fmap. now apply lookup_ge_None. }
    assert (Hlprows : forall k rc j, rows pool !! k = Some rc -> fl !! k = Some false ->
               brow !! kept_before fl k = Some j ->
               exists lr, new !! Z.to_nat j = Some lr /\ row_in_lp rc lr).
    { intros k rc0 j Hrc0 Hk Hj. pose proof (Hlive k j Hk Hj) as Hjr.
      destruct (Bnewr j k _ ltac:(lia) (Hdone k j Hk Hj) (Hrsk k rc0 Hrc0))
        as (lr & Hn & Hlr).
      exists lr. rewrite Z.sub_0_r in Hn. split; [exact Hn|].
      apply (row_in_lp_coefs (replay_row fl nu k (unload rc0))); [|exact Hlr].
      rewrite replay_row_live by (auto; now apply kept_before_live).
      unfold unload. destruct (0 <=? lprow rc0); reflexivity. }
    unfold restored. fold pool nu.
    destruct (nd_basis nodep) as [bs|] eqn:Hbs;
      cbn [bb_cpool bb_lp set_bb_lp set_current_basis lp_rowset lp_basis basis_valid bb_node].
    + rewrite Bnew, Bnl, Bnp, Blpr, Hrows, Bnewl, Bnode.
      split; [reflexivity|]. split; [lia|]. split; [reflexivity|].
      split; [exact Hdone|]. split; [lia|]. split; [exact Hlprows|].
      split; [|reflexivity]. intros bs' [= <-]. split; reflexivity.
    + rewrite Bnew, Bnl, Bnp, Blpr, Hrows, Bnewl, Bnode.
      split; [reflexivity|]. split; [lia|]. split; [reflexivity|].
      split; [exact Hdone|]. split; [lia|]. split; [exact Hlprows|].
      split; [|reflexivity]. intros bs'. discriminate.
Qed.

End Restore.

(** *** Save, then restore *)

(** The state in which a node is suspended: as [restore_ready], and every
    loaded row stands in the LP as [_gst_add_pending_rows_to_LP] put it
    there. *)
Definition save_ready (bbip : bbinfo) : Prop :=
  let p := bb_cpool bbip in
  restore_ready bbip /\ nlprows p <= maxrows p /\
  forall k rc, rows p !! k = Some rc -> 0 <= lprow rc ->
    exists lr, lp_rowset (bb_lp bbip) !! Z.to_nat (lprow rc) = Some lr /\
               row_in_lp rc lr /\ len rc = Z.of_nat (length (lr_mat lr)).

(** From [bbip1] to [bbip2] rows were loaded into the LP or deleted from it,
    and nothing else happened to the pool. *)
Definition lp_changed (bbip1 bbip2 : bbinfo) : Prop :=
  restore_ready bbip2 /\
  maxrows (bb_cpool bbip2) = maxrows (bb_cpool bbip1) /\
  Forall2 (fun a b => b = set_lprow (lprow b) a)
          (rows (bb_cpool bbip1)) (rows (bb_cpool bbip2)).

Lemma saved_snapshot_valid (bbip bbip2 : bbinfo) (nd : bbnode) (uids brow : list Z) :
  let p := bb_cpool bbip in
  let fl := unloaded_flags (rows p) in
  save_ready bbip ->
  length uids = live_count fl -> length brow = live_count fl ->
  (forall k rc, rows (bb_cpool bbip) !! k = Some rc -> 0 <= lprow rc ->
     uids !! kept_before fl k = Some (uid rc) /\
     brow !! kept_before fl k = Some (lprow rc)) ->
  lp_changed (set_bb_cpool (set_rows (bump <$> rows p) p) bbip) bbip2 ->
  snapshot_valid
    (set_saved (nlprows p) (Some uids) (Some brow) (Some (lp_basis (bb_lp bbip))) nd)
    (bb_cpool bbip2) fl uids brow.
Proof.
  intros p fl. subst p.
  intros ((Hcnt & Hok & Hnp & Hneg & Huid & Hmax) & Hroom & Hin) Hlu Hlb Hrec
         (_ & Hmax2 & Hsame).
  cbn [bb_cpool set_bb_cpool rows set_rows maxrows] in Hmax2, Hsame.
  pose proof (loaded_count _ Hok) as Hn. fold fl in Hn.
  destruct Hok as ([Hn0 Hnl] & Hlp & Hrow).
  assert (Hlive : forall k, fl !! k = Some false ->
             exists rc, rows (bb_cpool bbip) !! k = Some rc /\ 0 <= lprow rc).
  { intros k Hk. apply unloaded_flags_lookup in Hk as (rc & Hrc & Hl).
    exists rc. split; [exact Hrc|]. now apply Z.ltb_ge. }
  assert (Hbrow : forall m v, brow !! m = Some v ->
             exists k rc, rows (bb_cpool bbip) !! k = Some rc /\ 0 <= lprow rc /\
                          kept_before fl k = m /\ lprow rc = v).
  { intros m v Hm. pose proof (lookup_lt_Some _ _ _ Hm) as Hmlt.
    destruct (kept_before_surj fl m ltac:(lia)) as (k & Hk & Hkb).
    destruct (Hlive k Hk) as (rc & Hrc & Hl).
    destruct (Hrec k rc Hrc Hl) as [_ Hb]. rewrite Hkb, Hm in Hb. injection Hb as ->.
    eauto 10. }
  unfold snapshot_valid. cbn [bc_uids bc_row n_uids set_saved].
  split; [reflexivity|]. split; [reflexivity|]. split; [lia|]. split; [lia|].
  split; [|split; [exact Hlu|split; [exact Hlb|split; [|split]]]].
  - apply Forall2_length in Hsame. rewrite length_fmap in Hsame.
    unfold fl, unloaded_flags. rewrite length_fmap. exact Hsame.
  - apply NoDup_alt. intros a b v Ha Hb.
    destruct (Hbrow a v Ha) as (ka & rca & Hrca & Hla & <- & Hva).
    destruct (Hbrow b v Hb) as (kb & rcb & Hrcb & Hlb' & <- & Hvb).
    destruct (Hrow ka rca Hrca Hla) as [_ Ea].
    destruct (Hrow kb rcb Hrcb Hlb') as [_ Eb].
    rewrite Hva in Ea. rewrite Hvb, Ea in Eb. injection Eb as Ek.
    apply Nat2Z.inj in Ek. now subst kb.
  - intros v Hv. apply list_elem_of_lookup_1 in Hv as (m & Hm).
    destruct (Hbrow m v Hm) as (k & rc & Hrc & Hl & _ & <-).
    destruct (Hrow k rc Hrc Hl) as [Hlt _]. lia.
  - intros k rc2 Hrc2 Hk. destruct (Hlive k Hk) as (rc & Hrc & Hl).
    destruct (Forall2_lookup_r _ _ _ _ _ Hsame Hrc2) as (rc1 & Hrc1 & E).
    rewrite list_lookup_fmap, Hrc in Hrc1. injection Hrc1 as <-.
    rewrite E. cbn [set_lprow uid]. split.
    + destruct (Hrec k rc Hrc Hl) as [Hu _]. rewrite Hu. f_equal.
      unfold bump. destruct (lprow rc <? 0); reflexivity.
    + destruct (Hin k rc Hrc Hl) as (lr & _ & Hlr & Hlen).
      apply (row_loadable_ext rc); [| |exists lr; auto];
        cbn; unfold bump; destruct (lprow rc <? 0); reflexivity.
Qed.

(** C1.  A node is suspended in a state [bbip] whose loaded rows agree with
    the LP.  [_gst_save_node_basis] returns, and raises the reference count
    of every loaded row by one.  Let rows then be loaded into the LP and
    deleted from it, up to a state [bbip2].  When [_gst_restore_node_basis]
    is called there, it hands [delete_row_set] an array of [n] flags for an
    LP of [n] rows, while the flag of the last LP row is entry [n]:

    - if the LP is empty, or the word after the array is not zero, every
      LP row is deleted and the restore puts the pool and the LP back as
      they were at the save: the same headers (so the same rows loaded, at
      the same LP positions, with the reference counts of before the save),
      the same entries of [lprows], the same LP rows and the same basis;
    - if the LP is not empty and that word is zero, the last LP row is not
      deleted and the run ends in [_gst_add_pending_rows_to_LP] on the row
      count. *)
Theorem restore_node_basis_past_rowflags (bbip : bbinfo) :
  save_ready bbip ->
  exists nodep bbip1,
    _gst_save_node_basis (bb_node bbip) bbip = Ok (nodep, bbip1) /\
    rows (bb_cpool bbip1) = bump <$> rows (bb_cpool bbip) /\
    forall bbip2, lp_changed bbip1 bbip2 ->
      (lp_rowset (bb_lp bbip2) <> [] ->
       _gst_restore_node_basis 0 nodep bbip2 = Fatal) /\
      forall past_end, lp_rowset (bb_lp bbip2) = [] \/ past_end <> 0 ->
        exists nodep' bbip',
          _gst_restore_node_basis past_end nodep bbip2 = Ok (nodep', bbip') /\
          rows (bb_cpool bbip') = rows (bb_cpool bbip) /\
          nlprows (bb_cpool bbip') = nlprows (bb_cpool bbip) /\
          npend (bb_cpool bbip') = 0 /\
          take (Z.to_nat (nlprows (bb_cpool bbip))) (lprows (bb_cpool bbip')) =
            take (Z.to_nat (nlprows (bb_cpool bbip))) (lprows (bb_cpool bbip)) /\
          lp_rowset (bb_lp bbip') = lp_rowset (bb_lp bbip) /\
          lp_basis (bb_lp bbip') = lp_basis (bb_lp bbip).
Proof.
  intros Hsv.
  pose proof Hsv as ((Hcnt & Hok & Hnp & Hneg & Huid & Hmax) & Hroom & Hin).
  destruct (save_node_basis_spec (bb_node bbip) bbip Hcnt Hok)
    as (uids & brow & Hsave & Hlu & Hlb & Hrec).
  set (fl := unloaded_flags (rows (bb_cpool bbip))) in *.
  eexists _, _. split; [exact Hsave|]. split; [reflexivity|].
  intros bbip2 Hch.
  pose proof (saved_snapshot_valid bbip bbip2 (bb_node bbip) uids brow
                Hsv Hlu Hlb Hrec Hch) as Hvalid.
  destruct Hch as (Hready2 & Hmax2 & Hsame).
  cbn [bb_cpool set_bb_cpool rows set_rows] in Hsame.
  split; [intros Hne; now apply (restore_fatal _ _ fl uids brow)|].
  intros past_end Hdel.
  destruct (restore_total _ _ fl uids brow Hready2 Hvalid past_end Hdel)
    as (bbip' & Hrun & Hrows & Hnl & Hnp' & Hlpr & Hlen & Hlp & Hbasis & _).
  pose proof (loaded_count _ Hok) as Hn. fold fl in Hn.
  destruct Hok as ([Hn0 Hnlen] & Hlprows & Hrow).
  assert (Hflk : forall k rc, rows (bb_cpool bbip) !! k = Some rc ->
             fl !! k = Some (lprow rc <? 0)).
  { intros k rc H. apply unloaded_flags_lookup. eauto. }
  eexists _, bbip'. split; [exact Hrun|].
  split; [|split; [lia|split; [exact Hnp'|split; [|split]]]].
  - rewrite Hrows. apply list_eq. intros k. rewrite list_lookup_imap.
    destruct (rows (bb_cpool bbip2) !! k) as [rc2|] eqn:Hrc2; cbn.
    + destruct (Forall2_lookup_r _ _ _ _ _ Hsame Hrc2) as (rc1 & Hrc1 & E).
      rewrite list_lookup_fmap in Hrc1.
      destruct (rows (bb_cpool bbip) !! k) as [rc|] eqn:Hrc; [|discriminate].
      injection Hrc1 as <-. f_equal. unfold restored_row. rewrite (Hflk k rc Hrc).
      destruct (Z.ltb_spec (lprow rc) 0) as [Hl|Hl].
      * rewrite E. pose proof (Hneg k rc Hrc Hl) as Hm1.
        unfold bump. destruct (Z.ltb_spec (lprow rc) 0); [|lia].
        destruct rc as [a1 a2 a3 a4 a5 a6 a7 a8 a9]. cbn in *. now subst a4.
      * destruct (Hrec k rc Hrc Hl) as [_ Hb]. rewrite Hb, E. cbn [default].
        unfold bump. destruct (Z.ltb_spec (lprow rc) 0); [lia|].
        destruct rc as [a1 a2 a3 a4 a5 a6 a7 a8 a9].
        unfold set_lprow, set_refc. cbn. f_equal. lia.
    + symmetry. apply lookup_ge_None. apply lookup_ge_None in Hrc2.
      apply Forall2_length in Hsame. rewrite length_fmap in Hsame. lia.
  - apply list_eq. intros q.
    destruct (decide (q < Z.to_nat (nlprows (bb_cpool bbip)))%nat) as [Hq|Hq];
      [|now rewrite !lookup_take_ge by lia].
    rewrite !lookup_take_lt by lia.
    destruct (Hlprows q Hq) as (row & rc & Hl & Hr0 & Hrc & Hlq).
    rewrite Hl. replace q with (Z.to_nat (lprow rc)) at 1 by lia.
    replace row with (Z.of_nat (Z.to_nat row)) by lia.
    apply Hlpr.
    + rewrite (Hflk _ rc Hrc). f_equal. apply Z.ltb_ge. lia.
    + apply (Hrec _ rc Hrc). lia.
  - apply list_eq. intros q.
    destruct (decide (q < Z.to_nat (nlprows (bb_cpool bbip)))%nat) as [Hq|Hq].
    + destruct (Hlprows q Hq) as (row & rc & Hl & Hr0 & Hrc & Hlq).
      destruct (Hin _ rc Hrc ltac:(lia)) as (lr & Hlr & Hrl & _).
      destruct (lookup_lt_is_Some_2 (rows (bb_cpool bbip2)) (Z.to_nat row))
        as [rc2 Hrc2].
      { apply Forall2_length in Hsame. rewrite length_fmap in Hsame.
        apply lookup_lt_Some in Hrc. lia. }
      destruct (Forall2_lookup_r _ _ _ _ _ Hsame Hrc2) as (rc1 & Hrc1 & E).
      rewrite list_lookup_fmap, Hrc in Hrc1. injection Hrc1 as <-.
      destruct (Hlp (Z.to_nat row) rc2 (lprow rc) Hrc2) as (lr' & Hlr' & Hrl').
      * rewrite (Hflk _ rc Hrc). f_equal. apply Z.ltb_ge. lia.
      * apply (Hrec _ rc Hrc). lia.
      * replace q with (Z.to_nat (lprow rc)) by lia. rewrite Hlr, Hlr'. f_equal.
        apply (row_in_lp_fun rc); [|exact Hrl].
        apply (row_in_lp_coefs rc2); [|exact Hrl'].
        rewrite E. cbn. unfold bump. destruct (lprow rc <? 0); reflexivity.
    + rewrite (proj2 (lookup_ge_None _ _)) by lia.
      symmetry. apply lookup_ge_None. unfold lp_num_rows in Hcnt. lia.
  - apply (Hbasis (lp_basis (bb_lp bbip))). reflexivity.
Qed.

(** A state with three rows: pool rows 0 and 1 are LP rows 1 and 0, pool
    row 2 is not loaded. *)
Definition resume_state : bbinfo :=
  let r (u : Z) (k : Z) :=
    mk_rcon 1 [mk_rcoef (RC_VAR_BASE + u) 1; mk_rcoef RC_OP_LE 1] (-1) k 0 0 0 u 0 in
  let l := mk_lp_row 1 REL_LE in
  mk_bbinfo
    (mk_LP [l [(1, 1)]; l [(0, 1)]] 2 true ([], []))
    (mk_cpool 3 [r 0 1; r 1 0; r 2 (-1)]
              8 3 [1; 0; 0; 0; 0; 0; 0; 0] 2 0 0 3
              (replicate (Z.to_nat CPOOL_HASH_SIZE) (-1)) 2 2)
    (mk_bbnode 2 1 (-1) [] 0 None None None)
    [1; 0; 1]%float.

(** The checks of [restore_ready] on a state that is given in full. *)
Ltac by_rows :=
  let k := fresh "k" in
  let rc := fresh "rc" in
  let H := fresh "H" in
  intros k rc H;
  repeat (destruct k as [|k]; [injection H as <-; cbn; intros; try lia|]);
  try discriminate H.

Lemma resume_state_ready : save_ready resume_state.
Proof.
  split; [split; [reflexivity|split; [|split; [reflexivity|split; [|split]]]]|split].
  - split; [cbn; lia|]. split.
    + intros i Hi. destruct i as [|[|i]]; [| |cbn in Hi; lia];
        eexists _, _; (split; [reflexivity|]; split; [|split; reflexivity]); lia.
    + by_rows; split; try lia; reflexivity.
  - by_rows.
  - apply (bool_decide_unpack _). vm_compute. reflexivity.
  - cbn. lia.
  - cbn. lia.
  - by_rows; eexists; (split; [reflexivity|]); split; try reflexivity;
      eexists; (split; [reflexivity|]); split; reflexivity.
Qed.

(** [restore_node_basis_past_rowflags] on [resume_state].  A restore that
    follows the save at once, with a zero after [rowflags], aborts.  When,
    after the save, pool row 2 is loaded (as LP row 2) and the slack rows are
    deleted, which removes LP rows 0 and 2 and moves pool row 0 to LP row 0,
    the restore meets an LP of one row: with a zero after [rowflags] it
    aborts, with a one it puts pool rows 0 and 1 back at LP rows 1 and 0. *)
Lemma restore_node_basis_past_rowflags_witness :
  save_ready resume_state /\
  exists nodep bbip1 pool2 bbip2 bbip3,
    _gst_save_node_basis (bb_node resume_state) resume_state = Ok (nodep, bbip1) /\
    refc <$> rows (bb_cpool bbip1) = [1; 1; 0] /\
    _gst_restore_node_basis 0 nodep bbip1 = Fatal /\
    _gst_mark_row_pending_to_LP (bb_cpool bbip1) 2 = Ok pool2 /\
    _gst_add_pending_rows_to_LP (set_bb_cpool pool2 bbip1) = Ok bbip2 /\
    _gst_delete_slack_rows_from_LP bbip2 = Ok bbip3 /\
    lprow <$> rows (bb_cpool bbip3) = [0; -1; -1] /\
    refc <$> rows (bb_cpool bbip3) = [1; 1; 0] /\
    lr_mat <$> lp_rowset (bb_lp bbip3) = [[(0, 1)]] /\
    lp_changed bbip1 bbip3 /\
    _gst_restore_node_basis 0 nodep bbip3 = Fatal /\
    exists nodep' bbip4,
      _gst_restore_node_basis 1 nodep bbip3 = Ok (nodep', bbip4) /\
      rows (bb_cpool bbip4) = rows (bb_cpool resume_state) /\
      lp_rowset (bb_lp bbip4) = lp_rowset (bb_lp resume_state) /\
      lp_basis (bb_lp bbip4) = lp_basis (bb_lp resume_state).
Proof.
  split; [exact resume_state_ready|].
  destruct (restore_node_basis_past_rowflags resume_state resume_state_ready)
    as (nodep & bbip1 & Hsave & _ & Hgen).
  exists nodep, bbip1.
  pose proof Hsave as Hs. vm_compute in Hs. injection Hs as <- <-.
  eexists _, _, _. split; [exact Hsave|].
  split; [reflexivity|]. split; [vm_compute; reflexivity|].
  split; [vm_compute; reflexivity|].
  split; [vm_compute; reflexivity|].
  split; [vm_compute; reflexivity|].
  split; [reflexivity|]. split; [reflexivity|]. split; [reflexivity|].
  match goal with
  | |- lp_changed ?a ?b /\ _ => assert (Hch : lp_changed a b)
  end.
  { clear Hgen Hsave.
    split; [|split; [reflexivity|repeat constructor]].
    split; [reflexivity|split; [|split; [reflexivity|split; [|split]]]].
    - split; [cbn; lia|]. split.
      + intros i Hi. destruct i as [|i]; [|cbn in Hi; lia].
        eexists _, _; (split; [reflexivity|]; split; [|split; reflexivity]); lia.
      + by_rows; split; try lia; reflexivity.
    - by_rows.
    - apply (bool_decide_unpack _). vm_compute. reflexivity.
    - cbn. lia. }
  split; [exact Hch|]. destruct (Hgen _ Hch) as [Hfatal Hok].
  split; [apply Hfatal; discriminate|].
  assert (H10 : 1 <> 0) by (clear; discriminate).
  destruct (Hok 1 (or_intror H10))
    as (nodep' & bbip4 & Hrun & Hrows & _ & _ & _ & Hlp & Hbasis).
  exists nodep', bbip4. auto.
Defined.

(** * Further properties of the code *)

(** ** Union-find ([cycle_check.c]) *)

(** X1.  [uf_union] against connectivity.  When the forest stands for the
    connectivity of the pairs [E], [uf_union (uf, x, y)] returns [FALSE]
    exactly when [x] and [y] are already connected by [E], and then the
    forest still stands for [E]; when it returns [TRUE] the forest stands
    for [E] with the pair [(x, y)] added. *)
Theorem uf_union_connects (R : Z) (fuel : nat) (uf : union_find_t)
    (E : list (Z * Z)) (x y : Z) :
  uf_ok R uf -> uf_models uf E ->
  0 <= x < Z.of_nat (length (parent uf)) -> 0 <= y < Z.of_nat (length (parent uf)) ->
  (Z.to_nat R <= fuel)%nat ->
  exists uf' ok,
    uf_union fuel uf x y = Ok (uf', ok) /\
    (ok = false <-> conn E x y) /\
    uf_models uf' (if ok then E ++ [(x, y)] else E) /\
    uf_ok (R + 1) uf' /\ length (parent uf') = length (parent uf).
Proof.
  intros Hok Hmod Hx Hy Hfuel.
  destruct (uf_union_spec R fuel uf x y Hok Hx Hy Hfuel)
    as (uf' & ok & rx & ry & Hrun & Hrx & Hry & Hflag & Hok' & Hlen & Hsame & Hnew).
  exists uf', ok. split; [exact Hrun|]. split; [|split; [|split; [exact Hok'|exact Hlen]]].
  - rewrite Hflag, negb_false_iff, Z.eqb_eq. split.
    + intros ->. apply (proj1 Hmod). exists ry. auto.
    + intros Hc.
      destruct (models_complete R uf E x y Hok Hmod Hc (or_introl Hx)) as (r & H1 & H2).
      rewrite (Root_det _ _ _ _ Hrx H1). apply (Root_det _ _ _ _ H2 Hry).
  - destruct ok.
    + destruct (Hnew eq_refl) as (a & b & Hab & Hroots).
      apply (models_union uf uf' E x y rx ry a b); auto.
    + destruct (Hsame eq_refl) as [_ Hroots]. apply (models_roots uf); auto.
Qed.

(** [uf_union_connects] on three fresh vertices: the first union of 0 and 1
    succeeds. *)
Lemma uf_union_connects_witness :
  uf_ok 0 (create_union_find 3) /\ uf_models (create_union_find 3) [] /\
  exists uf' ok,
    uf_union 0 (create_union_find 3) 0 1 = Ok (uf', ok) /\
    ok = true /\ parent uf' = [0; 0; 2] /\ rank uf' = [1; 0; 0] /\
    ~ conn [] 0 1 /\ uf_models uf' [(0, 1)].
Proof.
  destruct (create_union_find_ok 3) as (Hok & Hlen & Hmod).
  split; [exact Hok|]. split; [exact Hmod|].
  destruct (uf_union_connects 0 0 (create_union_find 3) [] 0 1 Hok Hmod)
    as (uf' & ok & Hrun & Hflag & Hmod' & _).
  - rewrite Hlen. lia.
  - rewrite Hlen. lia.
  - lia.
  - exists uf', ok. split; [exact Hrun|].
    vm_compute in Hrun. injection Hrun as <- <-.
    split; [reflexivity|]. split; [reflexivity|]. split; [reflexivity|].
    split; [|exact Hmod'].
    intros Hc. apply Hflag in Hc. discriminate.
Defined.

(** X2.  [uf_find] returns the representative.  When the forest stands for
    the connectivity of the pairs [E], [uf_find (uf, x)] returns the root [r]
    of [x]; afterwards [x] points at [r] directly (path compression), the
    ranks are as before, the forest still stands for [E], and the vertices
    whose root is [r] are exactly those connected to [x]. *)
Theorem uf_find_representative (R : Z) (fuel : nat) (uf : union_find_t)
    (E : list (Z * Z)) (x rx : Z) :
  uf_ok R uf -> uf_models uf E ->
  0 <= x -> rank uf !! Z.to_nat x = Some rx -> (Z.to_nat (R - rx) <= fuel)%nat ->
  exists uf' r,
    uf_find fuel uf x = Ok (uf', r) /\
    parent uf' !! Z.to_nat x = Some r /\ parent uf' !! Z.to_nat r = Some r /\
    rank uf' = rank uf /\ uf_ok R uf' /\ uf_models uf' E /\
    forall y, conn E x y <-> Root (parent uf') y r.
Proof.
  intros Hok Hmod Hx Hrk Hfuel.
  destruct (uf_find_spec R fuel uf x rx Hok Hx Hrk Hfuel)
    as (uf' & r & Hrun & Hroot & Hok' & Hrank & Hlen & Hiff).
  exists uf', r. split; [exact Hrun|].
  pose proof (proj1 (Hiff x r) Hroot) as Hroot'.
  split; [|split; [apply (Root_fix _ x), Hroot'|split; [exact Hrank|split; [exact Hok'|split]]]].
  - rewrite uf_find_unfold in Hrun. inv_bind Hrun. rename a into px.
    destruct (Z.eqb_spec px x) as [->|Hne]; cbn [negb] in Hrun.
    + injection Hrun as <- <-. apply aget_Ok_inv in Hm. tauto.
    + destruct fuel as [|fuel]; [discriminate|].
      inv_bind Hrun. destruct a as [uf1 r1]. inv_bind Hrun.
      injection Hrun as <- <-. cbn [parent].
      apply aset_Ok_inv in Hm1 as [Hb ->]. apply list_lookup_insert_eq. lia.
  - apply (models_roots uf); [exact Hmod|]. intros z rz. symmetry. apply Hiff.
  - intros y. split.
    + intros Hc. pose proof (Root_in _ _ _ Hroot) as Hin.
      destruct (models_complete R uf E x y Hok Hmod Hc (or_introl Hin)) as (r0 & H1 & H2).
      apply Hiff. now rewrite (Root_det _ _ _ _ Hroot H1).
    + intros Hy. apply (proj1 Hmod). exists r. split; [exact Hroot|]. now apply Hiff.
Qed.

(** The chain 0 -> 1 -> 2 with its ranks. *)
Definition chain_forest : union_find_t := mk_uf [1; 2; 2] [0; 1; 2] 3.

Lemma chain_forest_ok :
  uf_ok 2 chain_forest /\ uf_models chain_forest [(0, 1); (1, 2)].
Proof.
  assert (R2 : Root (parent chain_forest) 2 2) by (apply Root_here; [lia|reflexivity]).
  assert (R1 : Root (parent chain_forest) 1 2)
    by (apply (Root_step _ 1 2 2); [lia|reflexivity|lia|exact R2]).
  assert (R0 : Root (parent chain_forest) 0 2)
    by (apply (Root_step _ 0 1 2); [lia|reflexivity|lia|exact R1]).
  split; [split; [reflexivity|split; [|split]]|split].
  - intros x px H. destruct x as [|[|[|x]]]; cbn in H; try discriminate;
      injection H as <-; cbn; lia.
  - intros x r H. destruct x as [|[|[|x]]]; cbn in H; try discriminate;
      injection H as <-; lia.
  - intros x px r rp Hx Hp Hne Hr Hrp.
    assert (Hc : x = 0 \/ x = 1 \/ x = 2).
    { apply lookup_lt_Some in Hp. cbn in Hp. lia. }
    destruct Hc as [->|[->| ->]]; cbn in Hp; injection Hp as <-; cbn in Hr, Hrp;
      try injection Hr as <-; try injection Hrp as <-; lia.
  - intros a b (r & Ha & Hb).
    assert (C01 : conn [(0, 1); (1, 2)] 0 1) by (apply conn_edge; constructor).
    assert (C12 : conn [(0, 1); (1, 2)] 1 2) by (apply conn_edge; do 2 constructor).
    assert (C2 : forall v, 0 <= v < 3 -> conn [(0, 1); (1, 2)] v 2).
    { intros v Hv. assert (Hc : v = 0 \/ v = 1 \/ v = 2) by lia.
      destruct Hc as [->|[->| ->]];
        [apply (conn_trans _ 0 1 2); auto|auto|apply conn_refl]. }
    apply Root_in in Ha, Hb. cbn in Ha, Hb.
    apply (conn_trans _ a 2 b); [apply C2; lia|apply conn_sym, C2; lia].
  - intros a b Hab. exists 2.
    apply elem_of_cons in Hab as [[= -> ->]|Hab]; [auto|].
    apply elem_of_cons in Hab as [[= -> ->]|Hab]; [auto|]. inversion Hab.
Qed.

(** [uf_find_representative] on the chain 0 -> 1 -> 2: the root of 0 is 2
    and the search leaves 0 pointing at 2. *)
Lemma uf_find_representative_witness :
  uf_ok 2 chain_forest /\ uf_models chain_forest [(0, 1); (1, 2)] /\
  exists uf' r,
    uf_find 2 chain_forest 0 = Ok (uf', r) /\
    r = 2 /\ parent uf' = [2; 2; 2] /\
    parent uf' !! Z.to_nat 0 = Some r /\ uf_models uf' [(0, 1); (1, 2)].
Proof.
  destruct chain_forest_ok as [Hok Hmod].
  split; [exact Hok|]. split; [exact Hmod|].
  destruct (uf_find_representative 2 2 chain_forest [(0, 1); (1, 2)] 0 0 Hok Hmod)
    as (uf' & r & Hrun & Hx & _ & _ & _ & Hmod' & _).
  - lia.
  - reflexivity.
  - lia.
  - exists uf', r. split; [exact Hrun|].
    pose proof Hrun as Hc. vm_compute in Hc. injection Hc as <- <-.
    split; [reflexivity|]. split; [reflexivity|]. split; [exact Hx|exact Hmod'].
Defined.

(** ** [reduce_constraint]: when it aborts, and what a second run does *)

Lemma common_factor_cons (g0 : Z) (p : rcoef) (ps : list rcoef) :
  common_factor g0 (p :: ps) =
  let! k := positive_part (val p) in
  let! g := euclid (S (Z.to_nat g0)) k g0 in
  if g =? 1 then Ok None
  else if var p <? RC_VAR_BASE then Ok (Some g)
  else common_factor g ps.
Proof. reflexivity. Qed.

Lemma positive_part_zero : positive_part 0 = Fatal.
Proof. reflexivity. Qed.

(** A zero value stands in the row after values whose greatest common
    divisor (with [g]) is not one. *)
Definition zero_hit (g : Z) (cs : list rcoef) : Prop :=
  exists i c, cs !! i = Some c /\ val c = 0 /\ Z.gcd g (list_gcd (take i cs)) <> 1.

Lemma zero_hit_cons (g : Z) (p : rcoef) (cs : list rcoef) :
  zero_hit g (p :: cs) <->
  (val p = 0 /\ Z.abs g <> 1) \/ zero_hit (Z.gcd g (val p)) cs.
Proof.
  unfold zero_hit. split.
  - intros (i & c & Hc & Hz & Hg). destruct i as [|i].
    + injection Hc as <-. left. split; [exact Hz|].
      cbn in Hg. now rewrite Z.gcd_0_r in Hg.
    + right. exists i, c. split; [exact Hc|]. split; [exact Hz|].
      cbn in Hg. now rewrite Z.gcd_assoc in Hg.
  - intros [[Hz Hg]|(i & c & Hc & Hz & Hg)].
    + exists 0%nat, p. split; [reflexivity|]. split; [exact Hz|].
      cbn. now rewrite Z.gcd_0_r.
    + exists (S i), c. split; [exact Hc|]. split; [exact Hz|].
      cbn. now rewrite Z.gcd_assoc.
Qed.

Lemma zero_hit_unit (cs : list rcoef) : ~ zero_hit 1 cs.
Proof. intros (i & c & _ & _ & Hg). now rewrite Z.gcd_1_l in Hg. Qed.

Lemma common_factor_outcome (ps : list rcoef) :
  forall g0 : Z,
    0 < g0 -> g0 <> 1 ->
    Forall (fun c => INT_MIN < val c <= INT_MAX) (row_full ps) ->
    row_end ps <> None ->
    (zero_hit g0 (row_full ps) /\ common_factor g0 ps = Fatal) \/
    (~ zero_hit g0 (row_full ps) /\ exists r, common_factor g0 ps = Ok r).
Proof.
  induction ps as [|p ps IH]; intros g0 Hg0 Hg1 Hr He; [now cbn in He|].
  rewrite common_factor_cons.
  assert (Hp : INT_MIN < val p <= INT_MAX).
  { cbn [row_full] in Hr. destruct (var p <? RC_VAR_BASE);
      now apply Forall_inv in Hr. }
  destruct (Z.eq_dec (val p) 0) as [Hz|Hnz].
  - left. rewrite Hz, positive_part_zero. split; [|reflexivity].
    cbn [row_full]. destruct (var p <? RC_VAR_BASE);
      apply zero_hit_cons; left; split; auto; lia.
  - rewrite (positive_part_nonzero _ Hp Hnz). cbn [bind].
    rewrite euclid_gcd by lia. cbn [bind].
    assert (Hgcd : Z.gcd (Z.abs (val p)) g0 = Z.gcd g0 (val p))
      by (rewrite Z.gcd_abs_l; apply Z.gcd_comm).
    rewrite Hgcd.
    assert (Hpos : 0 < Z.gcd g0 (val p)).
    { pose proof (Z.gcd_nonneg g0 (val p)).
      destruct (Z.eq_dec (Z.gcd g0 (val p)) 0) as [E|]; [|lia].
      apply Z.gcd_eq_0_l in E. lia. }
    cbn [row_full] in *. cbn [row_end] in He.
    destruct (Z.eqb_spec (Z.gcd g0 (val p)) 1) as [E1|N1].
    + right. split; [|eauto].
      destruct (var p <? RC_VAR_BASE); rewrite zero_hit_cons;
        intros [[Hz _]|Hh]; try contradiction;
        rewrite E1 in Hh; now apply zero_hit_unit in Hh.
    + destruct (var p <? RC_VAR_BASE) eqn:Ev.
      * right. split; [|eauto]. rewrite zero_hit_cons.
        intros [[Hz _]|(i & c & Hc & _)]; [contradiction|]. destruct i; discriminate.
      * apply Forall_inv_tail in Hr.
        destruct (IH _ Hpos N1 Hr He) as [[Hh Hf]|[Hh Hk]].
        -- left. split; [|exact Hf]. apply zero_hit_cons. now right.
        -- right. split; [|exact Hk]. rewrite zero_hit_cons.
           intros [[Hz _]|Hh']; contradiction.
Qed.

Lemma reduce_constraint_outcome (rp : list rcoef) :
  row_nonempty rp -> row_in_range rp -> row_end rp <> None ->
  (zero_hit 0 (row_full rp) /\ reduce_constraint rp = Fatal) \/
  (~ zero_hit 0 (row_full rp) /\ exists rp', reduce_constraint rp = Ok rp').
Proof.
  intros Hne Hr He. destruct rp as [|p0 ps]; [contradiction|].
  cbn [row_nonempty] in Hne. unfold row_in_range in Hr.
  cbn [row_full row_end] in *.
  destruct (Z.ltb_spec (var p0) RC_VAR_BASE) as [|_]; [lia|].
  pose proof (Forall_inv Hr) as Hp0. pose proof (Forall_inv_tail Hr) as Hrest.
  cbn beta in Hp0.
  unfold reduce_constraint.
  destruct (Z.eq_dec (val p0) 0) as [Hz|Hnz].
  - left. rewrite Hz, positive_part_zero. split; [|reflexivity].
    apply zero_hit_cons. left. split; auto; lia.
  - rewrite (positive_part_nonzero _ Hp0 Hnz). cbn [bind].
    destruct (Z.eqb_spec (Z.abs (val p0)) 1) as [E1|N1].
    + right. split; [|eauto]. rewrite zero_hit_cons.
      intros [[Hz _]|Hh]; [contradiction|].
      rewrite Z.gcd_0_l, E1 in Hh. now apply zero_hit_unit in Hh.
    + destruct (common_factor_outcome ps (Z.abs (val p0)) ltac:(lia) N1 Hrest He)
        as [[Hh Hf]|[Hh (r & Hk)]].
      * left. rewrite Hf. split; [|reflexivity].
        apply zero_hit_cons. right. now rewrite Z.gcd_0_l.
      * right. split.
        -- rewrite zero_hit_cons. intros [[Hz _]|Hh']; [contradiction|].
           now rewrite Z.gcd_0_l in Hh'.
        -- rewrite Hk. cbn [bind]. destruct r as [g|]; [|eauto].
           pose proof (common_factor_spec ps (Z.abs (val p0)) (Some g) ltac:(lia) Hrest Hk)
             as [Hg Hg1].
           cbn beta iota in Hg. rewrite Z.gcd_abs_l in Hg. subst g.
           exists (scale_down (Z.gcd (val p0) (list_gcd (row_full ps))) (p0 :: ps)).
           apply divide_row_spec.
           ++ pose proof (Z.gcd_nonneg (val p0) (list_gcd (row_full ps))).
              destruct (Z.eq_dec (Z.gcd (val p0) (list_gcd (row_full ps))) 0) as [E|];
                [|lia].
              apply Z.gcd_eq_0_l in E. contradiction.
           ++ cbn [row_full]. destruct (Z.ltb_spec (var p0) RC_VAR_BASE); [lia|].
              apply row_gcd_divides_all.
           ++ cbn [row_end]. destruct (Z.ltb_spec (var p0) RC_VAR_BASE); [lia|exact He].
Qed.

(** X3.  [reduce_constraint] aborts exactly on a zero that it reaches.  For
    a row that ends in an operator entry, the run is fatal if and only if
    some value of the row (a coefficient or the right-hand side) is zero and
    the values before it do not have the greatest common divisor one; so a
    zero first coefficient always aborts, a zero behind a coefficient of one
    never does.  Every other row is reduced. *)
Theorem reduce_constraint_aborts_on_zero (rp : list rcoef) :
  row_nonempty rp -> row_in_range rp -> row_end rp <> None ->
  (reduce_constraint rp = Fatal <->
   exists i c, row_full rp !! i = Some c /\ val c = 0 /\
               list_gcd (take i (row_full rp)) <> 1) /\
  (reduce_constraint rp <> Fatal -> exists rp', reduce_constraint rp = Ok rp').
Proof.
  intros Hne Hr He.
  assert (Hz : zero_hit 0 (row_full rp) <->
               exists i c, row_full rp !! i = Some c /\ val c = 0 /\
                           list_gcd (take i (row_full rp)) <> 1).
  { unfold zero_hit. split; intros (i & c & Hc & Hv & Hg); exists i, c;
      (split; [exact Hc|split; [exact Hv|]]);
      rewrite Z.gcd_0_l, Z.abs_eq in * by apply list_gcd_nonneg; exact Hg. }
  rewrite <- Hz.
  destruct (reduce_constraint_outcome rp Hne Hr He) as [[Hh Hf]|[Hh (rp' & Hk)]].
  - split; [tauto|]. intros H. contradiction.
  - split; [|eauto]. rewrite Hk. split; [discriminate|contradiction].
Qed.

(** The row [2 x0 - 2 x1 <= 0]. *)
Definition row_2_m2_le_0 : list rcoef :=
  [mk_rcoef (RC_VAR_BASE + 0) 2; mk_rcoef (RC_VAR_BASE + 1) (-2); mk_rcoef RC_OP_LE 0].

(** [reduce_constraint_aborts_on_zero] on [2 x0 - 2 x1 <= 0]: the zero
    right-hand side is reached with the common factor 2, and the run aborts;
    [x0 - x1 <= 0] is returned as it is. *)
Lemma reduce_constraint_aborts_on_zero_witness :
  row_nonempty row_2_m2_le_0 /\ row_in_range row_2_m2_le_0 /\
  row_end row_2_m2_le_0 <> None /\
  reduce_constraint row_2_m2_le_0 = Fatal /\
  (exists i c, row_full row_2_m2_le_0 !! i = Some c /\ val c = 0 /\
               list_gcd (take i (row_full row_2_m2_le_0)) <> 1) /\
  reduce_constraint
    [mk_rcoef (RC_VAR_BASE + 0) 1; mk_rcoef (RC_VAR_BASE + 1) (-1); mk_rcoef RC_OP_LE 0]
  = Ok [mk_rcoef (RC_VAR_BASE + 0) 1; mk_rcoef (RC_VAR_BASE + 1) (-1); mk_rcoef RC_OP_LE 0].
Proof.
  assert (H1 : row_nonempty row_2_m2_le_0) by (cbn; lia).
  assert (H2 : row_in_range row_2_m2_le_0)
    by (repeat constructor; cbn; unfold INT_MIN, INT_MAX; lia).
  assert (H3 : row_end row_2_m2_le_0 <> None) by discriminate.
  split; [exact H1|]. split; [exact H2|]. split; [exact H3|].
  destruct (reduce_constraint_aborts_on_zero row_2_m2_le_0 H1 H2 H3) as [Hiff _].
  assert (Hf : reduce_constraint row_2_m2_le_0 = Fatal) by reflexivity.
  split; [exact Hf|]. split; [exact (proj1 Hiff Hf)|reflexivity].
Defined.

Lemma row_full_scale_down (g : Z) (rp : list rcoef) :
  row_full (scale_down g rp) = (fun c => mk_rcoef (var c) (val c / g)) <$> row_full rp.
Proof.
  induction rp as [|c rp IH]; [reflexivity|].
  cbn [scale_down row_full var]. destruct (var c <? RC_VAR_BASE); [reflexivity|].
  cbn [fmap list_fmap]. now rewrite IH.
Qed.

Lemma row_end_scale_down (g : Z) (rp : list rcoef) :
  row_end rp <> None -> row_end (scale_down g rp) <> None.
Proof.
  induction rp as [|c rp IH]; [auto|].
  cbn [scale_down row_end var]. destruct (var c <? RC_VAR_BASE); [discriminate|exact IH].
Qed.

Lemma list_gcd_multiple (g : Z) (l : list rcoef) :
  Forall (fun c => (g | val c)) l -> (g | list_gcd l).
Proof.
  induction 1 as [|c l Hc _ IH]; cbn; [apply Z.divide_0_r|now apply Z.gcd_greatest].
Qed.

Lemma list_gcd_scaled (g : Z) (l : list rcoef) :
  0 < g -> Forall (fun c => (g | val c)) l ->
  list_gcd ((fun c => mk_rcoef (var c) (val c / g)) <$> l) * g = list_gcd l.
Proof.
  intros Hg. induction 1 as [|c l Hc _ IH]; [reflexivity|].
  cbn [fmap list_fmap].
  change (Z.gcd (val c / g) (list_gcd ((fun c => mk_rcoef (var c) (val c / g)) <$> l)) * g
          = Z.gcd (val c) (list_gcd l)).
  rewrite <- IH.
  assert (E : val c = val c / g * g)
    by (destruct Hc as [q ->]; now rewrite Z.div_mul by lia).
  rewrite E at 2.
  rewrite Z.gcd_mul_mono_r, Z.abs_eq by lia. reflexivity.
Qed.

(** X4.  [reduce_constraint] is idempotent.  A row that the routine has
    reduced has the greatest common divisor one, and a second run returns
    it as it is. *)
Theorem reduce_constraint_idempotent (rp rp' : list rcoef) :
  row_nonempty rp -> row_in_range rp -> row_end rp <> None ->
  reduce_constraint rp = Ok rp' ->
  reduce_constraint rp' = Ok rp' /\ row_gcd rp' = 1.
Proof.
  intros Hne Hr He Hrun.
  destruct (reduce_constraint_spec rp rp' Hne Hr He Hrun) as [Hg Hrp'].
  assert (Hdiv : Forall (fun c => (row_gcd rp | val c)) (row_full rp)).
  { apply Forall_forall. intros c Hc. now apply list_gcd_divides. }
  assert (Hone : row_gcd rp' = 1).
  { unfold row_gcd. rewrite Hrp', row_full_scale_down.
    pose proof (list_gcd_scaled (row_gcd rp) (row_full rp) Hg Hdiv) as E.
    fold (row_gcd rp) in E. nia. }
  split; [|exact Hone].
  destruct (Z.eq_dec (row_gcd rp) 1) as [E1|N1].
  { rewrite E1, scale_down_1 in Hrp'. subst rp'. exact Hrun. }
  assert (Hnz : Forall (fun c => val c <> 0) (row_full rp)).
  { destruct (reduce_constraint_outcome rp Hne Hr He) as [[_ Hf]|[Hh _]];
      [congruence|].
    apply Forall_lookup_2. intros i c Hc Hz. apply Hh. exists i, c.
    split; [exact Hc|]. split; [exact Hz|].
    rewrite Z.gcd_0_l, Z.abs_eq by apply list_gcd_nonneg. intros E.
    assert (Hd : (row_gcd rp | list_gcd (take i (row_full rp)))).
    { apply list_gcd_multiple. apply Forall_take, Hdiv. }
    rewrite E in Hd. apply Z.divide_1_r_nonneg in Hd; lia. }
  assert (Hne' : row_nonempty rp').
  { subst rp'. destruct rp; [contradiction|exact Hne]. }
  assert (He' : row_end rp' <> None) by (subst rp'; now apply row_end_scale_down).
  assert (Hall : Forall (fun c => INT_MIN < val c <= INT_MAX /\ val c <> 0) (row_full rp')).
  { subst rp'. rewrite row_full_scale_down. apply Forall_fmap, Forall_lookup_2.
    intros i c Hc. cbn.
    pose proof (Forall_lookup_1 _ _ _ _ Hr Hc) as Hrc.
    pose proof (Forall_lookup_1 _ _ _ _ Hnz Hc) as Hzc.
    pose proof (Forall_lookup_1 _ _ _ _ Hdiv Hc) as [q Hq].
    cbn in Hrc, Hzc. rewrite Hq in *. rewrite Z.div_mul by lia.
    unfold INT_MIN, INT_MAX in *. nia. }
  destruct (reduce_constraint_total rp' Hne' He' Hall) as (rp'' & Hrun').
  assert (Hr' : row_in_range rp').
  { unfold row_in_range. apply Forall_forall. intros c Hc.
    apply (proj1 (Forall_forall _ _) Hall c Hc). }
  destruct (reduce_constraint_spec rp' rp'' Hne' Hr' He' Hrun') as [_ E].
  rewrite Hone, scale_down_1 in E. now subst rp''.
Qed.

(** [reduce_constraint_idempotent] on [6 x0 + 9 x1 + 15 x2 <= 30]. *)
Lemma reduce_constraint_idempotent_witness :
  row_nonempty row_6_9_15_le_30 /\ row_in_range row_6_9_15_le_30 /\
  row_end row_6_9_15_le_30 <> None /\
  reduce_constraint row_6_9_15_le_30 = Ok row_2_3_5_le_10 /\
  reduce_constraint row_2_3_5_le_10 = Ok row_2_3_5_le_10 /\
  row_gcd row_2_3_5_le_10 = 1.
Proof.
  assert (H1 : row_nonempty row_6_9_15_le_30) by (cbn; lia).
  assert (H2 : row_in_range row_6_9_15_le_30)
    by (repeat constructor; cbn; unfold INT_MIN, INT_MAX; lia).
  assert (H3 : row_end row_6_9_15_le_30 <> None) by discriminate.
  assert (H4 : reduce_constraint row_6_9_15_le_30 = Ok row_2_3_5_le_10) by reflexivity.
  split; [exact H1|]. split; [exact H2|]. split; [exact H3|]. split; [exact H4|].
  exact (reduce_constraint_idempotent _ _ H1 H2 H3 H4).
Defined.

(** ** [_gst_mark_row_pending_to_LP] *)

(** X5.  Marking a row pending.  A row number outside the pool aborts.  A
    call that returns leaves the row loaded or pending, changes no other
    header and none of the registered entries of [lprows], and registers at
    most one row more, at the end of the pending entries; a second call for
    the same row changes nothing.  On a row that is not in the LP, with room
    in [lprows], the call returns and the row is pending. *)
Theorem mark_row_pending_idempotent (pool : cpool) (row : Z) :
  (row < 0 \/ nrows pool <= row -> _gst_mark_row_pending_to_LP pool row = Fatal) /\
  (forall pool',
     _gst_mark_row_pending_to_LP pool row = Ok pool' ->
     _gst_mark_row_pending_to_LP pool' row = Ok pool' /\
     (exists rc rc', rows pool !! Z.to_nat row = Some rc /\
                     rows pool' !! Z.to_nat row = Some rc' /\
                     (0 <= lprow rc' \/ lprow rc' = -2) /\
                     rc' = set_lprow (lprow rc') rc) /\
     (forall k rc, k <> Z.to_nat row -> rows pool !! k = Some rc ->
                   rows pool' !! k = Some rc) /\
     (forall i, 0 <= i < nlprows pool + npend pool ->
                lprows pool' !! Z.to_nat i = lprows pool !! Z.to_nat i) /\
     nlprows pool' = nlprows pool /\
     (pool' = pool \/
      (npend pool' = npend pool + 1 /\
       lprows pool' !! Z.to_nat (nlprows pool + npend pool) = Some row))) /\
  (forall rc,
     0 <= row -> rows pool !! Z.to_nat row = Some rc -> lprow rc = -1 ->
     0 <= nlprows pool + npend pool < Z.of_nat (length (lprows pool)) ->
     exists pool' rc',
       _gst_mark_row_pending_to_LP pool row = Ok pool' /\
       rows pool' !! Z.to_nat row = Some rc' /\ lprow rc' = -2).
Proof.
  split; [|split].
  - intros H. unfold _gst_mark_row_pending_to_LP.
    destruct (Z.ltb_spec row 0); [reflexivity|].
    replace (row >=? nrows pool) with true
      by (symmetry; rewrite Z.geb_leb; apply Z.leb_le; lia).
    reflexivity.
  - intros pool' H. unfold _gst_mark_row_pending_to_LP in H.
    inv_fatal H. apply orb_false_iff in Hc as [Hlo Hhi].
    apply Z.ltb_ge in Hlo. rewrite Z.geb_leb in Hhi. apply Z.leb_gt in Hhi.
    inv_bind H. rename a into rc. apply aget_Ok_inv in Hm as [_ Hrc].
    destruct ((lprow rc >=? 0) || (lprow rc =? -2)) eqn:Est.
    + injection H as <-.
      assert (Hst : 0 <= lprow rc \/ lprow rc = -2).
      { apply orb_true_iff in Est as [E|E];
          [left; rewrite Z.geb_leb in E; now apply Z.leb_le in E
          |right; now apply Z.eqb_eq in E]. }
      split; [|split; [|split; [auto|split; [auto|split; [reflexivity|now left]]]]].
      * unfold _gst_mark_row_pending_to_LP.
        destruct (Z.ltb_spec row 0); [lia|].
        replace (row >=? nrows pool) with false
          by (symmetry; rewrite Z.geb_leb; apply Z.leb_gt; lia).
        cbn [orb fatal_if bind]. rewrite (aget_Ok _ _ _ Hlo Hrc). cbn [bind].
        now rewrite Est.
      * exists rc, rc. split; [exact Hrc|]. split; [exact Hrc|]. split; [exact Hst|].
        now destruct rc.
    + inv_fatal H. apply negb_false_iff, Z.eqb_eq in Hc.
      inv_bind H. apply aset_Ok_inv in Hm as [Hb ->].
      inv_bind H. apply aset_Ok_inv in Hm as [Hb' ->]. injection H as <-.
      cbn [rows lprows nlprows npend set_npend set_lprows set_rows].
      split; [|split; [|split; [|split; [|split; [reflexivity|right]]]]].
      * unfold _gst_mark_row_pending_to_LP.
        unfold nrows. cbn [rows set_npend set_lprows set_rows].
        rewrite length_insert.
        destruct (Z.ltb_spec row 0); [lia|].
        replace (row >=? Z.of_nat (length (rows pool))) with false
          by (symmetry; rewrite Z.geb_leb; apply Z.leb_gt; unfold nrows in Hhi; lia).
        cbn [orb fatal_if bind].
        rewrite (aget_Ok _ row (set_lprow (-2) rc))
          by (auto; apply list_lookup_insert_eq; lia).
        reflexivity.
      * exists rc, (set_lprow (-2) rc). split; [exact Hrc|].
        split; [apply list_lookup_insert_eq; lia|]. split; [now right|reflexivity].
      * intros k rck Hk Hrck. now rewrite list_lookup_insert_ne by lia.
      * intros i Hi. rewrite list_lookup_insert_ne by lia. reflexivity.
      * split; [reflexivity|]. apply list_lookup_insert_eq. lia.
  - intros rc Hrow Hrc Hst Hroom.
    destruct (mark_row_pending_total pool row rc Hrow Hrc Hst Hroom) as (pool' & Hrun).
    pose proof Hrun as H. unfold _gst_mark_row_pending_to_LP in H.
    inv_fatal H. inv_bind H. apply aget_Ok_inv in Hm as [_ Hrc'].
    rewrite Hrc in Hrc'. injection Hrc' as <-. rewrite Hst in H.
    cbn [Z.geb Z.compare Z.eqb orb] in H. inv_fatal H.
    inv_bind H. apply aset_Ok_inv in Hm as [Hb ->].
    inv_bind H. injection H as <-.
    eexists _, (set_lprow (-2) rc). split; [exact Hrun|].
    cbn [rows set_npend set_lprows set_rows].
    split; [apply list_lookup_insert_eq; lia|reflexivity].
Qed.

(** [mark_row_pending_idempotent] on the pool of [resume_state]: row 2
    becomes pending and is registered behind the two loaded rows; a second
    call returns the same pool; row 5 aborts. *)
Lemma mark_row_pending_idempotent_witness :
  exists pool',
    _gst_mark_row_pending_to_LP (bb_cpool resume_state) 2 = Ok pool' /\
    _gst_mark_row_pending_to_LP pool' 2 = Ok pool' /\
    lprow <$> rows pool' = [1; 0; -2] /\
    take 3 (lprows pool') = [1; 0; 2] /\ npend pool' = 1 /\
    _gst_mark_row_pending_to_LP (bb_cpool resume_state) 5 = Fatal.
Proof.
  destruct (mark_row_pending_idempotent (bb_cpool resume_state) 2) as (_ & Hidem & Htot).
  destruct (Htot (mk_rcon 1 [mk_rcoef (RC_VAR_BASE + 2) 1; mk_rcoef RC_OP_LE 1]
                          (-1) (-1) 0 0 0 2 0))
    as (pool' & rc' & Hrun & _); [lia|reflexivity|reflexivity|cbn; lia|].
  exists pool'. split; [exact Hrun|].
  destruct (Hidem pool' Hrun) as (Hagain & _). split; [exact Hagain|].
  vm_compute in Hrun. injection Hrun as <-.
  split; [reflexivity|]. split; [reflexivity|]. split; [reflexivity|].
  apply (proj1 (mark_row_pending_idempotent (bb_cpool resume_state) 5)).
  right. vm_compute. discriminate.
Defined.

(** ** [_gst_add_pending_rows_to_LP] *)

(** X6.  Loading the pending rows.  When the LP holds as many rows as the
    pool records, and the pending entries of [lprows] name distinct rows
    that are pending and well formed, the call returns: the pending rows are
    appended to the LP in the order of their entries, each header records
    the LP position its row got, no row is pending any more, and the
    headers of the rows that were not pending are unchanged. *)
Theorem add_pending_rows_loads_in_order (bbip : bbinfo) :
  lp_num_rows (bb_lp bbip) = nlprows (bb_cpool bbip) ->
  0 <= nlprows (bb_cpool bbip) -> 0 <= npend (bb_cpool bbip) ->
  (forall i,
     nlprows (bb_cpool bbip) <= i < nlprows (bb_cpool bbip) + npend (bb_cpool bbip) ->
     exists k rc, lprows (bb_cpool bbip) !! Z.to_nat i = Some (Z.of_nat k) /\
                  rows (bb_cpool bbip) !! k = Some rc /\ lprow rc = -2 /\
                  row_loadable rc) ->
  (forall i i' k,
     nlprows (bb_cpool bbip) <= i < nlprows (bb_cpool bbip) + npend (bb_cpool bbip) ->
     nlprows (bb_cpool bbip) <= i' < nlprows (bb_cpool bbip) + npend (bb_cpool bbip) ->
     lprows (bb_cpool bbip) !! Z.to_nat i = Some k ->
     lprows (bb_cpool bbip) !! Z.to_nat i' = Some k -> i = i') ->
  exists bbip' new,
    _gst_add_pending_rows_to_LP bbip = Ok bbip' /\
    lp_rowset (bb_lp bbip') = lp_rowset (bb_lp bbip) ++ new /\
    length new = Z.to_nat (npend (bb_cpool bbip)) /\
    nlprows (bb_cpool bbip') = nlprows (bb_cpool bbip) + npend (bb_cpool bbip) /\
    npend (bb_cpool bbip') = 0 /\
    lprows (bb_cpool bbip') = lprows (bb_cpool bbip) /\
    (forall i k rc,
       nlprows (bb_cpool bbip) <= i < nlprows (bb_cpool bbip) + npend (bb_cpool bbip) ->
       lprows (bb_cpool bbip) !! Z.to_nat i = Some (Z.of_nat k) ->
       rows (bb_cpool bbip) !! k = Some rc ->
       rows (bb_cpool bbip') !! k = Some (set_lprow i rc) /\
       exists lr, lp_rowset (bb_lp bbip') !! Z.to_nat i = Some lr /\ row_in_lp rc lr) /\
    (forall k rc, rows (bb_cpool bbip) !! k = Some rc -> lprow rc <> -2 ->
                  rows (bb_cpool bbip') !! k = Some rc).
Proof.
  intros Hcnt Hnl Hnp Hpend Hdist.
  destruct (add_pending_total bbip Hcnt Hnl Hnp Hpend Hdist)
    as (bbip' & Hrun & _ & Bnl & Bnp & Blpr & _ & Bdone & Brest & _
        & new & Bnew & Bnewl & Bnewr).
  exists bbip', new. split; [exact Hrun|]. split; [exact Bnew|]. split; [exact Bnewl|].
  split; [exact Bnl|]. split; [exact Bnp|]. split; [exact Blpr|]. split.
  - intros i k rc Hi Hl Hrc. split; [now apply Bdone|].
    destruct (Bnewr i k rc Hi Hl Hrc) as (lr & Hn & Hlr). exists lr.
    split; [|exact Hlr]. rewrite Bnew. unfold lp_num_rows in Hcnt.
    rewrite lookup_app_r by lia. rewrite <- Hn. f_equal. lia.
  - intros k rc Hrc Hst. apply Brest; [exact Hrc|]. intros i Hi Hl.
    destruct (Hpend i Hi) as (k' & rc' & Hl' & Hrc' & Hst' & _).
    rewrite Hl in Hl'. injection Hl' as Hk. apply Nat2Z.inj in Hk. subst k'.
    rewrite Hrc in Hrc'. injection Hrc' as <-. contradiction.
Qed.

(** [resume_state] with pool row 2 marked pending. *)
Definition resume_pending : bbinfo :=
  let r (u : Z) (k : Z) :=
    mk_rcon 1 [mk_rcoef (RC_VAR_BASE + u) 1; mk_rcoef RC_OP_LE 1] (-1) k 0 0 0 u 0 in
  let l := mk_lp_row 1 REL_LE in
  mk_bbinfo
    (mk_LP [l [(1, 1)]; l [(0, 1)]] 2 true ([], []))
    (mk_cpool 3 [r 0 1; r 1 0; r 2 (-2)]
              8 3 [1; 0; 2; 0; 0; 0; 0; 0] 2 1 0 3
              (replicate (Z.to_nat CPOOL_HASH_SIZE) (-1)) 2 2)
    (mk_bbnode 2 1 (-1) [] 0 None None None)
    [1; 0; 1]%float.

(** [add_pending_rows_loads_in_order] on [resume_pending]: pool row 2
    becomes LP row 2. *)
Lemma add_pending_rows_loads_in_order_witness :
  exists bbip',
    _gst_add_pending_rows_to_LP resume_pending = Ok bbip' /\
    lprow <$> rows (bb_cpool bbip') = [1; 0; 2] /\
    lr_mat <$> lp_rowset (bb_lp bbip') = [[(1, 1)]; [(0, 1)]; [(2, 1)]] /\
    nlprows (bb_cpool bbip') = 3 /\ npend (bb_cpool bbip') = 0.
Proof.
  destruct (add_pending_rows_loads_in_order resume_pending)
    as (bbip' & new & Hrun & _ & _ & Hnl & Hnp & _).
  - reflexivity.
  - cbn. lia.
  - cbn. lia.
  - intros i Hi. cbn in Hi. assert (i = 2) as -> by lia.
    eexists 2%nat, _. split; [reflexivity|]. split; [reflexivity|].
    split; [reflexivity|].
    exists (mk_lp_row 1 REL_LE [(2, 1)]). split; [|reflexivity].
    eexists. split; [reflexivity|]. split; reflexivity.
  - intros i i' k Hi Hi' _ _. cbn in Hi, Hi'. lia.
  - exists bbip'. split; [exact Hrun|].
    pose proof Hrun as Hc. vm_compute in Hc. injection Hc as <-.
    split; [reflexivity|]. split; [reflexivity|]. split; reflexivity.
Defined.

(** ** [_gst_add_constraint_to_pool]: the row identifiers *)

(** The [uid]s of the stored rows are distinct and below the pool's
    counter. *)
Definition uids_fresh (p : cpool) : Prop :=
  NoDup (uid <$> rows p) /\ forall rc, rc ∈ rows p -> uid rc < pool_uid p.

(** X7.  Adding a row keeps the identifiers unique.  A call that returns
    leaves every stored header as it was; when it adds the row, the new
    header is appended with the pool's counter as its [uid], no reference,
    the current iteration as its stamp and the state "pending" or "not in
    the LP" as asked, and the counter is raised by one, so the [uid]s stay
    distinct; a duplicate changes nothing. *)
Theorem add_constraint_fresh_uid (pool pool1 : cpool) (rp rp' : list rcoef)
    (add_to_lp res : bool) :
  uids_fresh pool ->
  _gst_add_constraint_to_pool pool rp add_to_lp = Ok (pool1, rp', res) ->
  uids_fresh pool1 /\
  (forall k rc, rows pool !! k = Some rc -> rows pool1 !! k = Some rc) /\
  (res = false -> pool1 = pool) /\
  (res = true ->
   exists rc, rows pool1 = rows pool ++ [rc] /\
              uid rc = pool_uid pool /\ pool_uid pool1 = pool_uid pool + 1 /\
              refc rc = 0 /\ biter rc = iter pool /\
              lprow rc = (if add_to_lp then -2 else -1)).
Proof.
  intros [Hnd Hlt] Hrun.
  destruct (add_constraint_inv _ _ _ _ _ _ Hrun)
    as (hv0 & ln & head & _ & _ & _ & _ & _ & Hdup & Hnew).
  destruct res.
  - destruct (Hnew eq_refl)
      as (rcp & Hrows & _ & _ & _ & _ & Hu & Hrf & _ & Hbi & Hst & _ & _ & Hpu & _).
    split; [split|split; [|split; [discriminate|]]].
    + rewrite Hrows, fmap_app. apply list.NoDup_app. split; [exact Hnd|]. split.
      * intros u Hin Hu'. apply list_elem_of_fmap in Hin as (rc & -> & Hrc).
        apply Hlt in Hrc. cbn in Hu'. apply list_elem_of_singleton in Hu'. lia.
      * apply list.NoDup_singleton.
    + intros rc Hrc. rewrite Hrows in Hrc. rewrite Hpu.
      apply elem_of_app in Hrc as [Hrc|Hrc].
      * apply Hlt in Hrc. lia.
      * apply list_elem_of_singleton in Hrc. subst rc. lia.
    + intros k rc Hk. rewrite Hrows. apply lookup_app_l_Some. exact Hk.
    + intros _. exists rcp. auto 10.
  - rewrite (Hdup eq_refl). split; [split; auto|]. split; [auto|].
    split; [auto|discriminate].
Qed.

(** [add_constraint_fresh_uid] on the empty pool: the first row gets the
    [uid] 0 and the counter becomes 1. *)
Lemma add_constraint_fresh_uid_witness :
  uids_fresh (empty_pool 4) /\
  exists pool1,
    _gst_add_constraint_to_pool (empty_pool 4) row_6_9_15_le_30 true
      = Ok (pool1, row_2_3_5_le_10, true) /\
    uids_fresh pool1 /\ uid <$> rows pool1 = [0] /\ pool_uid pool1 = 1 /\
    lprow <$> rows pool1 = [-2].
Proof.
  assert (Hf : uids_fresh (empty_pool 4)).
  { split; [apply base.NoDup_nil_2|]. intros rc Hrc. inversion Hrc. }
  split; [exact Hf|].
  destruct (_gst_add_constraint_to_pool (empty_pool 4) row_6_9_15_le_30 true)
    as [[[pool1 rp'] res]| |] eqn:Hrun; try (vm_compute in Hrun; discriminate).
  pose proof (add_constraint_fresh_uid _ _ _ _ _ _ Hf Hrun) as (Hf1 & _).
  vm_compute in Hrun. injection Hrun as <- <- <-.
  eexists. split; [reflexivity|]. split; [exact Hf1|].
  split; [reflexivity|]. split; reflexivity.
Defined.

(** ** [_gst_destroy_node_basis] *)

Section Release.

(** The headers when the node is destroyed, the rows that its snapshot
    names (those that [fl] leaves unflagged) and the recorded [uid]s. *)
Variable rows_c : list rcon.
Variable fl : list bool.
Variable uids : list Z.

Hypothesis fl_length : length fl = length rows_c.
Hypothesis uids_length : length uids = live_count fl.
Hypothesis uid_NoDup : NoDup (uid <$> rows_c).
Hypothesis uids_recorded : forall k rc,
    rows_c !! k = Some rc -> fl !! k = Some false ->
    uids !! kept_before fl k = Some (uid rc).

(** The header of row [k] when the first [m] recorded rows are released. *)
Definition released_row (m : nat) (k : nat) (rc : rcon) : rcon :=
  match fl !! k with
  | Some false =>
      if (kept_before fl k <? m)%nat then set_refc (refc rc - 1) rc else rc
  | _ => rc
  end.

Lemma released_row_uid (m k : nat) (rc : rcon) : uid (released_row m k rc) = uid rc.
Proof.
  unfold released_row. destruct (fl !! k) as [[]|]; try reflexivity.
  destruct (kept_before fl k <? m)%nat; reflexivity.
Qed.

Definition release_inv (m : Z) (s : list rcon * Z) : Prop :=
  fst s = imap (released_row (Z.to_nat m)) rows_c /\
  0 <= snd s /\
  forall k, fl !! k = Some false -> (Z.to_nat m <= kept_before fl k)%nat ->
            snd s <= Z.of_nat k.

Lemma release_step (m : Z) (s : list rcon * Z) :
  0 <= m < Z.of_nat (live_count fl) -> release_inv m s ->
  exists s', destroy_pass uids m s = Ok s' /\ release_inv (m + 1) s'.
Proof.
  intros Hm. destruct s as [rs r]. intros (Hrs & Hr0 & Hr). cbn [fst snd] in *.
  destruct (kept_before_surj fl (Z.to_nat m) ltac:(lia)) as (k & Hk & Hkb).
  destruct (lookup_lt_is_Some_2 rows_c k) as [rc Hrc];
    [apply lookup_lt_Some in Hk; lia|].
  pose proof (uids_recorded k rc Hrc Hk) as Hu. rewrite Hkb in Hu.
  assert (Hrsk : forall q rcq, rows_c !! q = Some rcq ->
             rs !! q = Some (released_row (Z.to_nat m) q rcq)).
  { intros q rcq Hq. rewrite Hrs, list_lookup_imap, Hq. reflexivity. }
  assert (Hrk : rs !! k = Some rc).
  { rewrite (Hrsk k rc Hrc). f_equal. unfold released_row. rewrite Hk.
    destruct (Nat.ltb_spec (kept_before fl k) (Z.to_nat m)); [lia|reflexivity]. }
  assert (Hseek : seek_uid (drop (Z.to_nat r) rs) r (uid rc) = Ok (Z.of_nat k)).
  { rewrite <- (Z2Nat.id r) at 2 by lia.
    apply (seek_uid_found rs (uid rc) k rc); auto.
    - specialize (Hr k Hk ltac:(lia)). lia.
    - intros q rcq Hq Hrq E.
      destruct (lookup_lt_is_Some_2 rows_c q) as [rcq0 Hq0];
        [apply lookup_lt_Some in Hrc; lia|].
      rewrite (Hrsk q rcq0 Hq0) in Hrq. injection Hrq as <-.
      rewrite released_row_uid in E.
      assert (q = k); [|lia].
      apply (NoDup_lookup (uid <$> rows_c) q k (uid rc) uid_NoDup);
        rewrite list_lookup_fmap;
        [rewrite Hq0; cbn; f_equal; exact E|rewrite Hrc; reflexivity]. }
  unfold destroy_pass.
  rewrite (aget_Ok uids m (uid rc)) by (auto; lia). cbn [bind].
  rewrite Hseek. cbn [bind].
  rewrite (aget_Ok rs (Z.of_nat k) rc) by (rewrite ?Nat2Z.id; auto; lia). cbn [bind].
  pose proof (lookup_lt_Some _ _ _ Hrk) as Hklt.
  rewrite aset_Ok by lia. cbn [bind].
  eexists. split; [reflexivity|]. unfold release_inv. cbn [fst snd].
  replace (Z.to_nat (m + 1)) with (S (Z.to_nat m)) by lia. rewrite Nat2Z.id.
  split; [|split; [lia|]].
  - apply list_eq. intros q. rewrite list_lookup_imap.
    destruct (decide (q = k)) as [->|Hne].
    + rewrite list_lookup_insert_eq by lia. rewrite Hrc. cbn. f_equal.
      unfold released_row. rewrite Hk.
      destruct (Nat.ltb_spec (kept_before fl k) (S (Z.to_nat m))); [reflexivity|lia].
    + rewrite list_lookup_insert_ne by lia.
      destruct (rows_c !! q) as [rcq|] eqn:Hq.
      * rewrite (Hrsk q rcq Hq). cbn. f_equal. unfold released_row.
        destruct (fl !! q) as [[]|] eqn:Hfq; try reflexivity.
        assert (kept_before fl q <> Z.to_nat m).
        { intros E. apply Hne. apply (kept_before_inj fl); auto. lia. }
        destruct (Nat.ltb_spec (kept_before fl q) (Z.to_nat m)),
                 (Nat.ltb_spec (kept_before fl q) (S (Z.to_nat m))); auto; lia.
      * rewrite Hrs, list_lookup_imap, Hq. reflexivity.
  - intros k' Hk' Hge.
    destruct (Nat.le_gt_cases k' k) as [Hle|Hgt]; [|lia].
    pose proof (kept_before_mono fl k' k Hle). lia.
Qed.

Lemma release_total :
  exists r,
    for_range 0 (Z.of_nat (live_count fl)) (destroy_pass uids) (rows_c, 0)
      = Ok (imap (released_row (live_count fl)) rows_c, r).
Proof.
  destruct (for_range_total release_inv 0 (Z.of_nat (live_count fl))
              (destroy_pass uids) (rows_c, 0))
    as ([rs r] & Hrun & Hrs & _).
  - lia.
  - split; [|split; [cbn; lia|intros; cbn; lia]]. cbn [fst].
    apply list_eq. intros k. rewrite list_lookup_imap.
    destruct (rows_c !! k) as [rc|]; [|reflexivity]. cbn. f_equal.
    unfold released_row. destruct (fl !! k) as [[]|]; reflexivity.
  - intros m s Hm Hs. now apply release_step.
  - cbn [fst] in Hrs. rewrite Nat2Z.id in Hrs. exists r. now rewrite Hrun, Hrs.
Qed.

End Release.

(** X8.  Destroying a saved node gives the references back.  After
    [_gst_save_node_basis], in any later state whose headers have the [uid]s
    and the reference counts that the save left, [_gst_destroy_node_basis]
    returns: the node's snapshot is empty, every reference count is what it
    was before the save, and nothing else of the state has changed.  Right
    after the save the headers are those of before the save. *)
Theorem destroy_after_save (bbip : bbinfo) :
  lp_num_rows (bb_lp bbip) = nlprows (bb_cpool bbip) ->
  pool_lp_ok (bb_cpool bbip) -> NoDup (uid <$> rows (bb_cpool bbip)) ->
  exists nodep bbip1,
    _gst_save_node_basis (bb_node bbip) bbip = Ok (nodep, bbip1) /\
    (forall bbip2,
       Forall2 (fun a b => uid b = uid a /\ refc b = refc a)
               (rows (bb_cpool bbip1)) (rows (bb_cpool bbip2)) ->
       exists nodep' bbip3,
         _gst_destroy_node_basis nodep bbip2 = Ok (nodep', bbip3) /\
         n_uids nodep' = 0 /\
         bb_lp bbip3 = bb_lp bbip2 /\ bb_node bbip3 = bb_node bbip2 /\
         lprows (bb_cpool bbip3) = lprows (bb_cpool bbip2) /\
         nlprows (bb_cpool bbip3) = nlprows (bb_cpool bbip2) /\
         npend (bb_cpool bbip3) = npend (bb_cpool bbip2) /\
         length (rows (bb_cpool bbip3)) = length (rows (bb_cpool bbip2)) /\
         forall k rc rc2,
           rows (bb_cpool bbip) !! k = Some rc ->
           rows (bb_cpool bbip2) !! k = Some rc2 ->
           rows (bb_cpool bbip3) !! k = Some (set_refc (refc rc) rc2)) /\
    exists nodep' bbip3,
      _gst_destroy_node_basis nodep bbip1 = Ok (nodep', bbip3) /\
      rows (bb_cpool bbip3) = rows (bb_cpool bbip).
Proof.
  intros Hcnt Hok Huid.
  destruct (save_node_basis_spec (bb_node bbip) bbip Hcnt Hok)
    as (uids & brow & Hsave & Hlu & Hlb & Hrec).
  set (fl := unloaded_flags (rows (bb_cpool bbip))) in *.
  pose proof (loaded_count _ Hok) as Hn. fold fl in Hn.
  destruct Hok as ([Hn0 _] & _ & _).
  assert (Hflk : forall k rc, rows (bb_cpool bbip) !! k = Some rc ->
             fl !! k = Some (lprow rc <? 0)).
  { intros k rc H. apply unloaded_flags_lookup. eauto. }
  assert (Hgen : forall bbip2,
    Forall2 (fun a b => uid b = uid a /\ refc b = refc a)
            (bump <$> rows (bb_cpool bbip)) (rows (bb_cpool bbip2)) ->
    exists nodep' bbip3,
      _gst_destroy_node_basis
        (set_saved (nlprows (bb_cpool bbip)) (Some uids) (Some brow)
                   (Some (lp_basis (bb_lp bbip))) (bb_node bbip)) bbip2
        = Ok (nodep', bbip3) /\
      n_uids nodep' = 0 /\
      bb_lp bbip3 = bb_lp bbip2 /\ bb_node bbip3 = bb_node bbip2 /\
      lprows (bb_cpool bbip3) = lprows (bb_cpool bbip2) /\
      nlprows (bb_cpool bbip3) = nlprows (bb_cpool bbip2) /\
      npend (bb_cpool bbip3) = npend (bb_cpool bbip2) /\
      length (rows (bb_cpool bbip3)) = length (rows (bb_cpool bbip2)) /\
      forall k rc rc2,
        rows (bb_cpool bbip) !! k = Some rc ->
        rows (bb_cpool bbip2) !! k = Some rc2 ->
        rows (bb_cpool bbip3) !! k = Some (set_refc (refc rc) rc2)).
  { intros bbip2 Hsame.
    assert (Hpair : forall k rc rc2,
               rows (bb_cpool bbip) !! k = Some rc ->
               rows (bb_cpool bbip2) !! k = Some rc2 ->
               uid rc2 = uid rc /\ refc rc2 = refc (bump rc)).
    { intros k rc rc2 Hrc Hrc2.
      destruct (Forall2_lookup_r _ _ _ _ _ Hsame Hrc2) as (rc1 & Hrc1 & Hu & Hr).
      rewrite list_lookup_fmap, Hrc in Hrc1. injection Hrc1 as <-.
      split; [|exact Hr]. rewrite Hu. unfold bump.
      destruct (lprow rc <? 0); reflexivity. }
    assert (Hlen2 : length (rows (bb_cpool bbip2)) = length (rows (bb_cpool bbip))).
    { apply Forall2_length in Hsame. now rewrite length_fmap in Hsame. }
    unfold _gst_destroy_node_basis. cbn [n_uids bc_uids nd_basis set_saved].
    destruct (Z.leb_spec (nlprows (bb_cpool bbip)) 0) as [Hz|Hpos].
    - eexists _, bbip2. split; [reflexivity|]. cbn [n_uids set_saved].
      split; [lia|]. do 6 (split; [reflexivity|]).
      intros k rc rc2 Hrc Hrc2. rewrite Hrc2. f_equal.
      destruct (Hpair k rc rc2 Hrc Hrc2) as [_ Hr].
      assert (Hnl : lprow rc < 0).
      { destruct (Z.ltb_spec (lprow rc) 0) as [|Hge]; [auto|].
        pose proof (Hflk k rc Hrc) as Hf.
        destruct (Z.ltb_spec (lprow rc) 0); [lia|].
        pose proof (kept_before_live fl k Hf). lia. }
      unfold bump in Hr. destruct (Z.ltb_spec (lprow rc) 0); [|lia].
      destruct rc2. cbn in *. now subst.
    - destruct (release_total (rows (bb_cpool bbip2)) fl uids) as (r & Hrun).
      + unfold fl, unloaded_flags. rewrite length_fmap. lia.
      + exact Hlu.
      + replace (uid <$> rows (bb_cpool bbip2)) with (uid <$> rows (bb_cpool bbip));
          [exact Huid|].
        apply list_eq. intros k. rewrite !list_lookup_fmap.
        destruct (rows (bb_cpool bbip) !! k) as [rc|] eqn:Hrc.
        * destruct (lookup_lt_is_Some_2 (rows (bb_cpool bbip2)) k) as [rc2 Hrc2];
            [apply lookup_lt_Some in Hrc; lia|].
          rewrite Hrc2. cbn. f_equal. symmetry. apply (Hpair k rc rc2 Hrc Hrc2).
        * apply lookup_ge_None in Hrc.
          rewrite (proj2 (lookup_ge_None _ _)) by lia. reflexivity.
      + intros k rc2 Hrc2 Hf.
        destruct (lookup_lt_is_Some_2 (rows (bb_cpool bbip)) k) as [rc Hrc];
          [apply lookup_lt_Some in Hrc2; lia|].
        destruct (Hpair k rc rc2 Hrc Hrc2) as [-> _].
        apply (Hrec k rc Hrc). pose proof (Hflk k rc Hrc) as Hf'.
        rewrite Hf in Hf'. injection Hf' as Hf'. symmetry in Hf'.
        now apply Z.ltb_ge in Hf'.
      + rewrite Hn, Z2Nat.id in Hrun by lia. rewrite Hrun. cbn [bind].
        eexists _, _. split; [reflexivity|]. cbn [n_uids set_saved].
        split; [reflexivity|].
        cbn [bb_lp bb_node bb_cpool set_bb_cpool lprows nlprows npend rows set_rows].
        do 5 (split; [reflexivity|]). split; [now rewrite length_imap|].
        intros k rc rc2 Hrc Hrc2. rewrite list_lookup_imap, Hrc2. cbn. f_equal.
        destruct (Hpair k rc rc2 Hrc Hrc2) as [_ Hr].
        unfold released_row. rewrite (Hflk k rc Hrc). unfold bump in Hr.
        destruct (Z.ltb_spec (lprow rc) 0).
        * destruct rc2. cbn in *. now subst.
        * pose proof (Hflk k rc Hrc) as Hf.
          destruct (Z.ltb_spec (lprow rc) 0); [lia|].
          pose proof (kept_before_live fl k Hf) as Hl.
          destruct (Nat.ltb_spec (kept_before fl k) (Z.to_nat (nlprows (bb_cpool bbip))));
            [|lia].
          cbn in Hr. rewrite Hr. f_equal. lia. }
  eexists _, _. split; [exact Hsave|]. split; [exact Hgen|].
  destruct (Hgen (set_bb_cpool (set_rows (bump <$> rows (bb_cpool bbip)) (bb_cpool bbip))
                               bbip))
    as (nodep' & bbip3 & Hrun & _ & _ & _ & _ & _ & _ & Hlen & Hrows).
  { cbn [bb_cpool set_bb_cpool rows set_rows]. apply Forall2_same_length_lookup.
    split; [reflexivity|]. intros k a b Ha Hb. rewrite Ha in Hb. now injection Hb as <-. }
  exists nodep', bbip3. split; [exact Hrun|].
  cbn [bb_cpool set_bb_cpool rows set_rows] in Hlen, Hrows.
  rewrite length_fmap in Hlen.
  apply list_eq. intros k.
  destruct (rows (bb_cpool bbip) !! k) as [rc|] eqn:Hrc.
  - rewrite (Hrows k rc (bump rc) Hrc) by (now rewrite list_lookup_fmap, Hrc).
    f_equal. unfold bump. destruct (lprow rc <? 0); now destruct rc.
  - apply lookup_ge_None. apply lookup_ge_None in Hrc. lia.
Qed.

(** [destroy_after_save] on [resume_state]: the save raises the reference
    counts of the two loaded rows, the destroy puts them back. *)
Lemma destroy_after_save_witness :
  lp_num_rows (bb_lp resume_state) = nlprows (bb_cpool resume_state) /\
  pool_lp_ok (bb_cpool resume_state) /\
  exists nodep bbip1 nodep' bbip3,
    _gst_save_node_basis (bb_node resume_state) resume_state = Ok (nodep, bbip1) /\
    refc <$> rows (bb_cpool bbip1) = [1; 1; 0] /\
    _gst_destroy_node_basis nodep bbip1 = Ok (nodep', bbip3) /\
    rows (bb_cpool bbip3) = rows (bb_cpool resume_state) /\
    bc_uids nodep = Some [0; 1] /\ bc_uids nodep' = None.
Proof.
  destruct resume_state_ready as ((Hcnt & Hok & _ & _ & Huid & _) & _).
  split; [exact Hcnt|]. split; [exact Hok|].
  destruct (destroy_after_save resume_state Hcnt Hok Huid)
    as (nodep & bbip1 & Hsave & _ & nodep' & bbip3 & Hrun & Hrows).
  exists nodep, bbip1, nodep', bbip3. split; [exact Hsave|].
  pose proof Hsave as Hs. vm_compute in Hs. injection Hs as <- <-.
  split; [reflexivity|]. split; [exact Hrun|]. split; [exact Hrows|].
  split; [reflexivity|].
  vm_compute in Hrun. now injection Hrun as <- _.
Defined.

(** ** [sort_gc_candidates] *)

Lemma head_insert_perm {A : Type} (l : list A) (q : nat) (a y : A) :
  l !! q = Some y -> y :: <[q := a]> l ≡ₚ a :: l.
Proof.
  revert q. induction l as [|b t IH]; intros [|q] H; try discriminate.
  - injection H as ->. apply perm_swap.
  - cbn in H. cbn [insert list_insert]. change (list_insert q a t) with (<[q := a]> t).
    rewrite (perm_swap b y), (IH q H). apply perm_swap.
Qed.

Lemma insert_swap_perm {A : Type} (l : list A) (p q : nat) (x y : A) :
  l !! p = Some x -> l !! q = Some y -> <[p := y]> (<[q := x]> l) ≡ₚ l.
Proof.
  revert p q. induction l as [|a t IH]; intros [|p] [|q] Hp Hq; try discriminate.
  - injection Hp as ->. injection Hq as ->. reflexivity.
  - injection Hp as ->. cbn in Hq. cbn [insert list_insert].
    change (list_insert q x t) with (<[q := x]> t). now apply head_insert_perm.
  - injection Hq as ->. cbn in Hp. cbn [insert list_insert].
    change (list_insert p y t) with (<[p := y]> t). now apply head_insert_perm.
  - cbn in Hp, Hq. cbn [insert list_insert]. apply perm_skip.
    change (<[p := y]> (<[q := x]> t) ≡ₚ t). now apply IH.
Qed.

(** The first [m] entries are in ascending order of cost. *)
Definition cost_sorted (m : Z) (a : list (Z * Z)) : Prop :=
  forall (p q : nat) (x y : Z * Z),
    (p <= q)%nat -> Z.of_nat q < m ->
    a !! p = Some x -> a !! q = Some y -> snd x <= snd y.

Lemma sift_perm (fuel : nat) (h c : Z) :
  1 <= h ->
  forall (a a' : list (Z * Z)) (j j' : Z),
    sift fuel h c a j = Ok (a', j') -> 0 <= j < Z.of_nat (length a) ->
    0 <= j' <= j /\ length a' = length a /\
    (forall k : nat, (Z.to_nat j < k)%nat -> a' !! k = a !! k) /\
    forall tmp, <[Z.to_nat j' := tmp]> a' ≡ₚ <[Z.to_nat j := tmp]> a.
Proof.
  intros Hh. induction fuel as [|fuel IH]; intros a a' j j' H Hj;
    rewrite sift_unfold in H.
  - destruct (Z.geb_spec j h); [discriminate|]. injection H as <- <-.
    repeat split; auto; lia.
  - destruct (Z.geb_spec j h) as [Hge|Hlt];
      [|injection H as <- <-; repeat split; auto; lia].
    inv_bind H. rename a0 into e. apply aget_Ok_inv in Hm as [_ He].
    destruct (snd e <=? c); [injection H as <- <-; repeat split; auto; lia|].
    inv_bind H. apply aset_Ok_inv in Hm as [_ ->].
    apply IH in H as (Hj' & Hl & Hk & Hp); [|rewrite length_insert; lia].
    rewrite length_insert in Hl. split; [lia|]. split; [exact Hl|]. split.
    + intros k Hlt. rewrite Hk by lia. apply list_lookup_insert_ne. lia.
    + intros tmp. rewrite Hp.
      rewrite <- (list_insert_insert_eq a (Z.to_nat j) e tmp).
      apply insert_swap_perm.
      * rewrite list_lookup_insert_ne by lia. exact He.
      * apply list_lookup_insert_eq. lia.
Qed.

Lemma gap_insert_perm (h i : Z) (a a' : list (Z * Z)) :
  1 <= h -> gap_insert h i a = Ok a' ->
  a' ≡ₚ a /\ forall k : nat, (Z.to_nat i < k)%nat -> a' !! k = a !! k.
Proof.
  unfold gap_insert. intros Hh H.
  inv_bind H. rename a0 into tmp. apply aget_Ok_inv in Hm as [Hi Htmp].
  inv_bind H. destruct a0 as [a1 j].
  pose proof (lookup_lt_Some _ _ _ Htmp) as Hlt.
  apply (sift_perm _ _ _ Hh) in Hm as (Hj & Hl & Hk & Hp); [|lia].
  apply aset_Ok_inv in H as [_ ->]. split.
  - rewrite Hp. now rewrite list_insert_id.
  - intros k Hik. rewrite list_lookup_insert_ne by lia. now apply Hk.
Qed.

Lemma gap_loop_perm (h n : Z) (a a' : list (Z * Z)) :
  1 <= h -> for_range h n (gap_insert h) a = Ok a' ->
  a' ≡ₚ a /\ forall k : nat, n <= Z.of_nat k -> a' !! k = a !! k.
Proof.
  intros Hh H. destruct (Z.le_gt_cases h n) as [Hle|Hgt];
    [|rewrite for_range_empty in H by lia; injection H as <-; auto].
  apply (for_range_inv
           (fun (_ : Z) t => t ≡ₚ a /\ forall k : nat, n <= Z.of_nat k -> t !! k = a !! k)
           _ _ _ _ _ Hle H); [auto|].
  intros i t t' Hi [Hp Hk] Hb. apply (gap_insert_perm _ _ _ _ Hh) in Hb as [Hp' Hk'].
  split; [now rewrite Hp'|]. intros k Hnk. rewrite Hk' by lia. now apply Hk.
Qed.

Section LastPass.

(** The entry being inserted sits at [i] and costs [c]. *)
Variable i : nat.
Variable c : Z.

(** While the hole is at [j]: the entries up to [i] other than the hole are in
    order, and those after the hole cost more than [c]. *)
Definition hole_inv (a : list (Z * Z)) (j : nat) : Prop :=
  (forall (p q : nat) (x y : Z * Z),
     (p <= q <= i)%nat -> p <> j -> q <> j ->
     a !! p = Some x -> a !! q = Some y -> snd x <= snd y) /\
  (forall (q : nat) (y : Z * Z), (j < q <= i)%nat -> a !! q = Some y -> c < snd y).

Lemma sift_sorted (fuel : nat) :
  forall (a a' : list (Z * Z)) (j j' : Z),
    sift fuel 1 c a j = Ok (a', j') -> 0 <= j < Z.of_nat (length a) ->
    (Z.to_nat j <= i)%nat -> hole_inv a (Z.to_nat j) ->
    hole_inv a' (Z.to_nat j') /\
    forall (p : nat) (x : Z * Z), (p < Z.to_nat j')%nat -> a' !! p = Some x -> snd x <= c.
Proof.
  induction fuel as [|fuel IH]; intros a a' j j' H Hj Hji Hinv;
    rewrite sift_unfold in H.
  - destruct (Z.geb_spec j 1); [discriminate|]. injection H as <- <-.
    split; [exact Hinv|]. intros; lia.
  - destruct (Z.geb_spec j 1) as [Hge|Hlt];
      [|injection H as <- <-; split; [exact Hinv|intros; lia]].
    inv_bind H. rename a0 into e. apply aget_Ok_inv in Hm as [_ He].
    destruct (Z.leb_spec (snd e) c) as [Hle|Hgt].
    + injection H as <- <-. split; [exact Hinv|].
      intros p x Hp Hx. destruct Hinv as [Hs _].
      transitivity (snd e); [|exact Hle].
      destruct (decide (p = Z.to_nat (j - 1))) as [->|Hne];
        [rewrite He in Hx; injection Hx as <-; lia|].
      apply (Hs p (Z.to_nat (j - 1)) x e); auto; lia.
    + inv_bind H. apply aset_Ok_inv in Hm as [_ ->].
      apply IH in H; [exact H|rewrite length_insert; lia|lia|].
      destruct Hinv as [Hs Hc].
      replace (Z.to_nat (j - 1)) with (Z.to_nat j - 1)%nat in * by lia.
      set (jn := Z.to_nat j) in *. assert (Hjn : (1 <= jn)%nat) by lia.
      assert (Hjl : (jn < length a)%nat) by lia.
      split.
      * intros p q x y Hpq Hp Hq Hx Hy.
        destruct (decide (p = jn)) as [->|Hpj].
        -- rewrite list_lookup_insert_eq in Hx by lia. injection Hx as <-.
           destruct (decide (q = jn)) as [->|Hqj].
           ++ rewrite list_lookup_insert_eq in Hy by lia. injection Hy as <-. lia.
           ++ rewrite list_lookup_insert_ne in Hy by lia.
              apply (Hs (jn - 1)%nat q e y); auto; lia.
        -- rewrite list_lookup_insert_ne in Hx by lia.
           destruct (decide (q = jn)) as [->|Hqj].
           ++ rewrite list_lookup_insert_eq in Hy by lia. injection Hy as <-.
              apply (Hs p (jn - 1)%nat x e); auto; lia.
           ++ rewrite list_lookup_insert_ne in Hy by lia.
              apply (Hs p q x y); auto.
      * intros q y Hq Hy. destruct (decide (q = jn)) as [->|Hqj].
        -- rewrite list_lookup_insert_eq in Hy by lia. injection Hy as <-. lia.
        -- rewrite list_lookup_insert_ne in Hy by lia. apply (Hc q y); auto; lia.
Qed.

End LastPass.

Lemma gap_insert_sorted (i : Z) (a a' : list (Z * Z)) :
  gap_insert 1 i a = Ok a' -> cost_sorted i a -> cost_sorted (i + 1) a'.
Proof.
  unfold gap_insert. intros H Hs.
  inv_bind H. rename a0 into tmp. apply aget_Ok_inv in Hm as [Hi Htmp].
  inv_bind H. destruct a0 as [a1 j].
  pose proof (lookup_lt_Some _ _ _ Htmp) as Hlt.
  pose proof (sift_perm _ 1 _ ltac:(lia) _ _ _ _ Hm ltac:(lia)) as (Hj & Hl & _ & _).
  apply (sift_sorted (Z.to_nat i)) in Hm as [[Hord Hc] Hlow]; [|lia|lia|].
  - apply aset_Ok_inv in H as [_ ->].
    set (jn := Z.to_nat j) in *. assert (Hjl : (jn < length a1)%nat) by lia.
    intros p q x y Hpq Hq Hx Hy.
    destruct (decide (p = jn)) as [->|Hpj].
    + rewrite list_lookup_insert_eq in Hx by lia. injection Hx as <-.
      destruct (decide (q = jn)) as [->|Hqj].
      * rewrite list_lookup_insert_eq in Hy by lia. injection Hy as <-. lia.
      * rewrite list_lookup_insert_ne in Hy by lia.
        pose proof (Hc q y ltac:(lia) Hy). lia.
    + rewrite list_lookup_insert_ne in Hx by lia.
      destruct (decide (q = jn)) as [->|Hqj].
      * rewrite list_lookup_insert_eq in Hy by lia. injection Hy as <-.
        apply (Hlow p x); auto; lia.
      * rewrite list_lookup_insert_ne in Hy by lia.
        apply (Hord p q x y); auto; lia.
  - split.
    + intros p q x y Hpq Hp Hq Hx Hy. apply (Hs p q x y); auto; lia.
    + intros q y Hq. lia.
Qed.

Lemma last_pass_sorted (n : Z) (a a' : list (Z * Z)) :
  for_range 1 n (gap_insert 1) a = Ok a' -> cost_sorted n a'.
Proof.
  intros H. destruct (Z.le_gt_cases 1 n) as [Hle|Hgt].
  - apply (for_range_inv (fun k t => cost_sorted k t) _ _ _ _ _ Hle H).
    + intros p q x y Hpq Hq Hx Hy.
      assert (p = q) by lia. subst. rewrite Hx in Hy. injection Hy as <-. lia.
    + intros k t t' _ Ht Hb. now apply gap_insert_sorted with t.
  - rewrite for_range_empty in H by lia. injection H as <-.
    intros p q x y Hpq Hq. lia.
Qed.

Lemma gap_passes_sorted (n h : Z) :
  gap h ->
  forall (fuel : nat) (a a' : list (Z * Z)),
    gap_passes fuel (3 * h + 1) n a = Ok a' ->
    a' ≡ₚ a /\ (forall k : nat, n <= Z.of_nat k -> a' !! k = a !! k) /\
    cost_sorted n a'.
Proof.
  induction 1 as [|h Hg IH]; intros fuel a a' H; rewrite gap_passes_unfold in H.
  - replace (Z.quot (3 * 1 + 1) 3) with 1 in H by reflexivity.
    inv_bind H. rename a0 into a1. cbn in H. injection H as <-.
    destruct (gap_loop_perm 1 n a a1 ltac:(lia) Hm) as [Hp Hk].
    split; [exact Hp|]. split; [exact Hk|]. now apply last_pass_sorted with a.
  - pose proof (gap_pos h Hg) as Hpos.
    replace (Z.quot (3 * (3 * h + 1) + 1) 3) with (3 * h + 1) in H
      by (apply Z.quot_unique with 1; lia).
    inv_bind H. rename a0 into a1.
    destruct (gap_loop_perm (3 * h + 1) n a a1 ltac:(lia) Hm) as [Hp Hk].
    destruct (Z.ltb_spec 1 (3 * h + 1)); [|lia].
    destruct fuel as [|fuel]; [discriminate|].
    apply IH in H as (Hp' & Hk' & Hs).
    split; [now rewrite Hp'|]. split; [|exact Hs].
    intros k Hnk. rewrite Hk' by lia. now apply Hk.
Qed.

Lemma sort_gc_candidates_run (a : list (Z * Z)) (n : Z) :
  n <= Z.of_nat (length a) ->
  exists a', sort_gc_candidates a n = Ok a' /\ a' ≡ₚ a /\
             (forall k : nat, n <= Z.of_nat k -> a' !! k = a !! k) /\ cost_sorted n a'.
Proof.
  intros Hn. destruct (Z.le_gt_cases 1 n) as [Hpos|Hneg].
  - destruct (sort_gc_candidates_total a n ltac:(lia)) as (a' & Hrun & _).
    exists a'. split; [exact Hrun|]. unfold sort_gc_candidates in Hrun.
    inv_bind Hrun. rename a0 into h.
    destruct (first_gap_total n (S (Z.to_nat n)) 1 gap_1 ltac:(lia))
      as (h' & Hh & Hg & Hlt).
    rewrite Hh in Hm. injection Hm as <-.
    inversion Hg as [E|g Hg' E]; [lia|]. subst h'.
    exact (gap_passes_sorted n g Hg' _ a a' Hrun).
  - exists a. unfold sort_gc_candidates. cbn [first_gap].
    destruct (Z.leb_spec 1 n); [lia|]. cbn [bind].
    rewrite gap_passes_unfold. replace (Z.quot 1 3) with 0 by reflexivity.
    rewrite for_range_empty by lia. cbn. split; [reflexivity|].
    split; [reflexivity|]. split; [reflexivity|]. intros p q x y Hpq Hq. lia.
Qed.

(** X9.  [sort_gc_candidates] sorts.  On an array of at least [n] candidates
    the routine returns; the first [n] entries of the result are the first
    [n] entries of the input rearranged, in ascending order of cost (each row
    number stays with its cost), and the entries from [n] on are untouched. *)
Theorem sort_gc_candidates_sorts (a : list (Z * Z)) (n : Z) :
  n <= Z.of_nat (length a) ->
  exists a',
    sort_gc_candidates a n = Ok a' /\
    take (Z.to_nat n) a' ≡ₚ take (Z.to_nat n) a /\
    drop (Z.to_nat n) a' = drop (Z.to_nat n) a /\
    forall (p q : nat) (x y : Z * Z),
      (p <= q)%nat -> Z.of_nat q < n ->
      a' !! p = Some x -> a' !! q = Some y -> snd x <= snd y.
Proof.
  intros Hn.
  destruct (sort_gc_candidates_run a n Hn) as (a' & Hrun & Hp & Hk & Hs). exists a'.
  split; [exact Hrun|].
  assert (Hd : drop (Z.to_nat n) a' = drop (Z.to_nat n) a).
  { apply list_eq. intros k. rewrite !lookup_drop. apply Hk. lia. }
  split; [|split; [exact Hd|exact Hs]].
  apply (Permutation_app_inv_r (drop (Z.to_nat n) a)).
  rewrite <- Hd at 1. now rewrite !take_drop.
Qed.

(** [sort_gc_candidates_sorts] on an array of five entries with [n = 4]: the
    gaps 4 and 1 are used, and the fifth entry stays where it is. *)
Lemma sort_gc_candidates_sorts_witness :
  4 <= Z.of_nat (length [(7, 30); (2, 10); (5, 20); (9, 10); (1, 0)]) /\
  sort_gc_candidates [(7, 30); (2, 10); (5, 20); (9, 10); (1, 0)] 4
    = Ok [(2, 10); (9, 10); (5, 20); (7, 30); (1, 0)].
Proof.
  assert (H : 4 <= Z.of_nat (length [(7, 30); (2, 10); (5, 20); (9, 10); (1, 0)]))
    by (cbn; lia).
  split; [exact H|].
  destruct (sort_gc_candidates_sorts _ 4 H) as (a' & Hrun & _).
  rewrite Hrun. vm_compute in Hrun. injection Hrun as <-. reflexivity.
Defined.

(** ** [garbage_collect_pool]: which candidates go *)

(** The cost of retaining a row, as the candidate loop stores it in the
    [int32u] array [cost]: [INT_MAX], or the product [(len + 1) * time] of
    two ints reduced modulo 2^32. *)
Definition gc_cost (p : cpool) (rcp : rcon) : Z :=
  if has_discard_flag rcp then INT_MAX
  else wrapu32 ((len rcp + 1) * wrap32 (iter p - biter rcp)).

Lemma candidates_cost (p : cpool) (cands : list (Z * Z)) :
  for_range (initrows p) (nrows p) (candidate_pass p) [] = Ok cands ->
  Forall (fun c => exists rcp, 0 <= fst c /\ rows p !! Z.to_nat (fst c) = Some rcp /\
                               snd c = gc_cost p rcp) cands.
Proof.
  intros H.
  destruct (Z.le_gt_cases (initrows p) (nrows p)) as [Hle|Hgt];
    [|rewrite for_range_empty in H by lia; injection H as <-; constructor].
  apply (for_range_inv
           (fun (_ : Z) cs =>
              Forall (fun c => exists rcp, 0 <= fst c /\
                                 rows p !! Z.to_nat (fst c) = Some rcp /\
                                 snd c = gc_cost p rcp) cs)
           _ _ _ _ _ Hle H); [constructor|].
  intros k cs cs' Hk Hcs Hb. unfold candidate_pass in Hb.
  inv_bind Hb. rename a into rcp. apply aget_Ok_inv in Hm as [Hk0 Hrc].
  destruct (negb (lprow rcp =? -1)); [now injection Hb as <-|].
  destruct (0 <? refc rcp); [now injection Hb as <-|].
  destruct (has_discard_flag rcp) eqn:Hd.
  - injection Hb as <-. apply Forall_app. split; [exact Hcs|].
    constructor; [|constructor]. exists rcp. cbn [fst snd].
    unfold gc_cost. rewrite Hd. auto.
  - cbv zeta in Hb. destruct (wrap32 (iter p - biter rcp) <? GRACE_TIME);
      [now injection Hb as <-|].
    injection Hb as <-. apply Forall_app. split; [exact Hcs|].
    constructor; [|constructor]. exists rcp. cbn [fst snd].
    unfold gc_cost. rewrite Hd. auto.
Qed.

(** A run of the collector with the candidates it sorted and the position
    [i'] from which it flagged them. *)
Lemma gc_run_trace (p : cpool) (ncoeff tgt : Z) :
  pool_gc_ready p ->
  exists p' fl cands,
    garbage_collect_pool p ncoeff tgt = Ok p' /\
    gc_result p fl p' /\
    for_range (initrows p) (nrows p) (candidate_pass p) [] = Ok cands /\
    ((p' = p /\ forall k, fl !! k <> Some true) \/
     exists cands' i',
       cands' ≡ₚ cands /\ cost_sorted (Z.of_nat (length cands)) cands' /\
       0 <= i' < Z.of_nat (length cands) /\
       (forall k, fl !! k = Some true <-> flagged_by cands' i' (Z.of_nat (length cands)) k) /\
       num_nz p' = num_nz p - picked_nz (rows p) cands' i' (Z.of_nat (length cands) - 1) /\
       (i' = 0 \/
        num_nz p + ncoeff - gc_target p tgt
          <= picked_nz (rows p) cands' i' (Z.of_nat (length cands) - 1))).
Proof.
  intros (Hhash & Hlp & Hnp & Hinit).
  unfold garbage_collect_pool. rewrite Hnp.
  change (0 <? 0) with false. cbn [fatal_if bind].
  destruct (candidates_total p Hinit) as (cands & Hcands & Hcspec).
  rewrite Hcands. cbn [bind]. cbv zeta.
  change (if 0 <? tgt then tgt else 16 * useful_nz (rows p)) with (gc_target p tgt).
  set (target := gc_target p tgt).
  assert (Hid : exists p' fl cands0,
                  Ok p = Ok p' /\ gc_result p fl p' /\ Ok cands = Ok cands0 /\
                  ((p' = p /\ forall k, fl !! k <> Some true) \/
     exists cands' i',
       cands' ≡ₚ cands0 /\ cost_sorted (Z.of_nat (length cands0)) cands' /\
       0 <= i' < Z.of_nat (length cands0) /\
       (forall k, fl !! k = Some true <->
                  flagged_by cands' i' (Z.of_nat (length cands0)) k) /\
       num_nz p' = num_nz p - picked_nz (rows p) cands' i' (Z.of_nat (length cands0) - 1) /\
       (i' = 0 \/
        num_nz p + ncoeff - target
          <= picked_nz (rows p) cands' i' (Z.of_nat (length cands0) - 1)))).
  { exists p, (replicate (length (rows p)) false), cands.
    split; [reflexivity|]. split; [now apply gc_result_id|]. split; [reflexivity|].
    left. split; [reflexivity|].
    intros k Hk. apply lookup_replicate in Hk as [? _]. discriminate. }
  destruct (Z.leb_spec (Z.of_nat (length cands)) 0) as [Hc0|Hc0]; [exact Hid|].
  destruct (Z.leb_spec (num_nz p + ncoeff) target) as [Hsmall|Hbig]; [exact Hid|].
  clear Hid. set (count := Z.of_nat (length cands)) in *.
  match goal with |- context [pick_victims _ _ _ ?m _ _ _] => set (mr := m) end.
  assert (Hmr : num_nz p + ncoeff - target <= mr).
  { subst mr. destruct (Z.ltb_spec target (num_nz p + ncoeff)); [|lia]. simpl.
    destruct (Z.ltb_spec (Z.quot (3 * ncoeff) 2) (num_nz p + ncoeff - target)); lia. }
  clearbody mr.
  pose proof (candidates_evictable p cands Hcands) as Hgood.
  destruct (sort_gc_candidates_run cands count ltac:(lia))
    as (cands' & Hsort & Hperm & _ & Hsorted).
  pose proof (Permutation_length Hperm) as Hlen'.
  destruct (sort_gc_candidates_keeps _ _ _ _ Hsort Hgood) as [Hgood' _].
  rewrite Hsort. cbn [bind].
  assert (Hrange : forall c, c ∈ cands' -> 0 <= fst c < Z.of_nat (length (rows p))).
  { intros c Hc. apply list_elem_of_lookup_1 in Hc as [u Hu].
    pose proof (Forall_lookup_1 _ _ _ _ Hgood' Hu) as (Hr & H0 & _).
    unfold nrows in Hr. lia. }
  destruct (pick_victims_total (rows p) cands' mr (Z.to_nat count) Hrange
              (count - 1) 0 (nrows p)) as ([[i' nz'] minrow'] & Hpick); [lia|lia|].
  rewrite Hpick. cbn [bind].
  destruct (pick_victims_spec _ _ _ _ _ _ _ _ _ _ (count - 1) Hpick)
    as (Hi' & Hnz' & Hstop & Hmin1 & Hmin2 & Hmin3); [lia| |].
  { unfold picked_nz.
    replace (Z.to_nat (count - 1 + 1 - (count - 1 + 1))) with 0%nat by lia. reflexivity. }
  destruct (flag_loop_total cands' i' (length (rows p)) Hrange ltac:(lia)) as (fl & Hflag).
  rewrite Hlen' in Hflag. fold count in Hflag. rewrite Hflag. cbn [bind].
  destruct (flag_pass_spec cands' i' count (length (rows p)) fl ltac:(lia) Hflag)
    as [Hfl Hflspec].
  destruct (renum_loop_total fl (replicate (length (rows p)) 0))
    as (renum & jj & Hrenum); [rewrite length_replicate; lia|].
  destruct (renum_pass_spec fl (replicate (length (rows p)) 0) renum jj
              ltac:(rewrite length_replicate; lia) Hrenum) as (Hrl & _ & Hrspec).
  assert (Hrok : renum_ok fl renum) by (split; auto).
  rewrite Hfl in Hrenum. unfold nrows. rewrite Hrenum. cbn [bind].
  assert (Hev : forall k, fl !! k = Some true -> evictable p (Z.of_nat k)).
  { intros k Hk. apply Hflspec in Hk as (u & c & Hu & Hc & Hck). rewrite <- Hck.
    exact (Forall_lookup_1 _ _ _ _ Hgood' Hc). }
  assert (Hprot : forall k rc, rows p !! k = Some rc -> lprow rc <> -1 ->
                    fl !! k = Some false).
  { intros k rc Hk Hl. pose proof (lookup_lt_Some _ _ _ Hk) as Hlt.
    destruct (lookup_lt_is_Some_2 fl k ltac:(lia)) as [[] Hb]; [|exact Hb].
    destruct (Hev k Hb) as (_ & _ & rc' & Hrc' & Hl' & _).
    rewrite Nat2Z.id, Hk in Hrc'. injection Hrc' as <-. contradiction. }
  destruct Hlp as (Hn & Hlp & Hback).
  destruct (lprows_loop_total renum (lprows p) (nlprows p) (proj1 Hn)) as (lpr & Hlpr).
  { intros i Hi. destruct (Hlp i Hi) as (row & rc & Hrow & H0 & Hrc & Hli).
    pose proof (lookup_lt_Some _ _ _ Hrc) as Hlt.
    exists row, (renum_of fl (Z.to_nat row)).
    split; [exact Hrow|]. split; [exact H0|]. split; [apply Hrspec; lia|].
    rewrite renum_of_false; [lia|]. apply (Hprot _ _ Hrc). lia. }
  rewrite Hlpr. cbn [bind].
  destruct (lprows_pass_spec _ _ _ _ (proj1 Hn) Hlpr) as (Hll & Hlspec & _).
  destruct (rethread_all_spec p renum Hhash ltac:(congruence))
    as (hs' & rs1 & Hre & Hhl & Hrl1 & Hchains).
  rewrite Hre. cbn [bind].
  destruct (rethread_all_frame _ _ _ _ _ _ Hre) as [_ Hsame].
  assert (Hminrange : 0 <= minrow' <= Z.of_nat (length rs1)).
  { rewrite Hrl1. destruct Hmin2 as [->|(t & c & Ht & Hc & <-)]; [unfold nrows; lia|].
    pose proof (Hrange c (list_elem_of_lookup_2 _ _ _ Hc)). lia. }
  destruct (compact_spec fl minrow' rs1 ltac:(congruence) Hminrange)
    as (rs2 & Hcomp & Hl2 & Hmoved).
  { intros k Hk. destruct (lookup_lt_is_Some_2 fl k ltac:(lia)) as [[] Hb]; [|exact Hb].
    apply Hflspec in Hb as (u & c & Hu & Hc & Hck).
    pose proof (Hmin3 u c ltac:(lia) Hc). lia. }
  rewrite Hrl1 in Hcomp. rewrite Hcomp. cbn [bind]. rewrite Nat2Z.id.
  assert (Hmv : moved fl rs1 (take (live_count fl) rs2)).
  { pose proof (live_count_le fl). split; [rewrite length_take; lia|].
    intros k rc Hk Hrc. rewrite lookup_take_lt by (now apply kept_before_live).
    now apply Hmoved. }
  eexists. exists fl, cands. split; [reflexivity|].
  split; [|split; [reflexivity|right]].
  - unfold gc_result. cbn [rows lprows nlprows npend initrows iter pool_uid maxrows].
    split; [exact Hfl|]. split; [apply Hmv|]. split; [|split].
    + intros k rc Hk Hf.
      destruct (Forall2_lookup_l _ _ _ _ _ Hsame Hk) as (rc' & Hrc' & Hs).
      exists rc'. split; [|exact Hs]. now apply Hmv.
    + intros i Hi. destruct (Hlspec i Hi) as (r & j & Hr & Hr0 & Hj & _ & Hlj).
      exists r. split; [exact Hr|]. rewrite Hlj. f_equal.
      pose proof (lookup_lt_Some _ _ _ Hj) as Hlt. rewrite Hrspec in Hj by lia.
      congruence.
    + repeat split; auto.
  - exists cands', i'. fold count. cbn [num_nz].
    split; [exact Hperm|]. split; [exact Hsorted|]. split; [lia|].
    split; [exact Hflspec|]. split; [now rewrite Hnz'|].
    destruct Hstop as [Hge|Hi0]; [right; lia|now left].
Qed.

(** The stored cost is the product itself as long as the age fits a 32-bit
    int and the product fits the 32-bit unsigned entry of the cost array. *)
Lemma gc_cost_no_wrap (p : cpool) (rcp : rcon) :
  has_discard_flag rcp = false ->
  - 2147483648 <= iter p - biter rcp < 2147483648 ->
  0 <= (len rcp + 1) * (iter p - biter rcp) < 4294967296 ->
  gc_cost p rcp = (len rcp + 1) * (iter p - biter rcp).
Proof.
  intros Hd Ht Hp. unfold gc_cost, wrapu32, wrap32. rewrite Hd.
  replace ((iter p - biter rcp + 2147483648) mod 4294967296 - 2147483648)
    with (iter p - biter rcp) by (rewrite Z.mod_small; lia).
  now apply Z.mod_small.
Qed.

(** Beyond that it is not: a row of 59999 coefficients that is 100000
    iterations old has the product 6000000000 and the stored cost
    1705032704, below the stored cost 3000000000 of a row of 29999
    coefficients of the same age. *)
Lemma gc_cost_wraps :
  let p := mk_cpool 0 [] 0 0 [] 0 0 100000 0 [] 0 0 in
  let big := mk_rcon 59999 [] (-1) (-1) 0 0 0 0 0 in
  let small := mk_rcon 29999 [] (-1) (-1) 0 0 0 1 0 in
  (len big + 1) * (iter p - biter big) = 6000000000 /\
  gc_cost p big = 1705032704 /\
  gc_cost p small = 3000000000 /\
  gc_cost p big < gc_cost p small.
Proof. cbv zeta. repeat split; vm_compute; reflexivity. Qed.

(** X10.  The collector evicts the costliest candidates, by the cost that
    it stores.  On a pool that is ready for a collection the routine
    returns, and no candidate that it keeps has a higher stored cost than a
    row that it evicts.  The stored cost [gc_cost] is [INT_MAX] for a row
    with the discard flag and otherwise the product
    [(len + 1) * (iter - biter)] as the 32-bit cost array holds it: the age
    [iter - biter] as a 32-bit int and the product reduced modulo 2^32.  It
    is the product itself while that is below 2^32 ([gc_cost_no_wrap]), and
    not beyond ([gc_cost_wraps]). *)
Theorem gc_evicts_costliest (p : cpool) (ncoeff target_pool_non_zeros : Z) :
  pool_gc_ready p ->
  exists p' fl,
    garbage_collect_pool p ncoeff target_pool_non_zeros = Ok p' /\
    gc_result p fl p' /\
    forall (k1 k2 : nat) (rc1 rc2 : rcon),
      rows p !! k1 = Some rc1 -> rows p !! k2 = Some rc2 ->
      fl !! k1 = Some true -> fl !! k2 = Some false ->
      initrows p <= Z.of_nat k2 -> gc_candidate p rc2 = true ->
      gc_cost p rc2 <= gc_cost p rc1.
Proof.
  intros Hready.
  destruct (gc_run_trace p ncoeff target_pool_non_zeros Hready)
    as (p' & fl & cands & Hrun & Hres & Hcands & Hcase).
  exists p', fl. split; [exact Hrun|]. split; [exact Hres|].
  intros k1 k2 rc1 rc2 Hrc1 Hrc2 Hf1 Hf2 Hk2 Hg.
  destruct Hcase as [[_ Hnone]|(cands' & i' & Hperm & Hsorted & Hi' & Hflspec & _)];
    [now destruct (Hnone k1)|].
  destruct Hready as (_ & _ & _ & Hinit).
  destruct (candidates_total p Hinit) as (cands0 & Hcands0 & Hcspec).
  rewrite Hcands in Hcands0. injection Hcands0 as <-.
  pose proof (candidates_cost p cands Hcands) as Hcost.
  assert (Hcost' : Forall (fun c => exists rcp, 0 <= fst c /\
                      rows p !! Z.to_nat (fst c) = Some rcp /\
                      snd c = gc_cost p rcp) cands') by (now rewrite Hperm).
  apply Hflspec in Hf1 as (u1 & c1 & Hu1 & Hc1 & Hck1).
  assert (Hin : Z.of_nat k2 ∈ cands.*1).
  { apply Hcspec. pose proof (lookup_lt_Some _ _ _ Hrc2).
    split; [unfold nrows; lia|]. exists rc2. now rewrite Nat2Z.id. }
  apply list_elem_of_fmap in Hin as (c2 & Hck2 & Hc2).
  rewrite <- Hperm in Hc2. apply list_elem_of_lookup_1 in Hc2 as [u2 Hu2].
  pose proof (lookup_lt_Some _ _ _ Hu2) as Hu2lt.
  rewrite (Permutation_length Hperm) in Hu2lt.
  assert (Hlt : Z.of_nat u2 < i').
  { destruct (Z.lt_ge_cases (Z.of_nat u2) i') as [|Hge]; [assumption|].
    assert (Hf : fl !! k2 = Some true); [|congruence].
    apply Hflspec. exists (Z.of_nat u2), c2. rewrite Nat2Z.id.
    split; [lia|]. split; [exact Hu2|]. now rewrite Hck2. }
  pose proof (Forall_lookup_1 _ _ _ _ Hcost' Hc1) as (r1 & _ & Hr1 & Hs1).
  pose proof (Forall_lookup_1 _ _ _ _ Hcost' Hu2) as (r2 & _ & Hr2 & Hs2).
  rewrite Hck1, Nat2Z.id, Hrc1 in Hr1. injection Hr1 as <-.
  rewrite <- Hck2, Nat2Z.id, Hrc2 in Hr2. injection Hr2 as <-.
  rewrite <- Hs1, <- Hs2.
  apply (Hsorted u2 (Z.to_nat u1) c2 c1); auto; lia.
Qed.

(** The three rows of [seeded_pool] and the row [x1 + x2 + x3 <= 2], twenty
    iterations later: the first row is the one initial row, no row is in the
    LP, the pool holds nine coefficients. *)
Definition aged_pool : cpool :=
  let q := added seeded_pool
                 [mk_rcoef 3 1; mk_rcoef 4 1; mk_rcoef 5 1; mk_rcoef RC_OP_LE 2] in
  mk_cpool (pool_uid q) (rows q) (maxrows q) (num_nz q) (lprows q) 0 0 20 1 (hash q) 0 0.

Lemma aged_pool_ready : pool_gc_ready aged_pool.
Proof.
  split; [|split; [|split; [reflexivity|cbn; lia]]].
  - apply (pool_hash_ok_headers
             (added seeded_pool
                    [mk_rcoef 3 1; mk_rcoef 4 1; mk_rcoef 5 1; mk_rcoef RC_OP_LE 2]));
      [reflexivity| |].
    + apply Forall_Forall2_diag, Forall_forall. intros rc _. repeat split.
    + destruct (empty_pool_ok 4 ltac:(lia)) as (H1 & H2 & _).
      apply added_ok, added_ok, added_ok, added_ok. auto.
  - split; [vm_compute; split; discriminate|]. split.
    + intros i Hi. vm_compute in Hi. lia.
    + intros k rc Hk Hl.
      destruct k as [|[|[|[|k]]]]; vm_compute in Hk; try discriminate;
        injection Hk as <-; vm_compute in Hl; now destruct Hl.
Qed.

(** [gc_evicts_costliest] on [aged_pool] with a target of eight
    coefficients: of the three candidates, which cost 60, 60 and 80, the
    last one goes. *)
Lemma gc_evicts_costliest_witness :
  pool_gc_ready aged_pool /\
  gc_cost aged_pool <$> rows aged_pool = [60; 60; 60; 80] /\
  exists p' fl,
    garbage_collect_pool aged_pool 0 8 = Ok p' /\
    gc_result aged_pool fl p' /\
    uid <$> rows p' = [0; 1; 2] /\
    forall (k1 k2 : nat) (rc1 rc2 : rcon),
      rows aged_pool !! k1 = Some rc1 -> rows aged_pool !! k2 = Some rc2 ->
      fl !! k1 = Some true -> fl !! k2 = Some false ->
      initrows aged_pool <= Z.of_nat k2 -> gc_candidate aged_pool rc2 = true ->
      gc_cost aged_pool rc2 <= gc_cost aged_pool rc1.
Proof.
  split; [exact aged_pool_ready|]. split; [reflexivity|].
  destruct (gc_evicts_costliest aged_pool 0 8 aged_pool_ready)
    as (p' & fl & Hrun & Hres & Hcost).
  exists p', fl. split; [exact Hrun|]. split; [exact Hres|]. split; [|exact Hcost].
  clear Hres Hcost. vm_compute in Hrun. injection Hrun as <-. reflexivity.
Defined.

(** ** The coefficient count [num_nz] *)

(** The number of left-hand-side coefficients that the row headers record. *)
Definition pool_nz (rs : list rcon) : Z := foldr (fun rcp s => len rcp + s) 0 rs.

Lemma pool_nz_app (a b : list rcon) : pool_nz (a ++ b) = pool_nz a + pool_nz b.
Proof.
  unfold pool_nz. induction a as [|x a IH]; cbn [foldr app]; [lia|]. rewrite IH. lia.
Qed.

Fixpoint zsum (g : nat -> Z) (n : nat) : Z :=
  match n with
  | O => 0
  | S n' => zsum g n' + g n'
  end.

Lemma zsum_ext (g g' : nat -> Z) (n : nat) :
  (forall k, (k < n)%nat -> g k = g' k) -> zsum g n = zsum g' n.
Proof.
  induction n as [|n IH]; intros H; cbn; [reflexivity|].
  rewrite IH, H by (intros; try apply H; lia). reflexivity.
Qed.

Definition row_len (rs : list rcon) (k : nat) : Z :=
  match rs !! k with Some rcp => len rcp | None => 0 end.

Lemma pool_nz_zsum (rs : list rcon) : pool_nz rs = zsum (row_len rs) (length rs).
Proof.
  induction rs as [|x rs IH] using rev_ind; [reflexivity|].
  rewrite pool_nz_app, length_app, Nat.add_1_r. cbn [zsum length pool_nz foldr].
  rewrite IH. f_equal.
  - apply zsum_ext. intros k Hk. unfold row_len. now rewrite lookup_app_l.
  - unfold row_len. rewrite list_lookup_middle by reflexivity. lia.
Qed.

Definition sumZ (l : list Z) : Z := foldr Z.add 0 l.

Lemma sumZ_perm (l l' : list Z) : l ≡ₚ l' -> sumZ l = sumZ l'.
Proof. unfold sumZ. induction 1; cbn [foldr] in *; lia. Qed.

(** A sum over distinct positions below [n]. *)
Lemma sumZ_positions (w : nat -> Z) (n : nat) :
  forall E : list nat,
    NoDup E -> (forall e, e ∈ E -> (e < n)%nat) ->
    sumZ (w <$> E) = zsum (fun k => if bool_decide (k ∈ E) then w k else 0) n.
Proof.
  induction n as [|n IH]; intros E Hnd Hlt.
  - destruct E as [|e E]; [reflexivity|]. specialize (Hlt e ltac:(constructor)). lia.
  - cbn [zsum]. destruct (decide (n ∈ E)) as [Hin|Hnin].
    + apply elem_of_Permutation in Hin as [E' HE].
      rewrite HE in Hnd. inversion Hnd as [|? ? Hn' Hnd']; subst.
      rewrite (sumZ_perm _ (w n :: (w <$> E'))) by (now rewrite HE).
      change (sumZ (w n :: (w <$> E'))) with (w n + sumZ (w <$> E')).
      rewrite bool_decide_eq_true_2 by (rewrite HE; constructor).
      rewrite (IH E' Hnd').
      * rewrite (zsum_ext _ (fun k => if bool_decide (k ∈ E) then w k else 0)); [lia|].
        intros k Hk. destruct (decide (k ∈ E')) as [H|H].
        -- rewrite !bool_decide_eq_true_2; auto. rewrite HE. now constructor.
        -- rewrite !bool_decide_eq_false_2; auto. rewrite HE.
           intros Hc. apply elem_of_cons in Hc as [->|Hc]; [lia|contradiction].
      * intros e He. assert (e ∈ E) as He' by (rewrite HE; now constructor).
        specialize (Hlt e He'). assert (e <> n) by (intros ->; contradiction). lia.
    + rewrite bool_decide_eq_false_2 by exact Hnin.
      rewrite (IH E Hnd); [lia|].
      intros e He. specialize (Hlt e He). assert (e <> n) by (intros ->; contradiction).
      lia.
Qed.

(** The rows that stay and the rows that go share the coefficients out. *)
Lemma zsum_split (fl : list bool) (w w' : nat -> Z) :
  (forall k, fl !! k = Some false -> w' (kept_before fl k) = w k) ->
  forall n, (n <= length fl)%nat ->
    zsum w n = zsum (fun k => if bool_decide (fl !! k = Some true) then w k else 0) n
               + zsum w' (kept_before fl n).
Proof.
  intros Hw. induction n as [|n IH]; intros Hn; [reflexivity|].
  destruct (lookup_lt_is_Some_2 fl n ltac:(lia)) as [b Hb].
  rewrite (kept_before_S fl n b Hb). cbn [zsum]. rewrite IH by lia.
  destruct b.
  - rewrite bool_decide_eq_true_2 by exact Hb. rewrite Nat.add_0_r. lia.
  - rewrite bool_decide_eq_false_2 by congruence. rewrite Nat.add_1_r. cbn [zsum].
    rewrite (Hw n Hb). lia.
Qed.

Lemma picked_nz_sum (rs : list rcon) (cands : list (Z * Z)) :
  forall (n lo : nat), (lo + n)%nat = length cands ->
    picked_nz rs cands (Z.of_nat lo) (Z.of_nat (lo + n) - 1)
    = sumZ (row_len rs <$> ((fun c => Z.to_nat (fst c)) <$> drop lo cands)).
Proof.
  unfold picked_nz. intros n lo H.
  replace (Z.to_nat (Z.of_nat (lo + n) - 1 + 1 - Z.of_nat lo)) with n by lia.
  rewrite Nat2Z.id. revert lo H.
  induction n as [|n IH]; intros lo H.
  - rewrite drop_ge by lia. reflexivity.
  - destruct (lookup_lt_is_Some_2 cands lo ltac:(lia)) as [c Hc].
    rewrite (drop_S _ _ _ Hc). cbn [seq foldr fmap list_fmap sumZ].
    rewrite Hc. rewrite (IH (S lo)) by lia. unfold row_len, sumZ.
    destruct (rs !! Z.to_nat (fst c)); cbn; lia.
Qed.

Lemma candidates_NoDup (p : cpool) (cands : list (Z * Z)) :
  for_range (initrows p) (nrows p) (candidate_pass p) [] = Ok cands ->
  NoDup cands.*1.
Proof.
  intros H.
  destruct (Z.le_gt_cases (initrows p) (nrows p)) as [Hle|Hgt];
    [|rewrite for_range_empty in H by lia; injection H as <-; constructor].
  apply (for_range_inv
           (fun (k : Z) cs => NoDup cs.*1 /\ Forall (fun c => fst c < k) cs)
           _ _ _ _ _ Hle H); [split; constructor|].
  intros k cs cs' Hk [Hnd Hlt] Hb.
  assert (Hlt' : Forall (fun c => fst c < k + 1) cs).
  { apply Forall_forall. intros c Hc.
    pose proof (proj1 (Forall_forall _ _) Hlt c Hc). cbn in *. lia. }
  assert (Hadd : NoDup (cs ++ [(k, 0)]).*1 /\
                 forall v, Forall (fun c => fst c < k + 1) (cs ++ [(k, v)])).
  { split.
    - rewrite fmap_app. apply list.NoDup_app. split; [exact Hnd|]. split.
      + intros u Hin Hu. apply list_elem_of_fmap in Hin as (c & -> & Hc).
        pose proof (proj1 (list.Forall_forall _ _) Hlt c Hc) as Hck. cbn in Hck, Hu.
        apply list_elem_of_singleton in Hu. lia.
      + apply list.NoDup_singleton.
    - intros v. apply Forall_app. split; [exact Hlt'|].
      constructor; [cbn; lia|constructor]. }
  destruct Hadd as [Hnd' Hlt''].
  assert (Hfst : forall v, (cs ++ [(k, v)]).*1 = (cs ++ [(k, 0)]).*1)
    by (intros v; now rewrite !fmap_app).
  unfold candidate_pass in Hb. inv_bind Hb. rename a into rcp.
  destruct (negb (lprow rcp =? -1)); [injection Hb as <-; auto|].
  destruct (0 <? refc rcp); [injection Hb as <-; auto|].
  destruct (has_discard_flag rcp).
  - injection Hb as <-. rewrite Hfst. auto.
  - cbv zeta in Hb. destruct (wrap32 (iter p - biter rcp) <? GRACE_TIME);
      [injection Hb as <-; auto|].
    injection Hb as <-. rewrite Hfst. auto.
Qed.

(** X11.  [num_nz] counts the coefficients of the pool.  If [num_nz] is the
    sum of the lengths of the rows, it still is after any call of
    [_gst_add_constraint_to_pool] that returns and after a garbage collection
    (which returns on a pool that is ready for one). *)
Theorem num_nz_counts_coefficients (pool : cpool) :
  num_nz pool = pool_nz (rows pool) ->
  (forall rp add_to_lp pool1 rp' res,
     _gst_add_constraint_to_pool pool rp add_to_lp = Ok (pool1, rp', res) ->
     num_nz pool1 = pool_nz (rows pool1)) /\
  (forall ncoeff target_pool_non_zeros,
     pool_gc_ready pool ->
     exists pool1,
       garbage_collect_pool pool ncoeff target_pool_non_zeros = Ok pool1 /\
       num_nz pool1 = pool_nz (rows pool1)).
Proof.
  intros Hnz. split.
  - intros rp b pool1 rp' res Hrun.
    destruct (add_constraint_inv _ _ _ _ _ _ Hrun)
      as (hv0 & ln & head & _ & _ & _ & _ & _ & Hdup & Hnew).
    destruct res; [|now rewrite (Hdup eq_refl)].
    destruct (Hnew eq_refl)
      as (rcp & Hrows & Hlen & _ & _ & _ & _ & _ & _ & _ & _ & _ & _ & _ & Hn & _).
    rewrite Hn, Hrows, pool_nz_app, Hnz. cbn. lia.
  - intros ncoeff tgt Hready.
    destruct (gc_run_trace pool ncoeff tgt Hready)
      as (p' & fl & cands & Hrun & Hres & Hcands & Hcase).
    exists p'. split; [exact Hrun|].
    destruct Hcase as [[-> _]|(cands' & i' & Hperm & _ & Hi' & Hflspec & Hn & _)];
      [exact Hnz|].
    destruct Hres as (Hfl & Hl' & Hkept & _).
    pose proof (candidates_evictable pool cands Hcands) as Hev.
    rewrite <- Hperm in Hev.
    pose proof (candidates_NoDup pool cands Hcands) as Hnd.
    rewrite <- Hperm in Hnd.
    pose proof (Permutation_length Hperm) as Hlen. rewrite <- Hlen in *.
    set (E := (fun c : Z * Z => Z.to_nat (fst c)) <$> drop (Z.to_nat i') cands').
    assert (HE : forall k, k ∈ E <-> fl !! k = Some true).
    { intros k. rewrite Hflspec. unfold E, flagged_by. split.
      - intros Hk. apply list_elem_of_fmap in Hk as (c & -> & Hc).
        apply list_elem_of_lookup_1 in Hc as [u Hu]. rewrite lookup_drop in Hu.
        pose proof (lookup_lt_Some _ _ _ Hu).
        pose proof (Forall_lookup_1 _ _ _ _ Hev Hu) as (_ & H0 & _).
        exists (Z.of_nat (Z.to_nat i' + u)), c. rewrite Nat2Z.id.
        split; [lia|]. split; [exact Hu|lia].
      - intros (u & c & Hu & Hc & Hck). apply list_elem_of_fmap. exists c.
        split; [lia|]. apply list_elem_of_lookup_2 with (Z.to_nat u - Z.to_nat i')%nat.
        rewrite lookup_drop. replace (Z.to_nat i' + (Z.to_nat u - Z.to_nat i'))%nat
          with (Z.to_nat u) by lia. exact Hc. }
    assert (HndE : NoDup E).
    { unfold E. apply NoDup_fmap_2_strong.
      - intros c1 c2 H1 H2 Heq.
        apply list_elem_of_lookup_1 in H1 as [u1 Hu1], H2 as [u2 Hu2].
        rewrite lookup_drop in Hu1, Hu2.
        pose proof (Forall_lookup_1 _ _ _ _ Hev Hu1) as (_ & H01 & _).
        pose proof (Forall_lookup_1 _ _ _ _ Hev Hu2) as (_ & H02 & _).
        assert (Hf : fst c1 = fst c2) by lia.
        assert (Hu : (Z.to_nat i' + u1)%nat = (Z.to_nat i' + u2)%nat).
        { apply (NoDup_lookup _ _ _ (fst c1) Hnd);
            rewrite list_lookup_fmap; [rewrite Hu1|rewrite Hu2, Hf]; reflexivity. }
        rewrite Hu in Hu1. congruence.
      - apply (NoDup_fmap_1 fst). rewrite fmap_drop.
        rewrite <- (take_drop (Z.to_nat i') cands'.*1) in Hnd.
        now apply list.NoDup_app in Hnd as (_ & _ & Hnd). }
    assert (HltE : forall e, e ∈ E -> (e < length (rows pool))%nat).
    { intros e He. apply HE, lookup_lt_Some in He. lia. }
    assert (Hpick : picked_nz (rows pool) cands' i' (Z.of_nat (length cands') - 1)
                    = sumZ (row_len (rows pool) <$> E)).
    { pose proof (picked_nz_sum (rows pool) cands'
                    (length cands' - Z.to_nat i') (Z.to_nat i') ltac:(lia)) as Hp.
      rewrite Z2Nat.id in Hp by lia.
      replace (Z.to_nat i' + (length cands' - Z.to_nat i'))%nat with (length cands')
        in Hp by lia.
      exact Hp. }
    rewrite Hn, Hpick, (sumZ_positions _ (length (rows pool)) E HndE HltE).
    rewrite Hnz, !pool_nz_zsum.
    assert (Hw : forall k, fl !! k = Some false ->
                 row_len (rows p') (kept_before fl k) = row_len (rows pool) k).
    { intros k Hk.
      destruct (lookup_lt_is_Some_2 (rows pool) k) as [rc Hrc];
        [apply lookup_lt_Some in Hk; lia|].
      destruct (Hkept k rc Hrc Hk) as (rc' & Hrc' & Hs).
      unfold row_len. rewrite Hrc, Hrc', Hs. reflexivity. }
    rewrite (zsum_split fl (row_len (rows pool)) (row_len (rows p')) Hw
               (length (rows pool)) ltac:(lia)).
    rewrite <- Hfl, kept_before_length, <- Hl' by lia.
    rewrite (zsum_ext (fun k => if bool_decide (k ∈ E) then row_len (rows pool) k else 0)
               (fun k => if bool_decide (fl !! k = Some true)
                         then row_len (rows pool) k else 0)); [lia|].
    intros k _. destruct (decide (k ∈ E)) as [H|H].
    + rewrite !bool_decide_eq_true_2; auto. now apply HE.
    + rewrite !bool_decide_eq_false_2; auto. now rewrite <- HE.
Qed.

(** [num_nz_counts_coefficients] on [aged_pool]: nine coefficients, six
    after the collection that deletes the row of three, eleven after the row
    [x1 + x4 <= 1] is added. *)
Lemma num_nz_counts_coefficients_witness :
  num_nz aged_pool = pool_nz (rows aged_pool) /\
  pool_gc_ready aged_pool /\
  (exists pool1,
     garbage_collect_pool aged_pool 0 8 = Ok pool1 /\
     num_nz pool1 = pool_nz (rows pool1) /\ num_nz pool1 = 6) /\
  exists pool1 rp',
    _gst_add_constraint_to_pool aged_pool
      [mk_rcoef 3 1; mk_rcoef 6 1; mk_rcoef RC_OP_LE 1] false = Ok (pool1, rp', true) /\
    num_nz pool1 = pool_nz (rows pool1) /\ num_nz pool1 = 11.
Proof.
  assert (H : num_nz aged_pool = pool_nz (rows aged_pool)) by (vm_compute; reflexivity).
  destruct (num_nz_counts_coefficients aged_pool H) as [Hadd Hgc].
  split; [exact H|]. split; [exact aged_pool_ready|]. split.
  - destruct (Hgc 0 8 aged_pool_ready) as (pool1 & Hrun & Hn). clear Hadd Hgc.
    exists pool1. split; [exact Hrun|]. split; [exact Hn|].
    clear Hn. vm_compute in Hrun. injection Hrun as <-. vm_compute. reflexivity.
  - assert (E : exists pool1 rp',
               _gst_add_constraint_to_pool aged_pool
                 [mk_rcoef 3 1; mk_rcoef 6 1; mk_rcoef RC_OP_LE 1] false
               = Ok (pool1, rp', true))
      by (eexists _, _; vm_compute; reflexivity).
    destruct E as (pool1 & rp' & E). exists pool1, rp'.
    split; [exact E|]. split; [exact (Hadd _ _ _ _ _ E)|].
    clear Hadd Hgc. vm_compute in E. injection E as <- _. vm_compute. reflexivity.
Defined.

(** ** A saved node and the garbage collector *)

(** The flags [fl] of the rows that the collector, deleting the rows flagged
    by [g], leaves. *)
Fixpoint compact_flags (g fl : list bool) : list bool :=
  match g, fl with
  | gb :: g', fb :: fl' =>
      if gb then compact_flags g' fl' else fb :: compact_flags g' fl'
  | _, _ => []
  end.

Lemma compact_flags_length (g fl : list bool) :
  length g = length fl -> length (compact_flags g fl) = live_count g.
Proof.
  revert fl. induction g as [|b g IH]; intros [|f fl] H; try discriminate; [reflexivity|].
  injection H as H. cbn. destruct b; cbn; rewrite IH by exact H; reflexivity.
Qed.

Lemma compact_flags_live (g fl : list bool) :
  length g = length fl ->
  (forall k, g !! k = Some true -> fl !! k = Some true) ->
  live_count (compact_flags g fl) = live_count fl.
Proof.
  revert fl. induction g as [|b g IH]; intros [|f fl] H Hsub; try discriminate;
    [reflexivity|].
  injection H as H. cbn.
  assert (Hsub' : forall k, g !! k = Some true -> fl !! k = Some true)
    by (intros k Hk; exact (Hsub (S k) Hk)).
  destruct b; cbn; rewrite (IH fl H Hsub'); [|reflexivity].
  specialize (Hsub 0%nat eq_refl). injection Hsub as ->. reflexivity.
Qed.

Lemma compact_flags_take (g fl : list bool) (k : nat) :
  take (kept_before g k) (compact_flags g fl) = compact_flags (take k g) (take k fl).
Proof.
  unfold kept_before. revert fl k.
  induction g as [|b g IH]; intros fl k.
  - destruct k; reflexivity.
  - destruct fl as [|f fl].
    + destruct k; [reflexivity|]. cbn. now destruct (live_count (take k g)), b.
    + destruct k as [|k]; [reflexivity|]. cbn [take live_count compact_flags].
      destruct b; cbn [Nat.add take]; rewrite IH; reflexivity.
Qed.

Lemma compact_flags_kept (g fl : list bool) (k : nat) :
  length g = length fl ->
  (forall q, g !! q = Some true -> fl !! q = Some true) ->
  kept_before (compact_flags g fl) (kept_before g k) = kept_before fl k.
Proof.
  intros Hl Hsub. unfold kept_before at 1 3. rewrite compact_flags_take.
  apply compact_flags_live.
  - now rewrite !length_take, Hl.
  - intros q Hq. apply lookup_take_Some in Hq as [Hq Hlt].
    rewrite lookup_take_lt by exact Hlt. now apply Hsub.
Qed.

Lemma compact_flags_lookup (g fl : list bool) (k : nat) :
  length g = length fl -> g !! k = Some false ->
  compact_flags g fl !! kept_before g k = fl !! k.
Proof.
  unfold kept_before. revert fl k.
  induction g as [|b g IH]; intros [|f fl] k H Hk; try discriminate.
  injection H as H. destruct k as [|k].
  - injection Hk as ->. reflexivity.
  - cbn in Hk. cbn [take live_count compact_flags].
    destruct b; cbn [Nat.add lookup list_lookup]; now apply IH.
Qed.

(** A row of the pool after the collection is a row of the pool before it
    that the collector did not flag. *)
Lemma gc_result_origin (p p' : cpool) (g : list bool) (k' : nat) (rc' : rcon) :
  gc_result p g p' -> rows p' !! k' = Some rc' ->
  exists k rc, g !! k = Some false /\ kept_before g k = k' /\
               rows p !! k = Some rc /\ same_but_next rc rc'.
Proof.
  intros (Hg & Hl' & Hkept & _) Hrc'.
  pose proof (lookup_lt_Some _ _ _ Hrc') as Hlt. rewrite Hl' in Hlt.
  destruct (kept_before_surj g k' Hlt) as (k & Hk & Hkb).
  destruct (lookup_lt_is_Some_2 (rows p) k) as [rc Hrc];
    [apply lookup_lt_Some in Hk; lia|].
  destruct (Hkept k rc Hrc Hk) as (rc'' & Hrc'' & Hs).
  rewrite Hkb, Hrc' in Hrc''. injection Hrc'' as <-.
  exists k, rc. auto.
Qed.

(** X12.  A saved node outlives a garbage collection.  Let [nodep] hold a
    snapshot of rows of the pool, each with a reference count above zero, in
    a state that is ready for a restore and whose hash index is sound.  The
    collector returns; whatever rows it deletes and however it renumbers the
    others, [_gst_restore_node_basis] on the collected pool returns (when the
    LP is empty or the word after [rowflags] is not zero) and loads exactly
    the rows of the snapshot: the row of each recorded [uid] is in the pool,
    at the LP position recorded for it, and no other row is in the LP. *)
Theorem snapshot_survives_gc (nodep : bbnode) (bbip : bbinfo) (fl : list bool)
    (uids brow : list Z) (ncoeff target_pool_non_zeros past_end : Z) :
  restore_ready bbip ->
  pool_hash_ok (bb_cpool bbip) -> 0 <= initrows (bb_cpool bbip) ->
  snapshot_valid nodep (bb_cpool bbip) fl uids brow ->
  (forall k rc, rows (bb_cpool bbip) !! k = Some rc -> fl !! k = Some false ->
                0 < refc rc) ->
  lp_rowset (bb_lp bbip) = [] \/ past_end <> 0 ->
  exists p' bbip',
    garbage_collect_pool (bb_cpool bbip) ncoeff target_pool_non_zeros = Ok p' /\
    _gst_restore_node_basis past_end nodep (set_bb_cpool p' bbip)
      = Ok (set_saved 0 None None None nodep, bbip') /\
    nlprows (bb_cpool bbip') = n_uids nodep /\
    lp_num_rows (bb_lp bbip') = n_uids nodep /\
    (forall m u j, uids !! m = Some u -> brow !! m = Some j ->
       exists k' rc' lr,
         rows (bb_cpool bbip') !! k' = Some rc' /\ uid rc' = u /\ lprow rc' = j /\
         lprows (bb_cpool bbip') !! Z.to_nat j = Some (Z.of_nat k') /\
         lp_rowset (bb_lp bbip') !! Z.to_nat j = Some lr /\ row_in_lp rc' lr) /\
    (forall k' rc', rows (bb_cpool bbip') !! k' = Some rc' -> lprow rc' <> -1 ->
       uid rc' ∈ uids).
Proof.
  intros Hready Hhash Hinit Hvalid Hrefc Hdel.
  pose proof Hready as (Hcnt & Hok & Hnp & Hneg & Huid & Hmax).
  pose proof Hvalid as (Hbu & Hbr & Hnu & Hroom & Hfl & Hlu & Hlb & Hnd & Hrng & Hrec).
  set (p := bb_cpool bbip) in *.
  destruct (gc_run p ncoeff target_pool_non_zeros) as (p' & g & Hrun & Hres & _ & Hev & _);
    [split; [exact Hhash|split; [exact Hok|split; [exact Hnp|exact Hinit]]]|].
  pose proof Hres as (Hg & Hl' & Hkept & _ & Hll & Hnl & Hnp' & _ & _ & _ & Hmaxr).
  assert (Hgfl : length g = length fl) by congruence.
  assert (Hsub : forall k, g !! k = Some true -> fl !! k = Some true).
  { intros k Hk. destruct (Hev k Hk) as (_ & _ & rc & Hrc & _ & Hr).
    rewrite Nat2Z.id in Hrc. pose proof (lookup_lt_Some _ _ _ Hrc) as Hlt.
    destruct (lookup_lt_is_Some_2 fl k ltac:(lia)) as [[] Hb]; [exact Hb|].
    pose proof (Hrefc k rc Hrc Hb). lia. }
  set (fl' := compact_flags g fl).
  assert (F1 : length fl' = length (rows p'))
    by (unfold fl'; rewrite compact_flags_length by exact Hgfl; congruence).
  assert (F2 : live_count fl' = live_count fl)
    by (apply compact_flags_live; assumption).
  assert (Hready' : restore_ready (set_bb_cpool p' bbip)).
  { unfold restore_ready. cbn [bb_lp bb_cpool set_bb_cpool].
    split; [congruence|]. split; [now apply (gc_lp_ok p p' g)|].
    split; [congruence|]. split; [|split; [|lia]].
    - intros k' rc' Hrc' Hl.
      destruct (gc_result_origin p p' g k' rc' Hres Hrc') as (k & rc & _ & _ & Hrc & Hs).
      rewrite Hs in Hl |- *. cbn in Hl |- *. now apply (Hneg k rc).
    - apply NoDup_alt. intros a b x Ha Hb. rewrite list_lookup_fmap in Ha, Hb.
      destruct (rows p' !! a) as [ra|] eqn:Hra; [|discriminate].
      destruct (rows p' !! b) as [rb|] eqn:Hrb; [|discriminate].
      cbn in Ha, Hb. injection Ha as Ha. injection Hb as Hb.
      destruct (gc_result_origin p p' g a ra Hres Hra) as (ka & rca & Hga & <- & Hrca & Hsa).
      destruct (gc_result_origin p p' g b rb Hres Hrb) as (kb & rcb & Hgb & <- & Hrcb & Hsb).
      rewrite Hsa in Ha. rewrite Hsb in Hb. cbn in Ha, Hb.
      assert (ka = kb); [|now subst].
      apply (NoDup_lookup _ _ _ x Huid); rewrite list_lookup_fmap;
        [rewrite Hrca|rewrite Hrcb]; cbn; congruence. }
  assert (Hvalid' : snapshot_valid nodep (bb_cpool (set_bb_cpool p' bbip)) fl' uids brow).
  { unfold snapshot_valid. cbn [bb_cpool set_bb_cpool]. rewrite F2.
    split; [exact Hbu|]. split; [exact Hbr|]. split; [exact Hnu|].
    split; [lia|]. split; [exact F1|]. split; [exact Hlu|]. split; [exact Hlb|].
    split; [exact Hnd|]. split; [exact Hrng|].
    intros k' rc' Hrc' Hf'.
    destruct (gc_result_origin p p' g k' rc' Hres Hrc') as (k & rc & Hgk & <- & Hrc & Hs).
    unfold fl' in Hf' |- *. rewrite compact_flags_lookup in Hf' by assumption.
    rewrite compact_flags_kept by assumption.
    destruct (Hrec k rc Hrc Hf') as [Hu Hload].
    rewrite Hs. cbn [uid set_next]. split; [exact Hu|].
    now apply (row_loadable_ext rc). }
  destruct (restore_total nodep (set_bb_cpool p' bbip) fl' uids brow Hready' Hvalid'
              past_end Hdel)
    as (bbip' & Hrest & Hrows & Hnl2 & _ & Hlprows & Hlplen & Hlp & _).
  cbn [bb_cpool set_bb_cpool] in Hrows, Hlp.
  exists p', bbip'. split; [exact Hrun|]. split; [exact Hrest|].
  split; [rewrite Hnl2, F2; lia|].
  split; [unfold lp_num_rows; rewrite Hlplen, F2; lia|]. split.
  - intros m u j Hu Hj.
    pose proof (lookup_lt_Some _ _ _ Hu) as Hm. rewrite Hlu, <- F2 in Hm.
    destruct (kept_before_surj fl' m Hm) as (k' & Hk' & Hkb).
    destruct (lookup_lt_is_Some_2 (rows p') k') as [rc0 Hrc0];
      [apply lookup_lt_Some in Hk'; lia|].
    destruct Hvalid' as (_ & _ & _ & _ & _ & _ & _ & _ & _ & Hrec').
    cbn [bb_cpool set_bb_cpool] in Hrec'.
    destruct (Hrec' k' rc0 Hrc0 Hk') as [Hu0 _]. rewrite Hkb, Hu in Hu0.
    injection Hu0 as ->.
    destruct (Hlp k' rc0 j Hrc0 Hk' ltac:(now rewrite Hkb)) as (lr & Hlr & Hin).
    exists k', (restored_row fl' brow k' rc0), lr.
    split; [rewrite Hrows, list_lookup_imap, Hrc0; reflexivity|].
    unfold restored_row. rewrite Hk', Hkb, Hj. cbn [default uid lprow set_lprow set_refc].
    split; [reflexivity|]. split; [reflexivity|].
    split; [apply (Hlprows k' j Hk'); now rewrite Hkb|]. split; [exact Hlr|].
    now apply (row_in_lp_coefs rc0).
  - intros k' rc' Hrc' Hl. rewrite Hrows, list_lookup_imap in Hrc'.
    destruct (rows p' !! k') as [rc0|] eqn:Hrc0; [|discriminate].
    cbn in Hrc'. injection Hrc' as <-. unfold restored_row in Hl |- *.
    destruct (fl' !! k') as [[]|] eqn:Hf'; try (now destruct Hl).
    destruct Hvalid' as (_ & _ & _ & _ & _ & _ & _ & _ & _ & Hrec').
    cbn [bb_cpool set_bb_cpool] in Hrec'.
    destruct (Hrec' k' rc0 Hrc0 Hf') as [Hu0 _].
    cbn [uid set_lprow set_refc]. now apply list_elem_of_lookup_2 with (kept_before fl' k').
Qed.

(** The rows of [seeded_pool] twenty iterations later, with a node saved
    while the second and the third row were LP rows 0 and 1: both are still
    in the LP and referenced by the node, the first row is neither. *)
Definition suspended_state : bbinfo :=
  let held (k : Z) (rc : rcon) := set_lprow k (set_refc 1 rc) in
  mk_bbinfo
    (mk_LP [mk_lp_row 1 REL_LE [(0, 1); (2, 1)]; mk_lp_row 1 REL_LE [(1, 1); (2, 1)]]
           4 true ([], []))
    (mk_cpool (pool_uid seeded_pool)
              (alter (held 0) 1%nat (alter (held 1) 2%nat (rows seeded_pool)))
              (maxrows seeded_pool) (num_nz seeded_pool)
              [1; 2; 0; 0] 2 0 20 0 (hash seeded_pool) 0 0)
    (mk_bbnode 0 0 (-1) [] 2 (Some [1; 2]) (Some [0; 1]) (Some ([], [])))
    [].

Lemma suspended_state_ready :
  restore_ready suspended_state /\ pool_hash_ok (bb_cpool suspended_state) /\
  snapshot_valid (bb_node suspended_state) (bb_cpool suspended_state)
                 [true; false; false] [1; 2] [0; 1] /\
  forall k rc, rows (bb_cpool suspended_state) !! k = Some rc ->
               [true; false; false] !! k = Some false -> 0 < refc rc.
Proof.
  split; [|split; [|split]].
  - split; [reflexivity|split; [|split; [reflexivity|split; [|split]]]].
    + split; [vm_compute; split; discriminate|]. split.
      * intros i Hi. destruct i as [|[|i]]; [| |vm_compute in Hi; lia];
          eexists _, _;
          (split; [vm_compute; reflexivity|]; split;
           [lia|split; vm_compute; reflexivity]).
      * intros k rc H.
        destruct k as [|[|[|k]]]; vm_compute in H; try discriminate;
          injection H as <-; vm_compute; intros Hl;
          try (now destruct Hl); split; reflexivity.
    + intros k rc H.
      destruct k as [|[|[|k]]]; vm_compute in H; try discriminate;
        injection H as <-; vm_compute; intros Hl; try reflexivity; discriminate.
    + apply (bool_decide_unpack _). vm_compute. reflexivity.
    + vm_compute. discriminate.
  - apply (pool_hash_ok_headers seeded_pool); [reflexivity| |].
    + vm_compute. repeat constructor.
    + destruct (empty_pool_ok 4 ltac:(lia)) as (H1 & H2 & _).
      apply added_ok, added_ok, added_ok. auto.
  - split; [reflexivity|]. split; [reflexivity|]. split; [reflexivity|].
    split; [vm_compute; discriminate|]. split; [vm_compute; reflexivity|].
    split; [reflexivity|]. split; [reflexivity|].
    split; [apply (bool_decide_unpack _); vm_compute; reflexivity|]. split.
    + intros v Hv. cbn [live_count Nat.add]. apply elem_of_cons in Hv as [->|Hv]; [lia|].
      apply list_elem_of_singleton in Hv as ->. lia.
    + intros k rc H Hf.
      destruct k as [|[|[|k]]]; try discriminate Hf; vm_compute in H;
        injection H as <-; (split; [vm_compute; reflexivity|]).
      * exists (mk_lp_row 1 REL_LE [(0, 1); (2, 1)]).
        split; [exists (mk_rcoef 0 1)|]; vm_compute; auto.
      * exists (mk_lp_row 1 REL_LE [(1, 1); (2, 1)]).
        split; [exists (mk_rcoef 0 1)|]; vm_compute; auto.
  - intros k rc H Hf.
    destruct k as [|[|[|k]]]; try discriminate Hf; vm_compute in H;
      injection H as <-; vm_compute; reflexivity.
Qed.

(** [snapshot_survives_gc] on [suspended_state] with a target of five
    coefficients: the collector deletes the first row, the rows of the node
    become rows 0 and 1 of the pool, and the restore puts them back at LP
    rows 0 and 1, no longer referenced. *)
Lemma snapshot_survives_gc_witness :
  restore_ready suspended_state /\
  snapshot_valid (bb_node suspended_state) (bb_cpool suspended_state)
                 [true; false; false] [1; 2] [0; 1] /\
  exists p' bbip',
    garbage_collect_pool (bb_cpool suspended_state) 0 5 = Ok p' /\
    _gst_restore_node_basis 1 (bb_node suspended_state) (set_bb_cpool p' suspended_state)
      = Ok (set_saved 0 None None None (bb_node suspended_state), bbip') /\
    uid <$> rows (bb_cpool suspended_state) = [0; 1; 2] /\
    uid <$> rows p' = [1; 2] /\
    uid <$> rows (bb_cpool bbip') = [1; 2] /\
    lprow <$> rows (bb_cpool bbip') = [0; 1] /\
    refc <$> rows (bb_cpool bbip') = [0; 0].
Proof.
  destruct suspended_state_ready as (Hready & Hhash & Hvalid & Hrefc).
  split; [exact Hready|]. split; [exact Hvalid|].
  assert (Hi : 0 <= initrows (bb_cpool suspended_state)) by (vm_compute; discriminate).
  assert (Hd : lp_rowset (bb_lp suspended_state) = [] \/ 1 <> 0) by (right; discriminate).
  destruct (snapshot_survives_gc (bb_node suspended_state) suspended_state
              [true; false; false] [1; 2] [0; 1] 0 5 1 Hready Hhash Hi Hvalid Hrefc Hd)
    as (p' & bbip' & Hrun & Hrest & _).
  exists p', bbip'. split; [exact Hrun|]. split; [exact Hrest|].
  clear Hready Hhash Hvalid Hrefc.
  vm_compute in Hrun. injection Hrun as <-.
  vm_compute in Hrest. injection Hrest as <-.
  vm_compute. repeat split.
Defined.
